(* ===== verification/_CoqProject ===== *)
-Q . S2P
Prelude.v
VideoRequest.v
ErrorCheck.v
ThreadPool.v
NetworkServer.v
Producer.v
RtspService.v
RtspSessions.v
RtspRequests.v
RtspCallbacks.v
FileProducer.v
RtpProducer.v
Streams.v
Greeter.v
AsyncClient.v
PacketFile.v
Metrics.v
Locks.v
Races.v
Atomicity.v
Shutdown.v
System.v
Relay.v
AsyncRelay.v
Config.v
UnitTests.v
