(* ===== verification/Prelude.v ===== *)
(** * ffvms: a verification development

    ffvms is a video media server. An RTSP client asks for a video by URL; the
    video is a file on disk or a GB28181 camera; the server remuxes or relays it
    as RTP packets, interleaved in the RTSP connection. The parts, each of them
    with the file that models it:

      - [VideoRequest.v]: core/include/common.h, core/src/common.cpp. The key of
        a stream: parsing and printing of URLs, order, equality and hash, and
        [std::map<VideoRequest, _>].
      - [ErrorCheck.v]: common/error_code/include/error_check.h. The error-check
        macros as the statements they expand to.
      - [ThreadPool.v]: common/thread_pool/include/thread_pool.h. A bounded set
        of workers on one queue, as a step relation between the critical
        sections of its mutex.
      - [NetworkServer.v]: core/src/network_server.cpp. The UDP server: receive
        buffers used in turn, read callback, peers, synchronous dispatch and
        dispatch to one-worker thread pools; the read callback also as the steps
        ([loop_step]) between which other event loops and workers may run.
      - [Producer.v]: the contract between the service and the producer, as the
        classes [VideoProducer] and [VideoProducerLaws].
      - [RtspService.v], [RtspSessions.v], [RtspRequests.v], [RtspCallbacks.v]:
        core/src/rtsp_service.cpp. The first has the objects and every handler
        and callback; the second the sessions that clients make of them, the
        invariants and their guarantees; the third the requests that one read of
        a connection brings; the fourth that a proxy is registered before it is
        called back.
      - [FileProducer.v], [RtpProducer.v], [Streams.v]: core/src/rtp_producer.cpp.
        The frame timer of a file ([FFGetFrame]); the registrations of files and
        cameras with the probe, the invitation and the payload callbacks; the
        life of a stream made of them.
      - [Greeter.v]: the RPC service of core/unittest/rtp_producer_ut.cpp, with
        the processes it starts, and the producer against it over RPCs that
        arrive in any order.
      - [AsyncClient.v]: common/grpc. The asynchronous RPC client through which
        cameras are invited, with its destructor.
      - [PacketFile.v]: tools/src/rtp-payload-test.cpp. The tool that decodes a
        file of dumped packets, around the decoder of librtp.
      - [Metrics.v]: common/metrics/prometheus. The counters of streams
        and peers, and the scoped measure of latencies.
      - [Locks.v]: the mutexes of all of these. Which of them each callback takes,
        in which mode and order, and the threads that run the callbacks.
      - [Races.v]: the shared variables those callbacks read and write meanwhile.
      - [Atomicity.v]: what becomes of them when the callbacks interleave: sections
        of a callback as single steps.
      - [Shutdown.v]: the destructors of the service, the producer and the UDP
        server, each against the threads that still run.
      - [System.v]: core/ffvms.cpp. The start of the program and the composition
        of the service with the producer.
      - [Relay.v], [AsyncRelay.v]: the way of the data through all of them, from a
        datagram of a camera or the timer of a file to the bytes on the connection
        of a client; the second with the worker threads of the UDP server.
      - [Config.v]: the JSON configuration file of core/ffvms.cpp and the four
        [Config] structs read from it.
      - [UnitTests.v]: core/unittest, common/.../unittest. Every test that is
        compiled in, with its fixture, run on the model.

    How they interact: [OnDescribe] of the service registers a video with the
    producer and leaves three callbacks bound to a [ProxyInfo] (SDP, packet,
    error). For a file the producer probes on the thread pool and then reads a
    frame per timer tick; for a camera it makes an RPC, registers the peer the
    answer names with the UDP server and relays the packets that come from it.
    [Close] unregisters the video with its last session.

    ** Conventions

    Code that can go wrong returns an [outcome]: [Done] with the new state and
    the events (replies, packets, calls) in their order, or [Fault] with the
    reason the C++ program is undefined or ends there: an address that is not
    alive, an index outside its buffer, a signed overflow, an exception nobody
    catches, a fatal log entry. A theorem that ends in [Done] therefore excludes
    all of them. Objects whose lifetime matters live at addresses in a table of
    the live ones; using an address outside the table is [UseAfterFree]. Integers
    are [Z] with the width written out ([u8], [u16], [u64], [ck32], [ck64]).
    Strings are [string], their [find], [substr] and order are below.

    A lock-protected section is one atomic step. For the sections that touch only
    guarded variables this is proved ([section_is_atomic]). A handler of the service
    is one step too, although not all of it is under its locks (RtspService.v says
    where); the thread pool, the network server with its event loops and workers, the
    RPC client and the producer with the sections of its probes, its timers and
    answers are step relations, whose steps may come in any order. What handlers do
    to shared data between their locks is the subject of Races.v, where a step is one
    lock operation or one access. Allocators are not modelled: memory that is made
    with [new] and released with [av_packet_free] (core/include/rtp_producer.h, line
    112) is taken to be released.

    Sockets, libevent, librtsp, librtp, FFmpeg, gRPC, prometheus-cpp and nlohmann's
    JSON are not part of the repository. Their results are arguments (records whose
    names end in [_env], section variables, the classes [Family] and [Json]), and what a theorem
    needs of them is a hypothesis of that theorem with an example that meets it.

    ** What is shown

    - Sessions (RtspSessions, RtspRequests, System). [preach] are the states that
      clients reach which send OPTIONS, DESCRIBE and PLAY in this order and leave at
      any time; in [dreach] they were also patient: nobody left while the producer
      held the registration of a video whose SDP was awaited, and packets had 2 to
      1596 bytes. In [preach] every event is handled to its end but for two faults,
      which are characterised: a packet of another length overruns the send buffer,
      and a callback for a destroyed proxy uses freed memory; a disconnect at any
      stage takes the client out of everything, and the requests of one read are
      handled in their order, each with the answer its state calls for
      ([disconnect_cleans_up], [read_callback_safe]). In [dreach] the proxy of every
      registration is alive, the client sets of each proxy are the stages of connected
      clients, a DESCRIBE is answered when the SDP comes, and packets reach exactly
      the playing clients once. These are proved for every producer that meets the
      contract, and [producer_refines_contract] with [producer_steps_shrink]
      discharges it for the real one, so that [system_sessions_safe] speaks of the
      program.
    - End to end (Relay, AsyncRelay). What a playing client reads from its
      connection is exactly the packets that librtp made of the datagrams of its
      camera ([camera_to_client]) or that the muxer wrote for its file
      ([file_to_client]), in their order; who does not play is sent nothing. A frame or
      packet of librtp that does not fit its buffer ends the run in an overrun or a
      fatal log entry, and nothing else does. With worker threads this holds for
      every interleaving of loops and pools over a stretch in which no client or
      camera comes or goes, as long as no datagram was received into the slot of one
      that was still on its way, which the state records ([async_camera_to_client]).
    - Receiving (NetworkServer, ThreadPool). Slots stay in their buffer and are
      not reused before both buffers went round; until then, and no longer,
      datagrams reach the task of their peer with their bytes, in order
      ([receive_async_intact], [per_peer_order]). Tasks start in submission order,
      none is lost to a missed wake-up, and the destructor ends with the started ones
      finished.
    - Streams (FileProducer, Streams). The timestamps of a file increase through
      its restarts, a timer call on a repeated file ends with its next frame, an error
      is reported once; all ways a probe can end, its faults included; the calls a
      camera costs.
    - Data (VideoRequest, RtspService, PacketFile). [parseUrl] meets a grammar
      and inverts the writing of URLs, [operator<] orders the keys, the
      interleaved frames and the dumped packets can be read back.
    - Locks. No two threads hold a lock in conflicting modes, and when shared mutexes
      prefer readers the callbacks deadlock at most where a proxy is registered while
      the producer calls back to it ([locks_exclude_and_progress]), which patient
      clients do not cause ([registration_precedes_callbacks]). A variable is free of
      data races exactly when a lock guards it ([guarded_race_free],
      [unguarded_races]). The sections of registrations, peers, receive buffer, queues
      and connections are movable: every interleaving has the same result as one in
      which the section is a single step ([section_is_atomic]).
    - Start and end (System, Config, Shutdown, AsyncClient). [main] starts exactly
      the configuration its file describes, and a configuration survives being
      written and read. The RPC client's destructor ends with every callback run, or
      in an abort when a callback makes a call too late ([client_destructor_drains]).
      The destructors of the rest are safe exactly when nothing they do not wait for
      is going on ([destructors_dangle_iff]).
    - Tests (Greeter, UnitTests). The producer and the test's greeter start and
      kill one process per camera, whose argument is a string that is gone
      ([greeter_lifecycle]); what every unit test evaluates to, and that two of them
      dereference a null pointer ([register_test_outcome], [gb_test_outcome]).
    - Macros (ErrorCheck). What each error-check macro writes and how it leaves the
      function or loop around it, and which of them do not compile
      ([error_check_outcome]).
    - Limits. Where the code does not do what it means to, a theorem states what
      it does: [protocol_gaps_dangle], [describe_second_waiter],
      [refused_camera_locked_out], [second_stream_dark],
      [receive_sync_stall], [waiting_writer_deadlocks], [unguarded_races],
      [consumePkt_bounds], [late_call_aborts], [teardown_overtakes_ack],
      [popen2_leaks], [failed_push_kills_all] and others.

    ** Fuel

    [FFGetFrame] loops until it finds a frame of the video stream: its fuel counts
    iterations, and [repeated_file_plays] shows that the packets left in the file,
    one whole pass and one end of file are enough. [Dispatch] polls once per
    second for ever; its fuel counts polls, and [startup_outcome] says when it
    returns. [read_file], [decode_loop] and [parse_stream] use the length of
    their input, of which every round takes at least one byte. The statements of the
    error-check macros need six steps at most. All other recursion is structural.

    ** Not modelled

    Logging, and the debugging helper that prints a backtrace; the command line;
    real time (timers fire when the environment says so, deadlines and sleeps are
    numbers); the insides of FFmpeg, librtp, librtsp, libevent, gRPC and the
    generated RPC code; the interleavings inside a handler beyond its locks and its
    accesses to shared variables; the deleter aliases, which are types without
    behaviour; the tests that are commented out.

    This file: faults and outcomes, machine integers, strings, and the tactics
    and lemmas the others share. *)

From stdpp Require Import base gmap strings list sorting numbers.

(** * Outcomes of C++ code

    A modelled operation returns [Done a] when the C++ code runs to its end
    with result [a], and [Fault f] when it runs into undefined behaviour, a
    failed [LOG(FATAL)] or an exception. [BadConversion] is the conversion to an
    integer of a floating-point number that has no integer part in its range. *)

Inductive fault : Type :=
| NullDeref
| UninitRead
| OutOfBounds
| UseAfterFree
| EndDeref
| SignedOverflow
| DivByZero
| BadConversion
| LogFatal
| Throw (what : string).

#[export] Instance fault_eq_dec : EqDecision fault.
Proof. solve_decision. Defined.

Inductive outcome (A : Type) : Type :=
| Done (a : A)
| Fault (f : fault).
Arguments Done {A} a.
Arguments Fault {A} f.

#[export] Instance outcome_ret : MRet outcome := fun A a => Done a.
#[export] Instance outcome_bind : MBind outcome := fun A B k c =>
  match c with Done a => k a | Fault f => Fault f end.

Definition of_option {A} (f : fault) (o : option A) : outcome A :=
  match o with Some a => Done a | None => Fault f end.

(** Guard: run on when [b] holds, fault with [f] otherwise. *)
Definition require (b : bool) (f : fault) : outcome unit :=
  if b then Done tt else Fault f.

(** * Machine integers *)

Definition u8 (z : Z) : Z := (z mod 2 ^ 8)%Z.
Definition u16 (z : Z) : Z := (z mod 2 ^ 16)%Z.
Definition u64 (z : Z) : Z := (z mod 2 ^ 64)%Z.

Definition in_int32 (z : Z) : bool := bool_decide (- 2 ^ 31 ≤ z < 2 ^ 31)%Z.
Definition in_int64 (z : Z) : bool := bool_decide (- 2 ^ 63 ≤ z < 2 ^ 63)%Z.

(** The value of a signed [int] (resp. [int64_t]) expression: signed overflow
    is undefined behaviour. *)
Definition ck32 (z : Z) : outcome Z :=
  if in_int32 z then Done z else Fault SignedOverflow.
Definition ck64 (z : Z) : outcome Z :=
  if in_int64 z then Done z else Fault SignedOverflow.

(** C++ integer division, truncating towards zero. *)
Definition cdiv (a b : Z) : outcome Z :=
  if bool_decide (b = 0)%Z then Fault DivByZero else Done (Z.quot a b).

(** * Strings: [std::string] as byte strings *)

Fixpoint str_drop (n : nat) (s : string) : string :=
  match n, s with
  | S n', String _ s' => str_drop n' s'
  | _, _ => s
  end.

Fixpoint str_take (n : nat) (s : string) : string :=
  match n, s with
  | S n', String c s' => String c (str_take n' s')
  | _, _ => EmptyString
  end.

(** [std::string::find(pat)]: the least position at which [pat] occurs, [None]
    standing for [npos]. *)
Fixpoint str_find (pat s : string) : option nat :=
  if String.prefix pat s then Some 0 else
  match s with
  | EmptyString => None
  | String _ s' => S <$> str_find pat s'
  end.

(** [std::string::substr(pos)] and [substr(pos, count)]: throw
    [std::out_of_range] when [pos] is beyond the end. *)
Definition str_substr (s : string) (pos : nat) : outcome string :=
  if bool_decide (pos ≤ String.length s) then Done (str_drop pos s)
  else Fault (Throw "out_of_range").

Definition str_substr_count (s : string) (pos count : nat) : outcome string :=
  if bool_decide (pos ≤ String.length s) then Done (str_take count (str_drop pos s))
  else Fault (Throw "out_of_range").

(** The pattern has no proper border, so two of its occurrences never
    overlap. *)
Definition borderless (pat : string) : bool :=
  forallb (fun k => negb (String.prefix (str_drop k pat) pat))
    (seq 1 (String.length pat - 1)).

(** [operator<] of [std::string]: [char_traits<char>::compare] is [memcmp],
    that is lexicographic on unsigned bytes. *)
Definition str_ltb (a b : string) : bool :=
  match String.compare a b with Lt => true | _ => false end.

Definition str_le (a b : string) : Prop := str_ltb b a = false.

#[export] Instance str_le_dec : RelDecision str_le.
Proof. intros a b. unfold str_le. apply _. Defined.

(** * Automation *)

Create HintDb ffvms.
Create Rewrite HintDb ffvms.

(** Run the monad: reduce the binds whose first computation is known. *)
Ltac orun := cbn [mbind mret outcome_bind outcome_ret of_option require].

(** Case analysis on the outcome of a monadic computation in a hypothesis. *)
Ltac outcome_inv :=
  repeat match goal with
  | H : Done _ = Done _ |- _ => injection H as H; subst
  | H : Fault _ = Done _ |- _ => discriminate H
  | H : Done _ = Fault _ |- _ => discriminate H
  | H : Fault _ = Fault _ |- _ => injection H as H; subst
  | H : mbind _ _ = _ |- _ => unfold mbind, outcome_bind in H
  | H : mret _ = _ |- _ => unfold mret, outcome_ret in H
  | H : match ?c with Done _ => _ | Fault _ => _ end = _ |- _ =>
      let E := fresh "E" in destruct c eqn:E
  end.

(** * Lemmas on strings *)

Section strings.
#[local] Arguments String.append !_ _ / : assert.
Implicit Types (s t u pat : string).

Lemma str_app_nil_r s : s +:+ EmptyString = s.
Proof. induction s as [|c s IH]; simpl; [done|]. by rewrite IH. Qed.

Lemma str_app_assoc s t u : (s +:+ t) +:+ u = s +:+ (t +:+ u).
Proof. induction s as [|c s IH]; simpl; [done|]. by rewrite IH. Qed.

Lemma str_length_app s t :
  String.length (s +:+ t) = String.length s + String.length t.
Proof. induction s as [|c s IH]; simpl; [done|]. by rewrite IH. Qed.

Lemma str_drop_app s t : str_drop (String.length s) (s +:+ t) = t.
Proof. induction s as [|c s IH]; simpl; [by destruct t|done]. Qed.

Lemma str_take_app s t : str_take (String.length s) (s +:+ t) = s.
Proof. induction s as [|c s IH]; simpl; [by destruct t|]. by rewrite IH. Qed.

Lemma str_drop_0 s : str_drop 0 s = s.
Proof. by destruct s. Qed.

Lemma str_take_drop n s : str_take n s +:+ str_drop n s = s.
Proof.
  revert s. induction n as [|n IH]; intros s; [by destruct s|].
  destruct s as [|c s]; simpl; [done|]. by rewrite IH.
Qed.

Lemma str_length_take n s :
  n ≤ String.length s → String.length (str_take n s) = n.
Proof.
  revert s. induction n as [|n IH]; intros [|c s]; simpl; try lia.
  intros ?. rewrite IH; lia.
Qed.

Lemma str_length_drop n s :
  String.length (str_drop n s) = String.length s - n.
Proof.
  revert s. induction n as [|n IH]; intros [|c s]; simpl; auto; lia.
Qed.

Lemma str_drop_app_le n s t :
  n ≤ String.length s → str_drop n (s +:+ t) = str_drop n s +:+ t.
Proof.
  revert s. induction n as [|n IH]; intros s; rewrite ?str_drop_0; [done|].
  destruct s as [|c s]; simpl; [lia|]. intros ?. apply IH. lia.
Qed.

Lemma str_drop_drop n m s : str_drop n (str_drop m s) = str_drop (m + n) s.
Proof.
  revert s. induction m as [|m IH]; intros [|c s]; simpl; auto.
  by destruct n.
Qed.

Lemma str_app_inj_l s t u : s +:+ t = s +:+ u → t = u.
Proof. induction s as [|c s IH]; simpl; [done|]. intros [= ?]. auto. Qed.

Lemma str_app_inj_length s t u v :
  String.length s = String.length t → s +:+ u = t +:+ v → s = t ∧ u = v.
Proof.
  revert t. induction s as [|c s IH]; intros [|d t]; simpl; try done.
  intros [= Hl] [= -> He]. destruct (IH _ Hl He) as [-> ->]. done.
Qed.

(** The boolean prefix test decides the existence of a remainder. *)
Lemma str_prefix_spec pat s :
  String.prefix pat s = true ↔ ∃ t, s = pat +:+ t.
Proof.
  revert s. induction pat as [|c pat IH]; intros s.
  - split; [by eexists|]. by destruct s.
  - destruct s as [|d s]; simpl.
    { split; [done|]. by intros [t ?]. }
    destruct (Ascii.ascii_dec c d) as [->|Hne].
    + rewrite IH. split.
      * intros [t ->]. by exists t.
      * intros [t [= ->]]. by exists t.
    + split; [done|]. intros [t [= ]]. congruence.
Qed.

Lemma str_prefix_app pat t : String.prefix pat (pat +:+ t) = true.
Proof. apply str_prefix_spec. by exists t. Qed.

Lemma str_prefix_app_r pat s t :
  String.prefix pat s = true → String.prefix pat (s +:+ t) = true.
Proof.
  rewrite !str_prefix_spec. intros [r ->].
  exists (r +:+ t). by rewrite str_app_assoc.
Qed.

Lemma str_prefix_long pat s t :
  String.length pat ≤ String.length s →
  String.prefix pat (s +:+ t) = String.prefix pat s.
Proof.
  revert s. induction pat as [|c pat IH]; intros [|d s]; simpl;
    try done; try lia.
  - by destruct t.
  - intros ?. destruct (Ascii.ascii_dec c d); [|done]. apply IH. lia.
Qed.

(** [str_find] returns a position iff it is the first occurrence. *)
Lemma str_find_Some pat s i :
  str_find pat s = Some i ↔
  i ≤ String.length s ∧ String.prefix pat (str_drop i s) = true ∧
  ∀ j, j < i → String.prefix pat (str_drop j s) = false.
Proof.
  revert i. induction s as [|c s IH]; intros i.
  - cbn [str_find String.length]. split.
    + destruct (String.prefix _ _) eqn:E; simpl; [|done].
      intros [= <-]. repeat split; [done|done|lia].
    + intros (Hi & Hp & _). replace i with 0 in Hp by lia.
      change (String.prefix pat EmptyString = true) in Hp. rewrite Hp. f_equal. lia.
  - change (str_find pat (String c s)) with
      (if String.prefix pat (String c s) then Some 0
       else S <$> str_find pat s).
    destruct (String.prefix pat (String c s)) eqn:E.
    + split.
      * intros [= <-]. rewrite str_drop_0. repeat split; [lia|done|lia].
      * intros (_ & _ & Hmin). destruct i as [|i]; [done|].
        specialize (Hmin 0). rewrite str_drop_0 in Hmin.
        rewrite Hmin in E; [done|lia].
    + destruct i as [|i].
      { rewrite str_drop_0. split; [by destruct (str_find pat s)|].
        intros (_ & Hp & _). congruence. }
      rewrite fmap_Some. setoid_rewrite IH. simpl. split.
      * intros (k & (Hk & Hp & Hmin) & [= ->]).
        repeat split; [lia|done|]. intros [|j] Hj; [by rewrite ?str_drop_0|].
        apply Hmin. lia.
      * intros (Hk & Hp & Hmin). exists i. repeat split; [lia|done|].
        intros j Hj. apply (Hmin (S j)). lia.
Qed.

Lemma str_find_None pat s :
  str_find pat s = None ↔
  ∀ j, j ≤ String.length s → String.prefix pat (str_drop j s) = false.
Proof.
  induction s as [|c s IH].
  - cbn [str_find String.length]. split.
    + destruct (String.prefix pat _) eqn:E; [done|].
      intros _ j Hj. by replace j with 0 by lia.
    + intros H. specialize (H 0 ltac:(done)).
      change (String.prefix pat EmptyString = false) in H. by rewrite H.
  - change (str_find pat (String c s)) with
      (if String.prefix pat (String c s) then Some 0
       else S <$> str_find pat s).
    destruct (String.prefix pat (String c s)) eqn:E.
    + split; [done|]. intros H. specialize (H 0).
      rewrite str_drop_0 in H. rewrite H in E; [done|lia].
    + rewrite fmap_None, IH. split.
      * intros H [|j] Hj; [done|]. apply H. simpl in Hj. lia.
      * intros H j Hj. apply (H (S j)). simpl. lia.
Qed.

Lemma str_find_bound pat s i :
  str_find pat s = Some i → i + String.length pat ≤ String.length s.
Proof.
  intros (Hi & [t Ht]%str_prefix_spec & _)%str_find_Some.
  apply (f_equal String.length) in Ht.
  rewrite str_length_drop, str_length_app in Ht. lia.
Qed.

(** An occurrence splits the string. *)
Lemma str_find_split pat s i :
  str_find pat s = Some i →
  s = str_take i s +:+ pat +:+ str_drop (i + String.length pat) s.
Proof.
  intros (Hi & [t Ht]%str_prefix_spec & _)%str_find_Some.
  rewrite <- (str_drop_drop (String.length pat) i), Ht, str_drop_app, <- Ht.
  by rewrite str_take_drop.
Qed.

(** An occurrence of [pat] in [s ++ pat ++ t] that starts inside [s] is an
    occurrence in [s], or it overlaps the second one. *)
Lemma str_find_app pat s t :
  borderless pat = true → str_find pat s = None →
  str_find pat (s +:+ pat +:+ t) = Some (String.length s).
Proof.
  intros Hb Hnone. apply str_find_Some. rewrite str_length_app.
  split; [lia|]. rewrite str_drop_app, str_prefix_app. split; [done|].
  intros j Hj. rewrite str_drop_app_le by lia.
  pose proof (proj1 (str_find_None _ _) Hnone j ltac:(lia)) as Hpj.
  set (r := str_drop j s) in *.
  assert (Hr : String.length r = String.length s - j)
    by apply str_length_drop.
  destruct (decide (String.length pat ≤ String.length r)) as [Hl|Hl].
  { by rewrite str_prefix_long. }
  destruct (String.prefix pat (r +:+ pat +:+ t)) eqn:E; [|done]. exfalso.
  apply str_prefix_spec in E as [v Hv].
  set (k := String.length r) in *.
  assert (Hk : pat +:+ t = str_drop k pat +:+ v).
  { rewrite <- str_drop_app_le by lia. rewrite <- Hv. unfold k.
    by rewrite str_drop_app. }
  unfold borderless in Hb. rewrite forallb_forall in Hb.
  specialize (Hb k). rewrite in_seq in Hb.
  assert (Hpre : String.prefix (str_drop k pat) pat = true).
  { rewrite <- (str_prefix_long _ _ t); [|rewrite str_length_drop; lia].
    rewrite Hk. apply str_prefix_app. }
  rewrite Hpre in Hb. discriminate Hb. lia.
Qed.

Lemma str_find_app_right pat s t i :
  str_find pat s = Some i → str_find pat (s +:+ t) = Some i.
Proof.
  rewrite !str_find_Some, str_length_app. intros (Hi & Hp & Hmin).
  assert (Hb : i + String.length pat ≤ String.length s).
  { apply str_find_bound. by apply str_find_Some. }
  split; [lia|]. split.
  { rewrite str_drop_app_le by lia. by apply str_prefix_app_r. }
  intros j Hj. rewrite str_drop_app_le by lia.
  rewrite str_prefix_long; [by apply Hmin|]. rewrite str_length_drop. lia.
Qed.

Lemma str_compare_refl s : String.compare s s = Eq.
Proof.
  induction s as [|c s IH]; simpl; [done|].
  assert (Hc : Ascii.compare c c = Eq) by apply N.compare_refl.
  by rewrite Hc.
Qed.

Lemma str_ltb_irrefl s : str_ltb s s = false.
Proof. unfold str_ltb. by rewrite str_compare_refl. Qed.

Lemma ascii_compare_N a b :
  Ascii.compare a b = (Ascii.N_of_ascii a ?= Ascii.N_of_ascii b)%N.
Proof. done. Qed.

Lemma ascii_compare_eq a b : Ascii.compare a b = Eq → a = b.
Proof.
  rewrite ascii_compare_N, N.compare_eq_iff. intros H.
  by rewrite <- (Ascii.ascii_N_embedding a), <- (Ascii.ascii_N_embedding b), H.
Qed.

Lemma str_ltb_trans s t u :
  str_ltb s t = true → str_ltb t u = true → str_ltb s u = true.
Proof.
  unfold str_ltb. revert t u.
  induction s as [|a s IH]; intros [|b t] [|c u]; simpl; try done.
  destruct (Ascii.compare a b) eqn:E1; try done;
    destruct (Ascii.compare b c) eqn:E2; try done; intros H1 H2.
  - apply ascii_compare_eq in E1 as ->. rewrite E2. by eapply IH.
  - apply ascii_compare_eq in E1 as ->. by rewrite E2.
  - apply ascii_compare_eq in E2 as ->. by rewrite E1.
  - rewrite ascii_compare_N in *.
    rewrite N.compare_lt_iff in E1, E2.
    assert (E3 : (Ascii.N_of_ascii a < Ascii.N_of_ascii c)%N) by lia.
    rewrite <- N.compare_lt_iff in E3. by rewrite E3.
Qed.

(** Strings that are incomparable are equal. *)
Lemma str_ltb_total s t : str_ltb s t = false → str_ltb t s = false → s = t.
Proof.
  unfold str_ltb. intros H1 H2. apply String.compare_eq_iff.
  rewrite String.compare_antisym in H2.
  by destruct (String.compare s t).
Qed.
End strings.

#[export] Instance str_le_total : Total str_le.
Proof.
  intros a b. unfold str_le.
  destruct (str_ltb b a) eqn:E; [|by left]. right.
  destruct (str_ltb a b) eqn:E'; [|done].
  rewrite <- (str_ltb_irrefl a). symmetry. by apply (str_ltb_trans a b a).
Qed.

#[export] Instance str_le_trans : Transitive str_le.
Proof.
  intros a b c Hab Hbc. unfold str_le in *.
  destruct (str_ltb c a) eqn:E; [|done].
  destruct (str_ltb a b) eqn:E1.
  { by rewrite (str_ltb_trans c a b E E1) in Hbc. }
  by rewrite (str_ltb_total a b E1 Hab), Hbc in E.
Qed.

(** * Lemmas on bytes *)

(** Two bytes put side by side. *)
Lemma lor_shiftl_8 (a b : Z) :
  (0 ≤ a → 0 ≤ b < 256 → Z.lor (Z.shiftl a 8) b = a * 256 + b)%Z.
Proof.
  intros Ha Hb.
  assert (Hand : Z.land (Z.shiftl a 8) b = 0%Z).
  { apply Z.bits_inj'. intros n Hn. rewrite Z.land_spec, Z.bits_0.
    destruct (Z.lt_ge_cases n 8) as [Hlt|Hge].
    - by rewrite Z.shiftl_spec_low.
    - replace (Z.testbit b n) with false; [apply andb_false_r|]. symmetry.
      destruct (Z.eq_dec b 0%Z) as [->|]; [apply Z.bits_0|].
      apply Z.bits_above_log2; [lia|].
      enough (Z.log2 b < 8)%Z by lia. apply Z.log2_lt_pow2; lia. }
  rewrite <- Z.lxor_lor by done. rewrite <- Z.add_nocarry_lxor by done.
  by rewrite Z.shiftl_mul_pow2.
Qed.

#[export] Hint Rewrite str_app_nil_r str_app_assoc str_length_app str_drop_app
  str_take_app : ffvms.
