(* ===== verification/VideoRequest.v ===== *)
(** The video request of core/include/common.h and core/src/common.cpp: the
    key under which the RTSP service and the RTP producer file every stream.

    Modelled: [VideoRequest] with its constructors, [parseUrl], [toString],
    [cmpStr], [operator<], [valueAndParamsEqual] and the [std::hash]
    specialisation, and [std::map<VideoRequest, _>] as a finite map on
    [cmpStr] that remembers the key object first inserted. *)

From stdpp Require Import base gmap strings list sorting.
From S2P Require Import Prelude.

(** * Data *)

Inductive StreamingMode : Type := TCP | UDP.

#[export] Instance StreamingMode_eq_dec : EqDecision StreamingMode.
Proof. solve_decision. Defined.

Record VideoRequest : Type := mkVideoRequest {
  _use_file : bool;
  filename : string;
  repeatedly : bool;
  _use_gb : bool;
  gbid : string;
  gbStreamingMode : StreamingMode;
}.

#[export] Instance VideoRequest_eq_dec : EqDecision VideoRequest.
Proof. solve_decision. Defined.

Inductive RTSPCommand : Type :=
| UNKNOWN | OPTIONS | DESCRIBE | SETUP | PLAY | PAUSE | RECORD | ANNOUNCE
| TEAEWORN | GET_PARAMETER | SET_PARAMETER | REDIRECT.

(** * Operations *)

Definition FILE_PREFIX : string := "file/".
Definition GB_PREFIX : string := "gb/".
Definition REPEATEDLY_FLAG : string := "?repeatedly=".

(** The default constructor. *)
Definition VideoRequest_default : VideoRequest :=
  mkVideoRequest false EmptyString false false EmptyString UDP.

(** [VideoRequest::parseUrl]; the constructor [VideoRequest(std::string&&)]
    assigns its result. *)
Definition parseUrl (url : string) : outcome VideoRequest :=
  match str_find FILE_PREFIX url with
  | Some found =>
      fname ← str_substr url (found + String.length FILE_PREFIX);
      match str_find REPEATEDLY_FLAG fname with
      | Some found =>
          rep ← str_substr fname (found + String.length REPEATEDLY_FLAG);
          fname' ← str_substr_count fname 0 found;
          mret (mkVideoRequest true fname' (String.eqb rep "true")
                  false EmptyString UDP)
      | None => mret (mkVideoRequest true fname false false EmptyString UDP)
      end
  | None =>
      match str_find GB_PREFIX url with
      | Some found =>
          id ← str_substr url (found + String.length GB_PREFIX);
          mret (mkVideoRequest false EmptyString false true id UDP)
      | None => mret VideoRequest_default
      end
  end.

(** [VideoRequest::toString], which [operator<<] prints. *)
Definition toString (r : VideoRequest) : string :=
  if _use_file r then
    "file://" +:+ filename r +:+ "?repeatedly=" +:+
      (if repeatedly r then "true" else "false")
  else if _use_gb r then
    let prefix := "gb://" +:+ gbid r +:+ "&gbStreamingMode=" in
    match gbStreamingMode r with
    | TCP => prefix +:+ "TCP"
    | UDP => prefix +:+ "UDP"
    end
  else EmptyString.

Definition cmpStr (r : VideoRequest) : string :=
  if _use_file r then "file://" +:+ filename r
  else if _use_gb r then "gb://" +:+ gbid r
  else EmptyString.

(** [bool operator<(const VideoRequest &other) const] *)
Definition operator_lt (a b : VideoRequest) : bool :=
  str_ltb (cmpStr a) (cmpStr b).

Definition valueAndParamsEqual (a b : VideoRequest) : bool :=
  Bool.eqb (_use_file a) (_use_file b) && String.eqb (filename a) (filename b)
  && Bool.eqb (repeatedly a) (repeatedly b) && Bool.eqb (_use_gb a) (_use_gb b)
  && String.eqb (gbid a) (gbid b)
  && bool_decide (gbStreamingMode a = gbStreamingMode b).

(** [std::hash<VideoRequest>::operator()], over the [std::hash<std::string>]
    of the standard library. *)
Definition VideoRequest_hash (std_hash : string → Z) (r : VideoRequest) : Z :=
  std_hash
    (if _use_file r then "file://" +:+ filename r
     else if _use_gb r then "gb://" +:+ gbid r
     else EmptyString).

(** * [std::map<VideoRequest, A>]

    Keys are compared with [operator<], so a key is determined by its
    [cmpStr]; an entry keeps the key object it was created with. *)

Abbreviation vmap A := (gmap string (VideoRequest * A)).

Section vmap.
Context {A : Type}.

Definition vfind (v : VideoRequest) (m : vmap A) : option A :=
  snd <$> m !! cmpStr v.

(** [m[v] = a] *)
Definition vset (v : VideoRequest) (a : A) (m : vmap A) : vmap A :=
  match m !! cmpStr v with
  | Some (k, _) => <[cmpStr v := (k, a)]> m
  | None => <[cmpStr v := (v, a)]> m
  end.

Definition verase (v : VideoRequest) (m : vmap A) : vmap A :=
  delete (cmpStr v) m.

(** The order in which a range-for visits the entries. *)
Definition entry_le (a b : string * (VideoRequest * A)) : Prop :=
  str_le a.1 b.1.

#[export] Instance entry_le_dec : RelDecision entry_le.
Proof. intros a b. unfold entry_le. apply _. Defined.

Definition ventries (m : vmap A) : list (VideoRequest * A) :=
  snd <$> merge_sort entry_le (map_to_list m).

(** Every entry is filed under the [cmpStr] of its key object. *)
Definition vkeyed (m : vmap A) : Prop :=
  map_Forall (fun k e => cmpStr e.1 = k) m.
End vmap.

(** * The reference grammar of the URLs *)

(** [pat] occurs in [s] after [u] and before [v], and nowhere earlier. *)
Definition first_occurrence (pat s u v : string) : Prop :=
  s = u +:+ pat +:+ v ∧
  ∀ u' v', s = u' +:+ pat +:+ v' → String.length u ≤ String.length u'.

Definition occurs (pat s : string) : Prop := ∃ u v, s = u +:+ pat +:+ v.

Inductive denotes : string → VideoRequest → Prop :=
| denotes_file_flag url pre rest name flag :
    first_occurrence "file/" url pre rest →
    first_occurrence "?repeatedly=" rest name flag →
    denotes url
      (mkVideoRequest true name (bool_decide (flag = "true"))
         false EmptyString UDP)
| denotes_file url pre rest :
    first_occurrence "file/" url pre rest →
    ¬ occurs "?repeatedly=" rest →
    denotes url (mkVideoRequest true rest false false EmptyString UDP)
| denotes_gb url pre rest :
    ¬ occurs "file/" url →
    first_occurrence "gb/" url pre rest →
    denotes url (mkVideoRequest false EmptyString false true rest UDP)
| denotes_other url :
    ¬ occurs "file/" url → ¬ occurs "gb/" url →
    denotes url VideoRequest_default.

(** * Lemmas *)

Section occurrences.
Implicit Types (s u v pat : string).

Lemma str_find_occurs pat s : str_find pat s = None ↔ ¬ occurs pat s.
Proof.
  rewrite str_find_None. split.
  - intros H (u & v & ->). specialize (H (String.length u)).
    rewrite str_length_app in H. specialize (H ltac:(lia)).
    by rewrite str_drop_app, str_prefix_app in H.
  - intros H j Hj. destruct (String.prefix _ _) eqn:E; [|done].
    apply str_prefix_spec in E as [t Ht]. destruct H.
    exists (str_take j s), t. by rewrite <- Ht, str_take_drop.
Qed.

Lemma str_find_first_occurrence pat s u v :
  first_occurrence pat s u v ↔
  str_find pat s = Some (String.length u) ∧ s = u +:+ pat +:+ v.
Proof.
  split.
  - intros [Hs Hmin]. split; [|done].
    destruct (str_find pat s) as [i|] eqn:E; cycle 1.
    { apply str_find_occurs in E. destruct E. by exists u, v. }
    f_equal. pose proof (str_find_split _ _ _ E) as Hsplit.
    pose proof (proj1 (str_find_Some _ _ _) E) as (Hi & _ & Hfst).
    apply Hmin in Hsplit as Hle. rewrite str_length_take in Hle by done.
    destruct (decide (String.length u = i)) as [|Hne]; [done|].
    specialize (Hfst (String.length u) ltac:(lia)).
    by rewrite Hs, str_drop_app, str_prefix_app in Hfst.
  - intros [(Hl & Hp & Hmin)%str_find_Some Hs]. split; [done|].
    intros u' v' Hs'.
    destruct (decide (String.length u' < String.length u)) as [Hlt|]; [|lia].
    specialize (Hmin _ Hlt).
    by rewrite Hs', str_drop_app, str_prefix_app in Hmin.
Qed.

(** Unique decomposition at the first occurrence. *)
Lemma first_occurrence_unique pat s u v u' v' :
  first_occurrence pat s u v → first_occurrence pat s u' v' →
  u = u' ∧ v = v'.
Proof.
  intros [Hu Hmu] [Hu' Hmu'].
  assert (Hl : String.length u = String.length u').
  { apply Nat.le_antisymm; [by eapply Hmu|by eapply Hmu']. }
  rewrite Hu in Hu'.
  destruct (str_app_inj_length _ _ _ _ Hl Hu') as [-> Hv].
  by apply str_app_inj_l in Hv as ->.
Qed.

Lemma str_find_exists pat s i :
  str_find pat s = Some i →
  first_occurrence pat s (str_take i s) (str_drop (i + String.length pat) s).
Proof.
  intros E. pose proof (proj1 (str_find_Some _ _ _) E) as (Hi & _ & _).
  apply str_find_first_occurrence.
  rewrite str_length_take by done. split; [done|].
  by apply str_find_split.
Qed.

Lemma first_occurrence_occurs pat s u v :
  first_occurrence pat s u v → occurs pat s.
Proof. intros [-> _]. by exists u, v. Qed.
End occurrences.

Lemma str_substr_found pat s i :
  str_find pat s = Some i →
  str_substr s (i + String.length pat)
  = Done (str_drop (i + String.length pat) s).
Proof.
  intros E%str_find_bound. unfold str_substr.
  by rewrite bool_decide_eq_true_2.
Qed.

Lemma str_substr_count_0 s n : str_substr_count s 0 n = Done (str_take n s).
Proof.
  unfold str_substr_count. rewrite str_drop_0.
  by rewrite bool_decide_eq_true_2 by lia.
Qed.

Lemma string_eqb_bool_decide (a b : string) :
  String.eqb a b = bool_decide (a = b).
Proof. destruct (String.eqb_spec a b); by case_bool_decide. Qed.

(** [parseUrl] computes a request the grammar gives to the URL. *)
Lemma parseUrl_denotes url : ∃ r, parseUrl url = Done r ∧ denotes url r.
Proof.
  unfold parseUrl. destruct (str_find FILE_PREFIX url) as [i|] eqn:Ef.
  - rewrite (str_substr_found _ _ _ Ef). orun.
    apply str_find_exists in Ef as Hf.
    set (rest := str_drop _ url) in *.
    destruct (str_find REPEATEDLY_FLAG rest) as [j|] eqn:Er.
    + rewrite (str_substr_found _ _ _ Er). orun.
      rewrite str_substr_count_0. orun.
      eexists; split; [done|]. rewrite string_eqb_bool_decide.
      eapply denotes_file_flag; [done|by apply str_find_exists].
    + eexists; split; [done|].
      eapply denotes_file; [done|by apply str_find_occurs].
  - apply str_find_occurs in Ef.
    destruct (str_find GB_PREFIX url) as [i|] eqn:Eg.
    + rewrite (str_substr_found _ _ _ Eg). eexists; split; [done|].
      eapply denotes_gb; [done|by apply str_find_exists].
    + eexists; split; [done|]. apply denotes_other; [done|].
      by apply str_find_occurs.
Qed.

(** The grammar gives one request to a URL. *)
Lemma denotes_functional url r r' : denotes url r → denotes url r' → r = r'.
Proof.
  destruct 1; inversion 1; subst;
    repeat match goal with
    | H1 : first_occurrence ?p ?s _ _, H2 : first_occurrence ?p ?s _ _ |- _ =>
        destruct (first_occurrence_unique _ _ _ _ _ _ H1 H2) as [-> ->];
        clear H1
    | H1 : first_occurrence ?p ?s _ _, H2 : ¬ occurs ?p ?s |- _ =>
        by destruct H2; eapply first_occurrence_occurs
    end; congruence.
Qed.

Lemma parseUrl_iff url r : parseUrl url = Done r ↔ denotes url r.
Proof.
  destruct (parseUrl_denotes url) as (r' & E & Hd). rewrite E. split.
  - by intros [= ->].
  - intros Hd'. by rewrite (denotes_functional _ _ _ Hd Hd').
Qed.

(** * The order and the equivalence of the map keys *)

(** Two keys the map cannot tell apart. *)
#[export] Instance VideoRequest_equiv : Equiv VideoRequest :=
  fun a b => operator_lt a b = false ∧ operator_lt b a = false.

Lemma equiv_cmpStr (a b : VideoRequest) : a ≡ b ↔ cmpStr a = cmpStr b.
Proof.
  unfold equiv, VideoRequest_equiv, operator_lt. split.
  - intros [??]. by apply str_ltb_total.
  - intros ->. by rewrite str_ltb_irrefl.
Qed.

#[export] Instance VideoRequest_equivalence : Equivalence (≡@{VideoRequest}).
Proof.
  split.
  - intros a. by rewrite equiv_cmpStr.
  - intros a b. by rewrite !equiv_cmpStr.
  - intros a b c. rewrite !equiv_cmpStr. congruence.
Qed.

#[export] Instance cmpStr_proper : Proper ((≡) ==> (=)) cmpStr.
Proof. intros a b. by rewrite equiv_cmpStr. Qed.

#[export] Instance operator_lt_proper : Proper ((≡) ==> (≡) ==> (=)) operator_lt.
Proof. intros a b Hab c d Hcd. unfold operator_lt. by rewrite Hab, Hcd. Qed.

Section vmap_lemmas.
Context {A : Type}.
Implicit Types (m : vmap A) (v : VideoRequest) (a : A).

#[export] Instance vfind_proper : Proper ((≡) ==> (=) ==> (=)) (@vfind A).
Proof. intros v w Hvw m ? <-. unfold vfind. by rewrite Hvw. Qed.

#[export] Instance verase_proper : Proper ((≡) ==> (=) ==> (=)) (@verase A).
Proof. intros v w Hvw m ? <-. unfold verase. by rewrite Hvw. Qed.

Lemma vfind_vset_eq v w a m : v ≡ w → vfind v (vset w a m) = Some a.
Proof.
  intros ->. unfold vfind, vset.
  by destruct (m !! cmpStr w) as [[k ?]|]; rewrite lookup_insert_eq.
Qed.

Lemma vfind_vset_ne v w a m :
  cmpStr v ≠ cmpStr w → vfind v (vset w a m) = vfind v m.
Proof.
  intros Hne. unfold vfind, vset.
  by destruct (m !! cmpStr w) as [[k ?]|]; rewrite lookup_insert_ne.
Qed.

Lemma vset_keyed v a m : vkeyed m → vkeyed (vset v a m).
Proof.
  intros Hm. unfold vset. destruct (m !! cmpStr v) as [[k b]|] eqn:E.
  - apply map_Forall_insert_2; [|done]. by apply (Hm _ (k, b)).
  - by apply map_Forall_insert_2.
Qed.

Lemma verase_keyed v m : vkeyed m → vkeyed (verase v m).
Proof. apply map_Forall_delete. Qed.

Lemma elem_of_ventries m v a :
  vkeyed m → (v, a) ∈ ventries m ↔ m !! cmpStr v = Some (v, a).
Proof.
  intros Hm. unfold ventries. rewrite list_elem_of_fmap. split.
  - intros ([k e] & He & Hin). simpl in He. subst e.
    rewrite merge_sort_Permutation, elem_of_map_to_list in Hin.
    pose proof (Hm _ _ Hin) as Hk. simpl in Hk. by subst k.
  - intros E. exists (cmpStr v, (v, a)). split; [done|].
    by rewrite merge_sort_Permutation, elem_of_map_to_list.
Qed.
End vmap_lemmas.

#[export] Hint Resolve vset_keyed verase_keyed : ffvms.
#[export] Hint Rewrite @vfind_vset_eq @vfind_vset_ne using (done || congruence)
  : ffvms.

(** * Properties *)

(** C31: [parseUrl] never throws, and it gives a URL exactly the request of the
    grammar: what follows the first "file/" up to the first "?repeatedly="
    names a file, repeated iff the flag reads "true"; without "file/" what
    follows the first "gb/" is a GB id; any other URL gives the default
    request. *)
Theorem parseUrl_spec (url : string) (r : VideoRequest) :
  parseUrl url = Done r ↔ denotes url r.
Proof. apply parseUrl_iff. Qed.

(** The path a client writes for a request, as deploy/playrtsp.sh does. *)
Definition request_path (r : VideoRequest) : string :=
  if _use_file r then
    "file/" +:+ filename r +:+ "?repeatedly=" +:+
      (if repeatedly r then "true" else "false")
  else "gb/" +:+ gbid r.

(** The requests [parseUrl] can return for a file or a GB camera. *)
Definition parsed_shape (r : VideoRequest) : Prop :=
  gbStreamingMode r = UDP ∧
  if _use_file r then _use_gb r = false ∧ gbid r = EmptyString
  else _use_gb r = true ∧ filename r = EmptyString ∧ repeatedly r = false.

Lemma first_occurrence_app (pat u v : string) :
  borderless pat = true → ¬ occurs pat u →
  first_occurrence pat (u +:+ pat +:+ v) u v.
Proof.
  intros Hb Hu. apply str_find_first_occurrence. split; [|done].
  apply str_find_app; [done|]. by apply str_find_occurs.
Qed.

(** C32: a client URL parses back to the request it was written for, when the
    server part holds no "file/" (nor "gb/", for a camera), the file name does
    not hold the flag, and the URL of a camera holds no "file/". *)
Theorem parseUrl_roundtrip (host : string) (r : VideoRequest)
    (Hshape : parsed_shape r)
    (Hhost : ¬ occurs (if _use_file r then "file/" else "gb/") host)
    (Hname : ¬ occurs "?repeatedly=" (filename r))
    (Hgb : _use_file r = false → ¬ occurs "file/" (host +:+ request_path r)) :
  parseUrl (host +:+ request_path r) = Done r.
Proof.
  apply parseUrl_iff. destruct r as [uf fn rep ug id mode].
  destruct Hshape as [Hmode Hshape]. unfold request_path in *. simpl in *.
  subst mode. destruct uf.
  - destruct Hshape as [-> ->].
    replace rep with (bool_decide ((if rep then "true" else "false") = "true"))
      at 2 by by destruct rep.
    eapply denotes_file_flag; by apply first_occurrence_app.
  - destruct Hshape as (-> & -> & ->).
    eapply denotes_gb; [by apply Hgb|by apply first_occurrence_app].
Qed.

Lemma parseUrl_roundtrip_witness :
  parseUrl ("rtsp://127.0.0.1:8554/" +:+
            "file//workspaces/ffvms/tools/tbut1.mp4?repeatedly=true")
  = Done (mkVideoRequest true "/workspaces/ffvms/tools/tbut1.mp4" true
            false EmptyString UDP).
Proof.
  apply (parseUrl_roundtrip "rtsp://127.0.0.1:8554/"
           (mkVideoRequest true "/workspaces/ffvms/tools/tbut1.mp4" true
              false EmptyString UDP)).
  - done.
  - apply str_find_occurs. vm_compute. reflexivity.
  - apply str_find_occurs. vm_compute. reflexivity.
  - discriminate.
Defined.

(** C33: [operator<] is a strict weak order, as [std::map] requires of its
    comparison; the keys it cannot tell apart are the requests of the same
    [cmpStr], and they hash alike. *)
Theorem operator_lt_strict_weak_order (std_hash : string → Z)
    (a b c : VideoRequest) :
  operator_lt a a = false ∧
  (operator_lt a b = true ∧ operator_lt b c = true → operator_lt a c = true) ∧
  (a ≡ b ↔ cmpStr a = cmpStr b) ∧
  (a ≡ b ∧ b ≡ c → a ≡ c) ∧
  (a ≡ b → VideoRequest_hash std_hash a = VideoRequest_hash std_hash b).
Proof.
  split; [apply str_ltb_irrefl|]. split.
  { intros [??]. by eapply str_ltb_trans. }
  split; [apply equiv_cmpStr|]. split.
  { intros [-> ->]. done. }
  rewrite equiv_cmpStr. intros E. change (std_hash (cmpStr a) = std_hash (cmpStr b)).
  by rewrite E.
Qed.

(** Two URLs file their streams under the same key iff they name the same
    file, or the same camera, or neither; the repeat flag does not take
    part. *)
Theorem parsed_same_key (url1 url2 : string) (r1 r2 : VideoRequest)
    (H1 : parseUrl url1 = Done r1) (H2 : parseUrl url2 = Done r2) :
  r1 ≡ r2 ↔
  _use_file r1 = _use_file r2 ∧ _use_gb r1 = _use_gb r2 ∧
  filename r1 = filename r2 ∧ gbid r1 = gbid r2.
Proof.
  apply parseUrl_iff in H1, H2. rewrite equiv_cmpStr.
  destruct H1, H2; unfold cmpStr; simpl; (split; [|by intros (?&?&?&?); subst]);
    intros Heq; repeat (injection Heq as Heq); try discriminate Heq;
    subst; done.
Qed.

Lemma parsed_same_key_witness :
  mkVideoRequest true "a" true false EmptyString UDP
  ≡ mkVideoRequest true "a" false false EmptyString UDP.
Proof.
  apply (parsed_same_key "file/a?repeatedly=true" "rtsp://h/file/a").
  - vm_compute. reflexivity.
  - vm_compute. reflexivity.
  - done.
Defined.
