(* ===== verification/ErrorCheck.v ===== *)
(** The error-check macros of common/error_code/include/error_check.h.

    A macro is the C++ statement it expands to, with the statement that follows it
    where it ends in an open loop. Most of them are one [if] or [for] whose
    initialiser writes the log, so that the macro with its semicolon is a single
    statement; what they do to the function and to the loops around them is the point
    of the evaluator here. *)
From Stdlib Require Import ZArith.
From stdpp Require Import base list strings.
From S2P Require Import Prelude.

(** * Statements *)

Inductive severity : Type := WARNING | ERROR | FATAL.

(** What is streamed into a log line; [Code] and [Message] are of the checked value. *)
Inductive piece : Type :=
| PrettyFunction
| Text (s : string)
| Code
| Message
| Description (y : string)
| Endl.

Inductive output : Type :=
| Log (s : severity) (ps : list piece)
| PrintInfo (warning : bool)
| PrintLine (y : string).

(** The two types an error has in the macros. *)
Inductive ctype : Type := Int | ErrorCode.

#[export] Instance ctype_eq_dec : EqDecision ctype.
Proof. solve_decision. Defined.

Inductive initialiser : Type :=
| Let_rtn (t : ctype)
| Output (os : list output).

Inductive condition : Type := Forever | IfRtn | Never.

Inductive returned : Type := ReturnCode | ReturnVoid | ReturnValue (z : Z).

Inductive stmt : Type :=
| Empty
| Expr (o : output)
| IfNot (els : stmt)
| While (c : condition) (body : stmt)
| For (i : initialiser) (c : condition) (body : stmt)
| Seq (s1 s2 : stmt)
| Return (r : returned)
| Break
| Continue.

(** * Macros *)

Definition PRINT_ERROR_INFO : output := PrintInfo false.
Definition PRINT_WARNING_INFO : output := PrintInfo true.

Definition CHECK_RTN_OF_FUNC : stmt := For (Let_rtn Int) IfRtn (Return ReturnCode).
Definition CHECK_RTN_DESC (y : string) : stmt :=
  IfNot (For (Output [PRINT_ERROR_INFO; PrintLine y]) Forever (Return ReturnCode)).
Definition CHECK_RTN_DESC_OF_FUNC (y : string) : stmt :=
  For (Let_rtn Int) IfRtn
    (For (Output [PRINT_ERROR_INFO; PrintLine y]) Forever (Return ReturnCode)).
Definition CHECK_RTN_WARNING : stmt := IfNot (Expr PRINT_WARNING_INFO).
Definition CHECK_RTN_WARNING_OF_FUNC : stmt :=
  For (Let_rtn Int) IfRtn (Expr PRINT_WARNING_INFO).

(** The line of the macros that check a value [x], with the description [y] of the
    [_DESC] ones, and the shorter one of those that call a function. *)
Definition code_line (tag : string) (y : option string) : list piece :=
  [PrettyFunction; Text tag; Code; Text ", "; Message] ++
  match y with Some y => [Text ", "; Description y] | None => [] end ++ [Endl].
Definition func_line (y : option string) : list piece :=
  [Text "[ERROR CODE]: "; Message; Text ", "] ++
  match y with Some y => [Description y] | None => [] end ++ [Endl].

Definition tag : string := ": [ERROR CODE]: ".
Definition bare_tag : string := "[ERROR CODE]: ".

(** [if (!x); else for ((LOG(s) << ...);;) next] *)
Definition log_then (s : severity) (y : option string) (next : stmt) : stmt :=
  IfNot (For (Output [Log s (code_line tag y)]) Forever next).

Definition CHECK_RTN_LOGW : stmt := log_then WARNING None (Return ReturnCode).
Definition CHECK_RTN_LOGE : stmt := log_then ERROR None (Return ReturnCode).
Definition CHECK_RTN_LOGF (next : stmt) : stmt := log_then FATAL None next.
Definition CHECK_RTN_LOGW_DESC (y : string) : stmt :=
  log_then WARNING (Some y) (Return ReturnCode).
Definition CHECK_RTN_LOGE_DESC (y : string) : stmt :=
  log_then ERROR (Some y) (Return ReturnCode).
Definition CHECK_RTN_LOGF_DESC (y : string) (next : stmt) : stmt :=
  log_then FATAL (Some y) next.

(** [for (error_code _rtn_ = f(); _rtn_; ) for ((LOG(s) << ...);;) return _rtn_] *)
Definition call_then (s : severity) (y : option string) : stmt :=
  For (Let_rtn ErrorCode) IfRtn
    (For (Output [Log s (func_line y)]) Forever (Return ReturnCode)).

Definition CHECK_RTN_OF_FUNC_LOGW : stmt := call_then WARNING None.
Definition CHECK_RTN_OF_FUNC_LOGE : stmt := call_then ERROR None.
Definition CHECK_RTN_OF_FUNC_LOGF : stmt := call_then FATAL None.
Definition CHECK_RTN_OF_FUNC_LOGW_DESC (y : string) : stmt := call_then WARNING (Some y).
Definition CHECK_RTN_OF_FUNC_LOGE_DESC (y : string) : stmt := call_then ERROR (Some y).
Definition CHECK_RTN_OF_FUNC_LOGF_DESC (y : string) : stmt := call_then FATAL (Some y).

Definition CHECK_RTN_LOGE_RETURN_VOID : stmt := log_then ERROR None (Return ReturnVoid).
Definition CHECK_RTN_LOGE_DESC_RETURN_VOID (y : string) : stmt :=
  log_then ERROR (Some y) (Return ReturnVoid).
Definition CHECK_RTN_LOGE_DESC_RETURN (y : string) (z : Z) : stmt :=
  log_then ERROR (Some y) (Return (ReturnValue z)).

Definition PRINT_RTN_LOGE : stmt := log_then ERROR None Break.
Definition PRINT_RTN_LOGE_DESC (y : string) : stmt := log_then ERROR (Some y) Break.
Definition PRINT_RTN_LOGE_OF_FUNC : stmt :=
  For (Let_rtn Int) IfRtn
    (Seq (For (Output [Log ERROR (code_line tag None)]) Never Empty) Break).

Definition CHECK_RTN_LOGE_CTN : stmt :=
  IfNot (Seq (Expr (Log ERROR (code_line bare_tag None))) Continue).
Definition CHECK_RTN_LOGE_CTN_DESC (y : string) : stmt :=
  IfNot (Seq (Expr (Log ERROR (code_line bare_tag (Some y)))) Continue).
Definition CHECK_RTN_LOGE_BRK : stmt :=
  IfNot (Seq (Expr (Log ERROR (code_line bare_tag None))) Break).
Definition CHECK_RTN_LOGE_BRK_DESC (y : string) : stmt :=
  IfNot (Seq (Expr (Log ERROR (code_line bare_tag (Some y)))) Break).

(** * Evaluation *)

(** The called function, and what was written about the value. *)
Inductive happening : Type :=
| Called
| Wrote (o : output) (z : Z).

(** How a statement ends: [LOG(FATAL)] ends the program. *)
Inductive ending : Type :=
| Normally
| Returned (z : option Z)
| Broke
| Continued
| Ended.

Definition fatal (o : output) : bool := match o with Log FATAL _ => true | _ => false end.

Fixpoint write (os : list output) (z : Z) : list happening * ending :=
  match os with
  | [] => ([], Normally)
  | o :: os' =>
      if fatal o then ([Wrote o z], Ended)
      else let '(hs, e) := write os' z in (Wrote o z :: hs, e)
  end.

Definition holds (c : condition) (z : Z) : bool :=
  match c with Forever => true | IfRtn => negb (z =? 0)%Z | Never => false end.

(** [f] is the result of the function, [z] the checked value: [x], or [_rtn_] once it
    is declared. *)
Fixpoint eval (fuel : nat) (f z : Z) (s : stmt) : option (list happening * ending) :=
  match fuel with
  | O => None
  | S fuel =>
      match s with
      | Empty => Some ([], Normally)
      | Expr o => Some (write [o] z)
      | IfNot els => if (z =? 0)%Z then Some ([], Normally) else eval fuel f z els
      | While c body =>
          if holds c z then
            '(hs, e) ← eval fuel f z body;
            match e with
            | Normally | Continued =>
                '(hs', e') ← eval fuel f z (While c body); Some (hs ++ hs', e')
            | Broke => Some (hs, Normally)
            | _ => Some (hs, e)
            end
          else Some ([], Normally)
      | For i c body =>
          let '(hs, e, z) := match i with
                             | Let_rtn _ => ([Called], Normally, f)
                             | Output os => let '(hs, e) := write os z in (hs, e, z)
                             end in
          match e with
          | Normally => '(hs', e') ← eval fuel f z (While c body); Some (hs ++ hs', e')
          | _ => Some (hs, e)
          end
      | Seq s1 s2 =>
          '(hs, e) ← eval fuel f z s1;
          match e with
          | Normally => '(hs', e') ← eval fuel f z s2; Some (hs ++ hs', e')
          | _ => Some (hs, e)
          end
      | Return ReturnCode => Some ([], Returned (Some z))
      | Return ReturnVoid => Some ([], Returned None)
      | Return (ReturnValue v) => Some ([], Returned (Some v))
      | Break => Some ([], Broke)
      | Continue => Some ([], Continued)
      end
  end.

(** * Types *)

(** Whether it compiles in a function that returns [ret], where the called function
    returns [tf] and the checked value has type [t]: [message] and [value] are members
    of [std::error_code], which converts to [bool] only in a condition, and an [int]
    does not convert to it. *)
Definition typed_output (t : ctype) (o : output) : bool :=
  match o with
  | Log _ ps => forallb (fun p => match p with
                                  | Message => bool_decide (t = ErrorCode)
                                  | _ => true
                                  end) ps
  | PrintInfo _ => bool_decide (t = ErrorCode)
  | PrintLine _ => true
  end.

(** [ret] is [None] in a function without result. *)
Fixpoint compiles (ret : option ctype) (tf t : ctype) (s : stmt) : bool :=
  match s with
  | Empty | Break | Continue => true
  | Expr o => typed_output t o
  | IfNot els => compiles ret tf t els
  | While _ body => compiles ret tf t body
  | For (Let_rtn t') _ body => bool_decide (tf = t') && compiles ret tf t' body
  | For (Output os) _ body => forallb (typed_output t) os && compiles ret tf t body
  | Seq s1 s2 => compiles ret tf t s1 && compiles ret tf t s2
  | Return ReturnCode => bool_decide (ret = Some t)
  | Return ReturnVoid => bool_decide (ret = None)
  | Return (ReturnValue _) => bool_decide (ret = Some Int)
  end.

(** * What the macros do *)

(** A macro, whether it calls the function, what it writes about an error and how it
    ends then, and the types it is meant for. *)
Record check : Type := mkCheck {
  macro : stmt;
  calls : bool;
  writes : list output;
  ends : Z → ending;
  result : option ctype;
  checked : ctype;
}.

Definition returns (z : Z) : ending := Returned (Some z).

Definition error_checks (y : string) (v : Z) (next : stmt) : list check :=
  let log sev y := [Log sev (code_line tag y)] in
  let bare y := [Log ERROR (code_line bare_tag y)] in
  let func sev y := [Log sev (func_line y)] in
  let d := Some y in
  let e := Some ErrorCode in
  [ mkCheck CHECK_RTN_OF_FUNC true [] returns (Some Int) Int;
    mkCheck (CHECK_RTN_DESC y) false [PrintInfo false; PrintLine y] returns e ErrorCode;
    mkCheck CHECK_RTN_WARNING false [PrintInfo true] (fun _ => Normally) e ErrorCode;
    mkCheck CHECK_RTN_LOGW false (log WARNING None) returns e ErrorCode;
    mkCheck CHECK_RTN_LOGE false (log ERROR None) returns e ErrorCode;
    mkCheck (CHECK_RTN_LOGF next) false (log FATAL None) (fun _ => Ended) e ErrorCode;
    mkCheck (CHECK_RTN_LOGW_DESC y) false (log WARNING d) returns e ErrorCode;
    mkCheck (CHECK_RTN_LOGE_DESC y) false (log ERROR d) returns e ErrorCode;
    mkCheck (CHECK_RTN_LOGF_DESC y next) false (log FATAL d) (fun _ => Ended) e ErrorCode;
    mkCheck CHECK_RTN_OF_FUNC_LOGW true (func WARNING None) returns e ErrorCode;
    mkCheck CHECK_RTN_OF_FUNC_LOGE true (func ERROR None) returns e ErrorCode;
    mkCheck CHECK_RTN_OF_FUNC_LOGF true (func FATAL None) (fun _ => Ended) e ErrorCode;
    mkCheck (CHECK_RTN_OF_FUNC_LOGW_DESC y) true (func WARNING d) returns e ErrorCode;
    mkCheck (CHECK_RTN_OF_FUNC_LOGE_DESC y) true (func ERROR d) returns e ErrorCode;
    mkCheck (CHECK_RTN_OF_FUNC_LOGF_DESC y) true (func FATAL d) (fun _ => Ended) e ErrorCode;
    mkCheck CHECK_RTN_LOGE_RETURN_VOID false (log ERROR None) (fun _ => Returned None)
      None ErrorCode;
    mkCheck (CHECK_RTN_LOGE_DESC_RETURN_VOID y) false (log ERROR d) (fun _ => Returned None)
      None ErrorCode;
    mkCheck (CHECK_RTN_LOGE_DESC_RETURN y v) false (log ERROR d) (fun _ => Returned (Some v))
      (Some Int) ErrorCode;
    mkCheck PRINT_RTN_LOGE false (log ERROR None) (fun _ => Normally) e ErrorCode;
    mkCheck (PRINT_RTN_LOGE_DESC y) false (log ERROR d) (fun _ => Normally) e ErrorCode;
    mkCheck CHECK_RTN_LOGE_CTN false (bare None) (fun _ => Continued) e ErrorCode;
    mkCheck (CHECK_RTN_LOGE_CTN_DESC y) false (bare d) (fun _ => Continued) e ErrorCode;
    mkCheck CHECK_RTN_LOGE_BRK false (bare None) (fun _ => Broke) e ErrorCode;
    mkCheck (CHECK_RTN_LOGE_BRK_DESC y) false (bare d) (fun _ => Broke) e ErrorCode ].

(** Three macros declare an [int] and use it as an error code: they do not compile,
    whatever the function returns. *)
Lemma int_macros_do_not_compile (y : string) (ret : option ctype) (tf t : ctype) (s : stmt) :
  s ∈ [CHECK_RTN_DESC_OF_FUNC y; CHECK_RTN_WARNING_OF_FUNC; PRINT_RTN_LOGE_OF_FUNC] →
  compiles ret tf t s = false.
Proof.
  rewrite !elem_of_cons, elem_of_nil. intros Hs.
  destruct_or! Hs; try done; subst s; simpl; apply andb_false_r.
Qed.

(** C40: the error checks. The macros of the table [error_checks], all of the header
    but three, compile for the types of their row. Each calls its function once, or
    none; on success it does nothing more; on an error it writes what its row says,
    nothing, one line or two, and then returns the code, returns nothing or the given
    value, breaks or continues the loop around it, ends the program, or goes on, as
    [PRINT_RTN_LOGE] does, since its [break] only leaves the loop of the macro itself.
    The three others compile for no types at all. *)
Theorem error_check_outcome (y : string) (v : Z) (next : stmt) (m : check) (f x : Z)
    (k : nat) (Hm : m ∈ error_checks y v next) :
  let z := if calls m then f else x in
  (next = Empty → compiles (result m) (checked m) (checked m) (macro m) = true) ∧
  eval (6 + k) f x (macro m)
  = Some ((if calls m then [Called] else []) ++
          (if (z =? 0)%Z then [] else (fun o => Wrote o z) <$> writes m),
          if (z =? 0)%Z then Normally else ends m z) ∧
  ∀ ret tf t s,
    s ∈ [CHECK_RTN_DESC_OF_FUNC y; CHECK_RTN_WARNING_OF_FUNC; PRINT_RTN_LOGE_OF_FUNC] →
    compiles ret tf t s = false.
Proof.
  intros z. refine ((fun H => conj (proj1 H) (conj (proj2 H) _)) _);
    [by intros *; apply int_macros_do_not_compile|].
  subst z. unfold error_checks in Hm. rewrite !elem_of_cons, elem_of_nil in Hm.
  destruct_or! Hm; try done; subst m; simpl; (split; [by intros ->|]);
    match goal with |- context [(?z =? 0)%Z] => by destruct (z =? 0)%Z eqn:E end.
Qed.

Lemma error_check_outcome_witness :
  eval 6 0 5 PRINT_RTN_LOGE
  = Some ([Wrote (Log ERROR (code_line tag None)) 5], Normally).
Proof.
  destruct (error_check_outcome EmptyString 0 Empty
    (mkCheck PRINT_RTN_LOGE false [Log ERROR (code_line tag None)] (fun _ => Normally)
       (Some ErrorCode) ErrorCode) 0 5 0) as (_ & H & _); [|exact H].
  unfold error_checks. rewrite !elem_of_cons. tauto.
Defined.

(** One of them would not end either: nothing changes [_rtn_] in its loop. *)
Lemma warning_loop fuel f x : f ≠ 0%Z → eval fuel f x CHECK_RTN_WARNING_OF_FUNC = None.
Proof.
  intros Hf. assert (Hz : (f =? 0)%Z = false) by by apply Z.eqb_neq.
  assert (Hw : ∀ n, eval n f f (While IfRtn (Expr PRINT_WARNING_INFO)) = None).
  { induction n as [|n IH]; [done|]. simpl. rewrite Hz. simpl.
    destruct n as [|n]; [done|]. simpl in *. by rewrite IH. }
  destruct fuel as [|fuel]; [done|]. simpl. by rewrite Hw.
Qed.
