(* ===== verification/ThreadPool.v ===== *)
(** common/thread_pool/include/thread_pool.h: the pool the RTP producer probes
    files on and the network server remuxes on.

    The critical sections of [mMutex] are the atomic steps of the model: the
    test-and-push of [submit], the wait predicate with the pop of a worker,
    and the store to [mStop] of the destructor. Between them a worker is at
    the wait predicate ([Ready]), blocked in [mCv.wait] ([Sleeping]), inside
    [task()] ([Running]) or past its loop ([Exited]); a [notify_one] that a
    [submit] still owes is counted in [notifies]. [submitted], [started] and
    [finished] are histories, which no operation reads. *)

From stdpp Require Import base list strings relations.
From S2P Require Import Prelude.

Section thread_pool.
Context {A : Type}.

(** * State *)

Inductive wstate : Type :=
| Ready
| Sleeping
| Running (t : A)
| Exited.

(** How far [~ThreadPool] has come. *)
Inductive dtor_phase : Type := Alive | StopSet | Notified.

Record pool : Type := mkPool {
  mWorks : list wstate;
  mTasks : list A;
  mStop : bool;
  notifies : nat;
  phase : dtor_phase;
  submitted : list A;
  started : list A;
  finished : list A;
}.

(** * Operations *)

(** The constructor [ThreadPool(capacity)]. *)
Definition newPool (capacity : nat) : pool :=
  mkPool (replicate capacity Ready) [] false 0 Alive [] [] [].

(** [submit] up to the end of its critical section; it owes a [notify_one]. *)
Definition submit (t : A) (p : pool) : outcome pool :=
  if mStop p then Fault (Throw "submit to stopped ThreadPool")
  else Done (mkPool (mWorks p) (mTasks p ++ [t]) (mStop p) (S (notifies p))
               (phase p) (submitted p ++ [t]) (started p) (finished p)).

Definition wake (w : wstate) : wstate :=
  match w with Sleeping => Ready | _ => w end.

Definition is_sleeping (w : wstate) : bool :=
  match w with Sleeping => true | _ => false end.

(** [mCv.notify_one()] of [submit]: [target] is the sleeper the condition
    variable picks, [None] when nobody sleeps. *)
Definition notify_one (target : option nat) (p : pool) : option pool :=
  match notifies p with
  | 0 => None
  | S n =>
      let woken ws := mkPool ws (mTasks p) (mStop p) n (phase p)
                        (submitted p) (started p) (finished p) in
      match target with
      | Some i =>
          w ← mWorks p !! i;
          if is_sleeping w then Some (woken (<[i := Ready]> (mWorks p)))
          else None
      | None =>
          if forallb (fun w => negb (is_sleeping w)) (mWorks p)
          then Some (woken (mWorks p)) else None
      end
  end.

Definition set_worker (i : nat) (w : wstate) (p : pool) : pool :=
  mkPool (<[i := w]> (mWorks p)) (mTasks p) (mStop p) (notifies p) (phase p)
    (submitted p) (started p) (finished p).

(** The loop of worker [i]: at the wait predicate it exits, pops a task or
    blocks; after [task()] returns it is back at the predicate. *)
Definition worker_step (i : nat) (p : pool) : option pool :=
  w ← mWorks p !! i;
  match w with
  | Ready =>
      if mStop p then Some (set_worker i Exited p)
      else match mTasks p with
           | t :: ts =>
               Some (mkPool (<[i := Running t]> (mWorks p)) ts (mStop p)
                       (notifies p) (phase p) (submitted p)
                       (started p ++ [t]) (finished p))
           | [] => Some (set_worker i Sleeping p)
           end
  | Running t =>
      Some (mkPool (<[i := Ready]> (mWorks p)) (mTasks p) (mStop p)
              (notifies p) (phase p) (submitted p) (started p)
              (finished p ++ [t]))
  | Sleeping | Exited => None
  end.

(** A spurious wakeup of [mCv.wait]. *)
Definition spurious_wakeup (i : nat) (p : pool) : option pool :=
  w ← mWorks p !! i;
  if is_sleeping w then Some (set_worker i Ready p) else None.

(** [~ThreadPool]: set [mStop], then [notify_all], then join every worker. *)
Definition dtor_set_stop (p : pool) : option pool :=
  match phase p with
  | Alive => Some (mkPool (mWorks p) (mTasks p) true (notifies p) StopSet
                     (submitted p) (started p) (finished p))
  | _ => None
  end.

Definition dtor_notify_all (p : pool) : option pool :=
  match phase p with
  | StopSet => Some (mkPool (wake <$> mWorks p) (mTasks p) (mStop p)
                       (notifies p) Notified
                       (submitted p) (started p) (finished p))
  | _ => None
  end.

Definition dtor_joins (p : pool) : bool :=
  match phase p with
  | Notified =>
      forallb (fun w => match w with Exited => true | _ => false end) (mWorks p)
  | _ => false
  end.

(** * Transitions *)

(** What the pool does by itself: its workers run, owed notifications are
    delivered. *)
Inductive internal : pool → pool → Prop :=
| internal_worker i p p' : worker_step i p = Some p' → internal p p'
| internal_notify o p p' : notify_one o p = Some p' → internal p p'.

Inductive step : pool → pool → Prop :=
| step_internal p p' : internal p p' → step p p'
| step_submit t p p' : submit t p = Done p' → step p p'
| step_spurious i p p' : spurious_wakeup i p = Some p' → step p p'
| step_stop p p' : dtor_set_stop p = Some p' → step p p'
| step_notify_all p p' : dtor_notify_all p = Some p' → step p p'.

(** A step of the pool while its destructor runs. *)
Inductive shutdown : pool → pool → Prop :=
| shutdown_internal p p' : internal p p' → shutdown p p'
| shutdown_notify_all p p' : dtor_notify_all p = Some p' → shutdown p p'.

Definition reachable (capacity : nat) (p : pool) : Prop :=
  rtc step (newPool capacity) p.

(** * Counting workers *)

Definition is_ready (w : wstate) : bool :=
  match w with Ready => true | _ => false end.
Definition is_running (w : wstate) : bool :=
  match w with Running _ => true | _ => false end.

Definition count (f : wstate → bool) (ws : list wstate) : nat :=
  sum_list_with (fun w => Nat.b2n (f w)) ws.

Definition running_task (w : wstate) : option A :=
  match w with Running t => Some t | _ => None end.

Definition running (p : pool) : list A := omap running_task (mWorks p).

(** The measure that every internal step decreases. *)
Definition work (p : pool) : nat :=
  2 * length (mTasks p) + count is_ready (mWorks p)
  + 2 * count is_running (mWorks p) + 2 * notifies p.

End thread_pool.

Arguments wstate A : clear implicits.
Arguments pool A : clear implicits.
Arguments mkPool {A} _ _ _ _ _ _ _ _ : assert.

(** * Lemmas *)

Section counting.
Context {A : Type}.
Implicit Types (ws : list (wstate A)) (w : wstate A).

Lemma count_insert f ws i w w' :
  ws !! i = Some w →
  count f (<[i := w']> ws) + Nat.b2n (f w) = count f ws + Nat.b2n (f w').
Proof.
  revert i. induction ws as [|v ws IH]; intros [|i]; simpl; try done.
  - intros [= ->]. unfold count. simpl. lia.
  - intros E. specialize (IH _ E). unfold count in *. simpl. lia.
Qed.

Lemma count_0 f ws : count f ws = 0 ↔ ∀ i w, ws !! i = Some w → f w = false.
Proof.
  unfold count. induction ws as [|v ws IH]; simpl.
  { split; [|done]. by intros _ [|i] w. }
  split.
  - intros H [|i] w; simpl.
    + intros [= <-]. destruct (f v); simpl in H; [lia|done].
    + apply IH. lia.
  - intros H. rewrite (H 0 v eq_refl). simpl. apply IH.
    intros i w. apply (H (S i)).
Qed.

Lemma count_pos f ws i w : ws !! i = Some w → f w = true → 0 < count f ws.
Proof.
  intros E Hf. destruct (count f ws) eqn:Ec; [|lia].
  apply count_0 with (i := i) (w := w) in Ec; congruence.
Qed.

Lemma count_forallb f ws :
  forallb (fun w => negb (f w)) ws = true ↔ count f ws = 0.
Proof.
  unfold count. induction ws as [|v ws IH]; simpl; [done|].
  rewrite andb_true_iff, IH. destruct (f v); simpl; split; try lia; done.
Qed.

Lemma count_wake ws : count is_sleeping (wake <$> ws) = 0.
Proof.
  unfold count. induction ws as [|[] ws IH]; simpl; auto.
Qed.

Lemma count_Exists f ws : 0 < count f ws → ∃ i w, ws !! i = Some w ∧ f w = true.
Proof.
  unfold count. induction ws as [|v ws IH]; simpl; [lia|].
  destruct (f v) eqn:E.
  - intros _. by exists 0, v.
  - simpl. intros (i & w & Hi & Hw)%IH. by exists (S i), w.
Qed.

Lemma running_insert ws i w w' :
  ws !! i = Some w →
  omap running_task (<[i := w']> ws) ++ option_list (running_task w)
  ≡ₚ omap running_task ws ++ option_list (running_task w').
Proof.
  revert i. induction ws as [|v ws IH]; intros [|i]; simpl; try done.
  - intros [= ->].
    destruct (running_task w), (running_task w'); simpl;
      rewrite ?app_nil_r; [|by rewrite (comm (++))..|done].
    rewrite !(comm (++) _ [_]). simpl. by rewrite Permutation_swap.
  - intros E. specialize (IH _ E). destruct (running_task v); simpl; [|done].
    by rewrite IH.
Qed.

Lemma omap_wake ws : omap running_task (wake <$> ws) = omap running_task ws.
Proof.
  induction ws as [|w ws IH]; [done|].
  destruct w; simpl; [exact IH..|f_equal; exact IH|exact IH].
Qed.
End counting.

Section invariant.
Context {A : Type} (capacity : nat).
Implicit Types (p q : pool A).

Record inv p : Prop := mkInv {
  inv_fifo : submitted p = started p ++ mTasks p;
  inv_started : started p ≡ₚ finished p ++ running p;
  inv_workers : length (mWorks p) = capacity;
  inv_stop : mStop p = match phase p with Alive => false | _ => true end;
  inv_wakeup :
    mStop p = true ∨ count is_sleeping (mWorks p) = 0 ∨
    length (mTasks p) ≤ count is_ready (mWorks p) + notifies p;
  inv_notified : phase p = Notified → count is_sleeping (mWorks p) = 0;
  inv_exited : mStop p = false → Exited ∉ mWorks p;
}.

Lemma inv_init : inv (newPool capacity).
Proof.
  split; simpl; try done.
  - unfold running. simpl. induction capacity; [done|]. simpl. done.
  - apply length_replicate.
  - right. right. simpl. lia.
  - intros _ [H _]%elem_of_replicate. done.
Qed.

(** One worker's slot is updated: the histories account for the task it
    holds, and the wakeup budget does not shrink. *)
Lemma inv_slot p q i w w' :
  inv p →
  mWorks p !! i = Some w → mWorks q = <[i := w']> (mWorks p) →
  mStop q = mStop p → phase q = phase p →
  (w' = Exited → mStop p = true) →
  (w' = Sleeping → mStop p = false ∧ mTasks q = []) →
  submitted q = started q ++ mTasks q →
  started q ++ option_list (running_task w) ++ finished p
    ≡ₚ started p ++ option_list (running_task w') ++ finished q →
  mStop p = true ∨ w' = Sleeping ∨
    length (mTasks q) + Nat.b2n (is_ready w) + notifies p
    ≤ length (mTasks p) + Nat.b2n (is_ready w') + notifies q →
  inv q.
Proof.
  intros Hinv E Hws Hs Hp Hex Hsl Hfifo Hperm Hbud.
  pose proof (count_insert is_ready _ _ _ w' E) as Cr.
  pose proof (count_insert is_sleeping _ _ _ w' E) as Cs.
  assert (Csl : is_sleeping w' = true → w' = Sleeping) by by destruct w'.
  destruct Hinv as [_ Hst Hlen Hstop Hwake Hnot Hexd].
  split; rewrite ?Hws, ?Hs, ?Hp; auto.
  - unfold running. rewrite Hws.
    pose proof (running_insert _ _ _ w' E) as Hr.
    apply (Permutation_app_inv_r (option_list (running_task w) ++ finished p)).
    rewrite Hperm, Hst. unfold running.
    trans (finished q ++ (omap running_task (<[i:=w']> (mWorks p))
              ++ option_list (running_task w)) ++ finished p);
      [rewrite Hr|]; solve_Permutation.
  - by rewrite length_insert.
  - destruct (mStop p); [by left|right].
    destruct Hbud as [?|[->|Hbud]]; [done| |].
    { right. destruct (Hsl eq_refl) as [_ ->]. simpl. lia. }
    destruct (is_sleeping w') eqn:Ew; simpl in Cs.
    { right. destruct (Hsl (Csl eq_refl)) as [_ ->]. simpl. lia. }
    destruct Hwake as [?|[?|?]]; [done|left; lia|right; lia].
  - intros Hn. specialize (Hnot Hn).
    destruct (is_sleeping w') eqn:Ew; simpl in Cs; [|lia].
    destruct (Hsl (Csl eq_refl)) as [Hsf _]. rewrite Hsf, Hn in Hstop. done.
  - intros Hsf Hin. apply list_elem_of_lookup in Hin as [j Hj].
    destruct (decide (i = j)) as [<-|Hne].
    + rewrite list_lookup_insert_eq in Hj by by eapply lookup_lt_Some.
      injection Hj as ->. specialize (Hex eq_refl). congruence.
    + rewrite list_lookup_insert_ne in Hj by done.
      apply list_elem_of_lookup_2 in Hj. by apply (Hexd Hsf).
Qed.

Lemma inv_worker i p p' : worker_step i p = Some p' → inv p → inv p'.
Proof.
  unfold worker_step. intros Hstep Hinv. pose proof (inv_fifo p Hinv) as Hf.
  destruct (mWorks p !! i) as [w|] eqn:E; simpl in Hstep; [|done].
  destruct w as [| |t|]; try done.
  - destruct (mStop p) eqn:Es; [|destruct (mTasks p) as [|t ts] eqn:Et].
    + injection Hstep as <-. eapply (inv_slot p); simpl; eauto; done.
    + injection Hstep as <-.
      eapply (inv_slot p); simpl; rewrite ?Et; eauto; done.
    + injection Hstep as <-. eapply (inv_slot p); simpl; eauto; try done.
      * by rewrite Hf, <- (assoc (++)).
      * solve_Permutation.
      * right. right. rewrite Et. simpl. lia.
  - injection Hstep as <-. eapply (inv_slot p); simpl; eauto; try done.
    + solve_Permutation.
    + right. right. simpl. lia.
Qed.

Lemma inv_notify o p p' : notify_one o p = Some p' → inv p → inv p'.
Proof.
  unfold notify_one. intros Hstep Hinv. pose proof (inv_fifo p Hinv) as Hf.
  destruct (notifies p) as [|n] eqn:En; [done|].
  destruct o as [i|].
  - destruct (mWorks p !! i) as [w|] eqn:E; simpl in Hstep; [|done].
    destruct w; simpl in Hstep; try done. injection Hstep as <-.
    eapply (inv_slot p); simpl; eauto; try done. right. right. simpl. lia.
  - destruct (forallb _ _) eqn:Ef; [|done]. injection Hstep as <-.
    apply count_forallb in Ef. destruct Hinv. split; simpl; auto.
Qed.

Lemma inv_spurious i p p' : spurious_wakeup i p = Some p' → inv p → inv p'.
Proof.
  unfold spurious_wakeup. intros Hstep Hinv.
  pose proof (inv_fifo p Hinv) as Hf.
  destruct (mWorks p !! i) as [w|] eqn:E; simpl in Hstep; [|done].
  destruct w; simpl in Hstep; try done. injection Hstep as <-.
  eapply (inv_slot p); simpl; eauto; try done. right. right. simpl. lia.
Qed.

Lemma inv_submit t p p' : submit t p = Done p' → inv p → inv p'.
Proof.
  unfold submit. intros Hstep []. destruct (mStop p) eqn:Es; outcome_inv.
  split; simpl; auto.
  - rewrite inv_fifo0. by rewrite (assoc (++)).
  - rewrite length_app. simpl. destruct inv_wakeup0 as [?|[?|?]]; auto with lia.
Qed.

Lemma inv_set_stop p p' : dtor_set_stop p = Some p' → inv p → inv p'.
Proof.
  unfold dtor_set_stop. intros Hstep [].
  destruct (phase p) eqn:Ep; simplify_eq. split; simpl; auto; done.
Qed.

Lemma inv_notify_all p p' : dtor_notify_all p = Some p' → inv p → inv p'.
Proof.
  unfold dtor_notify_all. intros Hstep [].
  destruct (phase p) eqn:Ep; simplify_eq. split; simpl; auto.
  - unfold running. simpl. by rewrite omap_wake.
  - by rewrite length_fmap.
  - intros _. apply count_wake.
  - intros Hs. congruence.
Qed.

Lemma inv_internal p p' : internal p p' → inv p → inv p'.
Proof. destruct 1; eauto using inv_worker, inv_notify. Qed.

Lemma inv_step p p' : step p p' → inv p → inv p'.
Proof.
  destruct 1; eauto using inv_internal, inv_submit, inv_spurious,
    inv_set_stop, inv_notify_all.
Qed.

Lemma inv_rtc p p' : rtc step p p' → inv p → inv p'.
Proof. induction 1; eauto using inv_step. Qed.

Lemma reachable_inv p : reachable capacity p → inv p.
Proof. intros H. eapply inv_rtc; [exact H|apply inv_init]. Qed.
End invariant.

#[export] Hint Resolve inv_internal inv_step inv_rtc reachable_inv : ffvms.

Section progress.
Context {A : Type}.
Implicit Types (p q : pool A).

Lemma internal_decreases p q :
  internal p q →
  work q + count is_sleeping (mWorks q) * Nat.b2n (mStop p)
  < work p + count is_sleeping (mWorks p) * Nat.b2n (mStop p) ∧
  mStop q = mStop p ∧ phase q = phase p ∧ submitted q = submitted p.
Proof.
  intros Hi. destruct Hi as [i p q Hstep|o p q Hstep].
  - unfold worker_step in Hstep.
    destruct (mWorks p !! i) as [w|] eqn:E; simpl in Hstep; [|done].
    pose proof (fun w' => count_insert is_ready _ _ _ w' E) as Cr.
    pose proof (fun w' => count_insert is_running _ _ _ w' E) as Cn.
    pose proof (fun w' => count_insert is_sleeping _ _ _ w' E) as Cs.
    destruct w as [| |t|]; try done;
      [destruct (mStop p) eqn:Es; [|destruct (mTasks p) eqn:Et]|];
      injection Hstep as <-; unfold work; simpl; rewrite ?Es, ?Et; simpl;
      [specialize (Cr Exited); specialize (Cn Exited); specialize (Cs Exited)
      |specialize (Cr Sleeping); specialize (Cn Sleeping);
       specialize (Cs Sleeping)
      |specialize (Cr (Running a)); specialize (Cn (Running a));
       specialize (Cs (Running a))
      |specialize (Cr Ready); specialize (Cn Ready); specialize (Cs Ready)];
      simpl in *; (split; [|done]); destruct (mStop p); simpl; lia.
  - unfold notify_one in Hstep. destruct (notifies p) as [|n] eqn:En; [done|].
    destruct o as [i|].
    + destruct (mWorks p !! i) as [w|] eqn:E; simpl in Hstep; [|done].
      destruct w; simpl in Hstep; try done. injection Hstep as <-.
      pose proof (count_insert is_ready _ _ _ Ready E).
      pose proof (count_insert is_running _ _ _ Ready E).
      pose proof (count_insert is_sleeping _ _ _ Ready E).
      unfold work; simpl in *; rewrite En; (split; [|done]).
      destruct (mStop p); simpl; lia.
    + destruct (forallb _ _); simplify_eq. unfold work; simpl; rewrite En.
      split; [|done]. lia.
Qed.

Lemma notify_one_enabled p : 0 < notifies p → ∃ q, internal p q.
Proof.
  intros Hn. destruct (notifies p) as [|n] eqn:En; [lia|].
  destruct (count is_sleeping (mWorks p)) as [|k] eqn:Ec.
  - apply count_forallb in Ec. eexists. eapply (internal_notify None).
    unfold notify_one. by rewrite En, Ec.
  - destruct (count_Exists is_sleeping (mWorks p)) as (i & w & E & Hw); [lia|].
    eexists. eapply (internal_notify (Some i)).
    unfold notify_one. rewrite En, E. simpl. by rewrite Hw.
Qed.

Lemma worker_enabled p i w :
  mWorks p !! i = Some w → is_ready w || is_running w = true →
  ∃ q, internal p q.
Proof.
  intros E Hw. destruct (worker_step i p) as [q|] eqn:Es.
  { exists q. by eapply internal_worker. }
  unfold worker_step in Es. rewrite E in Es.
  destruct w; simpl in *; try done. by destruct (mStop p), (mTasks p).
Qed.

(** A pool that cannot move by itself: nobody is awake, nothing is owed. *)
Lemma stuck_shape p :
  nf internal p →
  notifies p = 0 ∧
  ∀ i w, mWorks p !! i = Some w → w = Sleeping ∨ w = Exited.
Proof.
  intros Hnf. split.
  - destruct (notifies p) eqn:En; [done|]. destruct Hnf.
    destruct (notify_one_enabled p) as [q ?]; [lia|]. by exists q.
  - intros i w E. destruct w as [| |t|]; auto; destruct Hnf;
      destruct (worker_enabled p i _ E eq_refl) as [q ?]; by exists q.
Qed.

Lemma stuck_running p : nf internal p → running p = [] ∧ count is_ready (mWorks p) = 0.
Proof.
  intros [_ Hw]%stuck_shape. split.
  - unfold running. induction (mWorks p) as [|w ws IH]; simpl; [done|].
    destruct (Hw 0 w eq_refl) as [-> | ->]; simpl;
      apply IH; intros i v Hv; by apply (Hw (S i)).
  - apply count_0. intros i w [-> | ->]%Hw; done.
Qed.

Lemma internal_sn p : sn internal p.
Proof.
  assert (Hlt : ∀ n p', work p' + count is_sleeping (mWorks p')
                          * Nat.b2n (mStop p') < n → sn internal p').
  { induction n as [|n IH]; [lia|]. intros p' Hn. constructor.
    intros q Hq. apply IH.
    destruct (internal_decreases _ _ Hq) as (Hd & Hs & _).
    rewrite Hs. lia. }
  eapply Hlt, Nat.lt_succ_diag_r.
Qed.

Lemma rtc_internal p q :
  rtc internal p q →
  mStop q = mStop p ∧ phase q = phase p ∧ submitted q = submitted p.
Proof.
  induction 1 as [|x y z Hxy _ IH]; [done|].
  destruct (internal_decreases _ _ Hxy) as (_ & ? & ? & ?).
  destruct IH as (?&?&?). repeat split; congruence.
Qed.

(** Once [mStop] is set it stays set and no task starts. *)
Lemma stopped_step p q :
  step p q → mStop p = true →
  mStop q = true ∧ started q = started p ∧ mTasks q = mTasks p.
Proof.
  intros Hstep. destruct Hstep as [a b Hi|t a b H|i a b H|a b H|a b H];
    [destruct Hi as [i a b H|o a b H]|..]; intros Hs.
  - unfold worker_step in H. destruct (mWorks a !! i) as [[]|]; simpl in H;
      rewrite ?Hs in H; simplify_eq; done.
  - unfold notify_one in H. destruct (notifies a); [done|].
    destruct o as [i|].
    + destruct (mWorks a !! i) as [[]|]; simpl in H; simplify_eq; done.
    + destruct (forallb _ _); simplify_eq; done.
  - unfold submit in H. by rewrite Hs in H.
  - unfold spurious_wakeup in H.
    destruct (mWorks a !! i) as [[]|]; simpl in H; simplify_eq; done.
  - unfold dtor_set_stop in H. destruct (phase a); simplify_eq; done.
  - unfold dtor_notify_all in H. destruct (phase a); simplify_eq; done.
Qed.

Lemma stopped_rtc p q :
  rtc step p q → mStop p = true → started q = started p ∧ mTasks q = mTasks p.
Proof.
  induction 1 as [|x y z Hxy _ IH]; [done|]. intros Hs.
  destruct (stopped_step _ _ Hxy Hs) as (Hs' & <- & <-). by apply IH.
Qed.
End progress.

(** * Shutting down, and a pool of one worker *)

Section shutdown.
Context {A : Type}.
Implicit Types (p q : pool A).

Lemma shutdown_step p q : shutdown p q → step p q.
Proof. destruct 1; [by apply step_internal|by apply step_notify_all]. Qed.

(** The measure of a pool whose destructor runs. *)
Definition shutdown_work p : nat :=
  work p + count is_sleeping (mWorks p)
  + match phase p with Notified => 0 | _ => 1 end.

Lemma count_wake_ready (ws : list (wstate A)) :
  count is_ready (wake <$> ws) = count is_ready ws + count is_sleeping ws.
Proof.
  unfold count. induction ws as [|w ws IH]; csimpl; [done|].
  rewrite IH. destruct w; simpl; lia.
Qed.

Lemma count_wake_running (ws : list (wstate A)) :
  count is_running (wake <$> ws) = count is_running ws.
Proof.
  unfold count. induction ws as [|w ws IH]; csimpl; [done|].
  rewrite IH. by destruct w.
Qed.

Lemma shutdown_decreases p q :
  shutdown p q → mStop p = true →
  shutdown_work q < shutdown_work p ∧ mStop q = true.
Proof.
  intros Hsd. destruct Hsd as [a b H|a b H]; intros Hs; unfold shutdown_work.
  - destruct (internal_decreases _ _ H) as (Hd & Hs' & Hp & _).
    rewrite Hs' in *. rewrite Hs in *. simpl in Hd. rewrite Hp. split; [lia|done].
  - unfold dtor_notify_all in H. destruct (phase a) eqn:Ep; simplify_eq.
    split; [|done]. unfold work. simpl.
    rewrite count_wake, count_wake_ready, count_wake_running. lia.
Qed.

Lemma shutdown_sn p : mStop p = true → sn shutdown p.
Proof.
  assert (Hlt : ∀ n p', shutdown_work p' < n → mStop p' = true →
                        sn shutdown p').
  { induction n as [|n IH]; [lia|]. intros p' Hn Hs. constructor.
    intros q Hq. destruct (shutdown_decreases _ _ Hq Hs).
    apply IH; [lia|done]. }
  eapply Hlt, Nat.lt_succ_diag_r.
Qed.

Lemma rtc_shutdown_step p q : rtc shutdown p q → rtc step p q.
Proof. apply rtc_subrel. apply shutdown_step. Qed.

(** A destructor that cannot move has joined every worker. *)
Lemma shutdown_stuck capacity p :
  inv capacity p → mStop p = true → nf shutdown p → dtor_joins p = true.
Proof.
  intros Hinv Hs Hnf. unfold dtor_joins.
  assert (Hi : nf internal p).
  { intros [q Hq]. apply Hnf. exists q. by apply shutdown_internal. }
  destruct (phase p) eqn:Ep.
  - pose proof (inv_stop _ _ Hinv) as H. rewrite Ep, Hs in H. done.
  - destruct Hnf. eexists. eapply shutdown_notify_all.
    unfold dtor_notify_all. by rewrite Ep.
  - pose proof (inv_notified _ _ Hinv Ep) as Hsl.
    apply stuck_shape in Hi as [_ Hw].
    apply forallb_forall. intros w Hin%list_elem_of_In.
    apply list_elem_of_lookup in Hin as [i Hi].
    destruct (Hw _ _ Hi) as [-> | ->]; [|done].
    by apply (proj1 (count_0 _ _) Hsl) in Hi.
Qed.

(** With one worker the tasks run one after the other. *)
Lemma single_step p q :
  step p q → length (mWorks p) = 1 → started p = finished p ++ running p →
  length (mWorks q) = 1 ∧ started q = finished q ++ running q.
Proof.
  intros Hstep Hl. destruct (mWorks p) as [|w [|]] eqn:Ew; try done. clear Hl.
  unfold running. rewrite Ew. simpl. revert Ew.
  destruct Hstep as [a b Hi|t a b H|i a b H|a b H|a b H];
    [destruct Hi as [[|i] a b H|o a b H]|..]; intros Ew Hst.
  - unfold worker_step in H. rewrite Ew in H. simpl in H.
    destruct w as [| |t|]; try done; simpl in *.
    + destruct (mStop a); [|destruct (mTasks a)]; simplify_eq; simpl;
        rewrite ?Ew; simpl; rewrite Hst; try done; by rewrite app_nil_r.
    + simplify_eq; simpl. by rewrite app_nil_r.
  - unfold worker_step in H. by rewrite Ew in H.
  - unfold notify_one in H. rewrite Ew in H. destruct (notifies a); [done|].
    destruct o as [[|i]|]; simpl in H; try done;
      destruct w; simpl in H; simplify_eq; done.
  - unfold submit in H. destruct (mStop a); outcome_inv. simpl. by rewrite Ew.
  - unfold spurious_wakeup in H. rewrite Ew in H.
    destruct i as [|i]; simpl in H; [|done].
    destruct w; simpl in H; simplify_eq. simpl. by rewrite Ew.
  - unfold dtor_set_stop in H. destruct (phase a); simplify_eq. simpl. by rewrite Ew.
  - unfold dtor_notify_all in H. destruct (phase a); simplify_eq. simpl.
    rewrite Ew. simpl. split; [done|]. by destruct w.
Qed.

Lemma single_rtc p q :
  rtc step p q → length (mWorks p) = 1 → started p = finished p ++ running p →
  length (mWorks q) = 1 ∧ started q = finished q ++ running q.
Proof.
  induction 1 as [|x y z Hxy _ IH]; [done|]. intros Hl Hs.
  destruct (single_step _ _ Hxy Hl Hs). by apply IH.
Qed.

Lemma single_order p :
  reachable 1 p → submitted p = finished p ++ running p ++ mTasks p.
Proof.
  intros Hr. destruct (single_rtc _ _ Hr eq_refl eq_refl) as [_ Hst].
  by rewrite (inv_fifo _ _ (reachable_inv _ _ Hr)), Hst, <- (assoc (++)).
Qed.
End shutdown.

(** * Properties *)

(** C27: tasks are started in the order they were submitted, each one at most
    once and none is lost: at every moment the submitted tasks are the started
    ones followed by the queue, and the started ones are those that finished
    and those a worker runs. *)
Theorem pool_fifo {A : Type} (capacity : nat) (p : pool A)
    (Hreach : reachable capacity p) :
  submitted p = started p ++ mTasks p ∧ started p ≡ₚ finished p ++ running p ∧
  length (running p) ≤ capacity.
Proof.
  apply reachable_inv in Hreach as Hinv.
  split; [apply Hinv|split; [apply Hinv|]].
  rewrite <- (inv_workers _ _ Hinv). unfold running.
  induction (mWorks p) as [|w ws IH]; csimpl; [lia|].
  destruct w; csimpl; lia.
Qed.

(** A pool of one worker, which is how the network server builds its
    workers, runs its tasks one after the other in the order of submission. *)
Theorem pool_single_worker_order {A : Type} (p : pool A)
    (Hreach : reachable 1 p) :
  submitted p = finished p ++ running p ++ mTasks p ∧ length (running p) ≤ 1.
Proof.
  split; [by apply single_order|].
  destruct (single_rtc _ _ Hreach eq_refl eq_refl) as [Hl _].
  unfold running. destruct (mWorks p) as [|[] [|]]; simpl in *; lia.
Qed.

(** A pool that lives and cannot move by itself has nothing left to do. *)
Lemma stuck_drained {A : Type} (capacity : nat) (q : pool A) :
  inv capacity q → 0 < capacity → mStop q = false → nf internal q →
  mTasks q = [] ∧ running q = [].
Proof.
  intros Hinv Hcap Hs Hnf. destruct (stuck_running _ Hnf) as [Hrun Hrd].
  destruct (stuck_shape _ Hnf) as [Hn Hw]. split; [|done].
  destruct (inv_wakeup _ _ Hinv) as [?|[Hz|Hle]]; [congruence| |].
  - pose proof (inv_workers _ _ Hinv) as Hl.
    destruct (mWorks q) as [|w ws] eqn:Ew; [simpl in Hl; lia|].
    destruct (Hw 0 w eq_refl) as [-> | ->]; [by apply count_0 with (i := 0) (w := Sleeping) in Hz|].
    destruct (inv_exited _ _ Hinv); [congruence|]. rewrite Ew. set_solver.
  - apply nil_length_inv. lia.
Qed.

(** What a pool does by itself: a step of a worker, a wake-up that is owed or a
    spurious one. *)
Definition moves {A : Type} (p p' : pool A) : Prop :=
  internal p p' ∨ ∃ j, spurious_wakeup j p = Some p'.

Lemma moves_step {A : Type} (p p' : pool A) :
  moves p p' → step p p' ∧ mStop p' = mStop p ∧ submitted p' = submitted p.
Proof.
  intros [Hi|[k Hk]].
  - apply internal_decreases in Hi as Hd. destruct Hd as (_ & ? & _ & ?).
    split_and!; [by apply step_internal|done|done].
  - split; [by eapply step_spurious|]. unfold spurious_wakeup in Hk.
    destruct (mWorks p !! k); simpl in Hk; [|done].
    destruct (is_sleeping _); simplify_eq. done.
Qed.

(** It finishes one task at most. *)
Lemma moves_finished {A : Type} (p p' : pool A) :
  moves p p' → ∃ r, finished p' = finished p ++ r ∧ length r ≤ 1.
Proof.
  intros [[i a b H|o a b H]|[k Hk]].
  - unfold worker_step in H. destruct (mWorks a !! i) as [[| |t|]|]; simpl in H; try done.
    + destruct (mStop a); [|destruct (mTasks a)]; simplify_eq; exists [];
        rewrite app_nil_r; (split; [done|simpl; lia]).
    + simplify_eq. by exists [t].
  - exists []. rewrite app_nil_r. unfold notify_one in H. destruct (notifies a); [done|].
    destruct o as [i|].
    + destruct (mWorks a !! i) as [[]|]; simpl in H; simplify_eq; (split; [done|simpl; lia]).
    + destruct (forallb _ _); simplify_eq. split; [done|simpl; lia].
  - exists []. rewrite app_nil_r. unfold spurious_wakeup in Hk.
    destruct (mWorks p !! k) as [w|]; simpl in Hk; [|done].
    destruct (is_sleeping w); simplify_eq. split; [done|simpl; lia].
Qed.

(** C28: no wakeup is lost. As long as the destructor has not run, a pool with
    a worker that is left to itself stops moving after finitely many steps,
    whatever the scheduler does, and only when it has finished every task
    submitted to it. *)
Theorem pool_drains {A : Type} (capacity : nat) (p : pool A)
    (Hreach : reachable capacity p) (Hcap : 0 < capacity)
    (Halive : mStop p = false) :
  sn internal p ∧
  ∀ q, rtc internal p q → nf internal q →
    mTasks q = [] ∧ finished q ≡ₚ submitted p.
Proof.
  split; [apply internal_sn|]. intros q Hpq Hnf.
  apply rtc_internal in Hpq as Hkeep. destruct Hkeep as (Hs & _ & Hsub).
  assert (Hinv : inv capacity q).
  { apply reachable_inv. unfold reachable in *; etrans; [exact Hreach|].
    by eapply rtc_subrel; [|exact Hpq]; apply step_internal. }
  destruct (stuck_drained capacity q Hinv Hcap) as [Hq Hrun]; [congruence|done|].
  split; [done|]. rewrite <- Hsub, (inv_fifo _ _ Hinv), (inv_started _ _ Hinv).
  by rewrite Hrun, Hq, !app_nil_r.
Qed.

(** Workers that have been joined run nothing. *)
Lemma joined_running {A} (q : pool A) : dtor_joins q = true → running q = [].
Proof.
  unfold dtor_joins, running. destruct (phase q); [done..|].
  induction (mWorks q) as [|[] ws IH]; simpl; done.
Qed.

(** C29: once [mStop] is set, [submit] throws and no further task starts: the
    queued ones are dropped; and the destructor terminates, it never waits for
    a worker that sleeps forever. When it has joined the workers, every task that
    was started has run to its end. *)
Theorem pool_shutdown {A : Type} (capacity : nat) (p : pool A)
    (Hreach : reachable capacity p) (Hstop : mStop p = true) :
  (∀ t, submit t p = Fault (Throw "submit to stopped ThreadPool")) ∧
  (∀ q, rtc step p q → started q = started p ∧ mTasks q = mTasks p) ∧
  sn shutdown p ∧
  (∀ q, rtc shutdown p q → nf shutdown q →
     dtor_joins q = true ∧ finished q ≡ₚ started p).
Proof.
  split; [intros t; unfold submit; by rewrite Hstop|].
  split; [intros q Hq; by apply stopped_rtc|].
  split; [by apply shutdown_sn|].
  intros q Hq Hnf. apply rtc_shutdown_step in Hq as Hpq.
  assert (Hinv : inv capacity q).
  { apply reachable_inv. unfold reachable in *. by etrans. }
  assert (Hj : dtor_joins q = true).
  { eapply (shutdown_stuck capacity); [done|clear Hnf|done].
    revert Hq Hstop. clear. induction 1; [done|]. intros Hs.
    apply IHHq. by eapply shutdown_decreases. }
  split; [done|]. destruct (stopped_rtc _ _ Hpq Hstop) as [<- _].
  by rewrite (inv_started _ _ Hinv), (joined_running q Hj), app_nil_r.
Qed.

(** ** Witnesses *)

Section demo.
(** One worker, one task in hand, one queued, one notification owed. *)
Definition demo_pool : pool nat :=
  mkPool [Running 7] [9] false 2 Alive [7; 9] [7] [].

Lemma demo_reachable : reachable 1 demo_pool.
Proof.
  eapply rtc_l; [by apply (step_submit 7)|].
  eapply rtc_l; [by apply step_internal, (internal_worker 0)|].
  eapply rtc_l; [by apply (step_submit 9)|]. apply rtc_refl.
Qed.

Definition demo_stopped : pool nat :=
  mkPool [Running 7] [9] true 2 StopSet [7; 9] [7] [].

Lemma demo_stopped_reachable : reachable 1 demo_stopped.
Proof.
  eapply rtc_r; [apply demo_reachable|]. by apply step_stop.
Qed.
End demo.

Lemma pool_fifo_witness :
  submitted demo_pool = started demo_pool ++ mTasks demo_pool ∧
  started demo_pool ≡ₚ finished demo_pool ++ running demo_pool ∧
  length (running demo_pool) ≤ 1.
Proof. apply (pool_fifo 1 demo_pool demo_reachable). Defined.

Lemma pool_single_worker_order_witness :
  submitted demo_pool = [] ++ [7] ++ [9] ∧ 1 ≤ 1.
Proof. apply (pool_single_worker_order demo_pool demo_reachable). Defined.

Lemma pool_drains_witness :
  sn internal demo_pool ∧
  ∀ q, rtc internal demo_pool q → nf internal q →
    mTasks q = [] ∧ finished q ≡ₚ [7; 9].
Proof.
  apply (pool_drains 1 demo_pool demo_reachable); [lia|reflexivity].
Defined.

Lemma pool_shutdown_witness :
  submit 8 demo_stopped = Fault (Throw "submit to stopped ThreadPool") ∧
  ∀ q, rtc shutdown demo_stopped q → nf shutdown q → finished q ≡ₚ [7].
Proof.
  destruct (pool_shutdown 1 demo_stopped demo_stopped_reachable eq_refl)
    as (Hsub & _ & _ & Hend).
  split; [apply Hsub|]. intros q Hq Hnf. by apply Hend.
Defined.
