(* ===== verification/NetworkServer.v ===== *)
(** core/include/network_server.h and core/src/network_server.cpp: the UDP
    server that feeds RTP packets to the registered peers.

    Modelled: the two receive buffers used in turn, the read callback of a
    [UdpEventLoop] with its synchronous and its worker-thread dispatch, the
    table of peers, [initUdpServer] with the order in which it starts the
    event loops and creates the buffers, and the naming of peers. Sockets and
    libevent are the environment: a call of the read callback is given the
    datagrams that [recvfrom] returns before it fails with [EAGAIN].

    The position in the buffers is shared by all event loops. [loop_step] is what a
    loop does between two points at which another one may come in, and [net_run]
    are the runs of any number of loops and workers made of it; [receive_loop] is a
    callback that runs alone ([receive_loop_alone]). *)

From Stdlib Require Import Ascii.
From stdpp Require Import base gmap strings list pretty numbers relations.
From S2P Require Import Prelude ThreadPool.

Local Open Scope Z_scope.

(** * Peers *)

(** [sin_addr] as its four bytes in memory, [sin_port] as the 16-bit word in
    network byte order. *)
Record sockaddr_in : Type := mkSockaddr {
  sin_addr : Z * Z * Z * Z;
  sin_port : Z;
}.

(** [htons] of a little-endian machine swaps the two bytes. *)
Definition htons (w : Z) : Z :=
  Z.lor (Z.shiftl (Z.land w 255) 8) (Z.land (Z.shiftr w 8) 255).

Definition inet_ntoa (a : Z * Z * Z * Z) : string :=
  let '(b0, b1, b2, b3) := a in
  pretty b0 +:+ "." +:+ pretty b1 +:+ "." +:+ pretty b2 +:+ "." +:+ pretty b3.

(** [fmt::format("{}:{}", inet_ntoa(addr->sin_addr), htons(addr->sin_port))] *)
Definition peer_name (a : sockaddr_in) : string :=
  inet_ntoa (sin_addr a) +:+ ":" +:+ pretty (htons (sin_port a)).

(** * State *)

(** One of [mpReceiveBuffers]: its size and, by the offset at which they were
    received, the bytes [recvfrom] last wrote there. *)
Record buffer : Type := mkBuffer {
  buf_size : Z;
  buf_data : gmap Z (list Z);
}.

(** A pointer into a receive buffer: which buffer, which offset. *)
Definition slot : Type := nat * Z.

(** What the lambda submitted to a worker captures. *)
Record task : Type := mkTask {
  task_peer : string;
  task_data : slot;
  task_len : nat;
}.

Section network_server.
  (** The closures passed as [ProcessDataFunction]. *)
Context {F : Type}.

Record Peer : Type := mkPeer {
  name : string;
  processFunc : F;
}.

Record NetworkServer : Type := mkNetworkServer {
  mpUdpWorkers : nat;
  mpUdpWorkerThreads : list (pool task);
  mpReceiveBuffers : list buffer;
  mBufferSize : option Z;
  mReceiveBufferIndex : nat;
  mCurPosition : Z;
  mRegisteredPeers : gmap string Peer;
}.

(** What the server does to the rest of the program: it counts received bytes
    in the peer's counter and calls the peer's function on the data. *)
Inductive net_event : Type :=
| Increment (metric : string) (bytes : Z)
| Process (f : F) (data : list Z).

(** * Operations *)

(** The constructor: [mBufferSize] is not initialised. *)
Definition newNetworkServer : NetworkServer :=
  mkNetworkServer 0 [] [] None 0 0 ∅.

(** [registerPeer] and [unRegisterPeer]; the constructor of [Peer] creates
    the "received bytes" counter of the peer. *)
Definition registerPeer (peer : string) (f : F) (s : NetworkServer) : NetworkServer :=
  match mRegisteredPeers s !! peer with
  | None =>
      mkNetworkServer (mpUdpWorkers s) (mpUdpWorkerThreads s) (mpReceiveBuffers s)
        (mBufferSize s) (mReceiveBufferIndex s) (mCurPosition s)
        (<[peer := mkPeer peer f]> (mRegisteredPeers s))
  | Some _ => s
  end.

Definition unRegisterPeer (peer : string) (s : NetworkServer) : NetworkServer :=
  mkNetworkServer (mpUdpWorkers s) (mpUdpWorkerThreads s) (mpReceiveBuffers s)
    (mBufferSize s) (mReceiveBufferIndex s) (mCurPosition s)
    (delete peer (mRegisteredPeers s)).

(** The critical section of [mBufferMutex] in the read callback: take the next
    1600 bytes, switching to the other buffer when this one is full. *)
Definition alloc_slot (s : NetworkServer) : outcome (slot * NetworkServer) :=
  size ← of_option UninitRead (mBufferSize s);
  next ← ck32 (mCurPosition s + 1600);
  let switch := size <=? next in
  let idx := if switch then Nat.lxor (mReceiveBufferIndex s) 1
             else mReceiveBufferIndex s in
  let pos := if switch then 0 else mCurPosition s in
  _ ← of_option OutOfBounds (mpReceiveBuffers s !! idx);
  pos' ← ck32 (pos + 1600);
  Done ((idx, pos),
        mkNetworkServer (mpUdpWorkers s) (mpUdpWorkerThreads s)
          (mpReceiveBuffers s) (mBufferSize s) idx pos' (mRegisteredPeers s)).

(** [recvfrom(sock, data, 1600, ...)] stores at most 1600 bytes of the
    datagram at [data] and returns how many. *)
Definition recvfrom (sl : slot) (payload : list Z) (s : NetworkServer)
  : outcome (nat * NetworkServer) :=
  let bytes := take 1600 payload in
  b ← of_option OutOfBounds (mpReceiveBuffers s !! sl.1);
  _ ← require (bool_decide (0 ≤ sl.2 ∧ sl.2 + Z.of_nat (length bytes) ≤ buf_size b))
        OutOfBounds;
  let old := default [] (buf_data b !! sl.2) in
  let b' := mkBuffer (buf_size b)
              (<[sl.2 := bytes ++ drop (length bytes) old]> (buf_data b)) in
  Done (length bytes,
        mkNetworkServer (mpUdpWorkers s) (mpUdpWorkerThreads s)
          (<[sl.1 := b']> (mpReceiveBuffers s)) (mBufferSize s)
          (mReceiveBufferIndex s) (mCurPosition s) (mRegisteredPeers s)).

(** The [len] bytes behind a pointer into a receive buffer. *)
Definition read_slot (sl : slot) (len : nat) (s : NetworkServer) : list Z :=
  match mpReceiveBuffers s !! sl.1 with
  | Some b => take len (default [] (buf_data b !! sl.2))
  | None => []
  end.

(** The dispatch of a datagram, the same in the callback and in the lambda a
    worker runs: [None] when the peer is not registered. *)
Definition dispatch (t : task) (s : NetworkServer) : option (list net_event) :=
  p ← mRegisteredPeers s !! task_peer t;
  Some [Increment (name p) (Z.of_nat (task_len t));
        Process (processFunc p) (read_slot (task_data t) (task_len t) s)].

(** The task a worker runs. *)
Definition run_task (t : task) (s : NetworkServer) : list net_event :=
  default [] (dispatch t s).

(** [std::hash<std::string>{}(peer) % mpUdpWorkerThreads.size()] *)
Definition worker_index (std_hash : string → Z) (peer : string) (n : nat) : nat :=
  Z.to_nat (u64 (std_hash peer) mod Z.of_nat n).

(** [mpUdpWorkerThreads[idx]->submit(...)] *)
Definition submit_to (idx : nat) (t : task) (s : NetworkServer)
  : outcome NetworkServer :=
  p ← of_option OutOfBounds (mpUdpWorkerThreads s !! idx);
  p' ← submit t p;
  Done (mkNetworkServer (mpUdpWorkers s) (<[idx := p']> (mpUdpWorkerThreads s))
          (mpReceiveBuffers s) (mBufferSize s) (mReceiveBufferIndex s)
          (mCurPosition s) (mRegisteredPeers s)).

Definition EV_TIMEOUT : Z := 1.
Definition EV_READ : Z := 2.

(** [!which & EV_READ]: the negation binds tighter than [&]. *)
Definition event_ignored (which : Z) : bool :=
  negb (Z.land (if which =? 0 then 1 else 0) EV_READ =? 0).

(** Where an event loop is in the read callback: it waits for its socket, is at the
    top of the [while (true)], has taken a slot, or has received a datagram. *)
Inductive loop_state : Type :=
| Returned
| AtTop
| Holds (data : slot)
| Got (t : task).

(** One step of a loop: the callback is called; it takes a slot under
    [mBufferMutex]; [recvfrom] fills the slot, or finds the socket empty, [None];
    the datagram is dispatched or submitted to the worker of its peer. *)
Definition loop_step (std_hash : string → Z) (dg : option (sockaddr_in * list Z))
    (ls : loop_state) (s : NetworkServer)
  : outcome (loop_state * NetworkServer * list net_event) :=
  match ls with
  | Returned => Done (AtTop, s, [])
  | AtTop => '(data, s) ← alloc_slot s; Done (Holds data, s, [])
  | Holds data =>
      match dg with
      | None => Done (Returned, s, [])
      | Some (addr, payload) =>
          '(len, s) ← recvfrom data payload s;
          Done (Got (mkTask (peer_name addr) data len), s, [])
      end
  | Got t =>
      match mpUdpWorkerThreads s with
      | [] =>
          match dispatch t s with
          | None => Done (Returned, s, [])
          | Some evs => Done (AtTop, s, evs)
          end
      | _ :: _ =>
          let n := length (mpUdpWorkerThreads s) in
          s ← submit_to (worker_index std_hash (task_peer t) n) t s;
          Done (AtTop, s, [])
      end
  end.

(** The [while (true)] of the read callback on the datagrams the socket holds;
    the datagrams it leaves there are returned with the events. *)
Fixpoint receive_loop (std_hash : string → Z)
    (sock : list (sockaddr_in * list Z)) (s : NetworkServer)
  : outcome (NetworkServer * list (sockaddr_in * list Z) * list net_event) :=
  '(data, s) ← alloc_slot s;
  match sock with
  | [] => Done (s, [], [])
  | (addr, payload) :: sock' =>
      '(len, s) ← recvfrom data payload s;
      let peer := peer_name addr in
      let t := mkTask peer data len in
      match mpUdpWorkerThreads s with
      | [] =>
          match dispatch t s with
          | None => Done (s, sock', [])
          | Some evs =>
              '(s, rest, evs') ← receive_loop std_hash sock' s;
              Done (s, rest, evs ++ evs')
          end
      | _ :: _ =>
          let n := length (mpUdpWorkerThreads s) in
          s ← submit_to (worker_index std_hash peer n) t s;
          receive_loop std_hash sock' s
      end
  end.

(** The read callback of [UdpEventLoop::Init]. *)
Definition on_readable (std_hash : string → Z) (which : Z)
    (sock : list (sockaddr_in * list Z)) (s : NetworkServer)
  : outcome (NetworkServer * list (sockaddr_in * list Z) * list net_event) :=
  if event_ignored which then Done (s, sock, [])
  else receive_loop std_hash sock s.

(** [NetworkServer::Config] *)
Record NetworkConfig : Type := mkNetworkConfig {
  port : Z;
  event_loop_num : Z;
  async_worker_num : Z;
}.

(** What the system calls of [UdpEventLoop::Init] return. *)
Record udp_env : Type := mkUdpEnv {
  setsockopt_rcvbuf : Z;
  setsockopt_reuseport : Z;
  bind_ret : Z;
  evthread_use_pthreads_ret : Z;
  event_base_new_ok : bool;
}.

(** [UdpEventLoop::Init]: any failure is fatal. *)
Definition UdpEventLoop_Init (env : udp_env) : outcome unit :=
  _ ← require (0 <=? setsockopt_rcvbuf env) LogFatal;
  _ ← require (0 <=? setsockopt_reuseport env) LogFatal;
  _ ← require (bind_ret env =? 0) LogFatal;
  _ ← require (evthread_use_pthreads_ret env =? 0) LogFatal;
  require (event_base_new_ok env) LogFatal.

(** [startUdpEventLoop]: from here on the read callback may run. *)
Definition startUdpEventLoop (env : udp_env) (s : NetworkServer)
  : outcome NetworkServer :=
  _ ← UdpEventLoop_Init env;
  Done (mkNetworkServer (S (mpUdpWorkers s)) (mpUdpWorkerThreads s)
          (mpReceiveBuffers s) (mBufferSize s) (mReceiveBufferIndex s)
          (mCurPosition s) (mRegisteredPeers s)).

Fixpoint start_loops (env : udp_env) (n : nat) (s : NetworkServer)
  : outcome NetworkServer :=
  match n with
  | O => Done s
  | S n' => s' ← startUdpEventLoop env s; start_loops env n' s'
  end.

(** [new char[n]] *)
Definition new_chars (n : Z) : outcome buffer :=
  if n <? 0 then Fault (Throw "bad_array_new_length") else Done (mkBuffer n ∅).

(** The part of [initUdpServer] between the two loops over threads. *)
Definition init_buffers (eventNum : Z) (s : NetworkServer)
  : outcome NetworkServer :=
  n1 ← ck32 (eventNum * 20);
  n2 ← ck32 (n1 * 1024);
  size ← ck32 (n2 * 1024);
  b0 ← new_chars size;
  b1 ← new_chars size;
  Done (mkNetworkServer (mpUdpWorkers s) (mpUdpWorkerThreads s)
          (mpReceiveBuffers s ++ [b0; b1]) (Some size) (mReceiveBufferIndex s)
          (mCurPosition s) (mRegisteredPeers s)).

Definition init_workers (workerNum : Z) (s : NetworkServer) : NetworkServer :=
  mkNetworkServer (mpUdpWorkers s)
    (mpUdpWorkerThreads s ++ replicate (Z.to_nat workerNum) (newPool 1))
    (mpReceiveBuffers s) (mBufferSize s) (mReceiveBufferIndex s)
    (mCurPosition s) (mRegisteredPeers s).

(** [-1] stands for [std::thread::hardware_concurrency()]. *)
Definition thread_number (hardware_concurrency n : Z) : Z :=
  if n =? -1 then hardware_concurrency else n.

Definition initUdpServer (env : udp_env) (hardware_concurrency : Z)
    (config : NetworkConfig) (s : NetworkServer) : outcome NetworkServer :=
  let eventNum := thread_number hardware_concurrency (event_loop_num config) in
  s ← start_loops env (Z.to_nat eventNum) s;
  s ← init_buffers eventNum s;
  let workerNum := thread_number hardware_concurrency (async_worker_num config) in
  Done (init_workers workerNum s).

End network_server.
Arguments Peer F : clear implicits.
Arguments NetworkServer F : clear implicits.
Arguments net_event F : clear implicits.

(** The steps of one loop from the top of the [while] until it returns. *)
Fixpoint loop_alone {F} (std_hash : string → Z) (sock : list (sockaddr_in * list Z))
    (s : NetworkServer F)
  : outcome (NetworkServer F * list (sockaddr_in * list Z) * list (net_event F)) :=
  '(ls, s, _) ← loop_step std_hash None AtTop s;
  match sock with
  | [] => '(_, s, _) ← loop_step std_hash None ls s; Done (s, [], [])
  | dg :: sock' =>
      '(ls, s, _) ← loop_step std_hash (Some dg) ls s;
      '(ls, s, evs) ← loop_step std_hash None ls s;
      match ls with
      | Returned => Done (s, sock', evs)
      | _ => '(s, rest, evs') ← loop_alone std_hash sock' s; Done (s, rest, evs ++ evs')
      end
  end.

(** A callback that nobody interrupts. *)
Lemma receive_loop_alone {F} (std_hash : string → Z)
    (sock : list (sockaddr_in * list Z)) (s : NetworkServer F) :
  receive_loop std_hash sock s = loop_alone std_hash sock s.
Proof.
  revert s. induction sock as [|[addr payload] sock IH]; intros s;
    cbn [receive_loop loop_alone loop_step];
    destruct (alloc_slot s) as [[data s1]|]; orun; [done|done| |done].
  cbn [loop_step]. destruct (recvfrom data payload s1) as [[len s2]|]; orun; [|done].
  cbn [loop_step]. destruct (mpUdpWorkerThreads s2) as [|w ws].
  - destruct (dispatch _ s2) as [evs|]; [|done]. orun. by rewrite IH.
  - cbn [task_peer]. destruct (submit_to _ _ s2) as [s3|]; orun; [|done]. rewrite IH.
    by destruct (loop_alone std_hash sock s3) as [[[s4 rest] evs]|].
Qed.

(** * The slots in closed form *)

#[local] Arguments Nat.modulo : simpl never.
#[local] Arguments Nat.div : simpl never.

(** How many slots the callback takes from a buffer before it switches. *)
Definition slots_per_buffer (size : Z) : nat := Z.to_nat ((size - 1) / 1600).

(** The slot of the [n]-th reception since the server was initialised. *)
Definition slot_of (size : Z) (n : nat) : slot :=
  let K := slots_per_buffer size in
  (Nat.modulo (Nat.div n K) 2, 1600 * Z.of_nat (Nat.modulo n K)).

(** The receive buffers are in place and the next reception is number [n]. *)
Record buffers_at {F} (size : Z) (n : nat) (s : NetworkServer F) : Prop := {
  at_size : mBufferSize s = Some size;
  at_range : 1600 < size ∧ size + 1600 < 2 ^ 31;
  at_buffers : ∃ d0 d1, mpReceiveBuffers s = [mkBuffer size d0; mkBuffer size d1];
  at_index : (mReceiveBufferIndex s < 2)%nat;
  at_position : ∃ k, mCurPosition s = 1600 * Z.of_nat k ∧
    let K := slots_per_buffer size in
    ((k < K)%nat ∧ mReceiveBufferIndex s = Nat.modulo (Nat.div n K) 2 ∧
       k = Nat.modulo n K
     ∨ k = K ∧ Nat.modulo n K = 0%nat ∧
       mReceiveBufferIndex s ≠ Nat.modulo (Nat.div n K) 2);
}.

Lemma slots_per_buffer_spec size :
  1600 < size →
  (0 < slots_per_buffer size)%nat ∧
  ∀ k, (k < slots_per_buffer size)%nat ↔ 1600 * (Z.of_nat k + 1) < size.
Proof.
  intros Hs. unfold slots_per_buffer.
  pose proof (Z.div_mod (size - 1) 1600 ltac:(lia)).
  pose proof (Z.mod_pos_bound (size - 1) 1600 ltac:(lia)).
  split; [lia|]. intros k. split; lia.
Qed.

Lemma nat_succ_div_mod (n K : nat) :
  (0 < K)%nat →
  (S (n mod K) < K ∧ S n / K = n / K ∧ S n mod K = S (n mod K) ∨
   S (n mod K) = K ∧ S n / K = S (n / K) ∧ S n mod K = 0)%nat.
Proof.
  intros HK. pose proof (Nat.div_mod_eq n K) as Hn.
  pose proof (Nat.mod_upper_bound n K ltac:(lia)) as Hr.
  destruct (decide (S (n mod K) < K)%nat) as [Hlt|Hge].
  - left. split; [done|]. split.
    + symmetry. apply (Nat.div_unique _ _ _ (S (n mod K))); lia.
    + symmetry. apply (Nat.mod_unique _ _ (n / K)%nat); lia.
  - right. split; [lia|]. split.
    + symmetry. apply (Nat.div_unique _ _ _ 0); lia.
    + symmetry. apply (Nat.mod_unique _ _ (S (n / K))%nat); lia.
Qed.

Lemma nat_mod_2_flip (q b : nat) :
  (b < 2)%nat → b ≠ (q mod 2)%nat → Nat.lxor b 1 = (q mod 2)%nat.
Proof.
  intros Hb Hne. pose proof (Nat.mod_upper_bound q 2 ltac:(lia)) as Hq.
  destruct b as [|[|]]; [| |lia];
    destruct (q mod 2)%nat as [|[|]]; try lia; done.
Qed.

Lemma nat_mod_2_succ (q : nat) : (q mod 2)%nat ≠ (S q mod 2)%nat.
Proof.
  rewrite <- (Nat.add_1_l q), Nat.Div0.add_mod.
  pose proof (Nat.mod_upper_bound q 2 ltac:(lia)) as Hq.
  destruct (q mod 2)%nat as [|[|]]; [done|done|lia].
Qed.

(** The fields [alloc_slot] leaves alone. *)
Definition same_tables {F} (s s' : NetworkServer F) : Prop :=
  mpUdpWorkers s' = mpUdpWorkers s ∧
  mpUdpWorkerThreads s' = mpUdpWorkerThreads s ∧
  mRegisteredPeers s' = mRegisteredPeers s.

(** The allocator implements the closed form. *)
Lemma alloc_slot_spec {F} size n (s : NetworkServer F) :
  buffers_at size n s →
  ∃ s', alloc_slot s = Done (slot_of size n, s') ∧
        buffers_at size (S n) s' ∧
        same_tables s s' ∧ mpReceiveBuffers s' = mpReceiveBuffers s.
Proof.
  intros [Hsize Hrange (d0 & d1 & Hbuf) Hidx (k & Hpos & Hk)].
  destruct (slots_per_buffer_spec size) as [HK HKs]; [lia|].
  unfold alloc_slot, slot_of. rewrite Hsize. orun.
  set (K := slots_per_buffer size) in *.
  assert (Hkb : (k ≤ K)%nat) by (destruct Hk as [(?&?&?)|(?&?&?)]; lia).
  assert (HK1 : 1600 * Z.of_nat K < size).
  { specialize (HKs (K - 1)%nat). lia. }
  unfold ck32, in_int32. rewrite bool_decide_eq_true_2 by lia. orun.
  pose proof (HKs k) as Hsw.
  destruct (nat_succ_div_mod n K HK) as [(Hm & Hd1 & Hm1)|(Hm & Hd1 & Hm1)];
    destruct Hk as [(Hlt & Hi & ->)|(-> & Hm0 & Hi)].
  all: destruct (Z.leb_spec size (mCurPosition s + 1600)) as [Hle|Hgt]; try lia.
  all: try (pose proof (nat_mod_2_flip (n / K) _ Hidx Hi) as Hflip;
            rewrite Hflip).
  all: rewrite Hbuf; pose proof (Nat.mod_upper_bound (n / K) 2 ltac:(lia)).
  all: try rewrite <- Hi; try rewrite Hm0.
  all: (match goal with |- context [[?a; ?b] !! ?i] =>
          destruct (lookup_lt_is_Some_2 [a; b] i) as [bf Hbf];
          [simpl; lia|rewrite Hbf] end); orun.
  all: rewrite bool_decide_eq_true_2 by lia; orun.
  all: eexists; split; [rewrite ?Hpos, ?Hm0; reflexivity|].
  all: split; [|done].
  all: split; simpl; try done; try lia; [by eauto|]; fold K.
  - exists (S (n mod K)). split; [lia|]. left. by rewrite Hd1, Hm1, Hi.
  - exists (S (n mod K)). rewrite Hm0. split; [lia|]. left.
    rewrite Hd1, Hm1, Hm0. split; [lia|done].
  - exists K. split; [lia|]. right. rewrite Hd1, Hm1, Hi.
    split; [done|split; [done|]]. apply nat_mod_2_succ.
  - exists K. split; [lia|]. right. rewrite Hd1, Hm1.
    split; [done|split; [done|]]. apply nat_mod_2_succ.
Qed.

(** A slot lies inside its buffer. *)
Lemma slot_of_bounds size n :
  1600 < size →
  ((slot_of size n).1 < 2)%nat ∧
  0 ≤ (slot_of size n).2 ∧ (slot_of size n).2 + 1600 < size.
Proof.
  intros Hs. destruct (slots_per_buffer_spec size Hs) as [HK HKs].
  unfold slot_of. set (K := slots_per_buffer size) in *. cbn [fst snd].
  pose proof (Nat.mod_upper_bound n K ltac:(lia)) as Hr.
  apply HKs in Hr. pose proof (Nat.mod_upper_bound (n / K) 2 ltac:(lia)). lia.
Qed.

(** Two receptions share a slot only when a whole round of both buffers lies
    between them. *)
Lemma slot_of_inj size i j :
  1600 < size → (i < j)%nat → (j < i + 2 * slots_per_buffer size)%nat →
  slot_of size i ≠ slot_of size j.
Proof.
  intros Hs Hlt Hwin. destruct (slots_per_buffer_spec size Hs) as [HK _].
  unfold slot_of. set (K := slots_per_buffer size) in *.
  intros Heq. injection Heq as Hq Hr.
  assert (i mod K = j mod K)%nat by lia.
  pose proof (Nat.div_mod_eq i K) as Hi. pose proof (Nat.div_mod_eq j K) as Hj.
  assert ((j / K)%nat = S (i / K)) as Hsucc by nia.
  rewrite Hsucc in Hq. by apply nat_mod_2_succ in Hq.
Qed.

(** Distinct slots do not overlap. *)
Lemma slot_of_disjoint size i j :
  slot_of size i ≠ slot_of size j →
  (slot_of size i).1 ≠ (slot_of size j).1 ∨
  (slot_of size i).2 + 1600 ≤ (slot_of size j).2 ∨
  (slot_of size j).2 + 1600 ≤ (slot_of size i).2.
Proof.
  unfold slot_of. cbn [fst snd]. intros Hne.
  destruct (decide ((i / slots_per_buffer size) mod 2
                    = (j / slots_per_buffer size) mod 2)%nat) as [He|];
    [|by left].
  right. rewrite He in Hne.
  assert (i mod slots_per_buffer size ≠ j mod slots_per_buffer size)%nat
    by congruence. lia.
Qed.

(** The slots come round after both buffers. *)
Lemma slot_of_period size n :
  (0 < slots_per_buffer size)%nat →
  slot_of size (n + 2 * slots_per_buffer size) = slot_of size n.
Proof.
  intros HK. unfold slot_of. set (K := slots_per_buffer size) in *.
  rewrite Nat.div_add, Nat.Div0.mod_add by lia.
  replace (n / K + 2)%nat with (n / K + 1 * 2)%nat by lia.
  by rewrite Nat.Div0.mod_add.
Qed.

Lemma read_slot_take {F} sl len len' (s : NetworkServer F) :
  (len ≤ len')%nat → read_slot sl len s = take len (read_slot sl len' s).
Proof.
  intros Hle. unfold read_slot. destruct (mpReceiveBuffers s !! sl.1); [|by rewrite take_nil].
  by rewrite take_take, Nat.min_l.
Qed.

Section receiving.
Context {F : Type} (std_hash : string → Z) (size : Z).
Implicit Types (s : NetworkServer F) (sock : list (sockaddr_in * list Z)).

Lemma recvfrom_spec n m payload s :
  buffers_at size n s →
  ∃ s', recvfrom (slot_of size m) payload s
        = Done (length (take 1600 payload), s') ∧
    buffers_at size n s' ∧ same_tables s s' ∧
    read_slot (slot_of size m) (length (take 1600 payload)) s'
      = take 1600 payload ∧
    ∀ sl len, sl ≠ slot_of size m → read_slot sl len s' = read_slot sl len s.
Proof.
  intros [Hsize Hrange (d0 & d1 & Hbuf) Hidx Hpos].
  destruct (slot_of_bounds size m) as (Hi & Hp0 & Hp1); [lia|].
  destruct (slot_of size m) as [i pos]. cbn [fst snd] in *.
  assert (Hlen : (length (take 1600 payload) ≤ 1600)%nat)
    by (rewrite length_take; lia).
  unfold recvfrom. cbn [fst snd]. set (bytes := take 1600 payload) in *.
  destruct (lookup_lt_is_Some_2 (mpReceiveBuffers s) i) as [b Hb];
    [by rewrite Hbuf|].
  assert (Hbs : buf_size b = size).
  { rewrite Hbuf in Hb. destruct i as [|[|]]; [| |lia]; by injection Hb as <-. }
  rewrite Hb. orun. rewrite bool_decide_eq_true_2 by lia. orun.
  eexists. split; [done|]. split_and!.
  - split; simpl; auto. rewrite Hbuf.
    destruct i as [|[|]]; [| |lia]; rewrite Hbs; simpl; eauto.
  - done.
  - unfold read_slot. cbn [fst snd mpReceiveBuffers].
    rewrite list_lookup_insert_eq by by eapply lookup_lt_Some.
    cbn [buf_data]. rewrite lookup_insert_eq. simpl.
    by rewrite take_app_length.
  - intros [i' pos'] len Hne. unfold read_slot. cbn [fst snd mpReceiveBuffers].
    destruct (decide (i' = i)) as [->|Hni].
    + rewrite list_lookup_insert_eq by by eapply lookup_lt_Some.
      rewrite Hb. cbn [buf_data]. rewrite lookup_insert_ne; [done|congruence].
    + by rewrite list_lookup_insert_ne by done.
Qed.

(** The specification of the synchronous callback, without buffers: handle
    the datagrams up to the first one of an unknown peer. *)
Fixpoint sync_spec (peers : gmap string (Peer F)) sock
  : list (sockaddr_in * list Z) * list (net_event F) :=
  match sock with
  | [] => ([], [])
  | (addr, payload) :: sock' =>
      match peers !! peer_name addr with
      | None => (sock', [])
      | Some p =>
          let bytes := take 1600 payload in
          let '(rest, evs) := sync_spec peers sock' in
          (rest, Increment (name p) (Z.of_nat (length bytes))
                 :: Process (processFunc p) bytes :: evs)
      end
  end.

Lemma receive_loop_sync n sock s :
  buffers_at size n s → mpUdpWorkerThreads s = [] →
  ∃ s' n',
    receive_loop std_hash sock s
    = Done (s', (sync_spec (mRegisteredPeers s) sock).1,
            (sync_spec (mRegisteredPeers s) sock).2) ∧
    buffers_at size n' s' ∧ same_tables s s'.
Proof.
  revert n s. induction sock as [|[addr payload] sock IH]; intros n s Hat Hw;
    cbn [receive_loop];
    destruct (alloc_slot_spec _ _ _ Hat) as (s1 & -> & Hat1 & Hsame1 & _);
    orun; [by eauto 10|].
  destruct (recvfrom_spec _ n payload _ Hat1)
    as (s2 & -> & Hat2 & Hsame2 & Hread & _).
  orun. destruct Hsame1 as (H1 & H2 & H3), Hsame2 as (H1' & H2' & H3').
  rewrite H2', H2, Hw. unfold dispatch. cbn [task_peer task_len task_data].
  rewrite H3', H3. cbn [sync_spec].
  destruct (mRegisteredPeers s !! peer_name addr) as [p|]; simpl; cycle 1.
  { eexists _, _. split; [done|]. split; [done|]. split_and!; congruence. }
  rewrite Hread. destruct (IH _ s2 Hat2) as (s' & n' & -> & Hat' & Hs');
    [congruence|]. orun.
  rewrite H3', H3.
  destruct (sync_spec (mRegisteredPeers s) sock) as [rest evs] eqn:Es.
  eexists _, _. split; [done|]. split; [done|].
  destruct Hs' as (?&?&?). split_and!; congruence.
Qed.

(** The tasks the callback makes of the datagrams, reception [n] first. *)
Fixpoint tasks_of (n : nat) sock : list task :=
  match sock with
  | [] => []
  | (addr, payload) :: sock' =>
      mkTask (peer_name addr) (slot_of size n) (length (take 1600 payload))
      :: tasks_of (S n) sock'
  end.

(** The tasks that go to worker [i] of [N]. *)
Definition tasks_for (N i : nat) (ts : list task) : list task :=
  filter (fun t => worker_index std_hash (task_peer t) N = i) ts.

Lemma worker_index_lt peer N : (0 < N)%nat → (worker_index std_hash peer N < N)%nat.
Proof.
  intros HN. unfold worker_index.
  pose proof (Z.mod_pos_bound (u64 (std_hash peer)) (Z.of_nat N) ltac:(lia)).
  lia.
Qed.

(** What the workers' pools become when the tasks [ts] are submitted. *)
Definition submitted_to (ts : list task) (ws ws' : list (pool task)) : Prop :=
  length ws' = length ws ∧
  ∀ i p, ws !! i = Some p → ∃ p', ws' !! i = Some p' ∧ rtc step p p' ∧
    mStop p' = false ∧ finished p' = finished p ∧
    submitted p' = submitted p ++ tasks_for (length ws) i ts.

Lemma submit_to_spec t s :
  mpUdpWorkerThreads s ≠ [] →
  Forall (fun p => mStop p = false) (mpUdpWorkerThreads s) →
  ∃ ws', let s' := mkNetworkServer (mpUdpWorkers s) ws' (mpReceiveBuffers s)
                     (mBufferSize s) (mReceiveBufferIndex s) (mCurPosition s)
                     (mRegisteredPeers s) in
    let N := length (mpUdpWorkerThreads s) in
    submit_to (worker_index std_hash (task_peer t) N) t s = Done s' ∧
    submitted_to [t] (mpUdpWorkerThreads s) ws'.
Proof.
  intros Hne Hall. set (ws := mpUdpWorkerThreads s) in *.
  pose proof (worker_index_lt (task_peer t) (length ws)) as Hi.
  destruct ws as [|w ws0] eqn:Ews; [done|]. rewrite <- Ews in *. clear Hne.
  set (idx := worker_index std_hash (task_peer t) (length ws)) in *.
  destruct (lookup_lt_is_Some_2 ws idx) as [p Hp];
    [apply Hi; rewrite Ews; simpl; lia|].
  pose proof (proj1 (Forall_lookup _ _) Hall _ _ Hp) as Hs. simpl in Hs.
  destruct (submit t p) as [p'|] eqn:Esub;
    [|unfold submit in Esub; by rewrite Hs in Esub].
  exists (<[idx := p']> ws). cbn zeta. split.
  { unfold submit_to. fold ws idx. rewrite Hp. orun. by rewrite Esub. }
  split; [apply length_insert|].
  intros i q Hq. destruct (decide (i = idx)) as [->|Hne].
  - exists p'. rewrite Hp in Hq. injection Hq as <-.
    rewrite list_lookup_insert_eq by by eapply lookup_lt_Some.
    split_and!; [done|by eapply rtc_once, step_submit|..];
      unfold submit in Esub; rewrite Hs in Esub; injection Esub as <-; simpl;
      [done|done|].
    unfold tasks_for. rewrite filter_cons_True by done. done.
  - exists q. rewrite list_lookup_insert_ne by done. split_and!; [done..| |done|].
    + by apply (proj1 (Forall_lookup _ _) Hall _ _ Hq).
    + unfold tasks_for. rewrite filter_cons_False by done. simpl.
      by rewrite app_nil_r.
Qed.

Lemma submitted_to_trans ts1 ts2 ws1 ws2 ws3 :
  submitted_to ts1 ws1 ws2 → submitted_to ts2 ws2 ws3 →
  submitted_to (ts1 ++ ts2) ws1 ws3.
Proof.
  intros [Hl1 H1] [Hl2 H2]. split; [congruence|]. intros i p Hp.
  destruct (H1 _ _ Hp) as (p2 & Hp2 & Hr1 & _ & Hf1 & Hs1).
  destruct (H2 _ _ Hp2) as (p3 & Hp3 & Hr2 & ? & Hf2 & Hs2).
  exists p3. split_and!; [done|by etrans|done|congruence|].
  rewrite Hs2, Hs1, Hl1. unfold tasks_for. by rewrite filter_app, (assoc (++)).
Qed.

Lemma submitted_to_alive ts ws ws' :
  submitted_to ts ws ws' → Forall (fun p => mStop p = false) ws'.
Proof.
  intros [Hl H]. apply Forall_lookup. intros i p' Hp'.
  destruct (lookup_lt_is_Some_2 ws i) as [p Hp];
    [rewrite <- Hl; by eapply lookup_lt_Some|].
  destruct (H _ _ Hp) as (p'' & Hp'' & _ & Hs & _). congruence.
Qed.

Lemma submitted_to_nil ws :
  Forall (fun p => mStop p = false) ws → submitted_to [] ws ws.
Proof.
  intros Hall. split; [done|]. intros i p Hp. exists p.
  split_and!; [done..| |done|by rewrite app_nil_r].
  by apply (proj1 (Forall_lookup _ _) Hall _ _ Hp).
Qed.

(** With worker threads the callback drains the socket, hands every datagram
    to its worker, and writes no slot but those of its own receptions. *)
Lemma receive_loop_async n sock s :
  buffers_at size n s → mpUdpWorkerThreads s ≠ [] →
  Forall (fun p => mStop p = false) (mpUdpWorkerThreads s) →
  ∃ s', receive_loop std_hash sock s = Done (s', [], []) ∧
    buffers_at size (S (n + length sock)) s' ∧
    mRegisteredPeers s' = mRegisteredPeers s ∧
    submitted_to (tasks_of n sock) (mpUdpWorkerThreads s)
      (mpUdpWorkerThreads s') ∧
    (∀ sl len, (∀ i, (i < length sock)%nat → sl ≠ slot_of size (n + i)) →
       read_slot sl len s' = read_slot sl len s) ∧
    (∀ i addr payload, sock !! i = Some (addr, payload) →
       (length sock ≤ i + 2 * slots_per_buffer size)%nat →
       read_slot (slot_of size (n + i)) (length (take 1600 payload)) s'
       = take 1600 payload).
Proof.
  revert n s. induction sock as [|[addr payload] sock IH]; intros n s Hat Hw Hall;
    cbn [receive_loop tasks_of length];
    destruct (alloc_slot_spec _ _ _ Hat) as (s1 & -> & Hat1 & Hsame1 & Hb1);
    destruct Hsame1 as (H1 & H2 & H3); orun.
  { exists s1. rewrite Nat.add_0_r, H2. split_and!; auto.
    - by apply submitted_to_nil.
    - intros sl len _. unfold read_slot. by rewrite Hb1.
    - done. }
  destruct (recvfrom_spec _ n payload _ Hat1)
    as (s2 & -> & Hat2 & (H1' & H2' & H3') & Hread & Hother).
  orun. rewrite H2', H2.
  destruct (submit_to_spec (mkTask (peer_name addr) (slot_of size n)
    (length (take 1600 payload))) s2) as (ws' & Hsub & Hst).
  { congruence. } { by rewrite H2', H2. }
  rewrite H2', H2 in Hsub, Hst. cbn [task_peer] in Hsub.
  destruct (mpUdpWorkerThreads s) as [|w ws] eqn:Ews; [done|].
  rewrite <- Ews in *. rewrite Hsub. orun. clear Hsub.
  match goal with |- context [receive_loop _ sock ?x] => set (s3 := x) end.
  assert (Hat3 : buffers_at size (S n) s3) by by destruct Hat2; split.
  assert (Hws3 : mpUdpWorkerThreads s3 = ws') by done.
  destruct (IH (S n) s3 Hat3) as (s' & -> & Hat' & Hp' & Hst' & Hkeep & Hdata).
  { rewrite Hws3. destruct Hst as [Hl _]. rewrite Ews in Hl. by destruct ws'. }
  { rewrite Hws3. by eapply submitted_to_alive. }
  exists s'. split; [done|].
  assert (Hr3 : ∀ sl len, read_slot sl len s3 = read_slot sl len s2) by done.
  assert (Hr1 : ∀ sl len, read_slot sl len s1 = read_slot sl len s).
  { intros sl len. unfold read_slot. by rewrite Hb1. }
  split_and!.
  - by rewrite Nat.add_succ_r.
  - rewrite Hp'. simpl. congruence.
  - rewrite Hws3 in Hst'.
    by apply (submitted_to_trans [_] _ _ _ _ Hst Hst').
  - intros sl len Hsl. rewrite Hkeep, Hr3, Hother, Hr1; [done| |].
    + rewrite <- (Nat.add_0_r n). apply Hsl. lia.
    + intros i Hi. replace (S n + i)%nat with (n + S i)%nat by lia.
      apply Hsl. lia.
  - intros [|i] addr' payload' Hi Hlen; simpl in Hi.
    + injection Hi as -> ->. rewrite Nat.add_0_r, Hkeep, Hr3; [done|].
      intros j Hj. apply slot_of_inj; [|lia..]. apply Hat.
    + rewrite Nat.add_succ_r. by apply (Hdata i addr' payload' Hi); lia.
Qed.
End receiving.

(** * Initialisation *)

Section init.
Context {F : Type} (env : udp_env) (hw : Z) (config : NetworkConfig).
Implicit Types s : NetworkServer F.

Lemma start_loops_ok n s :
  UdpEventLoop_Init env = Done tt →
  start_loops env n s
  = Done (mkNetworkServer (n + mpUdpWorkers s) (mpUdpWorkerThreads s)
            (mpReceiveBuffers s) (mBufferSize s) (mReceiveBufferIndex s)
            (mCurPosition s) (mRegisteredPeers s)).
Proof.
  intros He. revert s. induction n as [|n IH]; intros s; simpl.
  - by destruct s.
  - unfold startUdpEventLoop. rewrite He. orun. rewrite IH. simpl.
    by rewrite Nat.add_succ_r.
Qed.

Lemma start_loops_fault n s :
  UdpEventLoop_Init env ≠ Done tt → (0 < n)%nat →
  ∃ f, start_loops env n s = Fault f.
Proof.
  intros He Hn. destruct n as [|n]; [lia|]. simpl. unfold startUdpEventLoop.
  destruct (UdpEventLoop_Init env) as [[]|f]; [done|]. by exists f.
Qed.

Lemma init_buffers_ok eventNum s :
  0 ≤ eventNum ≤ 102 →
  init_buffers eventNum s
  = Done (mkNetworkServer (mpUdpWorkers s) (mpUdpWorkerThreads s)
            (mpReceiveBuffers s ++
               [mkBuffer (eventNum * 20971520) ∅; mkBuffer (eventNum * 20971520) ∅])
            (Some (eventNum * 20971520)) (mReceiveBufferIndex s)
            (mCurPosition s) (mRegisteredPeers s)).
Proof.
  intros He. unfold init_buffers, ck32, in_int32.
  rewrite bool_decide_eq_true_2 by lia. orun.
  rewrite bool_decide_eq_true_2 by lia. orun.
  rewrite bool_decide_eq_true_2 by lia. orun.
  replace (eventNum * 20 * 1024 * 1024) with (eventNum * 20971520) by lia.
  unfold new_chars. destruct (Z.ltb_spec (eventNum * 20971520) 0); [lia|].
  done.
Qed.

Lemma init_buffers_overflow eventNum s :
  102 < eventNum → init_buffers eventNum s = Fault SignedOverflow.
Proof.
  intros He. unfold init_buffers, ck32, in_int32.
  case_bool_decide; [|done]. orun. case_bool_decide; [|done]. orun.
  rewrite bool_decide_eq_false_2; [done|lia].
Qed.

Let eventNum := thread_number hw (event_loop_num config).

(** A server that came up has its buffers in place. *)
Lemma init_done s :
  1 ≤ eventNum → initUdpServer env hw config newNetworkServer = Done s →
  eventNum ≤ 102 ∧ UdpEventLoop_Init env = Done tt ∧
  buffers_at (eventNum * 20971520) 0 s ∧
  mRegisteredPeers s = ∅ ∧ mpUdpWorkers s = Z.to_nat eventNum ∧
  mpUdpWorkerThreads s
  = replicate (Z.to_nat (thread_number hw (async_worker_num config))) (newPool 1).
Proof.
  intros He Hinit. unfold initUdpServer in Hinit. fold eventNum in Hinit.
  destruct (UdpEventLoop_Init env) as [[]|f] eqn:Ei; cycle 1.
  { destruct (start_loops_fault (Z.to_nat eventNum) newNetworkServer)
      as [f' Hf]; [congruence|lia|]. by rewrite Hf in Hinit. }
  rewrite start_loops_ok in Hinit by done.
  cbn [mbind outcome_bind] in Hinit.
  destruct (decide (102 < eventNum)) as [Hb|Hb].
  { by rewrite init_buffers_overflow in Hinit. }
  rewrite init_buffers_ok in Hinit by lia.
  cbn [mbind outcome_bind] in Hinit. injection Hinit as <-.
  split_and!; [lia|done| |done|simpl; lia|done].
  destruct (slots_per_buffer_spec (eventNum * 20971520)) as [HK _]; [lia|].
  split; simpl; try done; [lia|by eauto|lia|].
  exists 0%nat. split; [done|]. left.
  by rewrite Nat.Div0.div_0_l, !Nat.Div0.mod_0_l.
Qed.
End init.

(** Take [m] slots in a row. *)
Fixpoint alloc_n {F} (m : nat) (s : NetworkServer F)
  : outcome (list slot * NetworkServer F) :=
  match m with
  | O => Done ([], s)
  | S m' =>
      '(sl, s) ← alloc_slot s;
      '(sls, s) ← alloc_n m' s;
      Done (sl :: sls, s)
  end.

Lemma alloc_n_spec {F} size m n (s : NetworkServer F) :
  buffers_at size n s →
  ∃ s', alloc_n m s = Done (slot_of size <$> seq n m, s').
Proof.
  revert n s. induction m as [|m IH]; intros n s Hat; simpl; [by eauto|].
  destruct (alloc_slot_spec _ _ _ Hat) as (s1 & -> & Hat1 & _). orun.
  destruct (IH _ _ Hat1) as [s' ->]. orun. by eauto.
Qed.

(** * Names of peers *)

(** [c] does not occur in [s]. *)
Fixpoint free_of (c : Ascii.ascii) (s : string) : bool :=
  match s with
  | EmptyString => true
  | String d s' => negb (Ascii.eqb c d) && free_of c s'
  end.

Lemma free_of_app c s t : free_of c (s +:+ t) = free_of c s && free_of c t.
Proof.
  induction s as [|d s IH]; [done|].
  change (negb (Ascii.eqb c d) && free_of c (s +:+ t)
          = (negb (Ascii.eqb c d) && free_of c s) && free_of c t).
  by rewrite IH, andb_assoc.
Qed.

(** Two texts split at the first separator. *)
Lemma sep_inj c s s' t t' :
  free_of c s = true → free_of c s' = true →
  s +:+ String c t = s' +:+ String c t' → s = s' ∧ t = t'.
Proof.
  revert s'. induction s as [|d s IH]; intros [|d' s'] Hs Hs' Heq.
  - by injection Heq as ->.
  - injection Heq as <- _. simpl in Hs'. by rewrite Ascii.eqb_refl in Hs'.
  - injection Heq as -> _. simpl in Hs. by rewrite Ascii.eqb_refl in Hs.
  - simpl in Hs, Hs'. apply andb_true_iff in Hs as [_ Hs], Hs' as [_ Hs'].
    injection Heq as -> Heq. destruct (IH s' Hs Hs' Heq) as [-> ->]. done.
Qed.

Lemma pretty_N_go_free c x s :
  (∀ y, free_of c (String (pretty_N_char y) EmptyString) = true) →
  free_of c s = true → free_of c (pretty_N_go x s) = true.
Proof.
  intros Hc. revert s. induction (N.lt_wf_0 x) as [x _ IH]. intros s Hs.
  destruct (decide (x = 0%N)) as [->|Hx].
  { by rewrite pretty_N_go_0. }
  rewrite pretty_N_go_step by lia. apply IH.
  - apply N.div_lt; lia.
  - specialize (Hc (x mod 10)%N). simpl in *. by rewrite andb_true_r in Hc; rewrite Hc.
Qed.

Lemma pretty_char_free c :
  c = "."%char ∨ c = ":"%char →
  ∀ y, free_of c (String (pretty_N_char y) EmptyString) = true.
Proof. intros [-> | ->] y; unfold pretty_N_char; repeat case_match; done. Qed.

(** Decimal numbers hold no separator. *)
Lemma pretty_Z_free c z :
  c = "."%char ∨ c = ":"%char → 0 ≤ z → free_of c (pretty z) = true.
Proof.
  intros Hc Hz. pose proof (pretty_char_free c Hc) as Hch.
  destruct z as [|p|p]; [by destruct Hc as [-> | ->]| |lia].
  change (free_of c (pretty (Npos p)) = true).
  unfold pretty, pretty_N. case_decide; [done|].
  by apply pretty_N_go_free.
Qed.

Lemma htons_arith w : 0 ≤ w < 2 ^ 16 → htons w = (w mod 256) * 256 + w / 256.
Proof.
  intros Hw. unfold htons.
  change 255 with (Z.ones 8). rewrite !Z.land_ones by lia.
  rewrite Z.shiftr_div_pow2 by lia. change (2 ^ 8) with 256.
  rewrite (Z.mod_small (w / 256)); [|split; [apply Z.div_pos|apply Z.div_lt_upper_bound]; lia].
  pose proof (Z.mod_pos_bound w 256 ltac:(lia)).
  apply lor_shiftl_8; [lia|split; [apply Z.div_pos|apply Z.div_lt_upper_bound]; lia].
Qed.

Lemma htons_inj a b :
  0 ≤ a < 2 ^ 16 → 0 ≤ b < 2 ^ 16 → htons a = htons b → a = b.
Proof.
  intros Ha Hb. rewrite !htons_arith by done.
  pose proof (Z.div_mod a 256 ltac:(lia)). pose proof (Z.div_mod b 256 ltac:(lia)).
  pose proof (Z.mod_pos_bound a 256 ltac:(lia)).
  pose proof (Z.mod_pos_bound b 256 ltac:(lia)).
  assert (0 ≤ a / 256 < 256)
    by (split; [apply Z.div_pos|apply Z.div_lt_upper_bound]; lia).
  assert (0 ≤ b / 256 < 256)
    by (split; [apply Z.div_pos|apply Z.div_lt_upper_bound]; lia).
  intros Heq. assert (a mod 256 = b mod 256) by lia. lia.
Qed.

(** * Runs of the server with its workers *)

(** [ts] are the tasks submitted so far, in order, and [ls] where the event loops
    are. Any loop takes its next step, with whatever its socket has; a pool of the
    server moves by itself; only the loops submit to it. *)
Inductive net_run {F} (std_hash : string → Z) (size : Z)
  : list task → list loop_state → NetworkServer F → Prop :=
| run_start env hw config s :
    1 ≤ thread_number hw (event_loop_num config) →
    size = thread_number hw (event_loop_num config) * 20971520 →
    initUdpServer env hw config newNetworkServer = Done s →
    net_run std_hash size [] (replicate (mpUdpWorkers s) Returned) s
| run_loop ts ls j dg x x' s s' evs :
    net_run std_hash size ts ls s →
    mpUdpWorkerThreads s ≠ [] → ls !! j = Some x →
    loop_step std_hash dg x s = Done (x', s', evs) →
    net_run std_hash size (ts ++ match x with Got t => [t] | _ => [] end)
      (<[j := x']> ls) s'
| run_pool ts ls s i p p' :
    net_run std_hash size ts ls s →
    mpUdpWorkerThreads s !! i = Some p →
    moves p p' →
    net_run std_hash size ts ls
      (mkNetworkServer (mpUdpWorkers s) (<[i := p']> (mpUdpWorkerThreads s))
         (mpReceiveBuffers s) (mBufferSize s) (mReceiveBufferIndex s)
         (mCurPosition s) (mRegisteredPeers s))
| run_register ts ls peer f s :
    net_run std_hash size ts ls s →
    net_run std_hash size ts ls (registerPeer peer f s)
| run_unregister ts ls peer s :
    net_run std_hash size ts ls s →
    net_run std_hash size ts ls (unRegisterPeer peer s).

Definition workers_hold (std_hash : string → Z) (ts : list task)
    (ws : list (pool task)) : Prop :=
  ∀ i p, ws !! i = Some p →
    reachable 1 p ∧ mStop p = false ∧
    submitted p = tasks_for std_hash (length ws) i ts.

Lemma event_ignored_never which : event_ignored which = false.
Proof. unfold event_ignored. by destruct (which =? 0). Qed.

Lemma registerPeer_tables {F} peer f (s : NetworkServer F) :
  mpUdpWorkerThreads (registerPeer peer f s) = mpUdpWorkerThreads s.
Proof. unfold registerPeer. by destruct (_ !! _). Qed.

Lemma workers_hold_alive std_hash ts ws :
  workers_hold std_hash ts ws → Forall (fun p => mStop p = false) ws.
Proof. intros Hw. apply Forall_lookup. intros i p Hp. by apply (Hw _ _ Hp). Qed.

Lemma workers_hold_submitted std_hash ts new ws ws' :
  workers_hold std_hash ts ws → submitted_to std_hash new ws ws' →
  workers_hold std_hash (ts ++ new) ws'.
Proof.
  intros Hw [Hl Hsub] i p' Hp'.
  destruct (lookup_lt_is_Some_2 ws i) as [p Hp];
    [rewrite <- Hl; by eapply lookup_lt_Some|].
  destruct (Hsub _ _ Hp) as (p2 & Hp2 & Hr & Hs & _ & Ht). simplify_eq.
  destruct (Hw _ _ Hp) as (Hr0 & _ & Ht0). split_and!; [|done|].
  - unfold reachable in *. by etrans.
  - rewrite Ht, Ht0, Hl. unfold tasks_for. by rewrite filter_app.
Qed.

Lemma workers_hold_move std_hash ts ws i p p' :
  workers_hold std_hash ts ws → ws !! i = Some p → moves p p' →
  workers_hold std_hash ts (<[i := p']> ws).
Proof.
  intros Hw Hp Hm j q Hq. rewrite length_insert.
  apply list_lookup_insert_Some in Hq as [(<- & <- & _)|(Hne & Hq)]; [|by apply Hw].
  destruct (Hw _ _ Hp) as (Hr & Hs & Ht).
  destruct (moves_step _ _ Hm) as (Hst & -> & ->).
  split_and!; [by eapply rtc_r|done|done].
Qed.

(** A step of a loop submits the task it holds and nothing else. *)
Lemma loop_step_submits {F} std_hash dg x x' (s s' : NetworkServer F) evs :
  mpUdpWorkerThreads s ≠ [] →
  Forall (fun p => mStop p = false) (mpUdpWorkerThreads s) →
  loop_step std_hash dg x s = Done (x', s', evs) →
  submitted_to std_hash (match x with Got t => [t] | _ => [] end)
    (mpUdpWorkerThreads s) (mpUdpWorkerThreads s').
Proof.
  intros Hne Hal. destruct x as [| |data|t]; simpl.
  - intros [= <- <- <-]. by apply submitted_to_nil.
  - unfold alloc_slot. intros Ha. outcome_inv. by apply submitted_to_nil.
  - destruct dg as [[addr payload]|]; [|intros [= <- <- <-]; by apply submitted_to_nil].
    unfold recvfrom. intros Ha. outcome_inv. by apply submitted_to_nil.
  - destruct (submit_to_spec std_hash t s Hne Hal) as (ws' & E & Hsub).
    destruct (mpUdpWorkerThreads s) as [|p ps] eqn:Ews; [done|]. rewrite <- Ews in *.
    rewrite E. orun. by intros [= <- <- <-].
Qed.

Lemma net_run_workers {F} std_hash size ts ls (s : NetworkServer F) :
  net_run std_hash size ts ls s → workers_hold std_hash ts (mpUdpWorkerThreads s).
Proof.
  induction 1 as [env hw config s He Hsz Hi|ts ls j dg x x' s s' evs _ IH Hne _ Hst
    |ts ls s i p p' _ IH Hp Hstep|ts ls peer f s _ IH|ts ls peer s _ IH].
  - apply init_done in Hi as (_ & _ & _ & _ & _ & Hws); [|done].
    intros i p Hp. rewrite Hws in Hp.
    apply lookup_replicate_1 in Hp as [-> _]. by split; [apply rtc_refl|].
  - eapply workers_hold_submitted; [done|]. eapply loop_step_submits; [done| |done].
    by eapply workers_hold_alive.
  - by eapply workers_hold_move.
  - rewrite registerPeer_tables. exact IH.
  - exact IH.
Qed.

(** * Properties *)

(** C10: the receive slots of a server that came up: every slot lies inside its
    buffer, the sequence of slots is the closed form [slot_of], and the memory
    of a reception is not handed out again during the next
    [2 * slots_per_buffer size - 1] receptions. *)
Theorem receive_slots {F : Type} (env : udp_env) (hw : Z) (config : NetworkConfig)
    (s : NetworkServer F) (m : nat)
    (Hloops : 1 ≤ thread_number hw (event_loop_num config))
    (Hinit : initUdpServer env hw config newNetworkServer = Done s) :
  ∃ size s',
    mBufferSize s = Some size ∧
    alloc_n m s = Done (slot_of size <$> seq 0 m, s') ∧
    (∀ i b, mpReceiveBuffers s !! (slot_of size i).1 = Some b →
       0 ≤ (slot_of size i).2 ∧ (slot_of size i).2 + 1600 ≤ buf_size b) ∧
    (∀ i, is_Some (mpReceiveBuffers s !! (slot_of size i).1)) ∧
    (∀ i j, (i < j)%nat → (j < i + 2 * slots_per_buffer size)%nat →
       (slot_of size i).1 ≠ (slot_of size j).1 ∨
       (slot_of size i).2 + 1600 ≤ (slot_of size j).2 ∨
       (slot_of size j).2 + 1600 ≤ (slot_of size i).2).
Proof.
  apply init_done in Hinit as (_ & _ & Hat & _); [|done].
  set (size := thread_number hw (event_loop_num config) * 20971520) in *.
  destruct (alloc_n_spec size m 0 s Hat) as [s' Hs'].
  pose proof (at_range _ _ _ Hat) as [Hr _].
  destruct (at_buffers _ _ _ Hat) as (d0 & d1 & Hb).
  exists size, s'. split_and!; [apply Hat|done|..].
  - intros i b. destruct (slot_of_bounds size i Hr) as (Hi & ? & ?).
    rewrite Hb. destruct (slot_of size i) as [[|[|]] ?]; simpl in *; [..|lia];
      intros [= <-]; simpl; lia.
  - intros i. destruct (slot_of_bounds size i Hr) as (Hi & _).
    apply lookup_lt_is_Some. by rewrite Hb.
  - intros i j ??. apply slot_of_disjoint. by apply slot_of_inj.
Qed.

(** C26: without worker threads the read callback does what the specification
    without buffers does: it counts and passes on, truncated to 1600 bytes,
    the datagrams up to the first one of an unregistered peer. *)
Theorem receive_sync_refines {F : Type} (std_hash : string → Z) (which size : Z)
    (n : nat) (sock : list (sockaddr_in * list Z)) (s : NetworkServer F)
    (Hat : buffers_at size n s) (Hsync : mpUdpWorkerThreads s = []) :
  ∃ s' n',
    on_readable std_hash which sock s
    = Done (s', (sync_spec (mRegisteredPeers s) sock).1,
            (sync_spec (mRegisteredPeers s) sock).2) ∧
    buffers_at size n' s' ∧ mRegisteredPeers s' = mRegisteredPeers s.
Proof.
  unfold on_readable. rewrite event_ignored_never.
  destruct (receive_loop_sync std_hash size n sock s Hat Hsync)
    as (s' & n' & E & Hat' & (_ & _ & Hp)). eauto.
Qed.

(** Without worker threads a datagram of an unregistered peer ends the
    callback: the datagrams behind it, of registered peers too, stay in the
    socket although its event is edge-triggered. *)
Theorem receive_sync_stall {F : Type} (std_hash : string → Z) (which size : Z)
    (n : nat) (addr : sockaddr_in) (payload : list Z)
    (rest : list (sockaddr_in * list Z)) (s : NetworkServer F)
    (Hat : buffers_at size n s) (Hsync : mpUdpWorkerThreads s = [])
    (Hunknown : mRegisteredPeers s !! peer_name addr = None) :
  ∃ s', on_readable std_hash which ((addr, payload) :: rest) s = Done (s', rest, []).
Proof.
  unfold on_readable. rewrite event_ignored_never.
  destruct (receive_loop_sync std_hash size n ((addr, payload) :: rest) s Hat Hsync)
    as (s' & _ & E & _). simpl in E. rewrite Hunknown in E. eauto.
Qed.

(** The task of the [i]-th datagram. *)
Lemma tasks_of_lookup size n sock i addr payload :
  sock !! i = Some (addr, payload) →
  tasks_of size n sock !! i
  = Some (mkTask (peer_name addr) (slot_of size (n + i)) (length (take 1600 payload))).
Proof.
  revert n i. induction sock as [|[a pl] sock IH]; intros n i Hi; [done|].
  destruct i as [|i]; simpl in *.
  - injection Hi as -> ->. by rewrite Nat.add_0_r.
  - rewrite (IH (S n) i Hi). do 3 f_equal. lia.
Qed.

(** C9: with worker threads the callback leaves nothing in the socket and submits
    one task for every datagram, in their order, to the pool that the hash of its
    peer chooses, and no other task to any pool. A worker that runs before a whole
    round of both buffers has been received after its datagram still reads the
    datagram's bytes. This is as far as it goes: the datagram that is received exactly
    one round later is written over it, and a worker that has not run by then passes
    those bytes on for its own. *)
Theorem receive_async_intact {F : Type} (std_hash : string → Z) (which size : Z)
    (n : nat) (sock : list (sockaddr_in * list Z)) (s : NetworkServer F)
    (Hat : buffers_at size n s) (Hasync : mpUdpWorkerThreads s ≠ [])
    (Halive : Forall (fun p => mStop p = false) (mpUdpWorkerThreads s)) :
  let round := (2 * slots_per_buffer size)%nat in
  let ts := tasks_of size n sock in
  ∃ s', on_readable std_hash which sock s = Done (s', [], []) ∧
    buffers_at size (S (n + length sock)) s' ∧
    length (mpUdpWorkerThreads s') = length (mpUdpWorkerThreads s) ∧
    (∀ i p, mpUdpWorkerThreads s !! i = Some p →
       ∃ p', mpUdpWorkerThreads s' !! i = Some p' ∧
         submitted p' = submitted p ++
           filter (fun t => worker_index std_hash (task_peer t)
                              (length (mpUdpWorkerThreads s)) = i) ts) ∧
    (∀ i addr payload, sock !! i = Some (addr, payload) →
       ∃ t, ts !! i = Some t ∧ task_peer t = peer_name addr ∧
         task_len t = length (take 1600 payload)) ∧
    (∀ i addr payload p, sock !! i = Some (addr, payload) →
       (length sock ≤ i + round)%nat →
       mRegisteredPeers s !! peer_name addr = Some p →
       ∃ t, ts !! i = Some t ∧
         run_task t s' = [Increment (name p) (Z.of_nat (task_len t));
                          Process (processFunc p) (take 1600 payload)]) ∧
    (∀ i addr payload addr' payload' p, sock !! i = Some (addr, payload) →
       sock !! (i + round)%nat = Some (addr', payload') →
       (length sock ≤ i + round + round)%nat →
       (length payload ≤ length payload')%nat →
       mRegisteredPeers s !! peer_name addr = Some p →
       ∃ t, ts !! i = Some t ∧
         run_task t s' = [Increment (name p) (Z.of_nat (task_len t));
                          Process (processFunc p) (take (task_len t) payload')]).
Proof.
  intros round ts. subst ts. unfold on_readable. rewrite event_ignored_never.
  destruct (receive_loop_async std_hash size n sock s Hat Hasync Halive)
    as (s' & E & Hat' & Hp & [Hlen Hsub] & _ & Hdata).
  exists s'. split_and!; [done|done|done| | | |].
  - intros i p Hi. destruct (Hsub _ _ Hi) as (p' & ? & _ & _ & _ & ?). by eauto.
  - intros i addr payload Hi. rewrite (tasks_of_lookup _ _ _ _ _ _ Hi). by eexists.
  - intros i addr payload p Hi Hl Hreg. rewrite (tasks_of_lookup _ _ _ _ _ _ Hi).
    eexists. split; [done|]. unfold run_task, dispatch. cbn [task_peer task_len task_data].
    rewrite Hp, Hreg. simpl. by rewrite (Hdata _ _ _ Hi Hl).
  - intros i addr payload addr' payload' p Hi Hi' Hl Hle Hreg.
    rewrite (tasks_of_lookup _ _ _ _ _ _ Hi). eexists. split; [done|].
    unfold run_task, dispatch. cbn [task_peer task_len task_data].
    rewrite Hp, Hreg. simpl. do 3 f_equal.
    specialize (Hdata _ _ _ Hi' Hl).
    replace (n + (i + round))%nat with (n + i + round)%nat in Hdata by lia.
    subst round. rewrite slot_of_period in Hdata
      by (destruct Hat; pose proof (slots_per_buffer_spec size); lia).
    rewrite (read_slot_take _ _ (length (take 1600 payload'))), Hdata
      by (rewrite !length_take; lia).
    rewrite take_take. f_equal. rewrite length_take. lia.
Qed.

(** C21: the packets of one peer are processed in the order in which the event loops
    submitted them, whatever the scheduling of loops and workers: all of them go to the worker of
    the peer's hash, which has finished the first ones, runs at most one, and
    queues the others in order. *)
Theorem per_peer_order {F : Type} (std_hash : string → Z) (size : Z)
    (ts : list task) (ls : list loop_state) (s : NetworkServer F) (peer : string)
    (p : pool task)
    (Hrun : net_run std_hash size ts ls s)
    (Hp : mpUdpWorkerThreads s
            !! worker_index std_hash peer (length (mpUdpWorkerThreads s)) = Some p) :
  filter (fun t => task_peer t = peer) ts
  = filter (fun t => task_peer t = peer) (finished p)
    ++ filter (fun t => task_peer t = peer) (running p)
    ++ filter (fun t => task_peer t = peer) (mTasks p).
Proof.
  apply net_run_workers in Hrun.
  destruct (Hrun _ _ Hp) as (Hr & _ & Hs). apply single_order in Hr.
  rewrite <- !filter_app, <- Hr, Hs. unfold tasks_for. rewrite list_filter_filter.
  apply list_filter_iff. intros t. split; [by intros <-|by intros [? _]].
Qed.

(** With working system calls a server with at least one event loop comes
    up iff there are at most 102 of them: [eventNum * 20 * 1024 * 1024]
    overflows [int] from 103 on, which a machine with that many cores reaches
    with the configured value -1. *)
Theorem init_event_loops (F : Type) (env : udp_env) (hw : Z) (config : NetworkConfig)
    (Henv : UdpEventLoop_Init env = Done tt)
    (Hloops : 1 ≤ thread_number hw (event_loop_num config)) :
  (∃ s : NetworkServer F, initUdpServer env hw config newNetworkServer = Done s) ↔
  thread_number hw (event_loop_num config) ≤ 102.
Proof.
  split.
  - intros [s Hs]. by apply init_done in Hs as [? _].
  - intros Hle. unfold initUdpServer. rewrite start_loops_ok by done. orun.
    rewrite init_buffers_ok by lia. orun. by eauto.
Qed.

(** The event loops run before the buffers exist: a read callback that
    fires between the two parts of [initUdpServer] reads the uninitialised
    [mBufferSize]. *)
Theorem init_race {F : Type} (env : udp_env) (std_hash : string → Z) (which : Z)
    (loops : nat) (sock : list (sockaddr_in * list Z)) (s : NetworkServer F)
    (Hstart : start_loops env loops newNetworkServer = Done s) :
  on_readable std_hash which sock s = Fault UninitRead.
Proof.
  assert (Hs : mBufferSize s = None).
  { destruct loops as [|l]; [by injection Hstart as <-|].
    destruct (UdpEventLoop_Init env) as [[]|f] eqn:E.
    - rewrite start_loops_ok in Hstart by done. by injection Hstart as <-.
    - simpl in Hstart. unfold startUdpEventLoop in Hstart. by rewrite E in Hstart. }
  unfold on_readable. rewrite event_ignored_never.
  destruct sock as [|[]]; simpl; unfold alloc_slot; by rewrite Hs.
Qed.

(** The guard [!which & EV_READ] never skips an event, not even one that
    is not a read event, such as a timeout. *)
Theorem event_guard_dead (which : Z) :
  event_ignored which = false ∧ Z.land EV_TIMEOUT EV_READ = 0.
Proof. split; [apply event_ignored_never|done]. Qed.

(** Peers with different addresses or ports have different names, so a
    datagram is never passed to another sender's function. *)
Theorem peer_name_inj (a b : sockaddr_in)
    (Ha : let '(a0, a1, a2, a3) := sin_addr a in
          0 ≤ a0 < 256 ∧ 0 ≤ a1 < 256 ∧ 0 ≤ a2 < 256 ∧ 0 ≤ a3 < 256)
    (Hb : let '(b0, b1, b2, b3) := sin_addr b in
          0 ≤ b0 < 256 ∧ 0 ≤ b1 < 256 ∧ 0 ≤ b2 < 256 ∧ 0 ≤ b3 < 256)
    (Hpa : 0 ≤ sin_port a < 2 ^ 16) (Hpb : 0 ≤ sin_port b < 2 ^ 16)
    (Hname : peer_name a = peer_name b) :
  a = b.
Proof.
  destruct a as [[[[a0 a1] a2] a3] pa], b as [[[[b0 b1] b2] b3] pb].
  unfold peer_name, inet_ntoa in Hname. simpl in *.
  assert (Hd : ∀ z, 0 ≤ z < 256 → free_of "."%char (pretty z) = true)
    by (intros; apply pretty_Z_free; [by left|lia]).
  assert (Hc : ∀ z, 0 ≤ z < 256 → free_of ":"%char (pretty z) = true)
    by (intros; apply pretty_Z_free; [by right|lia]).
  rewrite !str_app_assoc in Hname.
  destruct Ha as (?&?&?&?), Hb as (?&?&?&?).
  apply sep_inj in Hname as [Ea0 Hname]; [|by apply Hd..].
  apply sep_inj in Hname as [Ea1 Hname]; [|by apply Hd..].
  apply sep_inj in Hname as [Ea2 Hname]; [|by apply Hd..].
  apply sep_inj in Hname as [Ea3 Hname]; [|by apply Hc..].
  apply (inj pretty) in Ea0, Ea1, Ea2, Ea3, Hname.
  apply htons_inj in Hname; [|done..]. congruence.
Qed.

(** ** Witnesses *)

Section demo.
Definition demo_env : udp_env := mkUdpEnv 0 0 0 0 true.
Definition demo_config : NetworkConfig := mkNetworkConfig 8086 1 0.
Definition demo_async_config : NetworkConfig := mkNetworkConfig 8086 1 2.
Definition demo_addr : sockaddr_in := mkSockaddr (127, 0, 0, 1) 14640.

(** The server of [config] as it comes up. *)
Definition demo_server (workers : nat) : NetworkServer nat :=
  mkNetworkServer 1 (replicate workers (newPool 1))
    [mkBuffer 20971520 ∅; mkBuffer 20971520 ∅] (Some 20971520) 0 0 ∅.

Lemma demo_init :
  initUdpServer demo_env 8 demo_config newNetworkServer = Done (demo_server 0).
Proof. reflexivity. Qed.

Lemma demo_async_init :
  initUdpServer demo_env 8 demo_async_config newNetworkServer
  = Done (demo_server 2).
Proof. reflexivity. Qed.

Lemma demo_buffers (s : NetworkServer nat) config :
  event_loop_num config = 1 →
  initUdpServer demo_env 8 config newNetworkServer = Done s →
  buffers_at 20971520 0 s.
Proof.
  intros He Hs. apply init_done in Hs as (_ & _ & Hat & _);
    rewrite He in *; [exact Hat|done].
Qed.

Definition demo_hash (_ : string) : Z := 5.
End demo.

Example demo_peer_name : peer_name demo_addr = "127.0.0.1:12345".
Proof. vm_compute. reflexivity. Qed.

Lemma receive_slots_witness :
  ∃ size s', mBufferSize (demo_server 0) = Some size ∧
    alloc_n 3 (demo_server 0) = Done ([(0%nat, 0); (0%nat, 1600); (0%nat, 3200)], s').
Proof.
  destruct (receive_slots demo_env 8 demo_config (demo_server 0) 3 ltac:(vm_compute; discriminate)
    demo_init) as (size & s' & Hsize & Halloc & _).
  exists size, s'. split; [exact Hsize|]. injection Hsize as <-.
  rewrite Halloc. vm_compute. reflexivity.
Defined.

Lemma receive_sync_refines_witness :
  ∃ s' n',
    on_readable demo_hash 2 [(demo_addr, [128; 96; 7])]
      (registerPeer "127.0.0.1:12345" 42%nat (demo_server 0))
    = Done (s', [], [Increment "127.0.0.1:12345" 3; Process 42%nat [128; 96; 7]]) ∧
    buffers_at 20971520 n' s' ∧
    mRegisteredPeers s' = {["127.0.0.1:12345" := mkPeer "127.0.0.1:12345" 42%nat]}.
Proof.
  apply (receive_sync_refines demo_hash 2 20971520 0 [(demo_addr, [128; 96; 7])]
           (registerPeer "127.0.0.1:12345" 42%nat (demo_server 0))).
  - destruct (demo_buffers _ demo_config eq_refl demo_init). by split.
  - reflexivity.
Defined.

Lemma receive_sync_stall_witness :
  ∃ s', on_readable demo_hash 2 [(mkSockaddr (10, 0, 0, 9) 1, [0]); (demo_addr, [128; 96; 7])]
          (registerPeer "127.0.0.1:12345" 42%nat (demo_server 0))
        = Done (s', [(demo_addr, [128; 96; 7])], []).
Proof.
  apply (receive_sync_stall demo_hash 2 20971520 0 (mkSockaddr (10, 0, 0, 9) 1) [0]
           [(demo_addr, [128; 96; 7])]
           (registerPeer "127.0.0.1:12345" 42%nat (demo_server 0))).
  - destruct (demo_buffers _ demo_config eq_refl demo_init). by split.
  - reflexivity.
  - vm_compute. reflexivity.
Defined.

Lemma receive_async_intact_witness :
  ∃ s', on_readable demo_hash 2 [(demo_addr, [128; 96; 7])]
          (registerPeer "127.0.0.1:12345" 42%nat (demo_server 2)) = Done (s', [], []).
Proof.
  destruct (receive_async_intact demo_hash 2 20971520 0 [(demo_addr, [128; 96; 7])]
    (registerPeer "127.0.0.1:12345" 42%nat (demo_server 2))) as (s' & E & _).
  - destruct (demo_buffers _ demo_async_config eq_refl demo_async_init). by split.
  - discriminate.
  - by repeat constructor.
  - by exists s'.
Defined.

(** A run of two workers in which the event loop has received a datagram. *)
Definition demo_loop_steps : list (option (sockaddr_in * list Z)) :=
  [None; None; Some (demo_addr, [128; 96; 7]); None].

Fixpoint run_loop_alone (dgs : list (option (sockaddr_in * list Z))) (x : loop_state)
    (ts : list task) (s : NetworkServer nat)
  : option (list task * loop_state * NetworkServer nat) :=
  match dgs with
  | [] => Some (ts, x, s)
  | dg :: dgs' =>
      match loop_step demo_hash dg x s with
      | Done (x', s', _) =>
          run_loop_alone dgs' x' (ts ++ match x with Got t => [t] | _ => [] end) s'
      | Fault _ => None
      end
  end.

Lemma loop_step_threads {F} std_hash dg x x' (s s' : NetworkServer F) evs :
  mpUdpWorkerThreads s ≠ [] → loop_step std_hash dg x s = Done (x', s', evs) →
  mpUdpWorkerThreads s' ≠ [].
Proof.
  intros Hne. destruct x as [| |data|t]; simpl.
  - by intros [= <- <- <-].
  - unfold alloc_slot. intros Ha. by outcome_inv.
  - destruct dg as [[addr payload]|]; [|by intros [= <- <- <-]].
    unfold recvfrom. intros Ha. by outcome_inv.
  - destruct (mpUdpWorkerThreads s) as [|p ps] eqn:E; [done|].
    unfold submit_to. intros Ha. outcome_inv. simpl. intros Hn%(f_equal length).
    rewrite E, length_insert in Hn. done.
Qed.

Lemma run_loop_alone_run dgs x ts s ts' x' s' :
  net_run demo_hash 20971520 ts [x] s → mpUdpWorkerThreads s ≠ [] →
  run_loop_alone dgs x ts s = Some (ts', x', s') → net_run demo_hash 20971520 ts' [x'] s'.
Proof.
  revert x ts s. induction dgs as [|dg dgs IH]; intros x ts s Hr Hne; simpl;
    [by intros [= <- <- <-]|].
  destruct (loop_step demo_hash dg x s) as [[[x1 s1] evs]|] eqn:E; [|done].
  apply IH; [|by eapply loop_step_threads].
  change [x1] with (<[0%nat := x1]> [x]). by eapply run_loop.
Qed.

Lemma per_peer_order_witness :
  ∃ (s : NetworkServer nat) (p : pool task),
    [mkTask "127.0.0.1:12345" (0%nat, 0) 3]
    = filter (fun t => task_peer t = "127.0.0.1:12345") (finished p)
      ++ filter (fun t => task_peer t = "127.0.0.1:12345") (running p)
      ++ filter (fun t => task_peer t = "127.0.0.1:12345") (mTasks p).
Proof.
  destruct (run_loop_alone demo_loop_steps Returned [] (demo_server 2))
    as [[[ts x] s]|] eqn:E; [|vm_compute in E; discriminate E].
  assert (Hr : net_run demo_hash 20971520 ts [x] s).
  { eapply (run_loop_alone_run demo_loop_steps Returned []); [| |exact E]; [|discriminate].
    apply (run_start demo_hash 20971520 demo_env 8 demo_async_config (demo_server 2));
      [vm_compute; discriminate|reflexivity|exact demo_async_init]. }
  destruct (mpUdpWorkerThreads s !! 1%nat) as [p|] eqn:Ep;
    [|vm_compute in E; injection E as <- <- <-; vm_compute in Ep; discriminate Ep].
  exists s, p.
  assert (Hts : ts = [mkTask "127.0.0.1:12345" (0%nat, 0) 3]).
  { vm_compute in E. by injection E as <- <- <-. }
  pose proof (per_peer_order demo_hash 20971520 ts [x] s "127.0.0.1:12345" p Hr) as Ho.
  rewrite Hts in Ho. apply Ho.
  vm_compute in E. injection E as <- <- <-. exact Ep.
Defined.

Lemma init_event_loops_witness :
  ¬ ∃ s : NetworkServer nat,
      initUdpServer demo_env 128 (mkNetworkConfig 8086 (-1) 0) newNetworkServer = Done s.
Proof.
  intros Hs.
  apply (init_event_loops nat demo_env 128 (mkNetworkConfig 8086 (-1) 0)) in Hs;
    [vm_compute in Hs; by apply Hs|reflexivity|vm_compute; discriminate].
Defined.

Lemma init_race_witness :
  on_readable demo_hash 2 [(demo_addr, [1])]
    (mkNetworkServer (F := nat) 1 [] [] None 0 0 ∅) = Fault UninitRead.
Proof. apply (init_race demo_env demo_hash 2 1). reflexivity. Defined.

Lemma peer_name_inj_witness : demo_addr = mkSockaddr (127, 0, 0, 1) 14640.
Proof.
  apply (peer_name_inj demo_addr (mkSockaddr (127, 0, 0, 1) 14640));
    [cbn; lia|cbn; lia|cbn; lia|cbn; lia|reflexivity].
Defined.
