(* ===== verification/Producer.v ===== *)
(** The contract between the RTSP service and the RTP producer
    (core/include/rtp_producer.h): what [RegisterVideo] and [UnregisterVideo]
    do to the registrations, each of which holds the callbacks of one proxy of
    the service. The service is proved against this class; RtpProducer.v gives
    the instance. *)

From stdpp Require Import base gmap strings.
From S2P Require Import Prelude VideoRequest.

(** [bound p] is the proxy whose callbacks the registration of a key holds.
    [RegisterVideo v a p] registers callbacks bound to the proxy at address
    [a]; it also returns the proxies on which it called [processErrorFunc]
    before it returned. *)
Class VideoProducer (P : Type) : Type := {
  producer_ok : P → Prop;
  bound : P → gmap string N;
  RegisterVideo : VideoRequest → N → P → outcome (P * list N);
  UnregisterVideo : VideoRequest → P → outcome P;
}.

(** A video the producer can register at all. *)
Definition supported (v : VideoRequest) : bool := _use_file v || _use_gb v.

Class VideoProducerLaws (P : Type) `{VideoProducer P} : Prop := {
  (** A key is registered once; a second registration is refused with an
      error, and a request for neither a file nor a camera is ignored. *)
  RegisterVideo_law v a p :
    producer_ok p →
    ∃ p' errs, RegisterVideo v a p = Done (p', errs) ∧ producer_ok p' ∧
      match bound p !! cmpStr v with
      | Some _ => errs = [a] ∧ bound p' = bound p
      | None => errs = [] ∧
          bound p' = if supported v then <[cmpStr v := a]> (bound p) else bound p
      end;
  UnregisterVideo_law v p :
    producer_ok p →
    ∃ p', UnregisterVideo v p = Done p' ∧ producer_ok p' ∧
      bound p' = delete (cmpStr v) (bound p);
}.

(** * The smallest producer that meets the contract

    Only the registrations are kept. The examples of the service's theorems run
    on it. *)
Module Registry.
Definition register (v : VideoRequest) (a : N) (p : gmap string N)
  : outcome (gmap string N * list N) :=
  match p !! cmpStr v with
  | Some _ => Done (p, [a])
  | None => Done (if supported v then <[cmpStr v := a]> p else p, [])
  end.

#[export] Instance registry_producer : VideoProducer (gmap string N) := {
  producer_ok _ := True;
  bound p := p;
  RegisterVideo := register;
  UnregisterVideo v p := Done (delete (cmpStr v) p);
}.

#[export] Instance registry_laws : VideoProducerLaws (gmap string N).
Proof.
  split.
  - intros v a p _. simpl. unfold register.
    destruct (p !! cmpStr v) eqn:E; eexists _, _;
      (split; [done|]); split; done.
  - intros v p _. by eexists.
Qed.
End Registry.
