(* ===== verification/RtspService.v ===== *)
(** core/include/rtsp_service.h and core/src/rtsp_service.cpp: the RTSP
    front end. Every connection ([bufferevent]) has an [EventRtspServer]; every
    requested video has a [ProxyInfo] with the sets of its clients by the stage
    of their session.

    Objects live at addresses: [servers] and [proxies] are the live
    [EventRtspServer] and [ProxyInfo] objects, and using an address that is not
    in them is [UseAfterFree]. A handler is one step: the model has the states
    between whole handlers, not the data races the code leaves where it does not
    take [mClientMutex] ([Close], [processErrorFunction]) or [mProxyInfoMutex]
    ([OnPlay]); Locks.v has the locks. The library librtsp is the environment:
    its replies are events, and the requests it parses from the input are an
    argument of [readcb]. *)

From stdpp Require Import base gmap strings list sorting pretty relations.
From S2P Require Import Prelude VideoRequest Producer.

(** * State *)

(** [owner] is the service itself. *)
Record EventRtspServer : Type := mkEventRtspServer {
  server : N;
  bev : N;
}.

Record ProxyInfo : Type := mkProxyInfo {
  beforeDescribeClients : gset N;
  waitingSdpClients : gset N;
  beforePlayClients : gset N;
  playingClients : gset N;
  registered : bool;
  sourceSdp : string;
  sendBuffer : list Z;
}.

Record RtspService (P : Type) : Type := mkRtspService {
  mBev2RtspServer : gmap N N;
  servers : gmap N EventRtspServer;
  mVideoRequest2ProxyInfo : vmap N;
  proxies : gmap N ProxyInfo;
  mpRtpProducer : P;
}.
Arguments mkRtspService {P} _ _ _ _ _.
Arguments mBev2RtspServer {P} _.
Arguments servers {P} _.
Arguments mVideoRequest2ProxyInfo {P} _.
Arguments proxies {P} _.
Arguments mpRtpProducer {P} _.

(** What the service does to connections, by the handle of the library. *)
Inductive rtsp_event : Type :=
| ReplyOptions (rtsp : N) (code : Z)
| ReplyDescribe (rtsp : N) (code : Z) (sdp : string)
| ReplySetup (rtsp : N) (code : Z) (session transport : option string)
| ReplyPlay (rtsp : N) (code : Z) (npt : option Z)
| SendInterleaved (rtsp : N) (data : list Z)
| OutputAdd (bev : N) (data : list Z)
| CloseSocket (bev : N).

(** What a handler returns: a number of its own or the result of the library's
    reply function. *)
Inductive handler_ret : Type := RetInt (z : Z) | RetReply.

Definition MAX_LINE : nat := Z.to_nat 16384.

(** The order in which a [std::set] of pointers is visited. *)
Definition set_iter (s : gset N) : list N := merge_sort N.le (elements s).

(** The range-for over clients: each one is dereferenced. *)
Fixpoint for_clients (objs : gmap N EventRtspServer)
    (f : EventRtspServer → rtsp_event) (cs : list N) : outcome (list rtsp_event) :=
  match cs with
  | [] => Done []
  | c :: cs' =>
      es ← of_option UseAfterFree (objs !! c);
      evs ← for_clients objs f cs';
      Done (f es :: evs)
  end.

(** [rtsp_header_transport_t] *)
Inductive rtsp_transport : Type := RTSP_TRANSPORT_RTP_TCP | RTSP_TRANSPORT_OTHER.
Record transport_header : Type := mkTransport {
  transport : rtsp_transport;
  interleaved1 : Z;
  interleaved2 : Z;
}.

(** A request as the library passes it to the handlers. *)
Inductive rtsp_request : Type :=
| RequestOptions (uri : string)
| RequestDescribe (uri : string)
| RequestSetup (uri : string) (session : option string) (t : transport_header)
| RequestPlay (uri : string) (npt : option Z)
| RequestPause (uri : string)
| RequestTeardown (uri : string)
| RequestAnnounce (uri : string)
| RequestRecord (uri : string)
| RequestGetParameter (uri : string)
| RequestSetParameter (uri : string).

(** * The interleaved frame *)

(** [data[1] & 0x7f] of a packet, RTCP types go to channel 1. *)
Definition interleaved_channel (byte1 : Z) : Z :=
  let payload := Z.land byte1 127 in
  if (72 <=? payload)%Z && (payload <=? 76)%Z then 1%Z else 0%Z.

(** The bytes [consumePktFunction] writes to the front of [sendBuffer]. *)
Definition frame_bytes (data : list Z) (byte1 : Z) : list Z :=
  let len := Z.of_nat (length data) in
  [36%Z; interleaved_channel byte1; u8 (Z.shiftr len 8); u8 (Z.land len 255)] ++ data.

(** [new char[1600]]: the indeterminate bytes are written as 0; only bytes the
    packet callback has written are ever sent. *)
Definition new_sendBuffer : list Z := replicate (Z.to_nat 1600) 0%Z.
Arguments new_sendBuffer : simpl never.

Section rtsp_service.
Context {P : Type} `{VideoProducer P}.
Implicit Types (st : RtspService P) (px : ProxyInfo).

  (** What destroying a server handle does to the service: librtsp calls the
      [close] handler of the connection. *)
Variable rtsp_server_destroy : N → RtspService P → outcome (RtspService P).

  (** How fmt prints a pointer. *)
Variable format_pointer : N → string.

  (** Whether [rtsp_server_input] goes on with the next request when a handler
      returned this. *)
Variable rtsp_goes_on : handler_ret → bool.

(** * Operations *)

Definition with_proxy (a : N) (px : ProxyInfo) (st : RtspService P) : RtspService P :=
  mkRtspService (mBev2RtspServer st) (servers st) (mVideoRequest2ProxyInfo st)
    (<[a := px]> (proxies st)) (mpRtpProducer st).

Definition with_producer (p : P) (st : RtspService P) : RtspService P :=
  mkRtspService (mBev2RtspServer st) (servers st) (mVideoRequest2ProxyInfo st)
    (proxies st) p.

(** Erasing the map entry of [v] destroys its proxy at address [a]. *)
Definition erase_proxy (v : VideoRequest) (a : N) (st : RtspService P) : RtspService P :=
  mkRtspService (mBev2RtspServer st) (servers st)
    (verase v (mVideoRequest2ProxyInfo st)) (delete a (proxies st))
    (mpRtpProducer st).

(** The three callbacks the producer is given, bound to the proxy at [a]. *)
Definition processSdpFunction (a : N) (sdp : string) (st : RtspService P)
  : outcome (RtspService P * list rtsp_event) :=
  px ← of_option UseAfterFree (proxies st !! a);
  evs ← for_clients (servers st) (fun es => ReplyDescribe (server es) 200 sdp)
          (set_iter (waitingSdpClients px));
  Done (with_proxy a
          (mkProxyInfo (beforeDescribeClients px) ∅
             (beforePlayClients px ∪ waitingSdpClients px) (playingClients px)
             true sdp (sendBuffer px)) st, evs).

Definition consumePktFunction (a : N) (data : list Z) (st : RtspService P)
  : outcome (RtspService P * list rtsp_event) :=
  px ← of_option UseAfterFree (proxies st !! a);
  byte1 ← of_option OutOfBounds (data !! 1);
  let frame := frame_bytes data byte1 in
  _ ← require (bool_decide (length frame ≤ length (sendBuffer px))) OutOfBounds;
  let buf := frame ++ drop (length frame) (sendBuffer px) in
  evs ← for_clients (servers st)
          (fun es => SendInterleaved (server es) (take (length data + 4) buf))
          (set_iter (playingClients px));
  Done (with_proxy a
          (mkProxyInfo (beforeDescribeClients px) (waitingSdpClients px)
             (beforePlayClients px) (playingClients px) (registered px)
             (sourceSdp px) buf) st, evs).

Definition processErrorFunction (a : N) (st : RtspService P)
  : outcome (list rtsp_event) :=
  px ← of_option UseAfterFree (proxies st !! a);
  let close es := CloseSocket (bev es) in
  evs1 ← for_clients (servers st) close (set_iter (beforeDescribeClients px));
  evs2 ← for_clients (servers st) close (set_iter (waitingSdpClients px));
  evs3 ← for_clients (servers st) close (set_iter (beforePlayClients px));
  evs4 ← for_clients (servers st) close (set_iter (playingClients px));
  Done (evs1 ++ evs2 ++ evs3 ++ evs4).

(** The if/else-if chain of [Close]: the proxy without the client, [None] when
    the client is in none of its sets. *)
Definition remove_client (c : N) (px : ProxyInfo) : option ProxyInfo :=
  if bool_decide (c ∈ beforeDescribeClients px) then
    Some (mkProxyInfo (beforeDescribeClients px ∖ {[c]}) (waitingSdpClients px)
            (beforePlayClients px) (playingClients px) (registered px)
            (sourceSdp px) (sendBuffer px))
  else if bool_decide (c ∈ waitingSdpClients px) then
    Some (mkProxyInfo (beforeDescribeClients px) (waitingSdpClients px ∖ {[c]})
            (beforePlayClients px) (playingClients px) (registered px)
            (sourceSdp px) (sendBuffer px))
  else if bool_decide (c ∈ beforePlayClients px) then
    Some (mkProxyInfo (beforeDescribeClients px) (waitingSdpClients px)
            (beforePlayClients px ∖ {[c]}) (playingClients px) (registered px)
            (sourceSdp px) (sendBuffer px))
  else if bool_decide (c ∈ playingClients px) then
    Some (mkProxyInfo (beforeDescribeClients px) (waitingSdpClients px)
            (beforePlayClients px) (playingClients px ∖ {[c]}) (registered px)
            (sourceSdp px) (sendBuffer px))
  else None.

Definition needUnregistered (px : ProxyInfo) : bool :=
  bool_decide (waitingSdpClients px = ∅) && bool_decide (beforePlayClients px = ∅)
  && bool_decide (playingClients px = ∅).

(** The range-for of [Close] over the proxies, in key order. *)
Fixpoint close_loop (c : N) (l : list (VideoRequest * N)) (st : RtspService P)
  : outcome (RtspService P) :=
  match l with
  | [] => Done st
  | (v, a) :: l' =>
      px ← of_option UseAfterFree (proxies st !! a);
      match remove_client c px with
      | None => close_loop c l' st
      | Some px' =>
          let st := with_proxy a px' st in
          if needUnregistered px' then
            st ← (if registered px' then
                    p ← UnregisterVideo v (mpRtpProducer st);
                    Done (with_producer p st)
                  else Done st);
            Done (erase_proxy v a st)
          else Done st
      end
  end.

Definition Close (c : N) (st : RtspService P) : outcome (RtspService P) :=
  close_loop c (ventries (mVideoRequest2ProxyInfo st)) st.

Definition Send (c : N) (data : list Z) (st : RtspService P)
  : outcome (handler_ret * RtspService P * list rtsp_event) :=
  es ← of_option UseAfterFree (servers st !! c);
  Done (RetInt 0, st, [OutputAdd (bev es) data]).

(** The errors [RegisterVideo] reports before it returns. *)
Fixpoint sync_errors (errs : list N) (st : RtspService P)
  : outcome (list rtsp_event) :=
  match errs with
  | [] => Done []
  | a :: errs' =>
      evs ← processErrorFunction a st;
      evs' ← sync_errors errs' st;
      Done (evs ++ evs')
  end.

Definition OnDescribe (c : N) (uri : string) (st : RtspService P)
  : outcome (handler_ret * RtspService P * list rtsp_event) :=
  es ← of_option UseAfterFree (servers st !! c);
  video ← parseUrl uri;
  match vfind video (mVideoRequest2ProxyInfo st) with
  | None => Done (RetInt (-1), st, [])
  | Some a =>
      px ← of_option UseAfterFree (proxies st !! a);
      let bd := beforeDescribeClients px ∖ {[c]} in
      if bool_decide (sourceSdp px = EmptyString)
         && bool_decide (waitingSdpClients px = ∅) then
        let st := with_proxy a
                    (mkProxyInfo bd (waitingSdpClients px ∪ {[c]})
                       (beforePlayClients px) (playingClients px)
                       (registered px) (sourceSdp px) (sendBuffer px)) st in
        '(p, errs) ← RegisterVideo video a (mpRtpProducer st);
        evs ← sync_errors errs st;
        Done (RetInt 0, with_producer p st, evs)
      else if negb (bool_decide (sourceSdp px = EmptyString)) then
        Done (RetInt 0,
              with_proxy a
                (mkProxyInfo bd (waitingSdpClients px)
                   (beforePlayClients px ∪ {[c]}) (playingClients px)
                   (registered px) (sourceSdp px) (sendBuffer px)) st,
              [ReplyDescribe (server es) 200 (sourceSdp px)])
      else
        Done (RetInt 0,
              with_proxy a
                (mkProxyInfo bd (waitingSdpClients px) (beforePlayClients px)
                   (playingClients px) (registered px) (sourceSdp px)
                   (sendBuffer px)) st, [])
  end.

Definition OnSetup (rtsp : N) (session : option string) (t : transport_header)
    (st : RtspService P) : outcome (handler_ret * RtspService P * list rtsp_event) :=
  match transport t with
  | RTSP_TRANSPORT_RTP_TCP =>
      let transportStr := "RTP/AVP/TCP;interleaved=" +:+ pretty (interleaved1 t)
                            +:+ "-" +:+ pretty (interleaved2 t) in
      match session with
      | None => Done (RetReply, st,
                      [ReplySetup rtsp 200 (Some (format_pointer rtsp))
                         (Some transportStr)])
      | Some _ => Done (RetReply, st, [ReplySetup rtsp 461 None None])
      end
  | _ => Done (RetReply, st, [ReplySetup rtsp 461 None None])
  end.

Definition OnPlay (c rtsp : N) (uri : string) (npt : option Z) (st : RtspService P)
  : outcome (handler_ret * RtspService P * list rtsp_event) :=
  _ ← of_option UseAfterFree (servers st !! c);
  video ← parseUrl uri;
  match vfind video (mVideoRequest2ProxyInfo st) with
  | None => Done (RetInt (-1), st, [])
  | Some a =>
      px ← of_option UseAfterFree (proxies st !! a);
      if bool_decide (c ∈ beforePlayClients px) then
        Done (RetReply,
              with_proxy a
                (mkProxyInfo (beforeDescribeClients px) (waitingSdpClients px)
                   (beforePlayClients px ∖ {[c]}) (playingClients px ∪ {[c]})
                   (registered px) (sourceSdp px) (sendBuffer px)) st,
              [ReplyPlay rtsp 200 npt])
      else Done (RetReply, st, [ReplyPlay rtsp 454 None])
  end.

(** These handlers write the URL to the log and return, without an answer. *)
Definition OnPause (uri : string) (st : RtspService P)
  : outcome (handler_ret * RtspService P * list rtsp_event) :=
  Done (RetInt 0, st, []).
Definition OnTeardown (uri : string) (st : RtspService P)
  : outcome (handler_ret * RtspService P * list rtsp_event) :=
  Done (RetInt 0, st, []).
Definition OnAnnounce (uri : string) (st : RtspService P)
  : outcome (handler_ret * RtspService P * list rtsp_event) :=
  Done (RetInt 0, st, []).
Definition OnRecord (uri : string) (st : RtspService P)
  : outcome (handler_ret * RtspService P * list rtsp_event) :=
  Done (RetInt 0, st, []).

(** [a] is the address of the [ProxyInfo] that is made for a new video. *)
Definition OnOptions (c rtsp : N) (uri : string) (a : N) (st : RtspService P)
  : outcome (handler_ret * RtspService P * list rtsp_event) :=
  _ ← of_option UseAfterFree (servers st !! c);
  video ← parseUrl uri;
  match vfind video (mVideoRequest2ProxyInfo st) with
  | None =>
      let px := mkProxyInfo {[c]} ∅ ∅ ∅ false EmptyString
                  new_sendBuffer in
      Done (RetInt 0,
            mkRtspService (mBev2RtspServer st) (servers st)
              (vset video a (mVideoRequest2ProxyInfo st))
              (<[a := px]> (proxies st)) (mpRtpProducer st),
            [ReplyOptions rtsp 200])
  | Some a' =>
      px ← of_option UseAfterFree (proxies st !! a');
      Done (RetInt 0,
            with_proxy a'
              (mkProxyInfo (beforeDescribeClients px ∪ {[c]})
                 (waitingSdpClients px) (beforePlayClients px)
                 (playingClients px) (registered px) (sourceSdp px)
                 (sendBuffer px)) st,
            [ReplyOptions rtsp 200])
  end.

(** Like [OnPause]. *)
Definition OnGetParameter (uri : string) (st : RtspService P)
  : outcome (handler_ret * RtspService P * list rtsp_event) :=
  Done (RetInt 0, st, []).
Definition OnSetParameter (uri : string) (st : RtspService P)
  : outcome (handler_ret * RtspService P * list rtsp_event) :=
  Done (RetInt 0, st, []).

(** The handler table of [Init] as the library uses it; [a] is the address for
    a proxy the request may create. *)
Definition handle_request (c rtsp : N) (a : N) (r : rtsp_request) (st : RtspService P)
  : outcome (handler_ret * RtspService P * list rtsp_event) :=
  match r with
  | RequestOptions uri => OnOptions c rtsp uri a st
  | RequestDescribe uri => OnDescribe c uri st
  | RequestSetup _ session t => OnSetup rtsp session t st
  | RequestPlay uri npt => OnPlay c rtsp uri npt st
  | RequestPause uri => OnPause uri st
  | RequestTeardown uri => OnTeardown uri st
  | RequestAnnounce uri => OnAnnounce uri st
  | RequestRecord uri => OnRecord uri st
  | RequestGetParameter uri => OnGetParameter uri st
  | RequestSetParameter uri => OnSetParameter uri st
  end.

(** The requests [rtsp_server_input] finds in the input, each with an address
    for a new proxy. The library calls the handlers in turn and may stop after one
    of them; the requests it then leaves are lost with the input. *)
Fixpoint handle_requests (c rtsp : N) (rs : list (rtsp_request * N))
    (st : RtspService P) : outcome (RtspService P * list rtsp_event) :=
  match rs with
  | [] => Done (st, [])
  | (r, a) :: rs' =>
      '(ret, st, evs) ← handle_request c rtsp a r st;
      if rtsp_goes_on ret then
        '(st, evs') ← handle_requests c rtsp rs' st;
        Done (st, evs ++ evs')
      else Done (st, evs)
  end.

(** [readcb]: at most [MAX_LINE] bytes of the input go to the connection's
    server. [read] is the result of [evbuffer_remove]; what [rtsp_server_input]
    returns is not used. *)
Definition readcb (rtsp_server_input : N → list Z → list (rtsp_request * N))
    (b : N) (read : option (list Z)) (st : RtspService P)
  : outcome (RtspService P * list rtsp_event) :=
  match mBev2RtspServer st !! b with
  | None => Done (st, [])
  | Some c =>
      match read with
      | None => Done (st, [])
      | Some input =>
          es ← of_option UseAfterFree (servers st !! c);
          handle_requests c (server es)
            (rtsp_server_input (server es) (take MAX_LINE input)) st
      end
  end.

(** [errorcb]: erasing the map entry runs [~EventRtspServer], which frees the
    bufferevent and destroys the server handle. *)
Definition errorcb (b : N) (st : RtspService P) : outcome (RtspService P) :=
  match mBev2RtspServer st !! b with
  | None => Done st
  | Some c =>
      st ← rtsp_server_destroy c
             (mkRtspService (delete b (mBev2RtspServer st)) (servers st)
                (mVideoRequest2ProxyInfo st) (proxies st) (mpRtpProducer st));
      Done (mkRtspService (mBev2RtspServer st) (delete c (servers st))
              (mVideoRequest2ProxyInfo st) (proxies st) (mpRtpProducer st))
  end.

(** [accept_conn_cb]: [nodelay] is the result of [setsockopt], [b] the new
    bufferevent, [c] the address of the new [EventRtspServer] and [rtsp] the
    handle of [rtsp_server_create]. *)
Definition accept_conn_cb (nodelay : Z) (b : option N) (c rtsp : N)
    (st : RtspService P) : outcome (RtspService P) :=
  _ ← require (nodelay =? 0)%Z LogFatal;
  match b with
  | None => Done st
  | Some b =>
      match mBev2RtspServer st !! b with
      | Some _ => Done st
      | None =>
          Done (mkRtspService (<[b := c]> (mBev2RtspServer st))
                  (<[c := mkEventRtspServer rtsp b]> (servers st))
                  (mVideoRequest2ProxyInfo st) (proxies st) (mpRtpProducer st))
      end
  end.

End rtsp_service.

(** * Lemmas *)

Lemma elem_of_set_iter (s : gset N) c : c ∈ set_iter s ↔ c ∈ s.
Proof. unfold set_iter. by rewrite merge_sort_Permutation, elem_of_elements. Qed.

Lemma NoDup_set_iter (s : gset N) : NoDup (set_iter s).
Proof. unfold set_iter. rewrite merge_sort_Permutation. apply NoDup_elements. Qed.

(** The range-for over live clients emits one event each. *)
Lemma for_clients_ok objs f cs :
  (∀ c, c ∈ cs → is_Some (objs !! c)) →
  for_clients objs f cs = Done (omap (fun c => f <$> objs !! c) cs).
Proof.
  induction cs as [|c cs IH]; intros Hall; simpl; [done|].
  destruct (Hall c) as [es Hes]; [set_solver|]. rewrite Hes. orun.
  rewrite IH; [done|set_solver].
Qed.

(** * The interleaved stream of a client *)

(** Reference: what the receiver of RFC 2326, section 10.12, reads. *)
Definition parse_interleaved (s : list Z) : option (Z * list Z * list Z) :=
  match s with
  | m :: ch :: hi :: lo :: rest =>
      let n := Z.to_nat (hi * 256 + lo) in
      if (m =? 36)%Z && bool_decide (n ≤ length rest)
      then Some (ch, take n rest, drop n rest) else None
  | _ => None
  end.

Fixpoint parse_stream (fuel : nat) (s : list Z) : option (list (Z * list Z)) :=
  match fuel, s with
  | _, [] => Some []
  | O, _ => None
  | S fuel', _ =>
      match parse_interleaved s with
      | None => None
      | Some (ch, data, rest) => cons (ch, data) <$> parse_stream fuel' rest
      end
  end.

(** The packets one after the other as [consumePktFunction] frames them. *)
Definition frames (pkts : list (list Z)) : list Z :=
  concat (map (fun d => frame_bytes d (nth 1 d 0%Z)) pkts).

Lemma parse_frame data byte1 rest :
  (Z.of_nat (length data) < 65536)%Z →
  parse_interleaved (frame_bytes data byte1 ++ rest)
  = Some (interleaved_channel byte1, data, rest).
Proof.
  intros Hlen. unfold frame_bytes, parse_interleaved. simpl.
  set (n := Z.of_nat (length data)).
  assert (Hn : (u8 (Z.shiftr n 8) * 256 + u8 (Z.land n 255) = n)%Z).
  { unfold u8. change 255%Z with (Z.ones 8).
    rewrite Z.land_ones, Z.shiftr_div_pow2 by lia.
    change (2 ^ 8)%Z with 256%Z. subst n.
    rewrite Z.mod_mod by lia. rewrite (Z.mod_small (_ / 256)) by
      (split; [apply Z.div_pos; lia|apply Z.div_lt_upper_bound; lia]).
    pose proof (Z.div_mod (Z.of_nat (length data)) 256). lia. }
  rewrite Hn. subst n. rewrite Nat2Z.id, length_app, bool_decide_eq_true_2 by lia.
  by rewrite take_app_length, drop_app_length.
Qed.

Lemma parse_stream_frame fuel data byte1 rest :
  (Z.of_nat (length data) < 65536)%Z →
  parse_stream (S fuel) (frame_bytes data byte1 ++ rest)
  = cons (interleaved_channel byte1, data) <$> parse_stream fuel rest.
Proof.
  intros Hlen. change (parse_stream (S fuel) (frame_bytes data byte1 ++ rest))
    with (match parse_interleaved (frame_bytes data byte1 ++ rest) with
          | None => None
          | Some (ch, data, rest) => cons (ch, data) <$> parse_stream fuel rest
          end).
  by rewrite parse_frame.
Qed.

Lemma interleaved_channel_spec b :
  interleaved_channel b = if bool_decide (72 ≤ b mod 128 ≤ 76)%Z then 1%Z else 0%Z.
Proof.
  unfold interleaved_channel. change 127%Z with (Z.ones 7).
  rewrite Z.land_ones by lia. change (2 ^ 7)%Z with 128%Z.
  case_bool_decide; destruct (Z.leb_spec 72 (b mod 128)%Z),
    (Z.leb_spec (b mod 128)%Z 76); simpl; (done || lia).
Qed.

Lemma parse_frames pkts :
  Forall (fun d => Z.of_nat (length d) < 65536)%Z pkts →
  parse_stream (length pkts) (frames pkts)
  = Some (map (fun d => (if bool_decide (72 ≤ nth 1 d 0 mod 128 ≤ 76)%Z
                         then 1%Z else 0%Z, d)) pkts).
Proof.
  induction 1 as [|d pkts Hd _ IH]; [done|].
  change (frames (d :: pkts)) with (frame_bytes d (nth 1 d 0%Z) ++ frames pkts).
  change (length (d :: pkts)) with (S (length pkts)).
  rewrite parse_stream_frame, IH by done. simpl. by rewrite interleaved_channel_spec.
Qed.

(** C30: what a playing client receives decodes: the concatenation of the frames
    of any packets shorter than 64 KiB is read back by a receiver of RFC 2326
    section 10.12 as exactly these packets in order, each on channel 1 when its
    second byte is an RTCP type (72 to 76 modulo 128) and on channel 0
    otherwise. *)
Theorem interleaved_stream_roundtrip (pkts : list (list Z))
    (Hlen : Forall (fun d => Z.of_nat (length d) < 65536)%Z pkts) :
  parse_stream (length pkts) (frames pkts)
  = Some (map (fun d => (if bool_decide (72 ≤ nth 1 d 0 mod 128 ≤ 76)%Z
                         then 1%Z else 0%Z, d)) pkts).
Proof. by apply parse_frames. Qed.

Lemma interleaved_stream_roundtrip_witness :
  parse_stream 2 (frames [[128; 96; 7]; [128; 200]]%Z)
  = Some [(0, [128; 96; 7]); (1, [128; 200])]%Z.
Proof.
  apply (interleaved_stream_roundtrip [[128; 96; 7]; [128; 200]]%Z).
  repeat constructor; simpl; lia.
Defined.

(** * The packet callback and its buffer *)

Section handlers.
Context {P : Type}.
Implicit Types (st : RtspService P) (px : ProxyInfo).

Lemma consumePkt_long st a px data :
  proxies st !! a = Some px → length (sendBuffer px) = 1600 →
  1596 < length data → consumePktFunction a data st = Fault OutOfBounds.
Proof.
  intros Hp Hb Hl. unfold consumePktFunction. rewrite Hp. orun.
  destruct (lookup_lt_is_Some_2 data 1) as [b1 Hb1]; [lia|]. rewrite Hb1. orun.
  rewrite bool_decide_eq_false_2; [done|]. rewrite Hb. simpl. lia.
Qed.

Lemma consumePkt_fits st a px data b1 :
  proxies st !! a = Some px → length (sendBuffer px) = 1600 →
  data !! 1 = Some b1 → length data ≤ 1596 →
  (∀ c, c ∈ playingClients px → is_Some (servers st !! c)) →
  ∃ st', consumePktFunction a data st
    = Done (st', omap (fun c => (fun es => SendInterleaved (server es)
                                             (frame_bytes data b1))
                                  <$> servers st !! c)
                   (set_iter (playingClients px))).
Proof.
  intros Hp Hb Hb1 Hl Hal. unfold consumePktFunction. rewrite Hp, Hb1. orun.
  assert (Hfl : length (frame_bytes data b1) = length data + 4) by (simpl; lia).
  rewrite bool_decide_eq_true_2 by (rewrite Hb, Hfl; lia). orun.
  rewrite for_clients_ok by (intros c; rewrite elem_of_set_iter; apply Hal). orun.
  rewrite <- Hfl, take_app_length. by eexists.
Qed.
End handlers.

(** The bounds of the packet callback. With the 1600-byte send buffer of a
    proxy and its clients connected, a packet is sent to every playing client
    exactly when it has between 2 and 1596 bytes; any other packet makes the
    callback read or write out of bounds. The producer's receive callback
    allocates packets of up to 1600 bytes, so the last four lengths overflow. *)
Theorem consumePkt_bounds {P : Type} (st : RtspService P) (a : N)
    (px : ProxyInfo) (data : list Z)
    (Hp : proxies st !! a = Some px)
    (Hb : length (sendBuffer px) = 1600)
    (Hal : ∀ c, c ∈ playingClients px → is_Some (servers st !! c)) :
  if bool_decide (2 ≤ length data ≤ 1596) then
    ∃ st', consumePktFunction a data st
      = Done (st', omap (fun c => (fun es => SendInterleaved (server es)
                                     (frame_bytes data (nth 1 data 0%Z)))
                                    <$> servers st !! c)
                     (set_iter (playingClients px)))
  else consumePktFunction a data st = Fault OutOfBounds.
Proof.
  case_bool_decide as Hl.
  - destruct data as [|b0 [|b1 data]]; simpl in Hl; [lia|lia|].
    apply consumePkt_fits; auto. simpl. lia.
  - destruct (decide (1596 < length data)); [by eapply consumePkt_long|].
    destruct data as [|b0 [|b1 data]]; [..|exfalso; apply Hl; simpl in *; lia];
      unfold consumePktFunction; by rewrite Hp.
Qed.

Lemma consumePkt_bounds_witness :
  let px := mkProxyInfo ∅ ∅ ∅ {[7%N]} true "v=0" new_sendBuffer in
  let st := mkRtspService {[1%N := 7%N]} {[7%N := mkEventRtspServer 70 1]}
              (∅ : vmap N) {[3%N := px]} (∅ : gmap string N) in
  (∃ st', consumePktFunction 3 [128; 200; 0]%Z st
     = Done (st', [SendInterleaved 70 [36; 1; 0; 3; 128; 200; 0]%Z])) ∧
  consumePktFunction 3 (replicate (Z.to_nat 1597) 0%Z) st = Fault OutOfBounds.
Proof.
  intros px st.
  assert (Hal : ∀ c, c ∈ playingClients px → is_Some (servers st !! c)).
  { simpl. intros c ->%elem_of_singleton. by exists (mkEventRtspServer 70 1). }
  split.
  - apply (consumePkt_bounds st 3 px [128; 200; 0]%Z eq_refl eq_refl Hal).
  - apply (consumePkt_bounds st 3 px (replicate (Z.to_nat 1597) 0%Z) eq_refl eq_refl Hal).
Defined.

(** * DESCRIBE while another client waits *)

(** A second DESCRIBE of a video whose SDP is still awaited is lost. The
    handler returns 0 without an answer and without noting the client; the SDP,
    when it comes, is sent to the clients that waited before and not to this
    one; and a PLAY of the client is refused with 454. *)
Theorem describe_second_waiter `{VideoProducer P} (st : RtspService P)
    (c a : N) (uri sdp : string) (es : EventRtspServer) (v : VideoRequest)
    (px : ProxyInfo)
    (Hes : servers st !! c = Some es)
    (Hv : parseUrl uri = Done v)
    (Ha : vfind v (mVideoRequest2ProxyInfo st) = Some a)
    (Hp : proxies st !! a = Some px)
    (Hsdp : sourceSdp px = EmptyString)
    (Hw : waitingSdpClients px ≠ ∅)
    (Hc : c ∉ waitingSdpClients px ∪ beforePlayClients px)
    (Hal : ∀ c', c' ∈ waitingSdpClients px → is_Some (servers st !! c')) :
  ∃ st1 st2,
    OnDescribe c uri st = Done (RetInt 0, st1, []) ∧
    processSdpFunction a sdp st1
    = Done (st2, omap (fun c' => (fun es => ReplyDescribe (server es) 200 sdp)
                                  <$> servers st !! c')
                   (set_iter (waitingSdpClients px))) ∧
    ∀ rtsp npt, OnPlay c rtsp uri npt st2
                = Done (RetReply, st2, [ReplyPlay rtsp 454 None]).
Proof.
  unfold OnDescribe. rewrite Hes, Hv. orun. rewrite Ha, Hp. orun.
  rewrite (bool_decide_eq_true_2 (sourceSdp px = _)) by done.
  rewrite bool_decide_eq_false_2 by done. simpl. eexists _, _.
  split; [done|]. unfold processSdpFunction. simpl. rewrite lookup_insert_eq. orun.
  simpl. rewrite for_clients_ok by (intros c'; rewrite elem_of_set_iter; apply Hal).
  split; [done|]. intros rtsp npt. unfold OnPlay. simpl. rewrite Hes, Hv. orun.
  rewrite Ha. simpl. rewrite lookup_insert_eq. orun. simpl.
  rewrite bool_decide_eq_false_2; [done|set_solver].
Qed.

Lemma describe_second_waiter_witness :
  let uri := "rtsp://h/gb/34" in
  let v := mkVideoRequest false EmptyString false true "34" UDP in
  let px := mkProxyInfo {[8%N]} {[7%N]} ∅ ∅ false EmptyString [] in
  let st := mkRtspService {[1%N := 7%N; 2%N := 8%N]}
              {[7%N := mkEventRtspServer 70 1; 8%N := mkEventRtspServer 80 2]}
              {[cmpStr v := (v, 3%N)]} {[3%N := px]}
              ({[cmpStr v := 3%N]} : gmap string N) in
  ∃ st1 st2,
    @OnDescribe _ Registry.registry_producer 8 uri st = Done (RetInt 0, st1, []) ∧
    processSdpFunction 3 "v=0" st1 = Done (st2, [ReplyDescribe 70 200 "v=0"]) ∧
    ∀ rtsp npt, OnPlay 8 rtsp uri npt st2
                = Done (RetReply, st2, [ReplyPlay rtsp 454 None]).
Proof.
  intros uri v px st.
  refine (@describe_second_waiter _ Registry.registry_producer st 8 3 uri "v=0"
            (mkEventRtspServer 80 2) v px _ _ _ _ _ _ _ _);
    [done|done|done|done|done|done| |].
  - subst px. simpl. set_solver.
  - subst px st. simpl. intros c' ->%elem_of_singleton. by exists (mkEventRtspServer 70 1).
Defined.
