(* ===== verification/RtspSessions.v ===== *)
(** Sessions of the RTSP service: what clients that follow OPTIONS, DESCRIBE and
    PLAY may rely on. [preach] are the states such clients lead to, whenever their
    connections fail; [dreach] those among them in which no client left while the
    producer still had to report its SDP. [wf] and [located] are the invariants of
    both: every client that a proxy knows is connected and at the stage its set
    says, and a client that was answered is where PLAY and the packets look for it.
    [anchored] is the one of the latter only: every registration of the producer
    points to a live proxy. *)

From stdpp Require Import base gmap strings list sorting pretty relations.
From S2P Require Import Prelude VideoRequest Producer RtspService.

(** * Sessions that follow the protocol

    Nothing in the handlers or in the library makes a client send OPTIONS,
    DESCRIBE and PLAY once and in this order. [follows] says which events occur
    when the clients do; connections may fail at any time, and the producer may
    report packets of any length. [allowed] leaves out the failures that the code
    cannot deal with: those of a connection that waits for an SDP the producer has
    not reported, on a video it still holds. *)

Inductive cphase : Type :=
| Fresh
| Optioned (k : string)
| Waiting (k : string)
| Described (k : string)
| Playing (k : string)
| Dropped (k : string).

Inductive event : Type :=
| EAccept (b c rtsp : N)
| EOptions (c : N) (uri : string) (a : N)
| EDescribe (c : N) (uri : string)
| EPlay (c : N) (uri : string) (npt : option Z)
| EError (b : N)
| ESdp (a : N) (sdp : string)
| EPkt (a : N) (data : list Z)
| EProducerError (a : N).

Definition phase_key (p : cphase) : option string :=
  match p with
  | Fresh => None
  | Optioned k | Waiting k | Described k | Playing k | Dropped k => Some k
  end.

Section runs.
Context {P : Type} `{VideoProducer P}.
Variable rtsp_server_destroy : N → RtspService P → outcome (RtspService P).

Definition exec (e : event) (st : RtspService P)
  : outcome (RtspService P * list rtsp_event) :=
  match e with
  | EAccept b c rtsp =>
      st ← accept_conn_cb 0 (Some b) c rtsp st; Done (st, [])
  | EOptions c uri a =>
      es ← of_option UseAfterFree (servers st !! c);
      '(_, st, evs) ← OnOptions c (server es) uri a st; Done (st, evs)
  | EDescribe c uri =>
      '(_, st, evs) ← OnDescribe c uri st; Done (st, evs)
  | EPlay c uri npt =>
      es ← of_option UseAfterFree (servers st !! c);
      '(_, st, evs) ← OnPlay c (server es) uri npt st; Done (st, evs)
  | EError b => st ← errorcb rtsp_server_destroy b st; Done (st, [])
  | ESdp a sdp => processSdpFunction a sdp st
  | EPkt a data => consumePktFunction a data st
  | EProducerError a => evs ← processErrorFunction a st; Done (st, evs)
  end.

(** The producer calls back only for a registration it holds. *)
Definition calls_back (st : RtspService P) (a : N) : Prop :=
  ∃ k, bound (mpRtpProducer st) !! k = Some a.

Definition follows (e : event) (st : RtspService P) (ph : gmap N cphase) : Prop :=
  match e with
  | EAccept b c _ => mBev2RtspServer st !! b = None ∧ servers st !! c = None
  | EOptions c _ a => ph !! c = Some Fresh ∧ proxies st !! a = None
  | EDescribe c uri =>
      ∃ v, parseUrl uri = Done v ∧ ph !! c = Some (Optioned (cmpStr v))
  | EPlay c uri _ =>
      ∃ v, parseUrl uri = Done v ∧ ph !! c = Some (Described (cmpStr v))
  | EError b => ∃ c, mBev2RtspServer st !! b = Some c ∧ is_Some (ph !! c)
  | ESdp a _ | EProducerError a | EPkt a _ => calls_back st a
  end.

(** The SDP of the video has come, so that [Close] will unregister it. *)
Definition has_sdp (k : string) (st : RtspService P) : Prop :=
  ∃ v a px, mVideoRequest2ProxyInfo st !! k = Some (v, a) ∧
    proxies st !! a = Some px ∧ registered px = true.

(** A client that waits for an SDP stays until the producer has dropped the
    registration, as it does after a file that cannot be played. *)
Definition patient (e : event) (st : RtspService P) (ph : gmap N cphase) : Prop :=
  match e with
  | EError b => ∀ c k, mBev2RtspServer st !! b = Some c →
      ph !! c = Some (Waiting k) →
      bound (mpRtpProducer st) !! k = None ∨ has_sdp k st
  | _ => True
  end.

Definition allowed (e : event) (st : RtspService P) (ph : gmap N cphase) : Prop :=
  follows e st ph ∧ patient e st ph.

(** How an event goes wrong: a callback for a proxy that is gone, or a packet that
    has no second byte or does not fit the send buffer with its header. *)
Definition fault_of (e : event) (st : RtspService P) : option fault :=
  match e with
  | ESdp a _ | EProducerError a =>
      match proxies st !! a with None => Some UseAfterFree | Some _ => None end
  | EPkt a data =>
      match proxies st !! a with
      | None => Some UseAfterFree
      | Some _ => if bool_decide (2 ≤ length data ≤ 1596) then None
                  else Some OutOfBounds
      end
  | _ => None
  end.

(** The session stage a DESCRIBE leads to. *)
Definition described_phase (v : VideoRequest) (st : RtspService P) : cphase :=
  match vfind v (mVideoRequest2ProxyInfo st) ≫= (fun a => proxies st !! a) with
  | None => Dropped (cmpStr v)
  | Some px =>
      if bool_decide (sourceSdp px = EmptyString)
         && bool_decide (waitingSdpClients px = ∅) then Waiting (cmpStr v)
      else if negb (bool_decide (sourceSdp px = EmptyString))
      then Described (cmpStr v) else Dropped (cmpStr v)
  end.

Definition answered (p : cphase) : cphase :=
  match p with Waiting k => Described k | _ => p end.

(** The stages after an event. *)
Definition next_phase (e : event) (st : RtspService P) (ph : gmap N cphase)
  : gmap N cphase :=
  match e with
  | EAccept _ c _ => <[c := Fresh]> ph
  | EOptions c uri _ =>
      match parseUrl uri with
      | Done v => <[c := Optioned (cmpStr v)]> ph
      | Fault _ => ph
      end
  | EDescribe c uri =>
      match parseUrl uri with
      | Done v => <[c := described_phase v st]> ph
      | Fault _ => ph
      end
  | EPlay c uri _ =>
      match parseUrl uri with
      | Done v =>
          match vfind v (mVideoRequest2ProxyInfo st) ≫= (fun a => proxies st !! a) with
          | Some px => if bool_decide (c ∈ beforePlayClients px)
                       then <[c := Playing (cmpStr v)]> ph else ph
          | None => ph
          end
      | Fault _ => ph
      end
  | EError b =>
      match mBev2RtspServer st !! b with Some c => delete c ph | None => ph end
  | ESdp a _ =>
      match proxies st !! a with
      | Some px => map_imap (fun c p =>
          Some (if bool_decide (c ∈ waitingSdpClients px) then answered p else p)) ph
      | None => ph
      end
  | EPkt _ _ | EProducerError _ => ph
  end.

(** The service after its constructor and [Init]. *)
Definition initial (p : P) : RtspService P := mkRtspService ∅ ∅ ∅ ∅ p.

(** The states that events lead to of which each meets [R] where it happens. The
    producer also works on its own: its steps may drop registrations but never add
    one. *)
Inductive runs_to (R : event → RtspService P → gmap N cphase → Prop)
  : RtspService P → gmap N cphase → Prop :=
| runs_init p : producer_ok p → bound p = ∅ → runs_to R (initial p) ∅
| runs_step st ph e st' evs :
    runs_to R st ph → R e st ph → exec e st = Done (st', evs) →
    runs_to R st' (next_phase e st ph)
| runs_producer st ph p' :
    runs_to R st ph → producer_ok p' → bound p' ⊆ bound (mpRtpProducer st) →
    runs_to R (with_producer p' st) ph.

Definition preach : RtspService P → gmap N cphase → Prop := runs_to follows.
Definition dreach : RtspService P → gmap N cphase → Prop := runs_to allowed.

(** Where the clients of a proxy are in their sessions. *)
Definition placed (k : string) (px : ProxyInfo) (ph : gmap N cphase) : Prop :=
  ∀ c, (c ∈ beforeDescribeClients px → ph !! c = Some (Optioned k)) ∧
       (c ∈ waitingSdpClients px → ph !! c = Some (Waiting k)) ∧
       (c ∈ beforePlayClients px → ph !! c = Some (Described k)) ∧
       (c ∈ playingClients px → ph !! c = Some (Playing k)).

Record wf (st : RtspService P) (ph : gmap N cphase) : Prop := mkWf {
  wf_keyed : vkeyed (mVideoRequest2ProxyInfo st);
  wf_mapped k v a :
    mVideoRequest2ProxyInfo st !! k = Some (v, a) → is_Some (proxies st !! a);
  wf_inj k1 v1 k2 v2 a :
    mVideoRequest2ProxyInfo st !! k1 = Some (v1, a) →
    mVideoRequest2ProxyInfo st !! k2 = Some (v2, a) → k1 = k2;
  wf_owned a px :
    proxies st !! a = Some px →
    ∃ k v, mVideoRequest2ProxyInfo st !! k = Some (v, a);
  wf_placed k v a px :
    mVideoRequest2ProxyInfo st !! k = Some (v, a) →
    proxies st !! a = Some px → placed k px ph;
  wf_alive c p : ph !! c = Some p → is_Some (servers st !! c);
  wf_bev b c :
    mBev2RtspServer st !! b = Some c →
    ∃ es, servers st !! c = Some es ∧ bev es = b;
  wf_producer : producer_ok (mpRtpProducer st);
  wf_buffer a px : proxies st !! a = Some px → length (sendBuffer px) = 1600;
}.

(** Every registration of the producer is that of a live proxy, which has its SDP
    or a client that waits for it. *)
Definition anchored (st : RtspService P) : Prop :=
  ∀ k a, bound (mpRtpProducer st) !! k = Some a →
    ∃ v px, mVideoRequest2ProxyInfo st !! k = Some (v, a) ∧
      proxies st !! a = Some px ∧
      (registered px = true ∨ waitingSdpClients px ≠ ∅).

Lemma dreach_init p : producer_ok p → bound p = ∅ → dreach (initial p) ∅.
Proof. apply runs_init. Qed.

Lemma dreach_step st ph e st' evs :
  dreach st ph → allowed e st ph → exec e st = Done (st', evs) →
  dreach st' (next_phase e st ph).
Proof. apply runs_step. Qed.

Lemma dreach_producer st ph p' :
  dreach st ph → producer_ok p' → bound p' ⊆ bound (mpRtpProducer st) →
  dreach (with_producer p' st) ph.
Proof. apply runs_producer. Qed.

Lemma runs_mono (R R' : event → RtspService P → gmap N cphase → Prop) st ph :
  (∀ e st ph, R e st ph → R' e st ph) → runs_to R st ph → runs_to R' st ph.
Proof.
  intros Hsub. induction 1; [by apply runs_init| |by apply runs_producer].
  eapply runs_step; eauto.
Qed.

Lemma dreach_preach st ph : dreach st ph → preach st ph.
Proof. apply runs_mono. by intros e st' ph' [? _]. Qed.
End runs.

(** * Lemmas *)

Section invariant.
Context {P : Type} `{VideoProducer P, !VideoProducerLaws P}.
Implicit Types (st : RtspService P) (ph : gmap N cphase) (px : ProxyInfo).

(** A client of a mapped proxy is connected. *)
Lemma placed_alive st ph k v a px c :
  wf st ph →
  mVideoRequest2ProxyInfo st !! k = Some (v, a) → proxies st !! a = Some px →
  c ∈ beforeDescribeClients px ∪ waitingSdpClients px ∪ beforePlayClients px
      ∪ playingClients px →
  is_Some (servers st !! c).
Proof.
  intros Hwf Hm Hp Hc. pose proof (wf_placed _ _ Hwf _ _ _ _ Hm Hp c) as Hpl.
  rewrite !elem_of_union in Hc. destruct Hpl as (H1 & H2 & H3 & H4).
  destruct Hc as [[[?|?]|?]|?]; eapply (wf_alive st ph); eauto.
Qed.

(** The looping callbacks find every client alive. *)
Lemma for_clients_wf st ph k v a px f (s : gset N) :
  wf st ph →
  mVideoRequest2ProxyInfo st !! k = Some (v, a) → proxies st !! a = Some px →
  s ⊆ beforeDescribeClients px ∪ waitingSdpClients px ∪ beforePlayClients px
      ∪ playingClients px →
  for_clients (servers st) f (set_iter s)
  = Done (omap (fun c => f <$> servers st !! c) (set_iter s)).
Proof.
  intros Hwf Hm Hp Hs. apply for_clients_ok.
  intros c Hc%elem_of_set_iter. eapply placed_alive; eauto.
Qed.

(** A clear lookup of the proxy of a video. *)
Lemma vfind_wf st ph v a :
  wf st ph → vfind v (mVideoRequest2ProxyInfo st) = Some a →
  ∃ v' px, mVideoRequest2ProxyInfo st !! cmpStr v = Some (v', a) ∧
           proxies st !! a = Some px.
Proof.
  intros Hwf Hf. unfold vfind in Hf.
  destruct (mVideoRequest2ProxyInfo st !! cmpStr v) as [[v' a']|] eqn:E;
    simplify_eq/=.
  destruct (wf_mapped _ _ Hwf _ _ _ E) as [px Hpx]. by eauto.
Qed.

Lemma bound_anchored st k a :
  anchored st → bound (mpRtpProducer st) !! k = Some a →
  ∃ v px, mVideoRequest2ProxyInfo st !! k = Some (v, a) ∧
          proxies st !! a = Some px.
Proof. intros Han Hb. destruct (Han _ _ Hb) as (v & px & ? & ? & _). by eauto. Qed.

(** One proxy and the producer change; the sessions of other videos do not. *)
Lemma wf_update st ph ph' k v a px px' p' :
  wf st ph →
  mVideoRequest2ProxyInfo st !! k = Some (v, a) → proxies st !! a = Some px →
  placed k px' ph' → length (sendBuffer px') = 1600 →
  (∀ c q, ph' !! c = Some q → is_Some (servers st !! c)) →
  (∀ c q k', ph !! c = Some q → phase_key q = Some k' → k' ≠ k →
     ph' !! c = Some q) →
  producer_ok p' →
  wf (with_producer p' (with_proxy a px' st)) ph'.
Proof.
  intros Hwf Hm Hp Hpl Hlen Hal Hoth Hok.
  split; simpl; try apply Hwf; auto.
  - intros k' v' a' Hm'. destruct (decide (a' = a)) as [->|].
    + rewrite lookup_insert_eq. by eauto.
    + rewrite lookup_insert_ne by done. by eapply wf_mapped.
  - intros a' px2. destruct (decide (a' = a)) as [->|].
    + by eauto.
    + rewrite lookup_insert_ne by done. by apply (wf_owned st ph).
  - intros k' v' a' px2 Hm'. destruct (decide (a' = a)) as [->|Hne].
    + rewrite lookup_insert_eq. intros [= <-].
      by rewrite (wf_inj _ _ Hwf _ _ _ _ _ Hm' Hm).
    + rewrite lookup_insert_ne by done. intros Hp2 c.
      destruct (wf_placed _ _ Hwf _ _ _ _ Hm' Hp2 c) as (H1 & H2 & H3 & H4).
      assert (k' ≠ k) by (intros ->; rewrite Hm in Hm'; congruence).
      split_and!; intros Hc; eapply Hoth; eauto; done.
  - intros a' px2. destruct (decide (a' = a)) as [->|].
    + rewrite lookup_insert_eq. by intros [= <-].
    + rewrite lookup_insert_ne by done. by apply (wf_buffer st ph).
Qed.

Lemma with_same_producer st : with_producer (mpRtpProducer st) st = st.
Proof. by destruct st. Qed.

(** The same when the producer keeps its registrations. *)
Lemma wf_update_proxy st ph ph' k v a px px' :
  wf st ph →
  mVideoRequest2ProxyInfo st !! k = Some (v, a) → proxies st !! a = Some px →
  placed k px' ph' → length (sendBuffer px') = 1600 →
  (∀ c q, ph' !! c = Some q → is_Some (servers st !! c)) →
  (∀ c q k', ph !! c = Some q → phase_key q = Some k' → k' ≠ k →
     ph' !! c = Some q) →
  wf (with_proxy a px' st) ph'.
Proof.
  intros Hwf Hm Hp Hpl Hlen Hal Hoth.
  rewrite <- (with_same_producer (with_proxy a px' st)).
  eapply wf_update; eauto. apply Hwf.
Qed.

(** One proxy and the producer change; the registrations of other videos do not. *)
Lemma anchored_update st ph k v a px' p' :
  wf st ph → anchored st →
  mVideoRequest2ProxyInfo st !! k = Some (v, a) →
  (∀ k' a', bound p' !! k' = Some a' →
     k' = k ∧ a' = a ∧ (registered px' = true ∨ waitingSdpClients px' ≠ ∅) ∨
     k' ≠ k ∧ bound (mpRtpProducer st) !! k' = Some a') →
  anchored (with_producer p' (with_proxy a px' st)).
Proof.
  intros Hwf Han Hm Hb k' a' [(-> & -> & Hr)|(Hne & Hb')]%Hb; simpl.
  - exists v, px'. by rewrite lookup_insert_eq.
  - destruct (Han _ _ Hb') as (v2 & px2 & Hm2 & Hp2 & Hr2).
    exists v2, px2. rewrite lookup_insert_ne; [done|]. intros <-.
    by rewrite (wf_inj _ _ Hwf _ _ _ _ _ Hm2 Hm) in Hne.
Qed.

Lemma anchored_update_proxy st ph k v a px px' :
  wf st ph → anchored st →
  mVideoRequest2ProxyInfo st !! k = Some (v, a) → proxies st !! a = Some px →
  (registered px = true → registered px' = true) →
  (waitingSdpClients px ≠ ∅ → registered px' = true ∨ waitingSdpClients px' ≠ ∅) →
  anchored (with_proxy a px' st).
Proof.
  intros Hwf Han Hm Hp Hr Hw.
  rewrite <- (with_same_producer (with_proxy a px' st)).
  eapply anchored_update; eauto. intros k' a' Hb.
  destruct (decide (k' = k)) as [->|]; [|by right]. left.
  destruct (Han _ _ Hb) as (v2 & px2 & Hm2 & Hp2 & Hr2).
  simplify_eq. destruct Hr2 as [Hr2|Hr2]; auto.
Qed.
End invariant.

(** * Closing a connection *)

Definition members (px : ProxyInfo) : gset N :=
  beforeDescribeClients px ∪ waitingSdpClients px ∪ beforePlayClients px
  ∪ playingClients px.

Lemma remove_client_None c px : remove_client c px = None ↔ c ∉ members px.
Proof.
  unfold remove_client, members. rewrite !not_elem_of_union.
  repeat case_bool_decide; split; (done || tauto).
Qed.

(** The proxy with the client in none of its sets. *)
Definition without_client (c : N) (px : ProxyInfo) : ProxyInfo :=
  mkProxyInfo (beforeDescribeClients px ∖ {[c]}) (waitingSdpClients px ∖ {[c]})
    (beforePlayClients px ∖ {[c]}) (playingClients px ∖ {[c]})
    (registered px) (sourceSdp px) (sendBuffer px).

Lemma remove_client_placed k px ph c px' :
  placed k px ph → remove_client c px = Some px' → px' = without_client c px.
Proof.
  intros Hpl Hr. destruct (Hpl c) as (H1 & H2 & H3 & H4).
  assert (Hkeep : ∀ X : gset N, c ∉ X → X ∖ {[c]} = X) by (clear; set_solver).
  unfold remove_client in Hr. unfold without_client.
  repeat case_bool_decide; simplify_eq; f_equal; symmetry; apply Hkeep;
    intros Hc; repeat match goal with
    | Hx : ?A → ph !! c = _, Hy : ?A |- _ => specialize (Hx Hy) end; congruence.
Qed.

Section closing.
Context {P : Type} `{VideoProducer P, !VideoProducerLaws P}.
Implicit Types (st : RtspService P) (ph : gmap N cphase) (px : ProxyInfo).

(** What [Close] does with the proxy it found the client in. *)
Definition close_found (v : VideoRequest) (a : N) (px' : ProxyInfo) st
  : outcome (RtspService P) :=
  let st := with_proxy a px' st in
  if needUnregistered px' then
    st ← (if registered px' then
            p ← UnregisterVideo v (mpRtpProducer st);
            Done (with_producer p st)
          else Done st);
    Done (erase_proxy v a st)
  else Done st.

Lemma close_loop_cases c l st :
  (∀ v a, (v, a) ∈ l → is_Some (proxies st !! a)) →
  (close_loop c l st = Done st ∧
     ∀ v a px, (v, a) ∈ l → proxies st !! a = Some px → c ∉ members px) ∨
  (∃ v a px px', (v, a) ∈ l ∧ proxies st !! a = Some px ∧
     remove_client c px = Some px' ∧
     close_loop c l st = close_found v a px' st).
Proof.
  induction l as [|[v a] l IH]; intros Hl; simpl.
  { left. split; [done|]. intros ??? H1. by apply not_elem_of_nil in H1. }
  destruct (Hl v a) as [px Hpx]; [set_solver|]. rewrite Hpx. orun.
  destruct (remove_client c px) as [px'|] eqn:Er.
  { right. exists v, a, px, px'. split; [set_solver|]. done. }
  destruct IH as [[IH1 IH2]|(v' & a' & px1 & px1' & Hin & Hp & Hr & He)].
  - intros v' a' Hin. apply (Hl v'). set_solver.
  - left. split; [done|]. intros v' a' px1 Hin Hp.
    apply elem_of_cons in Hin as [[= -> ->]|Hin]; [|by eapply IH2].
    rewrite Hpx in Hp. injection Hp as <-. by apply remove_client_None.
  - right. exists v', a', px1, px1'. split; [set_solver|]. done.
Qed.

(** A client of one video is not a client of another one. *)
Lemma members_unique st ph k v a px k' v' a' px' c :
  wf st ph →
  mVideoRequest2ProxyInfo st !! k = Some (v, a) → proxies st !! a = Some px →
  mVideoRequest2ProxyInfo st !! k' = Some (v', a') → proxies st !! a' = Some px' →
  c ∈ members px → c ∈ members px' → k = k'.
Proof.
  intros Hwf Hm Hp Hm' Hp' Hc Hc'.
  pose proof (wf_placed _ _ Hwf _ _ _ _ Hm Hp c) as (H1 & H2 & H3 & H4).
  pose proof (wf_placed _ _ Hwf _ _ _ _ Hm' Hp' c) as (H1' & H2' & H3' & H4').
  unfold members in *. rewrite !elem_of_union in Hc, Hc'.
  destruct Hc as [[[Hc|Hc]|Hc]|Hc], Hc' as [[[Hc'|Hc']|Hc']|Hc'];
    repeat match goal with
    | Hx : ?A → ph !! c = _, Hy : ?A |- _ => specialize (Hx Hy) end; congruence.
Qed.

(** The video of the proxy is forgotten. *)
Lemma wf_erase st ph v a px p' :
  wf st ph →
  mVideoRequest2ProxyInfo st !! cmpStr v = Some (v, a) →
  proxies st !! a = Some px →
  producer_ok p' →
  wf (erase_proxy v a (with_producer p' st)) ph.
Proof.
  intros Hwf Hm Hp Hok.
  assert (Hne : ∀ k' v' a', mVideoRequest2ProxyInfo st !! k' = Some (v', a') →
            k' ≠ cmpStr v → a' ≠ a).
  { intros k' v' a' Hm' Hk ->. by apply Hk, (wf_inj _ _ Hwf _ _ _ _ _ Hm' Hm). }
  split; simpl; try apply Hwf; auto; unfold verase.
  - apply map_Forall_delete, Hwf.
  - intros k' v' a' [Hk Hm']%lookup_delete_Some.
    rewrite lookup_delete_ne by (symmetry; eauto). by apply (wf_mapped _ _ Hwf k' v').
  - intros k1 v1 k2 v2 a' [_ H1]%lookup_delete_Some [_ H2]%lookup_delete_Some.
    by apply (wf_inj _ _ Hwf _ _ _ _ _ H1 H2).
  - intros a' px' [Ha Hp']%lookup_delete_Some.
    destruct (wf_owned _ _ Hwf _ _ Hp') as (k' & v' & Hm').
    exists k', v'. rewrite lookup_delete_ne; [done|]. intros <-. congruence.
  - intros k' v' a' px' [_ Hm']%lookup_delete_Some [_ Hp']%lookup_delete_Some.
    by apply (wf_placed _ _ Hwf _ _ _ _ Hm' Hp').
  - intros a' px' [_ Hp']%lookup_delete_Some. by apply (wf_buffer _ _ Hwf _ _ Hp').
Qed.

Lemma anchored_erase st ph v a p' :
  wf st ph → anchored st →
  mVideoRequest2ProxyInfo st !! cmpStr v = Some (v, a) →
  bound p' = delete (cmpStr v) (bound (mpRtpProducer st)) →
  anchored (erase_proxy v a (with_producer p' st)).
Proof.
  intros Hwf Han Hm Hb k' a'. simpl. rewrite Hb. unfold verase.
  intros [Hk Hb']%lookup_delete_Some.
  destruct (Han _ _ Hb') as (v2 & px2 & Hm2 & Hp2 & Hr2).
  exists v2, px2. rewrite !lookup_delete_ne; eauto. intros <-.
  by apply Hk, eq_sym, (wf_inj _ _ Hwf _ _ _ _ _ Hm2 Hm).
Qed.

Lemma with_proxy_twice a px px' st :
  with_proxy a px' (with_proxy a px st) = with_proxy a px' st.
Proof. unfold with_proxy. simpl. by rewrite insert_insert_eq. Qed.

Lemma placed_remove k px ph c :
  placed k px ph → placed k (without_client c px) ph.
Proof.
  intros Hpl c'. destruct (Hpl c') as (H1 & H2 & H3 & H4). simpl.
  rewrite !elem_of_difference. tauto.
Qed.

Lemma wf_without_client st ph v a px c :
  wf st ph →
  mVideoRequest2ProxyInfo st !! cmpStr v = Some (v, a) →
  proxies st !! a = Some px →
  wf (with_proxy a (without_client c px) st) ph.
Proof.
  intros Hwf Hm Hp. eapply wf_update_proxy; eauto; try done.
  - apply placed_remove. by apply (wf_placed _ _ Hwf _ _ _ _ Hm Hp).
  - by apply (wf_buffer _ _ Hwf _ _ Hp).
  - by apply (wf_alive _ _ Hwf).
Qed.

(** The client may leave the proxy: it does not wait, or the producer has
    dropped the registration, or the SDP has come. *)
Definition may_leave (c : N) (k : string) px st : Prop :=
  c ∈ waitingSdpClients px →
  bound (mpRtpProducer st) !! k = None ∨ registered px = true.

Lemma anchored_without_client st ph v a px c :
  wf st ph → anchored st →
  mVideoRequest2ProxyInfo st !! cmpStr v = Some (v, a) →
  proxies st !! a = Some px → may_leave c (cmpStr v) px st →
  anchored (with_proxy a (without_client c px) st).
Proof.
  intros Hwf Han Hm Hp Hl.
  rewrite <- (with_same_producer (with_proxy a _ st)).
  eapply anchored_update; eauto. intros k' a' Hb.
  destruct (decide (k' = cmpStr v)) as [->|]; [|by right]. left.
  destruct (Han _ _ Hb) as (v2 & px2 & Hm2 & Hp2 & Hr2). simplify_eq.
  split_and!; [done..|]. simpl. destruct Hr2 as [Hr2|Hr2]; [by left|].
  destruct (decide (c ∈ waitingSdpClients px)) as [Hc|Hc].
  - destruct (Hl Hc) as [|Hr]; [simpl in *; congruence|by left].
  - right. clear -Hc Hr2. set_solver.
Qed.

(** The clients of a proxy that have asked for its stream. *)
Definition sessions px : gset N :=
  waitingSdpClients px ∪ beforePlayClients px ∪ playingClients px.

(** The proxies that carry the session of another client than [c] stay. *)
Definition keeps_sessions (c : N) st st1 : Prop :=
  ∀ k v a px c',
    mVideoRequest2ProxyInfo st !! k = Some (v, a) → proxies st !! a = Some px →
    c' ∈ sessions px → c' ≠ c →
    mVideoRequest2ProxyInfo st1 !! k = Some (v, a) ∧
    ∃ px', proxies st1 !! a = Some px' ∧ (px' = px ∨ px' = without_client c px).

(** The proxy whose only session was that of [c] is gone; its video is
    unregistered if its SDP had come, and otherwise the producer is not told. *)
Definition releases (c : N) st st1 : Prop :=
  ∀ k v a px,
    mVideoRequest2ProxyInfo st !! k = Some (v, a) → proxies st !! a = Some px →
    c ∈ members px → sessions px ⊆ {[c]} →
    mVideoRequest2ProxyInfo st1 !! k = None ∧ proxies st1 !! a = None ∧
    if registered px
    then bound (mpRtpProducer st1) = delete k (bound (mpRtpProducer st))
    else mpRtpProducer st1 = mpRtpProducer st.

(** A client that leaves leaves no registration of a dead proxy behind. *)
Definition stays_anchored (c : N) st ph st1 : Prop :=
  anchored st →
  (∀ k, ph !! c = Some (Waiting k) →
        bound (mpRtpProducer st) !! k = None ∨ has_sdp k st) →
  anchored st1.

(** What holds when [Close] has run for [c]. *)
Definition closed (c : N) st ph st1 : Prop :=
  wf st1 ph ∧ (∀ a px, proxies st1 !! a = Some px → c ∉ members px) ∧
  mBev2RtspServer st1 = mBev2RtspServer st ∧ servers st1 = servers st ∧
  keeps_sessions c st st1 ∧ releases c st st1 ∧ stays_anchored c st ph st1.

Lemma needUnregistered_without c px :
  sessions px ⊆ {[c]} → needUnregistered (without_client c px) = true.
Proof.
  intros Hs. unfold needUnregistered, sessions in *. simpl.
  rewrite !bool_decide_eq_true_2; [done|set_solver..].
Qed.

Lemma keeps_without c v a px st :
  mVideoRequest2ProxyInfo st !! cmpStr v = Some (v, a) →
  proxies st !! a = Some px →
  keeps_sessions c st (with_proxy a (without_client c px) st).
Proof.
  intros Hm Hp k v' a' px' c' Hm' Hp' _ _. split; [done|]. simpl.
  destruct (decide (a' = a)) as [->|].
  - rewrite lookup_insert_eq. simplify_eq. by eauto.
  - rewrite lookup_insert_ne by done. by eauto.
Qed.

Lemma keeps_erased c v a px p' st ph :
  wf st ph → mVideoRequest2ProxyInfo st !! cmpStr v = Some (v, a) →
  proxies st !! a = Some px → needUnregistered (without_client c px) = true →
  keeps_sessions c st
    (erase_proxy v a (with_producer p' (with_proxy a (without_client c px) st))).
Proof.
  intros Hwf Hm Hp Hn k v' a' px' c' Hm' Hp' Hs Hne. simpl. unfold verase.
  assert (k ≠ cmpStr v) as Hk.
  { intros ->. simplify_eq. unfold needUnregistered in Hn. simpl in Hn.
    rewrite !andb_true_iff, !bool_decide_eq_true in Hn. unfold sessions in Hs.
    set_solver. }
  assert (a' ≠ a) as Ha.
  { intros ->. by apply Hk, (wf_inj _ _ Hwf _ _ _ _ _ Hm' Hm). }
  rewrite lookup_delete_ne by done. split; [done|].
  rewrite lookup_delete_ne, lookup_insert_ne by done. by eauto.
Qed.

Lemma not_member_elsewhere st ph v a px c a1 px1 :
  wf st ph →
  mVideoRequest2ProxyInfo st !! cmpStr v = Some (v, a) →
  proxies st !! a = Some px → c ∈ members px →
  proxies st !! a1 = Some px1 → a1 ≠ a → c ∉ members px1.
Proof.
  intros Hwf Hm Hp Hc Hp1 Hne Hc1.
  destruct (wf_owned _ _ Hwf _ _ Hp1) as (k1 & v1 & Hm1).
  pose proof (members_unique _ _ _ _ _ _ _ _ _ _ _ Hwf Hm Hp Hm1 Hp1 Hc Hc1).
  simplify_eq.
Qed.

Lemma not_member_without c px : c ∉ members (without_client c px).
Proof. unfold members. simpl. set_solver. Qed.

(** A proxy that loses its last session without being registered is not
    registered with the producer either. *)
Lemma unregistered_unbound st v a px :
  anchored st → mVideoRequest2ProxyInfo st !! cmpStr v = Some (v, a) →
  proxies st !! a = Some px → needUnregistered px = true →
  registered px = false → bound (mpRtpProducer st) !! cmpStr v = None.
Proof.
  intros Han Hm Hp En Er.
  destruct (bound (mpRtpProducer st) !! cmpStr v) as [a2|] eqn:Eb; [|done].
  destruct (Han _ _ Eb) as (v2 & px2 & Hm2 & Hp2 & Hr2). simplify_eq.
  unfold needUnregistered in En.
  rewrite !andb_true_iff, !bool_decide_eq_true in En.
  destruct Hr2 as [?|Hr2]; [congruence|]. by destruct En as [[? _] _].
Qed.

Lemma same_proxy st ph v a px c :
  wf st ph → mVideoRequest2ProxyInfo st !! cmpStr v = Some (v, a) →
  proxies st !! a = Some px → c ∈ members px →
  ∀ k1 v1 a1 px1,
    mVideoRequest2ProxyInfo st !! k1 = Some (v1, a1) →
    proxies st !! a1 = Some px1 → c ∈ members px1 →
    k1 = cmpStr v ∧ a1 = a ∧ px1 = px.
Proof.
  intros Hwf Hm Hp Hc k1 v1 a1 px1 Hm1 Hp1 Hc1.
  pose proof (members_unique _ _ _ _ _ _ _ _ _ _ _ Hwf Hm Hp Hm1 Hp1 Hc Hc1).
  by simplify_eq.
Qed.

(** What is known of the client in the proxy of its video. *)
Lemma leaving st ph v a px c :
  wf st ph → mVideoRequest2ProxyInfo st !! cmpStr v = Some (v, a) →
  proxies st !! a = Some px →
  (∀ k, ph !! c = Some (Waiting k) →
        bound (mpRtpProducer st) !! k = None ∨ has_sdp k st) →
  may_leave c (cmpStr v) px st.
Proof.
  intros Hwf Hm Hp Hl Hc. destruct (wf_placed _ _ Hwf _ _ _ _ Hm Hp c) as (_ & H2 & _).
  destruct (Hl _ (H2 Hc)) as [|(v' & a' & px' & Hm' & Hp' & Hr)]; [by left|].
  right. by simplify_eq.
Qed.

(** The proxy of the client stays. *)
Lemma close_kept_wf st ph v a px c :
  wf st ph → mVideoRequest2ProxyInfo st !! cmpStr v = Some (v, a) →
  proxies st !! a = Some px → c ∈ members px →
  needUnregistered (without_client c px) = false →
  closed c st ph (with_proxy a (without_client c px) st).
Proof.
  intros Hwf Hm Hp Hc En.
  pose proof (same_proxy _ _ _ _ _ _ Hwf Hm Hp Hc) as Hsame.
  split_and!; auto; [by eapply wf_without_client| |by eapply keeps_without|..].
  - simpl. intros a1 px1 [[<- <-]|[Hne Hp1]]%lookup_insert_Some;
      [apply not_member_without|].
    by apply (not_member_elsewhere _ _ _ _ _ _ _ _ Hwf Hm Hp Hc Hp1).
  - intros k1 v1 a1 px1 Hm1 Hp1 Hc1 Hs1.
    destruct (Hsame _ _ _ _ Hm1 Hp1 Hc1) as (-> & _ & ->).
    apply needUnregistered_without in Hs1. congruence.
  - intros Han Hl. eapply anchored_without_client; eauto. by eapply leaving.
Qed.

(** The proxy of the client goes. *)
Lemma close_erased_wf st ph v a px c p' :
  wf st ph → mVideoRequest2ProxyInfo st !! cmpStr v = Some (v, a) →
  proxies st !! a = Some px → c ∈ members px →
  needUnregistered (without_client c px) = true →
  producer_ok p' →
  (if registered px then bound p' = delete (cmpStr v) (bound (mpRtpProducer st))
   else p' = mpRtpProducer st) →
  closed c st ph
    (erase_proxy v a (with_producer p' (with_proxy a (without_client c px) st))).
Proof.
  intros Hwf Hm Hp Hc En Hok Hb.
  pose proof (same_proxy _ _ _ _ _ _ Hwf Hm Hp Hc) as Hsame.
  set (px' := without_client c px).
  pose proof (wf_without_client _ _ _ _ _ c Hwf Hm Hp) as Hwf1. fold px' in Hwf1.
  assert (Hp' : proxies (with_proxy a px' st) !! a = Some px')
    by apply lookup_insert_eq.
  split_and!; try done; [by eapply wf_erase| |by eapply keeps_erased|..].
  - simpl. intros a1 px1 [Hne Hp1]%lookup_delete_Some.
    rewrite lookup_insert_ne in Hp1 by done.
    by apply (not_member_elsewhere _ _ _ _ _ _ _ _ Hwf Hm Hp Hc Hp1).
  - intros k1 v1 a1 px1 Hm1 Hp1 Hc1 Hs1.
    destruct (Hsame _ _ _ _ Hm1 Hp1 Hc1) as (-> & -> & ->). simpl.
    split_and!; [apply lookup_delete_eq|apply lookup_delete_eq|done].
  - intros Han Hl. pose proof (leaving _ _ _ _ _ _ Hwf Hm Hp Hl) as Hml.
    pose proof (anchored_without_client _ _ _ _ _ _ Hwf Han Hm Hp Hml) as Han1.
    eapply anchored_erase; eauto. simpl.
    destruct (registered px) eqn:Er; [done|]. rewrite Hb. symmetry. apply delete_id.
    by apply (unregistered_unbound (with_proxy a px' st) v a px').
Qed.

Lemma close_found_wf st ph v a px c :
  wf st ph → mVideoRequest2ProxyInfo st !! cmpStr v = Some (v, a) →
  proxies st !! a = Some px → c ∈ members px →
  ∃ st1, close_found v a (without_client c px) st = Done st1 ∧ closed c st ph st1.
Proof.
  intros Hwf Hm Hp Hc. unfold close_found.
  destruct (needUnregistered (without_client c px)) eqn:En; cycle 1.
  { eexists. split; [done|]. by eapply close_kept_wf. }
  change (registered (without_client c px)) with (registered px).
  destruct (registered px) eqn:Er.
  - destruct (UnregisterVideo_law v (mpRtpProducer st)) as (p' & Hu & Hok & Hb);
      [apply Hwf|]. simpl. rewrite Hu. orun. eexists. split; [done|].
    apply (close_erased_wf _ _ _ _ _ _ p' Hwf Hm Hp Hc En Hok). by rewrite Er.
  - orun. rewrite <- (with_same_producer (with_proxy a _ st)).
    eexists. split; [done|].
    apply (close_erased_wf _ _ _ _ _ _ _ Hwf Hm Hp Hc En); [apply Hwf|].
    by rewrite Er.
Qed.

(** [Close]: the client leaves its proxy, and the proxy goes with its last
    session. *)
Lemma Close_wf st ph c :
  wf st ph → ∃ st1, Close c st = Done st1 ∧ closed c st ph st1.
Proof.
  intros Hwf. unfold Close. set (l := ventries (mVideoRequest2ProxyInfo st)).
  assert (Hl : ∀ v a, (v, a) ∈ l ↔
            mVideoRequest2ProxyInfo st !! cmpStr v = Some (v, a))
    by (intros; by apply elem_of_ventries, (wf_keyed _ _ Hwf)).
  destruct (close_loop_cases c l st) as
    [[-> Hnone]|(v & a & px & px' & Hin & Hp & Hr & ->)].
  { intros v a Hin%Hl. by apply (wf_mapped _ _ Hwf _ _ _ Hin). }
  { exists st. split; [done|].
    split_and!; auto; [|by intros ???????; eauto| |by intros ? _]; cycle 1.
    { intros k v a px Hm Hp Hc _. exfalso. revert Hc. apply (Hnone v a); [|done].
      apply Hl. pose proof (wf_keyed _ _ Hwf _ _ Hm) as Hk. simpl in Hk.
      by rewrite Hk. }
    intros a px Hp. destruct (wf_owned _ _ Hwf _ _ Hp) as (k & v & Hm).
    apply (Hnone v a); [|done]. rewrite Hl.
    pose proof (wf_keyed _ _ Hwf _ _ Hm) as Hk. simpl in Hk. by rewrite Hk. }
  apply Hl in Hin as Hm. pose proof (wf_placed _ _ Hwf _ _ _ _ Hm Hp) as Hpl.
  rewrite (remove_client_placed _ _ _ _ _ Hpl Hr).
  eapply close_found_wf; eauto.
  destruct (decide (c ∈ members px)) as [|Hn]; [done|].
  apply remove_client_None in Hn. congruence.
Qed.
End closing.

(** * Every event of a disciplined run *)

Section progress.
Context {P : Type} `{VideoProducer P, !VideoProducerLaws P}.
Implicit Types (st : RtspService P) (ph : gmap N cphase) (px : ProxyInfo).

(** Changing the stage of a client of the video leaves other videos alone. *)
Lemma other_videos ph c p p' k c' q k' :
  ph !! c = Some p → (∀ k1, phase_key p = Some k1 → k1 = k) →
  ph !! c' = Some q → phase_key q = Some k' → k' ≠ k →
  <[c := p']> ph !! c' = Some q.
Proof.
  intros Hc Hk Hc' Hq Hne. rewrite lookup_insert_ne; [done|]. intros <-.
  simplify_eq. by apply Hne, Hk.
Qed.

Lemma alive_insert st ph c p p' c' q :
  wf st ph → ph !! c = Some p → <[c := p']> ph !! c' = Some q →
  is_Some (servers st !! c').
Proof.
  intros Hwf Hc. destruct (decide (c' = c)) as [->|].
  - intros _. by apply (wf_alive _ _ Hwf _ _ Hc).
  - rewrite lookup_insert_ne by done. apply (wf_alive _ _ Hwf).
Qed.

(** The stage of one client changes and so does its place in the proxy. *)
Lemma placed_move k px px' ph c p p' :
  placed k px ph → ph !! c = Some p →
  (∀ c', c' ≠ c →
     (c' ∈ beforeDescribeClients px' → c' ∈ beforeDescribeClients px) ∧
     (c' ∈ waitingSdpClients px' → c' ∈ waitingSdpClients px) ∧
     (c' ∈ beforePlayClients px' → c' ∈ beforePlayClients px) ∧
     (c' ∈ playingClients px' → c' ∈ playingClients px)) →
  (c ∈ beforeDescribeClients px' → p' = Optioned k) →
  (c ∈ waitingSdpClients px' → p' = Waiting k) →
  (c ∈ beforePlayClients px' → p' = Described k) →
  (c ∈ playingClients px' → p' = Playing k) →
  placed k px' (<[c := p']> ph).
Proof.
  intros Hpl Hc Hsub H1 H2 H3 H4 c'. destruct (decide (c' = c)) as [->|Hne].
  - rewrite lookup_insert_eq.
    split_and!; intros Hin; f_equal; auto.
  - rewrite lookup_insert_ne by done. destruct (Hsub _ Hne) as (S1 & S2 & S3 & S4).
    destruct (Hpl c') as (P1 & P2 & P3 & P4). split_and!; auto.
Qed.

(** [placed] of a proxy in which only [c] moved. *)
Ltac solve_placed Hpl Hc :=
  apply (placed_move _ _ _ _ _ _ _ Hpl Hc); simpl; [clear; set_solver|..];
  match type of Hc with _ !! ?c = _ =>
    destruct (Hpl c) as (?H1 & ?H2 & ?H3 & ?H4) end;
  rewrite ?elem_of_union, ?elem_of_difference, ?elem_of_singleton; naive_solver.

(** A client moves within the proxy of its video. *)
Lemma wf_move st ph k v a px px' c p p' :
  wf st ph →
  mVideoRequest2ProxyInfo st !! k = Some (v, a) → proxies st !! a = Some px →
  ph !! c = Some p → (∀ k1, phase_key p = Some k1 → k1 = k) →
  placed k px' (<[c := p']> ph) → sendBuffer px' = sendBuffer px →
  wf (with_proxy a px' st) (<[c := p']> ph).
Proof.
  intros Hwf Hm Hp Hc Hk Hpl Hs.
  eapply wf_update_proxy; eauto using alive_insert.
  - rewrite Hs. by apply (wf_buffer _ _ Hwf _ _ Hp).
  - intros c' q k'. by apply (other_videos ph c p).
Qed.

(** A new video is added with its first client. *)
Lemma wf_new_proxy st ph c v a :
  wf st ph → ph !! c = Some Fresh → proxies st !! a = None →
  vfind v (mVideoRequest2ProxyInfo st) = None →
  wf (mkRtspService (mBev2RtspServer st) (servers st)
        (vset v a (mVideoRequest2ProxyInfo st))
        (<[a := mkProxyInfo {[c]} ∅ ∅ ∅ false EmptyString
                  new_sendBuffer]> (proxies st))
        (mpRtpProducer st)) (<[c := Optioned (cmpStr v)]> ph).
Proof.
  intros Hwf Hc Ha Hf.
  assert (Hm : mVideoRequest2ProxyInfo st !! cmpStr v = None).
  { unfold vfind in Hf. by apply fmap_None in Hf. }
  assert (Hna : ∀ k' v' a', mVideoRequest2ProxyInfo st !! k' = Some (v', a') → a' ≠ a).
  { intros k' v' a' Hm' ->. destruct (wf_mapped _ _ Hwf _ _ _ Hm'). congruence. }
  unfold vset. rewrite Hm. simpl. split; simpl; try apply Hwf.
  - apply map_Forall_insert_2; [done|apply Hwf].
  - intros k' v' a' [[<- [= <- <-]]|[Hne Hm']]%lookup_insert_Some.
    + rewrite lookup_insert_eq. by eauto.
    + rewrite lookup_insert_ne by (symmetry; by eapply Hna).
      by eapply (wf_mapped st ph).
  - intros k1 v1 k2 v2 a' H1 H2.
    apply lookup_insert_Some in H1 as [[<- [= <- <-]]|[_ H1]];
      apply lookup_insert_Some in H2 as [[<- [=]]|[_ H2]]; subst; try done.
    + by apply Hna in H2.
    + by apply Hna in H1.
    + by apply (wf_inj _ _ Hwf _ _ _ _ _ H1 H2).
  - intros a' px [[<- _]|[Hne Hp]]%lookup_insert_Some.
    + exists (cmpStr v), v. by rewrite lookup_insert_eq.
    + destruct (wf_owned _ _ Hwf _ _ Hp) as (k & v' & Hm').
      exists k, v'. rewrite lookup_insert_ne; [done|]. intros <-. congruence.
  - intros k v' a' px [[<- [= <- <-]]|[Hk Hm']]%lookup_insert_Some.
    + rewrite lookup_insert_eq. intros [= <-] c'. simpl.
      split_and!; [intros ->%elem_of_singleton; apply lookup_insert_eq|set_solver..].
    + rewrite lookup_insert_ne by (symmetry; by eapply Hna). intros Hp c'.
      pose proof (wf_placed _ _ Hwf _ _ _ _ Hm' Hp c') as (H1 & H2 & H3 & H4).
      split_and!; intros Hin; (rewrite lookup_insert_ne; [by auto|]); intros <-;
        naive_solver.
  - intros c' q. by apply (alive_insert st ph c Fresh).
  - intros a' px [[<- <-]|[Hne Hp]]%lookup_insert_Some.
    + apply length_replicate.
    + by apply (wf_buffer _ _ Hwf _ _ Hp).
Qed.

(** A client that is in none of the sets of its video may be forgotten. *)
Lemma wf_dropped st ph c k p :
  wf st ph → ph !! c = Some p → (∀ k1, phase_key p = Some k1 → k1 = k) →
  (∀ v a px, mVideoRequest2ProxyInfo st !! k = Some (v, a) →
     proxies st !! a = Some px → c ∉ members px) →
  wf st (<[c := Dropped k]> ph).
Proof.
  intros Hwf Hc Hk Hn. split; try apply Hwf; cycle 1.
  { intros c' q. by apply (alive_insert st ph c p). }
  intros k' v a px Hm Hp c'.
  pose proof (wf_placed _ _ Hwf _ _ _ _ Hm Hp) as Hpl.
  assert (c' ∈ members px → c' ≠ c) as Hne.
  { intros Hin ->. destruct (decide (k' = k)) as [->|Hkk].
    { by apply (Hn _ _ _ Hm Hp). }
    unfold members in Hin. rewrite !elem_of_union in Hin.
    destruct (Hpl c) as (H1 & H2 & H3 & H4).
    apply Hkk, Hk. destruct Hin as [[[Hin|Hin]|Hin]|Hin]; naive_solver. }
  destruct (Hpl c') as (H1 & H2 & H3 & H4).
  split_and!; intros Hin; (rewrite lookup_insert_ne; [by auto|]);
    apply not_eq_sym, Hne; unfold members; set_solver.
Qed.

Lemma accept_wf st ph b c rtsp :
  wf st ph → mBev2RtspServer st !! b = None → servers st !! c = None →
  ∃ st', accept_conn_cb 0 (Some b) c rtsp st = Done st' ∧
         wf st' (<[c := Fresh]> ph).
Proof.
  intros Hwf Hb Hs. unfold accept_conn_cb. rewrite Hb. eexists. split; [done|].
  assert (Hph : ph !! c = None).
  { destruct (ph !! c) as [p|] eqn:E; [|done].
    destruct (wf_alive _ _ Hwf _ _ E). congruence. }
  split; simpl; try apply Hwf.
  - intros k v a px Hm Hp c'.
    pose proof (wf_placed _ _ Hwf _ _ _ _ Hm Hp c') as (H1 & H2 & H3 & H4).
    split_and!; intros Hc; (rewrite lookup_insert_ne; [by auto|]); intros <-;
      naive_solver.
  - intros c' p. destruct (decide (c' = c)) as [->|].
    + rewrite !lookup_insert_eq. by eauto.
    + rewrite !lookup_insert_ne by done. apply (wf_alive _ _ Hwf).
  - intros b' c' [[<- <-]|[Hne Hb']]%lookup_insert_Some.
    + exists (mkEventRtspServer rtsp b). by rewrite lookup_insert_eq.
    + destruct (wf_bev _ _ Hwf _ _ Hb') as (es & He & Hbe).
      exists es. split; [|done]. rewrite lookup_insert_ne; [done|]. intros <-.
      congruence.
Qed.

Lemma options_wf st ph c uri a :
  wf st ph → ph !! c = Some Fresh → proxies st !! a = None →
  ∃ r st' evs v, parseUrl uri = Done v ∧
    (∀ rtsp, OnOptions c rtsp uri a st = Done (r, st', evs rtsp)) ∧
    wf st' (<[c := Optioned (cmpStr v)]> ph).
Proof.
  intros Hwf Hc Ha. destruct (parseUrl_denotes uri) as (v & Hv & _).
  destruct (wf_alive _ _ Hwf _ _ Hc) as [es Hes].
  unfold OnOptions. rewrite Hes, Hv. orun.
  destruct (vfind v (mVideoRequest2ProxyInfo st)) as [a'|] eqn:Ef.
  - destruct (vfind_wf _ _ _ _ Hwf Ef) as (v' & px & Hm & Hp). rewrite Hp. orun.
    eexists _, _, (fun rtsp => [ReplyOptions rtsp 200]), v.
    split; [done|]. split; [done|].
    eapply wf_move; eauto; simpl; [done|].
    pose proof (wf_placed _ _ Hwf _ _ _ _ Hm Hp) as Hpl.
    solve_placed Hpl Hc.
  - eexists _, _, (fun rtsp => [ReplyOptions rtsp 200]), v.
    split; [done|]. split; [done|]. by apply wf_new_proxy.
Qed.

Lemma process_error_wf st ph k v a :
  wf st ph → mVideoRequest2ProxyInfo st !! k = Some (v, a) →
  ∃ evs, processErrorFunction a st = Done evs.
Proof.
  intros Hwf Hm. destruct (wf_mapped _ _ Hwf _ _ _ Hm) as [px Hp].
  unfold processErrorFunction. rewrite Hp. orun.
  rewrite !(for_clients_wf _ _ _ _ _ _ _ _ Hwf Hm Hp) by (clear; set_solver).
  orun. by eauto.
Qed.

(** The client waits for the SDP of the video. *)
Definition now_waiting (c : N) px : ProxyInfo :=
  mkProxyInfo (beforeDescribeClients px ∖ {[c]}) (waitingSdpClients px ∪ {[c]})
    (beforePlayClients px) (playingClients px) (registered px)
    (sourceSdp px) (sendBuffer px).

(** A DESCRIBE that finds neither an SDP nor a waiting client registers the
    video. *)
Lemma describe_register_wf st ph c v v' a px :
  wf st ph → ph !! c = Some (Optioned (cmpStr v)) →
  mVideoRequest2ProxyInfo st !! cmpStr v = Some (v', a) →
  proxies st !! a = Some px → waitingSdpClients px = ∅ →
  let st1 := with_proxy a (now_waiting c px) st in
  ∃ p' errs evs,
    RegisterVideo v a (mpRtpProducer st) = Done (p', errs) ∧
    sync_errors errs st1 = Done evs ∧
    wf (with_producer p' st1) (<[c := Waiting (cmpStr v)]> ph).
Proof.
  intros Hwf Hc Hm Hp Hw st1. set (ph' := <[c := Waiting (cmpStr v)]> ph).
  pose proof (wf_placed _ _ Hwf _ _ _ _ Hm Hp) as Hpl.
  destruct (RegisterVideo_law v a (mpRtpProducer st)) as (p' & errs & Hr & Hok & Hb);
    [apply Hwf|].
  assert (Hpl' : placed (cmpStr v) (now_waiting c px) ph').
  { solve_placed Hpl Hc. }
  assert (Hwf1 : wf st1 ph').
  { apply (wf_move _ _ _ _ _ _ _ _ _ _ Hwf Hm Hp Hc); try done.
    by intros k1 [= ->]. }
  assert (Hm1 : mVideoRequest2ProxyInfo st1 !! cmpStr v = Some (v', a)) by done.
  destruct (process_error_wf _ _ _ _ _ Hwf1 Hm1) as [evs Hevs].
  exists p', errs. assert (Hs : ∃ evs, sync_errors errs st1 = Done evs).
  { destruct (bound (mpRtpProducer st) !! cmpStr v);
      destruct Hb as [-> _]; simpl; [rewrite Hevs; orun|]; by eauto. }
  destruct Hs as [evs' Hs]. exists evs'. split_and!; [done..|].
  eapply wf_update; eauto using alive_insert.
  - by apply (wf_buffer _ _ Hwf _ _ Hp).
  - intros c' q k'. apply (other_videos ph c _ _ _ _ _ _ Hc). by intros ? [= ->].
Qed.

(** The registration that a DESCRIBE adds is that of its proxy. *)
Lemma describe_register_anchored st ph c v v' a px p' errs :
  wf st ph → anchored st →
  mVideoRequest2ProxyInfo st !! cmpStr v = Some (v', a) →
  RegisterVideo v a (mpRtpProducer st) = Done (p', errs) →
  anchored (with_producer p' (with_proxy a (now_waiting c px) st)).
Proof.
  intros Hwf Han Hm HR.
  destruct (RegisterVideo_law v a (mpRtpProducer st)) as (p1 & errs1 & Hr & _ & Hb);
    [apply Hwf|]. rewrite HR in Hr. injection Hr as <- <-.
  eapply anchored_update; eauto. intros k' a' Hb'.
  destruct (decide (k' = cmpStr v)) as [->|Hne].
  - left. split; [done|]. split; [|right; simpl; set_solver].
    destruct (bound (mpRtpProducer st) !! cmpStr v) as [a2|] eqn:E.
    + destruct Hb as [_ Hb]. rewrite Hb, E in Hb'. simplify_eq.
      destruct (bound_anchored _ _ _ Han E) as (? & ? & ? & ?). congruence.
    + destruct Hb as [_ Hb]. rewrite Hb in Hb'. destruct (supported v).
      { rewrite lookup_insert_eq in Hb'. congruence. } congruence.
  - right. split; [done|].
    destruct (bound (mpRtpProducer st) !! cmpStr v); destruct Hb as [_ Hb];
      rewrite Hb in Hb'; [done|].
    destruct (supported v); [|done]. by rewrite lookup_insert_ne in Hb'.
Qed.

Lemma describe_wf st ph c uri v :
  wf st ph → parseUrl uri = Done v → ph !! c = Some (Optioned (cmpStr v)) →
  ∃ r st' evs, OnDescribe c uri st = Done (r, st', evs) ∧
    wf st' (<[c := described_phase v st]> ph).
Proof.
  intros Hwf Hv Hc. destruct (wf_alive _ _ Hwf _ _ Hc) as [es Hes].
  unfold OnDescribe, described_phase. rewrite Hes, Hv. orun.
  destruct (vfind v (mVideoRequest2ProxyInfo st)) as [a|] eqn:Ef; simpl; cycle 1.
  { eexists _, _, _. split; [done|]. eapply wf_dropped; eauto; simpl.
    { by intros k1 [= ->]. }
    intros v' a px Hm. unfold vfind in Ef. by rewrite Hm in Ef. }
  destruct (vfind_wf _ _ _ _ Hwf Ef) as (v' & px & Hm & Hp). rewrite Hp. orun.
  pose proof (wf_placed _ _ Hwf _ _ _ _ Hm Hp) as Hpl.
  destruct (bool_decide_reflect (sourceSdp px = EmptyString)) as [Hs|Hs];
    [destruct (bool_decide_reflect (waitingSdpClients px = ∅)) as [Hw|Hw]|]; simpl.
  - destruct (describe_register_wf _ _ _ _ _ _ _ Hwf Hc Hm Hp Hw)
      as (p' & errs & evs & Hr & Hsy & Hwf'). rewrite Hr. orun.
    unfold now_waiting in Hsy. rewrite Hsy. orun. by eauto.
  - eexists _, _, _. split; [done|].
    apply (wf_move _ _ _ _ _ _ _ _ _ _ Hwf Hm Hp Hc); try done;
      [by intros k1 [= ->]|].
    solve_placed Hpl Hc.
  - eexists _, _, _. split; [done|].
    apply (wf_move _ _ _ _ _ _ _ _ _ _ Hwf Hm Hp Hc); try done;
      [by intros k1 [= ->]|].
    solve_placed Hpl Hc.
Qed.

Lemma play_wf st ph c uri v :
  wf st ph → parseUrl uri = Done v → ph !! c = Some (Described (cmpStr v)) →
  ∃ r st' evs, (∀ rtsp npt, OnPlay c rtsp uri npt st = Done (r, st', evs rtsp npt)) ∧
    ∀ npt, wf st' (next_phase (EPlay c uri npt) st ph).
Proof.
  intros Hwf Hv Hc. destruct (wf_alive _ _ Hwf _ _ Hc) as [es Hes].
  unfold OnPlay. simpl. rewrite Hes, Hv. orun.
  destruct (vfind v (mVideoRequest2ProxyInfo st)) as [a|] eqn:Ef; simpl; cycle 1.
  { by eexists _, _, (fun _ _ => []). }
  destruct (vfind_wf _ _ _ _ Hwf Ef) as (v' & px & Hm & Hp). rewrite Hp. orun.
  pose proof (wf_placed _ _ Hwf _ _ _ _ Hm Hp) as Hpl.
  destruct (bool_decide_reflect (c ∈ beforePlayClients px)) as [Hin|Hin].
  - eexists _, _, (fun rtsp npt => [ReplyPlay rtsp 200 npt]). split; [done|].
    intros _. apply (wf_move _ _ _ _ _ _ _ _ _ _ Hwf Hm Hp Hc); try done;
      [by intros k1 [= ->]|].
    solve_placed Hpl Hc.
  - by eexists _, _, (fun rtsp npt => [ReplyPlay rtsp 454 None]).
Qed.

Lemma sdp_wf st ph k v a px sdp :
  wf st ph →
  mVideoRequest2ProxyInfo st !! k = Some (v, a) → proxies st !! a = Some px →
  ∃ st', processSdpFunction a sdp st
      = Done (st', omap (fun c => (fun es => ReplyDescribe (server es) 200 sdp)
                                    <$> servers st !! c)
                     (set_iter (waitingSdpClients px))) ∧
    wf st' (next_phase (ESdp a sdp) st ph).
Proof.
  intros Hwf Hm Hp. pose proof (wf_placed _ _ Hwf _ _ _ _ Hm Hp) as Hpl.
  unfold processSdpFunction. simpl. rewrite Hp. orun.
  rewrite (for_clients_wf _ _ _ _ _ _ _ _ Hwf Hm Hp) by (clear; set_solver).
  eexists. split; [done|]. eapply wf_update_proxy; eauto; simpl.
  - intros c. rewrite map_lookup_imap. destruct (Hpl c) as (H1 & H2 & H3 & H4).
    simpl. rewrite elem_of_union. split_and!; [|set_solver|..]; intros Hin.
    + rewrite H1 by done. simpl. case_bool_decide; [|done]. naive_solver.
    + destruct (decide (c ∈ waitingSdpClients px)) as [Hw|Hw].
      * rewrite H2 by done. simpl. by rewrite bool_decide_eq_true_2.
      * rewrite H3 by naive_solver. simpl. by rewrite bool_decide_eq_false_2.
    + rewrite H4 by done. simpl. case_bool_decide; [|done]. naive_solver.
  - by apply (wf_buffer _ _ Hwf _ _ Hp).
  - intros c q. rewrite map_lookup_imap. destruct (ph !! c) as [p|] eqn:E; [|done].
    intros _. by apply (wf_alive _ _ Hwf _ _ E).
  - intros c q k' Hq Hk Hne. rewrite map_lookup_imap, Hq. simpl.
    case_bool_decide as Hw; [|done]. destruct (Hpl c) as (_ & H2 & _).
    rewrite H2 in Hq by done. by simplify_eq/=.
Qed.

Lemma pkt_wf st ph k v a px data :
  wf st ph →
  mVideoRequest2ProxyInfo st !! k = Some (v, a) → proxies st !! a = Some px →
  2 ≤ length data ≤ 1596 →
  ∃ byte1 st', data !! 1 = Some byte1 ∧
    consumePktFunction a data st
    = Done (st', omap (fun c => (fun es => SendInterleaved (server es)
                                             (frame_bytes data byte1))
                                  <$> servers st !! c)
                   (set_iter (playingClients px))) ∧ wf st' ph.
Proof.
  intros Hwf Hm Hp Hlen. pose proof (wf_buffer _ _ Hwf _ _ Hp) as Hbuf.
  destruct (lookup_lt_is_Some_2 data 1) as [b1 Hb1]; [lia|].
  exists b1. unfold consumePktFunction. rewrite Hp, Hb1. orun.
  assert (Hfl : length (frame_bytes data b1) = length data + 4)
    by (simpl; lia).
  rewrite bool_decide_eq_true_2 by (rewrite Hbuf, Hfl; lia). orun.
  rewrite (for_clients_wf _ _ _ _ _ _ _ _ Hwf Hm Hp) by (clear; set_solver). orun.
  rewrite <- Hfl, take_app_length. eexists. split_and!; [done..|].
  eapply wf_update_proxy; eauto using wf_placed; cbn [sendBuffer].
  - pose proof (wf_placed _ _ Hwf _ _ _ _ Hm Hp) as Hpl. apply Hpl.
  - rewrite length_app, length_drop, Hbuf, Hfl. lia.
  - by apply (wf_alive _ _ Hwf).
Qed.

Variable rtsp_server_destroy : N → RtspService P → outcome (RtspService P).
Hypothesis destroy_closes :
  ∀ c st, rtsp_server_destroy c st = Close c st.

Lemma errorcb_wf st ph b c :
  wf st ph → mBev2RtspServer st !! b = Some c →
  ∃ st', errorcb rtsp_server_destroy b st = Done st' ∧
    wf st' (delete c ph) ∧
    (∀ a px, proxies st' !! a = Some px → c ∉ members px) ∧
    servers st' !! c = None ∧ keeps_sessions c st st' ∧ releases c st st' ∧
    stays_anchored c st ph st'.
Proof.
  intros Hwf Hb. unfold errorcb. rewrite Hb, destroy_closes.
  set (st0 := mkRtspService _ _ _ _ _).
  assert (Hwf0 : wf st0 ph).
  { destruct Hwf. split; try done. simpl.
    intros b' c' [_ Hb']%lookup_delete_Some. by eauto. }
  destruct (Close_wf st0 ph c Hwf0)
    as (st1 & -> & Hwf1 & Hm1 & Hb1 & Hs1 & Hk1 & Hr1 & Ha1).
  orun. eexists. split; [done|]. split;
    [|simpl; split_and!; [done|apply lookup_delete_eq|done..]].
  destruct Hwf1 as [K1 K2 K3 K4 K5 K6 K7 K8 K9]. split; simpl; auto.
  - intros k v a px Hm Hp c'. destruct (K5 _ _ _ _ Hm Hp c') as (H1 & H2 & H3 & H4).
    pose proof (Hm1 _ _ Hp) as Hn. unfold members in Hn.
    split_and!; intros Hin; (rewrite lookup_delete_ne; [by auto|]); intros <-;
      set_solver.
  - intros c' q [Hne Hq]%lookup_delete_Some. rewrite lookup_delete_ne by done.
    by eapply K6.
  - intros b' c' Hb'. destruct (K7 _ _ Hb') as (es & He & Hbe). exists es.
    split; [|done]. rewrite lookup_delete_ne; [done|]. intros <-.
    rewrite Hb1 in Hb'. simpl in Hb'. apply lookup_delete_Some in Hb' as [Hne Hb'].
    rewrite Hs1 in He. destruct (wf_bev _ _ Hwf _ _ Hb) as (es' & He' & Hbe').
    simpl in He. simplify_eq.
Qed.

(** The callbacks that come for a proxy that is gone, and the packets that do not
    fit, fault. *)
Lemma exec_faults st ph e f :
  wf st ph → fault_of e st = Some f → exec rtsp_server_destroy e st = Fault f.
Proof.
  intros Hwf Hf. destruct e as [| | | | |a sdp|a data|a]; simpl in Hf |- *; try done.
  - destruct (proxies st !! a) eqn:Hp; [done|]. injection Hf as <-.
    unfold processSdpFunction. by rewrite Hp.
  - destruct (proxies st !! a) as [px|] eqn:Hp; cycle 1.
    { injection Hf as <-. unfold consumePktFunction. by rewrite Hp. }
    pose proof (wf_buffer _ _ Hwf _ _ Hp) as Hbuf.
    case_bool_decide as Hl; [done|]. injection Hf as <-.
    destruct (decide (1596 < length data)); [by eapply consumePkt_long|].
    destruct data as [|b0 [|b1 data]]; [..|exfalso; apply Hl; simpl in *; lia];
      unfold consumePktFunction; by rewrite Hp.
  - destruct (proxies st !! a) eqn:Hp; [done|]. injection Hf as <-.
    unfold processErrorFunction. by rewrite Hp.
Qed.

Lemma alive_mapped st ph a :
  wf st ph → is_Some (proxies st !! a) →
  ∃ k v px, mVideoRequest2ProxyInfo st !! k = Some (v, a) ∧ proxies st !! a = Some px.
Proof.
  intros Hwf [px Hp]. destruct (wf_owned _ _ Hwf _ _ Hp) as (k & v & Hm). by eauto.
Qed.

(** Every other event of clients in their order is handled without a fault. *)
Lemma exec_wf st ph e :
  wf st ph → follows e st ph → fault_of e st = None →
  ∃ st' evs, exec rtsp_server_destroy e st = Done (st', evs) ∧
    wf st' (next_phase e st ph).
Proof.
  intros Hwf Ha Hf.
  assert (Halive : ∀ a, (if proxies st !! a is Some _ then True else False) →
    ∃ k v px, mVideoRequest2ProxyInfo st !! k = Some (v, a) ∧ proxies st !! a = Some px).
  { intros a Hp. apply (alive_mapped _ ph); [done|]. by destruct (proxies st !! a). }
  destruct e as [b c rtsp|c uri a|c uri|c uri npt|b|a sdp|a data|a];
    simpl in Ha, Hf |- *.
  - destruct Ha as [Hb Hc].
    destruct (accept_wf _ _ _ _ rtsp Hwf Hb Hc) as (st' & -> & ?). orun. by eauto.
  - destruct Ha as [Hc Ha]. destruct (wf_alive _ _ Hwf _ _ Hc) as [es ->]. orun.
    destruct (options_wf _ _ _ uri _ Hwf Hc Ha) as (r & st' & evs & v & -> & -> & ?).
    orun. by eauto.
  - destruct Ha as (v & Hv & Hc).
    destruct (describe_wf _ _ _ _ _ Hwf Hv Hc) as (r & st' & evs & -> & ?).
    rewrite Hv. orun. by eauto.
  - destruct Ha as (v & Hv & Hc). destruct (wf_alive _ _ Hwf _ _ Hc) as [es ->]. orun.
    destruct (play_wf _ _ _ _ _ Hwf Hv Hc) as (r & st' & evs & -> & Hw).
    eexists _, _. split; [done|]. apply (Hw npt).
  - destruct Ha as (c & Hb & Hc).
    destruct (errorcb_wf _ _ _ _ Hwf Hb) as (st' & -> & ? & _).
    rewrite Hb. orun. by eauto.
  - destruct (Halive a) as (k & v & px & Hm & Hp); [by destruct (proxies st !! a)|].
    destruct (sdp_wf _ _ _ _ _ _ sdp Hwf Hm Hp) as (st' & -> & ?). by eauto.
  - destruct (Halive a) as (k & v & px & Hm & Hp); [by destruct (proxies st !! a)|].
    rewrite Hp in Hf. case_bool_decide as Hl; [|done].
    destruct (pkt_wf _ _ _ _ _ _ _ Hwf Hm Hp Hl) as (b1 & st' & _ & -> & ?). by eauto.
  - destruct (Halive a) as (k & v & px & Hm & Hp); [by destruct (proxies st !! a)|].
    destruct (process_error_wf _ _ _ _ _ Hwf Hm) as [evs ->]. orun. by eauto.
Qed.

Lemma wf_producer_step st ph p' :
  wf st ph → producer_ok p' → wf (with_producer p' st) ph.
Proof. intros Hwf Hok. destruct Hwf. by split. Qed.

Lemma initial_wf p : producer_ok p → wf (initial p) ∅.
Proof. intros Hok. by split. Qed.

Lemma exec_done_wf st ph e st' evs :
  wf st ph → follows e st ph → exec rtsp_server_destroy e st = Done (st', evs) →
  wf st' (next_phase e st ph).
Proof.
  intros Hwf Ha He. destruct (fault_of e st) as [f|] eqn:Ef.
  - by rewrite (exec_faults _ _ _ _ Hwf Ef) in He.
  - destruct (exec_wf _ _ _ Hwf Ha Ef) as (st1 & evs1 & He1 & Hw). congruence.
Qed.

Lemma preach_wf st ph : preach rtsp_server_destroy st ph → wf st ph.
Proof.
  induction 1 as [|st ph e st' evs _ IH Ha He|]; [by apply initial_wf| |];
    [|by apply wf_producer_step]. by eapply exec_done_wf.
Qed.

Lemma dreach_wf st ph : dreach rtsp_server_destroy st ph → wf st ph.
Proof. intros Hd. by apply preach_wf, dreach_preach. Qed.

(** * Registrations of patient clients *)

Lemma options_anchored st ph c rtsp uri a r st' evs :
  wf st ph → anchored st → proxies st !! a = None →
  OnOptions c rtsp uri a st = Done (r, st', evs) → anchored st'.
Proof.
  intros Hwf Han Ha. unfold OnOptions. destruct (servers st !! c); orun; [|done].
  destruct (parseUrl uri) as [v|]; orun; [|done].
  destruct (vfind v (mVideoRequest2ProxyInfo st)) as [a'|] eqn:Ef.
  - destruct (vfind_wf _ _ _ _ Hwf Ef) as (v' & px & Hm & Hp). rewrite Hp. orun.
    intros [= <- <- <-]. eapply anchored_update_proxy; eauto.
  - intros [= <- <- <-] k a1 Hb. simpl in *.
    destruct (Han _ _ Hb) as (v2 & px2 & Hm2 & Hp2 & Hr2).
    assert (Hm : mVideoRequest2ProxyInfo st !! cmpStr v = None)
      by (unfold vfind in Ef; by apply fmap_None in Ef).
    exists v2, px2. unfold vset. rewrite Hm. simpl.
    rewrite !lookup_insert_ne; [done|..]; intros <-; congruence.
Qed.

Lemma describe_anchored st ph c uri r st' evs :
  wf st ph → anchored st → OnDescribe c uri st = Done (r, st', evs) → anchored st'.
Proof.
  intros Hwf Han. unfold OnDescribe. destruct (servers st !! c); orun; [|done].
  destruct (parseUrl uri) as [v|]; orun; [|done].
  destruct (vfind v (mVideoRequest2ProxyInfo st)) as [a|] eqn:Ef;
    [|by intros [= <- <- <-]].
  destruct (vfind_wf _ _ _ _ Hwf Ef) as (v' & px & Hm & Hp). rewrite Hp. orun.
  destruct (bool_decide _ && bool_decide _).
  - destruct (RegisterVideo _ _ _) as [[p' errs]|] eqn:HR; orun; [|done].
    destruct (sync_errors _ _); orun; [|done]. intros [= <- <- <-].
    by apply (describe_register_anchored _ _ _ _ _ _ _ _ _ Hwf Han Hm HR).
  - destruct (negb _); intros [= <- <- <-]; eapply anchored_update_proxy; eauto.
Qed.

Lemma play_anchored st ph c rtsp uri npt r st' evs :
  wf st ph → anchored st → OnPlay c rtsp uri npt st = Done (r, st', evs) → anchored st'.
Proof.
  intros Hwf Han. unfold OnPlay. destruct (servers st !! c); orun; [|done].
  destruct (parseUrl uri) as [v|]; orun; [|done].
  destruct (vfind v (mVideoRequest2ProxyInfo st)) as [a|] eqn:Ef;
    [|by intros [= <- <- <-]].
  destruct (vfind_wf _ _ _ _ Hwf Ef) as (v' & px & Hm & Hp). rewrite Hp. orun.
  case_bool_decide; intros [= <- <- <-]; [|done]. eapply anchored_update_proxy; eauto.
Qed.

(** A callback changes its proxy and keeps it registered, or a client waiting. *)
Lemma callback_anchored st ph a px px' :
  wf st ph → anchored st → proxies st !! a = Some px →
  (registered px = true → registered px' = true) →
  (waitingSdpClients px ≠ ∅ → registered px' = true ∨ waitingSdpClients px' ≠ ∅) →
  anchored (with_proxy a px' st).
Proof.
  intros Hwf Han Hp Hr Hw. destruct (wf_owned _ _ Hwf _ _ Hp) as (k & v & Hm).
  eapply anchored_update_proxy; eauto.
Qed.

Lemma exec_anchored st ph e st' evs :
  wf st ph → anchored st → allowed e st ph →
  exec rtsp_server_destroy e st = Done (st', evs) → anchored st'.
Proof.
  intros Hwf Han [Ha Hp].
  destruct e as [b c rtsp|c uri a|c uri|c uri npt|b|a sdp|a data|a]; simpl in Ha, Hp |- *.
  - unfold accept_conn_cb. destruct Ha as [-> _]. orun. by intros [= <- <-].
  - destruct (servers st !! c) as [es|]; orun; [|done].
    destruct (OnOptions _ _ _ _ _) as [[[r st1] evs1]|] eqn:E; orun; [|done].
    intros [= <- <-]. destruct Ha as [_ Ha]. by eapply options_anchored.
  - destruct (OnDescribe _ _ _) as [[[r st1] evs1]|] eqn:E; orun; [|done].
    intros [= <- <-]. by eapply describe_anchored.
  - destruct (servers st !! c) as [es|]; orun; [|done].
    destruct (OnPlay _ _ _ _ _) as [[[r st1] evs1]|] eqn:E; orun; [|done].
    intros [= <- <-]. by eapply play_anchored.
  - destruct Ha as (c & Hb & Hc).
    destruct (errorcb_wf _ _ _ _ Hwf Hb) as (st1 & -> & _ & _ & _ & _ & _ & Hst). orun.
    intros [= <- <-]. apply Hst; [done|]. by intros k; apply Hp.
  - unfold processSdpFunction. destruct (proxies st !! a) as [px|] eqn:Hpx; orun; [|done].
    destruct (for_clients _ _ _); orun; [|done]. intros [= <- <-].
    eapply callback_anchored; eauto.
  - unfold consumePktFunction. destruct (proxies st !! a) as [px|] eqn:Hpx; orun; [|done].
    destruct (data !! 1); orun; [|done]. destruct (bool_decide _); orun; [|done].
    destruct (for_clients _ _ _); orun; [|done]. intros [= <- <-].
    eapply callback_anchored; eauto.
  - destruct (processErrorFunction _ _); orun; [|done]. by intros [= <- <-].
Qed.

Lemma dreach_anchored st ph : dreach rtsp_server_destroy st ph → anchored st.
Proof.
  induction 1 as [p _ Hb|st ph e st' evs Hd IH Ha He|st ph p' _ IH _ Hb].
  - intros k a. simpl. by rewrite Hb.
  - eapply exec_anchored; eauto. by apply dreach_wf.
  - intros k a Hk. apply (IH k a). by eapply lookup_weaken.
Qed.
End progress.

(** * Where the sessions are *)

(** The set a client of a stage belongs to, and the video. *)
Definition seat (p : cphase) : option (string * (ProxyInfo → gset N)) :=
  match p with
  | Waiting k => Some (k, waitingSdpClients)
  | Described k => Some (k, beforePlayClients)
  | Playing k => Some (k, playingClients)
  | _ => None
  end.

Section located.
Context {P : Type} `{VideoProducer P, !VideoProducerLaws P}.
Implicit Types (st : RtspService P) (ph : gmap N cphase) (px : ProxyInfo).

(** A client that asked for a stream is in the set of its stage. *)
Definition located st ph : Prop :=
  ∀ c p k f, ph !! c = Some p → seat p = Some (k, f) →
    ∃ v a px, mVideoRequest2ProxyInfo st !! k = Some (v, a) ∧
      proxies st !! a = Some px ∧ c ∈ f px.

Lemma seat_key p k f : seat p = Some (k, f) → phase_key p = Some k.
Proof. by destruct p; intros [=]; subst. Qed.

Lemma seat_sessions p k f px c : seat p = Some (k, f) → c ∈ f px → c ∈ sessions px.
Proof. unfold sessions. destruct p; intros [= <- <-] Hc; set_solver. Qed.

Lemma seat_without p k f px c c' :
  seat p = Some (k, f) → c ∈ f px → c ≠ c' → c ∈ f (without_client c' px).
Proof. destruct p; intros [= <- <-] Hc Hne; simpl; set_solver. Qed.

(** One proxy changes. *)
Lemma located_update st ph ph' k v a px px' p' :
  located st ph →
  mVideoRequest2ProxyInfo st !! k = Some (v, a) → proxies st !! a = Some px →
  (∀ c p f, ph' !! c = Some p → seat p = Some (k, f) → c ∈ f px') →
  (∀ c p k' f, ph' !! c = Some p → seat p = Some (k', f) → k' ≠ k →
     ph !! c = Some p) →
  (∀ k' v' a', mVideoRequest2ProxyInfo st !! k' = Some (v', a') → k' ≠ k → a' ≠ a) →
  located (with_producer p' (with_proxy a px' st)) ph'.
Proof.
  intros Hl Hm Hp Hin Hoth Hinj c p k' f Hc Hs.
  destruct (decide (k' = k)) as [->|Hne].
  - exists v, a, px'. simpl. rewrite lookup_insert_eq. by eauto.
  - destruct (Hl c p k' f) as (v2 & a2 & px2 & Hm2 & Hp2 & Hc2); eauto.
    exists v2, a2, px2. simpl. rewrite lookup_insert_ne; [done|].
    intros <-. by eapply Hinj.
Qed.

(** A client moves within its proxy. *)
Lemma located_move st ph k v a px px' c p p' q :
  wf st ph → located st ph →
  mVideoRequest2ProxyInfo st !! k = Some (v, a) → proxies st !! a = Some px →
  ph !! c = Some p → (∀ k', phase_key p' = Some k' → k' = k) →
  (∀ f, seat p' = Some (k, f) → c ∈ f px') →
  (∀ c', c' ≠ c →
     (c' ∈ waitingSdpClients px → c' ∈ waitingSdpClients px') ∧
     (c' ∈ beforePlayClients px → c' ∈ beforePlayClients px') ∧
     (c' ∈ playingClients px → c' ∈ playingClients px')) →
  located (with_producer q (with_proxy a px' st)) (<[c := p']> ph).
Proof.
  intros Hwf Hl Hm Hp Hc Hk' Hin Hsub. eapply located_update; eauto.
  - intros c' p1 f [[<- <-]|[Hne Hc']]%lookup_insert_Some Hs; [by eauto|].
    destruct (Hl _ _ _ _ Hc' Hs) as (v2 & a2 & px2 & Hm2 & Hp2 & Hc2).
    simplify_eq. destruct (Hsub c') as (S1 & S2 & S3); [done|].
    destruct p1; simpl in Hs; simplify_eq; auto.
  - intros c' p1 k' f [[<- <-]|[Hne Hc']]%lookup_insert_Some Hs Hkk; [|done].
    by apply seat_key, Hk' in Hs.
  - intros k' v' a' Hm' Hkk ->. by apply Hkk, (wf_inj _ _ Hwf _ _ _ _ _ Hm' Hm).
Qed.

(** A client that takes no seat changes stage and the proxies stay. *)
Lemma located_unseated st st' ph c p' :
  located st ph → seat p' = None →
  mVideoRequest2ProxyInfo st' = mVideoRequest2ProxyInfo st →
  proxies st' = proxies st → located st' (<[c := p']> ph).
Proof.
  intros Hl Hs Hm Hp c' p k f [[<- <-]|[Hne Hc']]%lookup_insert_Some Hs'.
  - congruence.
  - rewrite Hm, Hp. by eapply Hl.
Qed.

Lemma located_new_proxy st ph c v a px q :
  wf st ph → located st ph → seat q = None →
  vfind v (mVideoRequest2ProxyInfo st) = None → proxies st !! a = None →
  located (mkRtspService (mBev2RtspServer st) (servers st)
             (vset v a (mVideoRequest2ProxyInfo st)) (<[a := px]> (proxies st))
             (mpRtpProducer st)) (<[c := q]> ph).
Proof.
  intros Hwf Hl Hq Hf Ha c' p k f [[<- <-]|[Hne Hc']]%lookup_insert_Some Hs;
    [congruence|].
  destruct (Hl _ _ _ _ Hc' Hs) as (v2 & a2 & px2 & Hm2 & Hp2 & Hc2).
  assert (Hm : mVideoRequest2ProxyInfo st !! cmpStr v = None)
    by (unfold vfind in Hf; by apply fmap_None in Hf).
  exists v2, a2, px2. unfold vset. rewrite Hm. simpl.
  rewrite !lookup_insert_ne; [done|..]; intros <-; congruence.
Qed.

Lemma located_closed st st' ph c :
  located st ph → keeps_sessions c st st' → located st' (delete c ph).
Proof.
  intros Hl Hk c' p k f [Hne Hc']%lookup_delete_Some Hs.
  destruct (Hl _ _ _ _ Hc' Hs) as (v & a & px & Hm & Hp & Hc2).
  destruct (Hk k v a px c') as (Hm' & px' & Hp' & Hpx);
    eauto using seat_sessions.
  exists v, a, px'. split_and!; [done..|].
  destruct Hpx as [->| ->]; [done|]. by eapply seat_without.
Qed.

Lemma located_sdp st ph k v a px sdp buf q :
  wf st ph → located st ph →
  mVideoRequest2ProxyInfo st !! k = Some (v, a) → proxies st !! a = Some px →
  located (with_producer q (with_proxy a
    (mkProxyInfo (beforeDescribeClients px) ∅
       (beforePlayClients px ∪ waitingSdpClients px) (playingClients px)
       true sdp buf) st)) (next_phase (ESdp a sdp) st ph).
Proof.
  intros Hwf Hl Hm Hp. pose proof (wf_placed _ _ Hwf _ _ _ _ Hm Hp) as Hpl.
  simpl. rewrite Hp. eapply located_update; eauto.
  - intros c p f. rewrite map_lookup_imap. destruct (ph !! c) as [p0|] eqn:E; [|done].
    simpl. intros [= <-] Hs. case_bool_decide as Hw.
    + destruct (Hpl c) as (_ & H2 & _). rewrite H2 in E by done. simplify_eq/=.
      set_solver.
    + destruct (Hl _ _ _ _ E Hs) as (v2 & a2 & px2 & Hm2 & Hp2 & Hc2).
      simplify_eq. destruct p0; simpl in Hs; simplify_eq/=; set_solver.
  - intros c p k' f. rewrite map_lookup_imap.
    destruct (ph !! c) as [p0|] eqn:E; [|done]. simpl. intros [= <-] Hs Hne.
    case_bool_decide as Hw; [|done]. destruct (Hpl c) as (_ & H2 & _).
    rewrite H2 in E by done. by simplify_eq/=.
  - intros k' v' a' Hm' Hkk ->. by apply Hkk, (wf_inj _ _ Hwf _ _ _ _ _ Hm' Hm).
Qed.

Lemma options_located st ph c rtsp uri a v r st' evs :
  wf st ph → located st ph → ph !! c = Some Fresh → proxies st !! a = None →
  parseUrl uri = Done v → OnOptions c rtsp uri a st = Done (r, st', evs) →
  located st' (<[c := Optioned (cmpStr v)]> ph).
Proof.
  intros Hwf Hl Hc Ha Hv. destruct (wf_alive _ _ Hwf _ _ Hc) as [es Hes].
  unfold OnOptions. rewrite Hes, Hv. orun.
  destruct (vfind v (mVideoRequest2ProxyInfo st)) as [a'|] eqn:Ef.
  - destruct (vfind_wf _ _ _ _ Hwf Ef) as (v' & px & Hm & Hp). rewrite Hp. orun.
    intros [= <- <- <-]. rewrite <- (with_same_producer (with_proxy _ _ _)).
    eapply located_move; eauto; simpl; [by intros ? [= ->]|done..].
  - intros [= <- <- <-]. by apply located_new_proxy.
Qed.

Lemma describe_located st ph c uri v r st' evs :
  wf st ph → located st ph → parseUrl uri = Done v →
  ph !! c = Some (Optioned (cmpStr v)) →
  OnDescribe c uri st = Done (r, st', evs) →
  located st' (<[c := described_phase v st]> ph).
Proof.
  intros Hwf Hl Hv Hc. destruct (wf_alive _ _ Hwf _ _ Hc) as [es Hes].
  unfold OnDescribe, described_phase. rewrite Hes, Hv. orun.
  destruct (vfind v (mVideoRequest2ProxyInfo st)) as [a|] eqn:Ef; simpl; cycle 1.
  { intros [= <- <- <-]. by eapply located_unseated. }
  destruct (vfind_wf _ _ _ _ Hwf Ef) as (v' & px & Hm & Hp). rewrite Hp. orun.
  destruct (bool_decide_reflect (sourceSdp px = EmptyString)) as [Hs|Hs];
    [destruct (bool_decide_reflect (waitingSdpClients px = ∅)) as [Hw|Hw]|]; simpl.
  - destruct (RegisterVideo _ _ _) as [[p' errs]|]; orun; [|done].
    destruct (sync_errors _ _); orun; [|done]. intros [= <- <- <-].
    eapply located_move; eauto; simpl; [by intros ? [= ->]| |set_solver].
    intros f [= <-]. simpl. set_solver.
  - intros [= <- <- <-]. rewrite <- (with_same_producer (with_proxy _ _ _)).
    eapply located_move; eauto; simpl; [by intros ? [= ->]|done..].
  - intros [= <- <- <-]. rewrite <- (with_same_producer (with_proxy _ _ _)).
    eapply located_move; eauto; simpl; [by intros ? [= ->]| |set_solver].
    intros f [= <-]. simpl. set_solver.
Qed.

(** A client that was given the SDP is found by PLAY. *)
Lemma described_found st ph c v :
  wf st ph → located st ph → ph !! c = Some (Described (cmpStr v)) →
  ∃ a px, vfind v (mVideoRequest2ProxyInfo st) = Some a ∧
    (∃ v', mVideoRequest2ProxyInfo st !! cmpStr v = Some (v', a)) ∧
    proxies st !! a = Some px ∧ c ∈ beforePlayClients px.
Proof.
  intros Hwf Hl Hc. destruct (Hl _ _ _ _ Hc eq_refl) as (v' & a & px & Hm & Hp & Hin).
  exists a, px. unfold vfind. rewrite Hm. by eauto.
Qed.

Lemma play_located st ph c rtsp uri npt v r st' evs :
  wf st ph → located st ph → parseUrl uri = Done v →
  ph !! c = Some (Described (cmpStr v)) →
  OnPlay c rtsp uri npt st = Done (r, st', evs) →
  located st' (next_phase (EPlay c uri npt) st ph).
Proof.
  intros Hwf Hl Hv Hc. destruct (wf_alive _ _ Hwf _ _ Hc) as [es Hes].
  destruct (described_found _ _ _ _ Hwf Hl Hc) as (a & px & Hf & (v' & Hm) & Hp & Hin).
  unfold OnPlay. simpl. rewrite Hes, Hv. orun. rewrite Hf. simpl. rewrite Hp. orun.
  rewrite bool_decide_eq_true_2 by done. intros [= <- <- <-].
  rewrite <- (with_same_producer (with_proxy _ _ _)).
  eapply located_move; eauto; simpl; [by intros ? [= ->]| |set_solver].
  intros f [= <-]. simpl. set_solver.
Qed.

Lemma pkt_located st ph k v a px px' :
  wf st ph → located st ph →
  mVideoRequest2ProxyInfo st !! k = Some (v, a) → proxies st !! a = Some px →
  (∀ p k' f, seat p = Some (k', f) → f px' = f px) →
  located (with_proxy a px' st) ph.
Proof.
  intros Hwf Hl Hm Hp Heq c p k' f Hc Hs.
  destruct (Hl _ _ _ _ Hc Hs) as (v2 & a2 & px2 & Hm2 & Hp2 & Hc2).
  simpl. destruct (decide (a2 = a)) as [->|Hne].
  - exists v2, a, px'. rewrite lookup_insert_eq. split_and!; [done..|].
    simplify_eq. by rewrite (Heq _ _ _ Hs).
  - exists v2, a2, px2. by rewrite lookup_insert_ne.
Qed.

Variable rtsp_server_destroy : N → RtspService P → outcome (RtspService P).
Hypothesis destroy_closes :
  ∀ c st, rtsp_server_destroy c st = Close c st.

Lemma exec_located st ph e st' evs :
  wf st ph → located st ph → follows e st ph →
  exec rtsp_server_destroy e st = Done (st', evs) →
  located st' (next_phase e st ph).
Proof.
  intros Hwf Hl Ha. destruct e as [b c rtsp|c uri a|c uri|c uri npt|b|a sdp|a data|a];
    simpl in Ha.
  - destruct Ha as [Hb Hc]. simpl. unfold accept_conn_cb. rewrite Hb. orun.
    intros [= <- <-].
    by eapply located_unseated.
  - destruct Ha as [Hc Ha]. destruct (wf_alive _ _ Hwf _ _ Hc) as [es Hes].
    destruct (parseUrl_denotes uri) as (v & Hv & _). simpl. rewrite Hes, Hv. orun.
    destruct (OnOptions _ _ _ _ _) as [[[r st1] evs1]|] eqn:E; orun; [|done].
    intros [= <- <-]. by eapply options_located.
  - destruct Ha as (v & Hv & Hc). simpl. rewrite Hv.
    destruct (OnDescribe _ _ _) as [[[r st1] evs1]|] eqn:E; orun; [|done].
    intros [= <- <-]. by eapply describe_located.
  - destruct Ha as (v & Hv & Hc). destruct (wf_alive _ _ Hwf _ _ Hc) as [es Hes].
    cbn [exec]. rewrite Hes. orun.
    destruct (OnPlay _ _ _ _ _) as [[[r st1] evs1]|] eqn:E; orun; [|done].
    intros [= <- <-]. by eapply play_located.
  - destruct Ha as (c & Hb & Hc).
    destruct (errorcb_wf _ destroy_closes _ _ _ _ Hwf Hb)
      as (st1 & He & _ & _ & _ & Hk & _). simpl. rewrite He, Hb. orun. intros [= <- <-].
    by eapply located_closed.
  - cbn [exec]. unfold processSdpFunction.
    destruct (proxies st !! a) as [px|] eqn:Hp; orun; [|done].
    destruct (wf_owned _ _ Hwf _ _ Hp) as (k & v & Hm).
    destruct (for_clients _ _ _); orun; [|done]. intros [= <- <-].
    rewrite <- (with_same_producer (with_proxy _ _ _)). by eapply located_sdp.
  - cbn [exec]. unfold consumePktFunction.
    destruct (proxies st !! a) as [px|] eqn:Hp; orun; [|done].
    destruct (wf_owned _ _ Hwf _ _ Hp) as (k & v & Hm).
    destruct (data !! 1); orun; [|done].
    case_bool_decide; orun; [|done]. destruct (for_clients _ _ _); orun; [|done].
    intros [= <- <-]. simpl. eapply pkt_located; eauto.
    intros p k' f. by destruct p; intros [= <- <-].
  - simpl. destruct (processErrorFunction _ _); orun; [|done]. by intros [= <- <-].
Qed.

Lemma preach_good st ph :
  preach rtsp_server_destroy st ph → wf st ph ∧ located st ph.
Proof.
  induction 1 as [|st ph e st' evs _ [IH1 IH2] Ha He|st ph p' _ [IH1 IH2]].
  - split; [by apply initial_wf|]. by intros ????.
  - split; [by eapply exec_done_wf|by eapply exec_located].
  - split; [by apply wf_producer_step|]. exact IH2.
Qed.

Lemma dreach_good st ph :
  dreach rtsp_server_destroy st ph → wf st ph ∧ located st ph.
Proof. intros Hd. by apply preach_good, dreach_preach. Qed.
End located.

(** * Running disciplined events *)

#[export] Instance cphase_eq_dec : EqDecision cphase.
Proof. solve_decision. Defined.

Section running.
Context {P : Type} `{VideoProducer P}.
Variable rtsp_server_destroy : N → RtspService P → outcome (RtspService P).
Implicit Types (st : RtspService P) (ph : gmap N cphase).

Definition calls_backb st (a : N) : bool :=
  existsb (fun e => bool_decide (e.2 = a)) (map_to_list (bound (mpRtpProducer st))).

Definition followsb (e : event) st ph : bool :=
  match e with
  | EAccept b c _ => bool_decide (mBev2RtspServer st !! b = None) &&
      match servers st !! c with None => true | Some _ => false end
  | EOptions c _ a => bool_decide (ph !! c = Some Fresh) &&
      match proxies st !! a with None => true | Some _ => false end
  | EDescribe c uri =>
      match parseUrl uri with
      | Done v => bool_decide (ph !! c = Some (Optioned (cmpStr v)))
      | Fault _ => false
      end
  | EPlay c uri _ =>
      match parseUrl uri with
      | Done v => bool_decide (ph !! c = Some (Described (cmpStr v)))
      | Fault _ => false
      end
  | EError b =>
      match mBev2RtspServer st !! b with
      | Some c => match ph !! c with Some _ => true | None => false end
      | None => false
      end
  | ESdp a _ | EProducerError a | EPkt a _ => calls_backb st a
  end.

Definition patientb (e : event) st ph : bool :=
  match e with
  | EError b =>
      match mBev2RtspServer st !! b ≫= (fun c => ph !! c) with
      | Some (Waiting k) =>
          bool_decide (bound (mpRtpProducer st) !! k = None) ||
          match mVideoRequest2ProxyInfo st !! k ≫= (fun e => proxies st !! e.2) with
          | Some px => registered px
          | None => false
          end
      | _ => true
      end
  | _ => true
  end.

Definition allowedb (e : event) st ph : bool := followsb e st ph && patientb e st ph.

Lemma calls_backb_sound st a : calls_backb st a = true → calls_back st a.
Proof.
  unfold calls_backb. rewrite existsb_exists.
  intros ([k a'] & Hin & Ha%bool_decide_eq_true). simpl in Ha. subst.
  exists k. by apply elem_of_map_to_list, list_elem_of_In.
Qed.

Lemma followsb_sound e st ph : followsb e st ph = true → follows e st ph.
Proof.
  destruct e; simpl; rewrite ?andb_true_iff, ?bool_decide_eq_true;
    try apply calls_backb_sound.
  - intros [? Hs]. split; [done|]. by destruct (servers st !! c).
  - intros [? Hs]. split; [done|]. by destruct (proxies st !! a).
  - destruct (parseUrl uri) as [v|]; [|done]. rewrite bool_decide_eq_true. by eauto.
  - destruct (parseUrl uri) as [v|]; [|done]. rewrite bool_decide_eq_true. by eauto.
  - destruct (mBev2RtspServer st !! b) as [c|]; [|done].
    destruct (ph !! c) as [p|] eqn:E; [|done]. intros _. exists c. by rewrite E.
Qed.

Lemma patientb_sound e st ph : patientb e st ph = true → patient e st ph.
Proof.
  destruct e; simpl; try done. intros Hp c k Hb Hc. rewrite Hb in Hp. simpl in Hp.
  rewrite Hc in Hp. apply orb_true_iff in Hp as [Hp%bool_decide_eq_true|Hp]; [by left|].
  right. destruct (mVideoRequest2ProxyInfo st !! k) as [[v a]|] eqn:Hm; [|done].
  simpl in Hp. destruct (proxies st !! a) as [px|] eqn:Hpx; [|done].
  by exists v, a, px.
Qed.

Lemma allowedb_sound e st ph : allowedb e st ph = true → allowed e st ph.
Proof.
  unfold allowedb. rewrite andb_true_iff.
  intros [??]. split; [by apply followsb_sound|by apply patientb_sound].
Qed.

(** A run of allowed events. *)
Fixpoint drun (es : list event) st ph : option (RtspService P * gmap N cphase) :=
  match es with
  | [] => Some (st, ph)
  | e :: es' =>
      if allowedb e st ph then
        match exec rtsp_server_destroy e st with
        | Done (st', _) => drun es' st' (next_phase e st ph)
        | Fault _ => None
        end
      else None
  end.

Lemma drun_dreach es st ph st' ph' :
  dreach rtsp_server_destroy st ph → drun es st ph = Some (st', ph') →
  dreach rtsp_server_destroy st' ph'.
Proof.
  revert st ph. induction es as [|e es IH]; simpl; intros st ph Hd; [by intros [= <- <-]|].
  destruct (allowedb e st ph) eqn:Ea; [|done].
  destruct (exec rtsp_server_destroy e st) as [[st1 evs]|] eqn:E; [|done].
  apply IH. eapply dreach_step; eauto using allowedb_sound.
Qed.
End running.

(** Two clients watch one camera: the first has waited for the SDP, the second
    found it. *)
Section demo.
Import Registry.

Definition demo_uri : string := "rtsp://127.0.0.1:8554/gb/34020000001320000001".
Definition demo_video : VideoRequest :=
  mkVideoRequest false EmptyString false true "34020000001320000001" UDP.

Definition demo_session : list event :=
  [EAccept 1 7 70; EAccept 2 8 80; EOptions 7 demo_uri 3; EOptions 8 demo_uri 4;
   EDescribe 7 demo_uri; ESdp 3 "v=0"; EPlay 7 demo_uri None;
   EDescribe 8 demo_uri].

Definition demo_end : RtspService (gmap string N) * gmap N cphase :=
  default (initial ∅, ∅) (drun Close demo_session (initial ∅) ∅).

Lemma demo_session_reached : dreach Close demo_end.1 demo_end.2.
Proof.
  apply (drun_dreach Close demo_session (initial ∅) ∅); [by constructor|].
  vm_compute. reflexivity.
Qed.

(** The same two while the first still waits for the SDP. *)
Definition demo_waiting : RtspService (gmap string N) * gmap N cphase :=
  default (initial ∅, ∅) (drun Close (take 5 demo_session) (initial ∅) ∅).

Lemma demo_waiting_reached : dreach Close demo_waiting.1 demo_waiting.2.
Proof.
  apply (drun_dreach Close (take 5 demo_session) (initial ∅) ∅); [by constructor|].
  vm_compute. reflexivity.
Qed.
End demo.

(** * What the sessions may rely on *)

Section guarantees.
Context {P : Type} `{VideoProducer P, !VideoProducerLaws P}.
Variable rtsp_server_destroy : N → RtspService P → outcome (RtspService P).
Hypothesis destroy_closes :
  ∀ c st, rtsp_server_destroy c st = Close c st.
Implicit Types (st : RtspService P) (ph : gmap N cphase).

(** How every event ends. In a state that clients reach which keep to the order
    OPTIONS, DESCRIBE and PLAY, whenever they leave, an event faults exactly as
    [fault_of] says and is otherwise handled to its end; the proxy of every
    registration is alive when the clients were patient. *)
Lemma protocol_run_outcome st ph (e : event) :
  preach rtsp_server_destroy st ph → follows e st ph →
  match fault_of e st with
  | Some f => exec rtsp_server_destroy e st = Fault f
  | None => ∃ st' evs, exec rtsp_server_destroy e st = Done (st', evs) ∧
              preach rtsp_server_destroy st' (next_phase e st ph)
  end.
Proof.
  intros Hr Ha. pose proof (preach_wf _ destroy_closes _ _ Hr) as Hwf.
  destruct (fault_of e st) as [f|] eqn:Ef; [by eapply exec_faults|].
  destruct (exec_wf _ destroy_closes _ _ _ Hwf Ha Ef) as (st' & evs & He & _).
  exists st', evs. split; [done|]. by eapply runs_step.
Qed.

Lemma patient_proxies_alive st ph (a : N) :
  dreach rtsp_server_destroy st ph → calls_back st a → is_Some (proxies st !! a).
Proof.
  intros Hr [k Hb]. pose proof (dreach_anchored _ destroy_closes _ _ Hr) as Han.
  destruct (bound_anchored _ _ _ Han Hb) as (v & px & _ & ->). by eauto.
Qed.

(** C14: the sets of a proxy are the stages of its clients. In a reachable
    state every member of a set of a mapped proxy is connected and is at the
    stage of that set for that video; so no client is in two sets or in the
    sets of two proxies. Every registration of the producer is bound to a
    proxy in the map. *)
Theorem proxy_sets_consistent st ph (Hr : dreach rtsp_server_destroy st ph) :
  (∀ v a px c, mVideoRequest2ProxyInfo st !! cmpStr v = Some (v, a) →
     proxies st !! a = Some px → c ∈ members px →
     is_Some (servers st !! c) ∧
     ph !! c = Some (if bool_decide (c ∈ beforeDescribeClients px)
                     then Optioned (cmpStr v)
                     else if bool_decide (c ∈ waitingSdpClients px)
                     then Waiting (cmpStr v)
                     else if bool_decide (c ∈ beforePlayClients px)
                     then Described (cmpStr v) else Playing (cmpStr v))) ∧
  (∀ k a, bound (mpRtpProducer st) !! k = Some a →
     ∃ v px, mVideoRequest2ProxyInfo st !! k = Some (v, a) ∧
             proxies st !! a = Some px).
Proof.
  pose proof (dreach_wf _ destroy_closes _ _ Hr) as Hwf. split.
  - intros v a px c Hm Hp Hc. split; [by eapply placed_alive|].
    destruct (wf_placed _ _ Hwf _ _ _ _ Hm Hp c) as (H1 & H2 & H3 & H4).
    unfold members in Hc. rewrite !elem_of_union in Hc.
    repeat case_bool_decide; auto. apply H4. naive_solver.
  - intros k a. apply bound_anchored. by apply (dreach_anchored _ destroy_closes _ _ Hr).
Qed.

(** C25: an SDP answers everyone who waits. When the producer reports the SDP
    of a video, the service replies to exactly the clients at the stage
    [Waiting] of that video, once each, and all of them become [Described]. *)
Theorem sdp_answers_waiting st ph (k : string) (a : N) (sdp : string)
    (Hr : dreach rtsp_server_destroy st ph)
    (Hb : bound (mpRtpProducer st) !! k = Some a) :
  ∃ st' cs, exec rtsp_server_destroy (ESdp a sdp) st
      = Done (st', omap (fun c => (fun es => ReplyDescribe (server es) 200 sdp)
                                   <$> servers st !! c) cs) ∧
    NoDup cs ∧ (∀ c, c ∈ cs ↔ ph !! c = Some (Waiting k)) ∧
    (∀ c, c ∈ cs → next_phase (ESdp a sdp) st ph !! c = Some (Described k)).
Proof.
  destruct (dreach_good _ destroy_closes _ _ Hr) as [Hwf Hl].
  pose proof (dreach_anchored _ destroy_closes _ _ Hr) as Han.
  destruct (bound_anchored _ _ _ Han Hb) as (v & px & Hm & Hp).
  destruct (sdp_wf _ _ _ _ _ _ sdp Hwf Hm Hp) as (st' & He & _).
  pose proof (wf_placed _ _ Hwf _ _ _ _ Hm Hp) as Hpl.
  exists st', (set_iter (waitingSdpClients px)). split_and!; [done| |..].
  - apply NoDup_set_iter.
  - intros c. rewrite elem_of_set_iter. split; [apply Hpl|]. intros Hc.
    destruct (Hl _ _ _ _ Hc eq_refl) as (? & ? & ? & ? & ? & ?). by simplify_eq.
  - intros c Hc%elem_of_set_iter. simpl. rewrite Hp, map_lookup_imap.
    destruct (Hpl c) as (_ & -> & _); [|done]. simpl.
    by rewrite bool_decide_eq_true_2.
Qed.

(** A packet leaves the connections and the producer alone. *)
Lemma consumePkt_frame a data st st' evs :
  consumePktFunction a data st = Done (st', evs) →
  servers st' = servers st ∧ mpRtpProducer st' = mpRtpProducer st.
Proof.
  unfold consumePktFunction. destruct (proxies st !! a); orun; [|done].
  destruct (data !! 1); orun; [|done]. destruct (bool_decide _); orun; [|done].
  destruct (for_clients _ _ _); orun; [|done]. by intros [= <- <-].
Qed.

Lemma pkt_delivered st ph k a data :
  dreach rtsp_server_destroy st ph → bound (mpRtpProducer st) !! k = Some a →
  2 ≤ length data ≤ 1596 →
  ∃ st' cs b1, data !! 1 = Some b1 ∧
    exec rtsp_server_destroy (EPkt a data) st
      = Done (st', omap (fun c => (fun es => SendInterleaved (server es)
                                               (frame_bytes data b1))
                                   <$> servers st !! c) cs) ∧
    NoDup cs ∧ (∀ c, c ∈ cs ↔ ph !! c = Some (Playing k)) ∧
    (∀ c, c ∈ cs → is_Some (servers st !! c)).
Proof.
  intros Hr Hb Hlen.
  destruct (dreach_good _ destroy_closes _ _ Hr) as [Hwf Hl].
  pose proof (dreach_anchored _ destroy_closes _ _ Hr) as Han.
  destruct (bound_anchored _ _ _ Han Hb) as (v & px & Hm & Hp).
  destruct (pkt_wf _ _ _ _ _ _ _ Hwf Hm Hp Hlen) as (b1 & st' & Hb1 & He & _).
  pose proof (wf_placed _ _ Hwf _ _ _ _ Hm Hp) as Hpl.
  exists st', (set_iter (playingClients px)), b1. split_and!; [done|done| |..].
  - apply NoDup_set_iter.
  - intros c. rewrite elem_of_set_iter. split; [apply Hpl|]. intros Hc.
    destruct (Hl _ _ _ _ Hc eq_refl) as (? & ? & ? & ? & ? & ?). by simplify_eq.
  - intros c Hc%elem_of_set_iter. eapply placed_alive; eauto. set_solver.
Qed.

(** C7: every playing client gets every packet. A packet of 2 to 1596 bytes
    from the producer goes, framed, to exactly the clients at the stage
    [Playing] of that video, once each. *)
Theorem packet_delivery st ph (k : string) (a : N) (data : list Z)
    (Hr : dreach rtsp_server_destroy st ph)
    (Hb : bound (mpRtpProducer st) !! k = Some a)
    (Hlen : 2 ≤ length data ≤ 1596) :
  ∃ st' cs b1, data !! 1 = Some b1 ∧
    exec rtsp_server_destroy (EPkt a data) st
      = Done (st', omap (fun c => (fun es => SendInterleaved (server es)
                                               (frame_bytes data b1))
                                   <$> servers st !! c) cs) ∧
    NoDup cs ∧ (∀ c, c ∈ cs ↔ ph !! c = Some (Playing k)) ∧
    (∀ c, c ∈ cs → is_Some (servers st !! c)).
Proof. by apply pkt_delivered. Qed.

(** C8: a disconnect cleans up. When a connection fails, at whatever stage of its
    session, its client is in no set of any proxy and its server object is gone; the
    videos with a session of another client stay mapped with these sessions; a video
    whose only session was this one is unmapped and its proxy destroyed. If its SDP
    had come, the video is unregistered with the producer, and nothing else is; if
    not, the producer is not told. So when all clients were patient and this one did
    not wait for an SDP, no registration of the video is left. *)
Theorem disconnect_cleans_up st ph (b c : N)
    (Hr : preach rtsp_server_destroy st ph)
    (Hb : mBev2RtspServer st !! b = Some c) :
  ∃ st', exec rtsp_server_destroy (EError b) st = Done (st', []) ∧
    (∀ a px, proxies st' !! a = Some px → c ∉ members px) ∧
    servers st' !! c = None ∧
    keeps_sessions c st st' ∧
    (∀ k v a px,
       mVideoRequest2ProxyInfo st !! k = Some (v, a) → proxies st !! a = Some px →
       c ∈ members px → sessions px ⊆ {[c]} →
       mVideoRequest2ProxyInfo st' !! k = None ∧ proxies st' !! a = None ∧
       (registered px = true →
          bound (mpRtpProducer st') = delete k (bound (mpRtpProducer st))) ∧
       (registered px = false → mpRtpProducer st' = mpRtpProducer st) ∧
       (dreach rtsp_server_destroy st ph → ph !! c ≠ Some (Waiting k) →
          bound (mpRtpProducer st') !! k = None)).
Proof.
  pose proof (preach_wf _ destroy_closes _ _ Hr) as Hwf.
  destruct (errorcb_wf _ destroy_closes _ _ _ _ Hwf Hb)
    as (st' & He & Hwf' & Hm & Hs & Hk & Hrel & Hst).
  exists st'. simpl. rewrite He. split_and!; [done..|].
  intros k v a px Hmk Hpk Hin Hses.
  destruct (Hrel _ _ _ _ Hmk Hpk Hin Hses) as (Hgone & Hdead & Hreg).
  split_and!; [done|done|by intros Er; rewrite Er in Hreg|
    by intros Er; rewrite Er in Hreg|].
  intros Hd Hc. pose proof (dreach_anchored _ destroy_closes _ _ Hd) as Han.
  destruct (bound (mpRtpProducer st') !! k) as [a'|] eqn:E; [|done].
  destruct (bound_anchored st' k a') as (? & ? & ? & ?); [|done|congruence].
  apply Hst; [done|]. intros k' Hk'. left. exfalso.
  destruct (dreach_good _ destroy_closes _ _ Hd) as [_ Hl].
  destruct (Hl _ _ _ _ Hk' eq_refl) as (v2 & a2 & px2 & Hm2 & Hp2 & Hc2).
  assert (k' = k) as ->; [|done].
  apply (members_unique _ _ _ _ _ _ _ _ _ _ c Hwf Hm2 Hp2 Hmk Hpk); [|done].
  unfold members. set_solver.
Qed.
End guarantees.

(** * The guarantees on the example *)

Section examples.
Import Registry.

Lemma proxy_sets_consistent_witness :
  demo_end.2 !! 8%N = Some (Described (cmpStr demo_video)).
Proof.
  refine (proj2 (proj1 (proxy_sets_consistent Close (fun _ _ => eq_refl)
            demo_end.1 demo_end.2 demo_session_reached) demo_video 3%N
            (mkProxyInfo ∅ ∅ {[8%N]} {[7%N]} true "v=0" new_sendBuffer) 8%N _ _ _)).
  - vm_compute. reflexivity.
  - vm_compute. reflexivity.
  - vm_compute. reflexivity.
Defined.

Lemma sdp_answers_waiting_witness :
  demo_waiting.2 !! 7%N = Some (Waiting (cmpStr demo_video)) ∧
  ∃ st' cs, exec Close (ESdp 3 "v=1") demo_waiting.1
      = Done (st', omap (fun c => (fun es => ReplyDescribe (server es) 200 "v=1")
                                   <$> servers demo_waiting.1 !! c) cs) ∧
    NoDup cs ∧
    (∀ c, c ∈ cs ↔ demo_waiting.2 !! c = Some (Waiting (cmpStr demo_video))) ∧
    (∀ c, c ∈ cs → next_phase (ESdp 3 "v=1") demo_waiting.1 demo_waiting.2 !! c
                   = Some (Described (cmpStr demo_video))).
Proof.
  split; [vm_compute; reflexivity|].
  apply (sdp_answers_waiting Close (fun _ _ => eq_refl) _ _ (cmpStr demo_video) 3
           "v=1" demo_waiting_reached).
  vm_compute. reflexivity.
Defined.

Lemma packet_delivery_witness :
  ∃ st' cs b1, [128; 96; 1]%Z !! 1 = Some b1 ∧
    exec Close (EPkt 3 [128; 96; 1]%Z) demo_end.1
      = Done (st', omap (fun c => (fun es => SendInterleaved (server es)
                                               (frame_bytes [128; 96; 1]%Z b1))
                                   <$> servers demo_end.1 !! c) cs) ∧
    NoDup cs ∧
    (∀ c, c ∈ cs ↔ demo_end.2 !! c = Some (Playing (cmpStr demo_video))) ∧
    (∀ c, c ∈ cs → is_Some (servers demo_end.1 !! c)).
Proof.
  apply (packet_delivery Close (fun _ _ => eq_refl) _ _ (cmpStr demo_video) 3
           [128; 96; 1]%Z demo_session_reached).
  - vm_compute. reflexivity.
  - simpl. lia.
Defined.

Lemma disconnect_cleans_up_witness :
  ∃ st', exec Close (EError 1) demo_waiting.1 = Done (st', []) ∧
    (∀ a px, proxies st' !! a = Some px → 7%N ∉ members px) ∧
    servers st' !! 7%N = None ∧
    keeps_sessions 7 demo_waiting.1 st' ∧
    (∀ k v a px,
       mVideoRequest2ProxyInfo demo_waiting.1 !! k = Some (v, a) →
       proxies demo_waiting.1 !! a = Some px →
       7%N ∈ members px → sessions px ⊆ {[7%N]} →
       mVideoRequest2ProxyInfo st' !! k = None ∧ proxies st' !! a = None ∧
       (registered px = true →
          bound (mpRtpProducer st') = delete k (bound (mpRtpProducer demo_waiting.1))) ∧
       (registered px = false → mpRtpProducer st' = mpRtpProducer demo_waiting.1) ∧
       (dreach Close demo_waiting.1 demo_waiting.2 →
        demo_waiting.2 !! 7%N ≠ Some (Waiting k) →
          bound (mpRtpProducer st') !! k = None)).
Proof.
  apply (disconnect_cleans_up Close (fun _ _ => eq_refl) _ demo_waiting.2 1 7).
  - apply dreach_preach, demo_waiting_reached.
  - vm_compute. reflexivity.
Defined.
End examples.

(** * Where clients break the order, and where they leave too early *)

(** The range-for over a freed client faults. *)
Lemma for_clients_dead objs f cs c :
  c ∈ cs → objs !! c = None → for_clients objs f cs = Fault UseAfterFree.
Proof.
  intros Hc Hn. induction cs as [|c' cs IH]; simpl; [by apply not_elem_of_nil in Hc|].
  destruct (objs !! c') as [es|] eqn:E; orun; [|done].
  rewrite IH; [done|]. apply elem_of_cons in Hc as [->|]; [congruence|done].
Qed.

Lemma for_clients_outcome objs f cs :
  for_clients objs f cs = Fault UseAfterFree ∨ ∃ evs, for_clients objs f cs = Done evs.
Proof.
  induction cs as [|c cs IH]; simpl; [by eauto|].
  destruct (objs !! c); orun; [|by left]. destruct IH as [->|[evs ->]]; orun; by eauto.
Qed.

Section gaps.
Context {P : Type} `{VideoProducer P, !VideoProducerLaws P}.
Variable rtsp_server_destroy : N → RtspService P → outcome (RtspService P).
Hypothesis destroy_closes :
  ∀ c st, rtsp_server_destroy c st = Close c st.
Implicit Types (st : RtspService P) (ph : gmap N cphase) (px : ProxyInfo).

(** A playing client that is freed is found by the next packet and the next
    error. *)
Lemma dead_playing_faults st a px c data :
  proxies st !! a = Some px → length (sendBuffer px) = 1600 →
  c ∈ playingClients px → servers st !! c = None →
  (2 ≤ length data ≤ 1596 → consumePktFunction a data st = Fault UseAfterFree) ∧
  processErrorFunction a st = Fault UseAfterFree.
Proof.
  intros Hp Hb Hc Hs. rewrite <- elem_of_set_iter in Hc. split.
  - intros Hl. unfold consumePktFunction. rewrite Hp. orun.
    destruct (lookup_lt_is_Some_2 data 1) as [b1 ->]; [lia|]. orun.
    rewrite bool_decide_eq_true_2 by (rewrite Hb; simpl; lia). orun.
    by rewrite (for_clients_dead _ _ _ c).
  - unfold processErrorFunction. rewrite Hp. orun.
    assert (H4 : ∀ f, for_clients (servers st) f (set_iter (playingClients px))
                      = Fault UseAfterFree) by (intros; by apply (for_clients_dead _ _ _ c)).
    destruct (for_clients_outcome (servers st) (fun es => CloseSocket (bev es))
                (set_iter (beforeDescribeClients px))) as [->|[? ->]]; orun; [done|].
    destruct (for_clients_outcome (servers st) (fun es => CloseSocket (bev es))
                (set_iter (waitingSdpClients px))) as [->|[? ->]]; orun; [done|].
    destruct (for_clients_outcome (servers st) (fun es => CloseSocket (bev es))
                (set_iter (beforePlayClients px))) as [->|[? ->]]; orun; [done|].
    by rewrite H4.
Qed.

(** The proxy with the client announced once more. *)
Definition announced (c : N) px : ProxyInfo :=
  mkProxyInfo (beforeDescribeClients px ∪ {[c]}) (waitingSdpClients px)
    (beforePlayClients px) (playingClients px) (registered px)
    (sourceSdp px) (sendBuffer px).

(** [Close] of a client that is announced and plays takes it out of the first set
    only. *)
Lemma close_announced st ph v a px c :
  wf st ph → mVideoRequest2ProxyInfo st !! cmpStr v = Some (v, a) →
  proxies st !! a = Some px → c ∈ playingClients px →
  ∃ px', Close c (with_proxy a (announced c px) st)
         = Done (with_proxy a px' (with_proxy a (announced c px) st)) ∧
    playingClients px' = playingClients px ∧ sendBuffer px' = sendBuffer px.
Proof.
  intros Hwf Hm Hp Hc. unfold Close.
  set (st1 := with_proxy a (announced c px) st).
  assert (Hl : ∀ v' a', (v', a') ∈ ventries (mVideoRequest2ProxyInfo st1) ↔
            mVideoRequest2ProxyInfo st !! cmpStr v' = Some (v', a'))
    by (intros; by apply elem_of_ventries, (wf_keyed _ _ Hwf)).
  assert (Hmem : c ∈ members px) by (unfold members; set_solver).
  destruct (close_loop_cases c (ventries (mVideoRequest2ProxyInfo st1)) st1)
    as [[_ Hnone]|(v1 & a1 & px1 & px1' & Hin & Hp1 & Hr & ->)].
  { intros v' a' Hin%Hl. simpl. destruct (decide (a' = a)) as [->|].
    - rewrite lookup_insert_eq. by eauto.
    - rewrite lookup_insert_ne by done. by apply (wf_mapped _ _ Hwf _ _ _ Hin). }
  { exfalso. refine (Hnone v a (announced c px) _ _ _); [by apply Hl|apply lookup_insert_eq|].
    unfold members. simpl. set_solver. }
  simpl in Hp1. apply lookup_insert_Some in Hp1 as [[<- <-]|[Hne Hp1]]; cycle 1.
  { apply (not_member_elsewhere _ _ _ _ _ _ _ _ Hwf Hm Hp Hmem) in Hp1; [|done].
    apply remove_client_None in Hp1. congruence. }
  unfold remove_client in Hr. rewrite bool_decide_eq_true_2 in Hr by (simpl; set_solver).
  injection Hr as <-. unfold close_found, needUnregistered. simpl.
  rewrite (bool_decide_eq_false_2 (playingClients px = ∅)) by set_solver.
  rewrite andb_false_r. by eexists.
Qed.

Lemma options_of_mapped st c es uri v a v' px a' :
  servers st !! c = Some es → parseUrl uri = Done v →
  mVideoRequest2ProxyInfo st !! cmpStr v = Some (v', a) → proxies st !! a = Some px →
  exec rtsp_server_destroy (EOptions c uri a') st
  = Done (with_proxy a (announced c px) st, [ReplyOptions (server es) 200]).
Proof.
  intros Hs Hv Hm Hp. simpl. rewrite Hs. orun. unfold OnOptions.
  rewrite Hs, Hv. orun. unfold vfind. rewrite Hm. simpl. by rewrite Hp.
Qed.

Lemma options_while_playing st ph b c v uri a' :
  preach rtsp_server_destroy st ph → mBev2RtspServer st !! b = Some c →
  ph !! c = Some (Playing (cmpStr v)) → parseUrl uri = Done v →
  ∃ a st1 evs st2,
    vfind v (mVideoRequest2ProxyInfo st) = Some a ∧
    exec rtsp_server_destroy (EOptions c uri a') st = Done (st1, evs) ∧
    exec rtsp_server_destroy (EError b) st1 = Done (st2, []) ∧
    servers st2 !! c = None ∧ mpRtpProducer st2 = mpRtpProducer st ∧
    (∀ data, 2 ≤ length data ≤ 1596 →
       exec rtsp_server_destroy (EPkt a data) st2 = Fault UseAfterFree) ∧
    exec rtsp_server_destroy (EProducerError a) st2 = Fault UseAfterFree.
Proof.
  intros Hr Hb Hc Hv. destruct (preach_good _ destroy_closes _ _ Hr) as [Hwf Hl].
  destruct (Hl _ _ _ _ Hc eq_refl) as (v' & a & px & Hm & Hp & Hin).
  destruct (wf_alive _ _ Hwf _ _ Hc) as [es Hes].
  pose proof (wf_keyed _ _ Hwf _ _ Hm) as Hk. simpl in Hk.
  set (st0 := mkRtspService (delete b (mBev2RtspServer st)) (servers st)
    (mVideoRequest2ProxyInfo st) (proxies st) (mpRtpProducer st)).
  assert (Hwf0 : wf st0 ph).
  { destruct Hwf. split; try done. simpl.
    intros b' c' [_ Hb']%lookup_delete_Some. by eauto. }
  destruct (close_announced st0 ph v' a px c Hwf0) as (px' & Hcl & Hpl & Hbuf);
    [by rewrite Hk|done|done|].
  eexists a, _, _, _. split; [unfold vfind; by rewrite Hm|].
  split; [by apply (options_of_mapped _ _ _ _ _ _ _ _ _ Hes Hv Hm Hp)|].
  split.
  { simpl. unfold errorcb. simpl. rewrite Hb, destroy_closes.
    change (Close c (mkRtspService _ _ _ _ _))
      with (Close c (with_proxy a (announced c px) st0)).
    rewrite Hcl. orun. reflexivity. }
  split; [apply lookup_delete_eq|]. split; [done|].
  assert (Hd : ∀ st2 data, proxies st2 !! a = Some px' → servers st2 !! c = None →
    (2 ≤ length data ≤ 1596 → consumePktFunction a data st2 = Fault UseAfterFree) ∧
    processErrorFunction a st2 = Fault UseAfterFree).
  { intros st2 data Hp2 Hs2. apply (dead_playing_faults st2 a px' c); [done| | |done].
    - rewrite Hbuf. by apply (wf_buffer _ _ Hwf _ _ Hp).
    - by rewrite Hpl. }
  split.
  - intros data. apply Hd; [apply lookup_insert_eq|apply lookup_delete_eq].
  - cbn [exec]. match goal with |- context [processErrorFunction a ?s] =>
      destruct (Hd s []) as [_ ->]; [apply lookup_insert_eq|apply lookup_delete_eq|done] end.
Qed.

(** C35: why clients have to keep to the protocol, and why they have to be patient.
    In every state that clients reach which did so: when one of them that plays
    sends OPTIONS for its video again and its connection ends, the freed connection
    is left in [playingClients], where the next packet of the video, or its next
    error, uses it; and when the connection of the only client of a video ends while
    it waits for the SDP, the proxy is freed but the producer keeps its
    registration, so that the SDP, any packet and any error that it reports use the
    freed proxy. *)
Theorem protocol_gaps_dangle st ph (b c : N)
    (Hr : preach rtsp_server_destroy st ph)
    (Hb : mBev2RtspServer st !! b = Some c) :
  (∀ v uri a', ph !! c = Some (Playing (cmpStr v)) → parseUrl uri = Done v →
     ∃ a st1 evs st2,
       vfind v (mVideoRequest2ProxyInfo st) = Some a ∧
       exec rtsp_server_destroy (EOptions c uri a') st = Done (st1, evs) ∧
       exec rtsp_server_destroy (EError b) st1 = Done (st2, []) ∧
       servers st2 !! c = None ∧ mpRtpProducer st2 = mpRtpProducer st ∧
       (∀ data, 2 ≤ length data ≤ 1596 →
          exec rtsp_server_destroy (EPkt a data) st2 = Fault UseAfterFree) ∧
       exec rtsp_server_destroy (EProducerError a) st2 = Fault UseAfterFree) ∧
  (∀ k v a px, ph !! c = Some (Waiting k) →
     mVideoRequest2ProxyInfo st !! k = Some (v, a) → proxies st !! a = Some px →
     registered px = false → sessions px ⊆ {[c]} →
     ∃ st', exec rtsp_server_destroy (EError b) st = Done (st', []) ∧
       proxies st' !! a = None ∧ mpRtpProducer st' = mpRtpProducer st ∧
       (∀ sdp, exec rtsp_server_destroy (ESdp a sdp) st' = Fault UseAfterFree) ∧
       (∀ data, exec rtsp_server_destroy (EPkt a data) st' = Fault UseAfterFree) ∧
       exec rtsp_server_destroy (EProducerError a) st' = Fault UseAfterFree).
Proof.
  split; [intros v uri a'; by apply options_while_playing|].
  intros k v a px Hc Hm Hp Hreg Hses.
  destruct (preach_good _ destroy_closes _ _ Hr) as [Hwf Hl].
  destruct (errorcb_wf _ destroy_closes _ _ _ _ Hwf Hb)
    as (st' & He & Hwf' & _ & _ & _ & Hrel & _).
  destruct (Hl _ _ _ _ Hc eq_refl) as (v2 & a2 & px2 & Hm2 & Hp2 & Hc2). simplify_eq.
  destruct (Hrel k v a px) as (_ & Hdead & Hprod); [done..| |done|].
  { unfold members. set_solver. }
  rewrite Hreg in Hprod. exists st'. cbn [exec]. rewrite He.
  split_and!; try done.
  - intros sdp. apply (exec_faults rtsp_server_destroy _ _ (ESdp a sdp) _ Hwf'). simpl. by rewrite Hdead.
  - intros data. apply (exec_faults rtsp_server_destroy _ _ (EPkt a data) _ Hwf'). simpl. by rewrite Hdead.
  - apply (exec_faults rtsp_server_destroy _ _ (EProducerError a) _ Hwf'). simpl. by rewrite Hdead.
Qed.
End gaps.

Section hazards.
Import Registry.

Lemma protocol_gaps_dangle_witness :
  (∃ a st1 evs st2,
     vfind demo_video (mVideoRequest2ProxyInfo demo_end.1) = Some a ∧
     exec Close (EOptions 7 demo_uri 9) demo_end.1 = Done (st1, evs) ∧
     exec Close (EError 1) st1 = Done (st2, []) ∧
     servers st2 !! 7%N = None ∧ mpRtpProducer st2 = mpRtpProducer demo_end.1 ∧
     (∀ data, 2 ≤ length data ≤ 1596 →
        exec Close (EPkt a data) st2 = Fault UseAfterFree) ∧
     exec Close (EProducerError a) st2 = Fault UseAfterFree) ∧
  ∃ st', exec Close (EError 1) demo_waiting.1 = Done (st', []) ∧
    proxies st' !! 3%N = None ∧ mpRtpProducer st' = mpRtpProducer demo_waiting.1 ∧
    (∀ sdp, exec Close (ESdp 3 sdp) st' = Fault UseAfterFree) ∧
    (∀ data, exec Close (EPkt 3 data) st' = Fault UseAfterFree) ∧
    exec Close (EProducerError 3) st' = Fault UseAfterFree.
Proof.
  split.
  - apply (protocol_gaps_dangle Close (fun _ _ => eq_refl) demo_end.1 demo_end.2 1 7
             (dreach_preach _ _ _ demo_session_reached)); vm_compute; reflexivity.
  - apply (protocol_gaps_dangle Close (fun _ _ => eq_refl) demo_waiting.1 demo_waiting.2 1 7
             (dreach_preach _ _ _ demo_waiting_reached)) with (k := cmpStr demo_video)
      (v := demo_video)
      (px := mkProxyInfo {[8%N]} {[7%N]} ∅ ∅ false EmptyString new_sendBuffer);
      try (vm_compute; reflexivity).
    unfold sessions. simpl. set_solver.
Defined.

(** Any events in sequence, without the discipline. *)
Fixpoint run_any (es : list event) (st : RtspService (gmap string N))
  : outcome (RtspService (gmap string N)) :=
  match es with
  | [] => Done st
  | e :: es' => '(st, _) ← exec Close e st; run_any es' st
  end.

(** The state after such a run, for the example below. *)
Definition ran (es : list event) : RtspService (gmap string N) :=
  match run_any es (initial ∅) with Done st => st | Fault _ => initial ∅ end.

#[local] Ltac run_to es :=
  exists (ran es); split;
    [vm_cast_no_check (eq_refl (run_any es (initial ∅)))|].

(** A client between OPTIONS and DESCRIBE does not keep its proxy. When
    the last session of the video ends, [Close] erases the proxy although
    another client has just announced itself; the DESCRIBE of that client
    returns -1 and is not answered. *)
Theorem optioned_client_orphaned :
  ∃ st, run_any [EAccept 1 7 70; EAccept 2 8 80; EOptions 7 demo_uri 3;
                 EDescribe 7 demo_uri; ESdp 3 "v=0"; EPlay 7 demo_uri None;
                 EOptions 8 demo_uri 4; EError 1] (initial ∅) = Done st ∧
    vfind demo_video (mVideoRequest2ProxyInfo st) = None ∧
    OnDescribe 8 demo_uri st = Done (RetInt (-1), st, []).
Proof.
  run_to [EAccept 1 7 70; EAccept 2 8 80; EOptions 7 demo_uri 3;
          EDescribe 7 demo_uri; ESdp 3 "v=0"; EPlay 7 demo_uri None;
          EOptions 8 demo_uri 4; EError 1].
  split; vm_compute; reflexivity.
Qed.
End hazards.
