(* ===== verification/RtspRequests.v ===== *)
(** What a client may put into one read of its connection: the requests that
    [readcb] of core/src/rtsp_service.cpp hands to librtsp, which calls the handlers
    of the table that [Init] fills, one after the other. The sessions of
    RtspSessions.v are events; here the events are found in the bytes of a client,
    several at once, between requests that no handler does anything about. Whether
    librtsp goes on after what a handler returned is its own affair. *)
From stdpp Require Import base gmap list strings pretty.
From S2P Require Import Prelude VideoRequest Producer RtspService RtspSessions.

(** The event a request of client [c] is for the session, if it is one; [a] is the
    address a new proxy gets. *)
Definition request_event (c : N) (r : rtsp_request) (a : N) : option event :=
  match r with
  | RequestOptions uri => Some (EOptions c uri a)
  | RequestDescribe uri => Some (EDescribe c uri)
  | RequestPlay uri npt => Some (EPlay c uri npt)
  | _ => None
  end.

Section requests.
Context {P : Type} `{VideoProducer P, !VideoProducerLaws P}.
Variable rtsp_server_destroy : N → RtspService P → outcome (RtspService P).
Hypothesis destroy_closes : ∀ c st, rtsp_server_destroy c st = Close c st.
Variable format_pointer : N → string.
Variable rtsp_goes_on : handler_ret → bool.
Implicit Types (st : RtspService P) (ph : gmap N cphase).

(** Each request is in order in the state that the ones before it lead to. *)
Fixpoint may_request (c : N) (rs : list (rtsp_request * N)) st ph : Prop :=
  match rs with
  | [] => True
  | (r, a) :: rs' =>
      match request_event c r a with
      | Some e =>
          follows e st ph ∧
          ∀ st' evs, exec rtsp_server_destroy e st = Done (st', evs) →
                     may_request c rs' st' (next_phase e st ph)
      | None => may_request c rs' st ph
      end
  end.

(** The connections of clients are closed, in this order. *)
Definition closes st (cs : list N) : list rtsp_event :=
  omap (fun c => (fun es => CloseSocket (bev es)) <$> servers st !! c) cs.

(** What a DESCRIBE of client [c] makes the service do at once. Without a proxy it
    fails silently. With the SDP at hand it is answered. While another client waits
    for the SDP nothing happens, and nothing will. Otherwise the video is
    registered: the client waits, unless the producer has a registration of the
    video already; then all clients of the proxy are cut off, this one among them. *)
Definition describe_answer (c rtsp : N) (v : VideoRequest) st : list rtsp_event :=
  match vfind v (mVideoRequest2ProxyInfo st) ≫= (fun a => proxies st !! a) with
  | None => []
  | Some px =>
      if bool_decide (sourceSdp px ≠ EmptyString)
      then [ReplyDescribe rtsp 200 (sourceSdp px)]
      else if bool_decide (waitingSdpClients px ≠ ∅) then []
      else match bound (mpRtpProducer st) !! cmpStr v with
           | None => []
           | Some _ =>
               closes st (set_iter (beforeDescribeClients px ∖ {[c]}) ++ [c] ++
                          set_iter (beforePlayClients px) ++
                          set_iter (playingClients px))
           end
  end.

(** The answer a request gets at once: OPTIONS and PLAY succeed, SETUP does for
    interleaved transport and a connection without session, DESCRIBE is as above;
    the other methods are not answered. *)
Definition answers (c rtsp : N) (r : rtsp_request) st (evs : list rtsp_event) : Prop :=
  match r with
  | RequestOptions _ => evs = [ReplyOptions rtsp 200]
  | RequestDescribe uri =>
      ∃ v, parseUrl uri = Done v ∧ evs = describe_answer c rtsp v st
  | RequestSetup _ None (mkTransport RTSP_TRANSPORT_RTP_TCP i1 i2) =>
      evs = [ReplySetup rtsp 200 (Some (format_pointer rtsp))
               (Some ("RTP/AVP/TCP;interleaved=" +:+ pretty i1 +:+ "-" +:+ pretty i2))]
  | RequestSetup _ _ _ => evs = [ReplySetup rtsp 461 None None]
  | RequestPlay _ npt => evs = [ReplyPlay rtsp 200 npt]
  | _ => evs = []
  end.

(** The requests one after the other, each answered in the state that the ones
    before it left; a request that is no event of a session leaves the state. *)
Inductive served (c rtsp : N)
  : list (rtsp_request * N) → RtspService P → gmap N cphase →
    list (list rtsp_event) → RtspService P → gmap N cphase → Prop :=
| served_nil st ph : served c rtsp [] st ph [] st ph
| served_event r a e rs st ph st1 evs evss st' ph' :
    request_event c r a = Some e → answers c rtsp r st evs →
    exec rtsp_server_destroy e st = Done (st1, evs) →
    served c rtsp rs st1 (next_phase e st ph) evss st' ph' →
    served c rtsp ((r, a) :: rs) st ph (evs :: evss) st' ph'
| served_other r a rs st ph evs evss st' ph' :
    request_event c r a = None → answers c rtsp r st evs →
    served c rtsp rs st ph evss st' ph' →
    served c rtsp ((r, a) :: rs) st ph (evs :: evss) st' ph'.

(** An error reaches every client of the proxy. *)
Lemma process_error_closes st ph k v a px :
  wf st ph → mVideoRequest2ProxyInfo st !! k = Some (v, a) →
  proxies st !! a = Some px →
  processErrorFunction a st
  = Done (closes st (set_iter (beforeDescribeClients px) ++
                     set_iter (waitingSdpClients px) ++
                     set_iter (beforePlayClients px) ++ set_iter (playingClients px))).
Proof.
  intros Hwf Hm Hp. unfold processErrorFunction, closes. rewrite Hp. orun.
  rewrite !(for_clients_wf _ _ _ _ _ _ _ _ Hwf Hm Hp) by (clear; set_solver).
  orun. by rewrite !omap_app.
Qed.

Lemma set_iter_singleton (c : N) : set_iter (∅ ∪ {[c]}) = [c].
Proof. unfold set_iter. by rewrite union_empty_l_L, elements_singleton. Qed.

(** The registration of a DESCRIBE, and what the producer's refusal does. *)
Lemma register_answers st ph c v v' a px :
  wf st ph → ph !! c = Some (Optioned (cmpStr v)) →
  mVideoRequest2ProxyInfo st !! cmpStr v = Some (v', a) →
  proxies st !! a = Some px → waitingSdpClients px = ∅ →
  ∃ p' errs, RegisterVideo v a (mpRtpProducer st) = Done (p', errs) ∧
    sync_errors errs (with_proxy a (now_waiting c px) st)
    = Done match bound (mpRtpProducer st) !! cmpStr v with
           | None => []
           | Some _ =>
               closes st (set_iter (beforeDescribeClients px ∖ {[c]}) ++ [c] ++
                          set_iter (beforePlayClients px) ++
                          set_iter (playingClients px))
           end.
Proof.
  intros Hwf Hc Hm Hp Hw.
  destruct (describe_register_wf _ _ _ _ _ _ _ Hwf Hc Hm Hp Hw)
    as (p' & errs & evs & HR & _ & Hwf').
  destruct (RegisterVideo_law v a (mpRtpProducer st)) as (p1 & errs1 & HR1 & _ & Hb);
    [apply Hwf|]. rewrite HR1 in HR. injection HR as -> ->. exists p', errs.
  split; [done|].
  destruct (bound (mpRtpProducer st) !! cmpStr v); destruct Hb as [-> _]; [|done].
  simpl. set (st1 := with_proxy a (now_waiting c px) st) in *.
  assert (Hp1 : proxies st1 !! a = Some (now_waiting c px)) by apply lookup_insert_eq.
  pose proof (process_error_closes (with_producer p' st1) _ _ _ _ _ Hwf' Hm Hp1) as He.
  change (processErrorFunction a (with_producer p' st1))
    with (processErrorFunction a st1) in He. rewrite He. orun.
  rewrite app_nil_r. simpl. rewrite Hw, set_iter_singleton. done.
Qed.

(** A DESCRIBE keeps the connections and is answered as said. *)
Lemma describe_answers st ph c es uri v :
  wf st ph → servers st !! c = Some es → parseUrl uri = Done v →
  ph !! c = Some (Optioned (cmpStr v)) →
  ∃ r st', OnDescribe c uri st = Done (r, st', describe_answer c (server es) v st) ∧
           servers st' = servers st.
Proof.
  intros Hwf Hes Hv Hc. unfold OnDescribe, describe_answer. rewrite Hes, Hv. orun.
  destruct (vfind v (mVideoRequest2ProxyInfo st)) as [a|] eqn:Ef; [|by eexists _, _].
  destruct (vfind_wf _ _ _ _ Hwf Ef) as (v' & px & Hm & Hp). simpl. rewrite Hp. orun.
  destruct (bool_decide_reflect (sourceSdp px = EmptyString)) as [Hs|Hs]; cycle 1.
  { rewrite (bool_decide_eq_true_2 (sourceSdp px ≠ EmptyString)) by done.
    by eexists _, _. }
  rewrite (bool_decide_eq_false_2 (sourceSdp px ≠ EmptyString)) by tauto.
  destruct (bool_decide_reflect (waitingSdpClients px = ∅)) as [Hw|Hw]; cycle 1.
  { rewrite (bool_decide_eq_true_2 (waitingSdpClients px ≠ ∅)) by done.
    by eexists _, _. }
  rewrite (bool_decide_eq_false_2 (waitingSdpClients px ≠ ∅)) by tauto. simpl.
  destruct (register_answers _ _ _ _ _ _ _ Hwf Hc Hm Hp Hw) as (p' & errs & -> & Hs').
  orun. unfold now_waiting in Hs'. rewrite Hs'. orun. by eexists _, _.
Qed.

Lemma options_answers c rtsp uri a st r st' evs :
  OnOptions c rtsp uri a st = Done (r, st', evs) →
  servers st' = servers st ∧ evs = [ReplyOptions rtsp 200].
Proof.
  unfold OnOptions. destruct (servers st !! c); orun; [|done].
  destruct (parseUrl uri); orun; [|done].
  destruct (vfind _ _) as [a'|]; [|by intros [= _ <- <-]].
  destruct (proxies st !! a'); orun; [|done]. by intros [= _ <- <-].
Qed.

Lemma play_answers c rtsp uri npt v st ph :
  wf st ph → located st ph → parseUrl uri = Done v →
  ph !! c = Some (Described (cmpStr v)) →
  ∃ r st', OnPlay c rtsp uri npt st = Done (r, st', [ReplyPlay rtsp 200 npt]) ∧
           servers st' = servers st.
Proof.
  intros Hwf Hl Hv Hc. destruct (wf_alive _ _ Hwf _ _ Hc) as [es Hes].
  destruct (described_found _ _ _ _ Hwf Hl Hc) as (a & px & Hf & _ & Hp & Hin).
  unfold OnPlay. rewrite Hes, Hv. orun. rewrite Hf, Hp. orun.
  rewrite bool_decide_eq_true_2 by done. by eauto.
Qed.

Lemma handle_answers c es a r st ph :
  wf st ph → located st ph → servers st !! c = Some es →
  match request_event c r a with Some e => follows e st ph | None => True end →
  ∃ ret st' evs,
    handle_request format_pointer c (server es) a r st = Done (ret, st', evs) ∧
    servers st' = servers st ∧ answers c (server es) r st evs ∧
    match request_event c r a with
    | Some e => exec rtsp_server_destroy e st = Done (st', evs)
    | None => st' = st
    end.
Proof.
  intros Hwf Hl Hes Ha.
  destruct r as [uri|uri|uri session [t i1 i2]|uri npt|uri|uri|uri|uri|uri|uri];
    cbn [request_event handle_request] in *; try (by eexists _, _, _).
  - destruct (exec_wf _ destroy_closes _ _ _ Hwf Ha) as (st' & evs & He & _); [done|].
    simpl in *. rewrite Hes in *. simpl in He |- *.
    destruct (OnOptions _ _ _ _ _) as [[[ret st1] evs1]|] eqn:Ho; simpl in He; [|done].
    injection He as -> ->. destruct (options_answers _ _ _ _ _ _ _ _ Ho). by eauto 10.
  - destruct Ha as (v & Hv & Hc).
    destruct (describe_answers _ _ _ _ _ _ Hwf Hes Hv Hc) as (ret & st' & Ho & Hs).
    eexists ret, st', _. simpl. rewrite Ho. by eauto 10.
  - unfold OnSetup. simpl. destruct t, session; by eexists _, st, _.
  - destruct Ha as (v & Hv & Hc).
    destruct (play_answers c (server es) uri npt v _ _ Hwf Hl Hv Hc) as (ret & st' & Ho & Hs).
    exists ret, st', [ReplyPlay (server es) 200 npt]. simpl. rewrite Hes. orun.
    by rewrite Ho.
Qed.

(** A request leaves the stages of the other clients alone. *)
Lemma request_stage c c' r a e st ph :
  request_event c r a = Some e → c' ≠ c → next_phase e st ph !! c' = ph !! c'.
Proof.
  intros He Hne. destruct r as [uri|uri| |uri npt| | | | | |]; try done;
    injection He as <-; simpl; destruct (parseUrl uri) as [v|]; try done;
    [by rewrite lookup_insert_ne..|].
  destruct (_ ≫= _) as [px|]; [|done]. case_bool_decide; [|done].
  by rewrite lookup_insert_ne.
Qed.

(** Requests are no disconnects. *)
Lemma request_patient c r a e st ph :
  request_event c r a = Some e → patient e st ph.
Proof. by destruct r; intros [= <-]. Qed.

Lemma served_stages c rtsp rs st ph evss st' ph' :
  served c rtsp rs st ph evss st' ph' → ∀ c', c' ≠ c → ph' !! c' = ph !! c'.
Proof.
  induction 1 as [|r a e rs st ph st1 evs evss st' ph' He _ _ _ IH|]; auto.
  intros c' Hne. rewrite IH by done. by eapply request_stage.
Qed.

Lemma served_dreach c rtsp rs st ph evss st' ph' :
  served c rtsp rs st ph evss st' ph' → may_request c rs st ph →
  (preach rtsp_server_destroy st ph → preach rtsp_server_destroy st' ph') ∧
  (dreach rtsp_server_destroy st ph → dreach rtsp_server_destroy st' ph').
Proof.
  induction 1 as [|r a e rs st ph st1 evs evss st' ph' He _ Hx _ IH
                 |r a rs st ph evs evss st' ph' He _ _ IH]; intros Hm; [done|..];
    simpl in Hm; rewrite He in Hm; [|by apply IH].
  destruct Hm as [Ha Hm]. destruct (IH (Hm _ _ Hx)) as [IH1 IH2].
  split; intros Hr; [apply IH1|apply IH2]; eapply runs_step; eauto.
  split; [done|by eapply request_patient].
Qed.

(** A prefix of the requests is served, and all of them unless librtsp stopped. *)
Lemma requests_served c es rs st ph :
  preach rtsp_server_destroy st ph → servers st !! c = Some es →
  may_request c rs st ph →
  ∃ done rest st' ph' evss,
    rs = done ++ rest ∧ ((∀ ret, rtsp_goes_on ret = true) → rest = []) ∧
    (rs ≠ [] → done ≠ []) ∧
    handle_requests format_pointer rtsp_goes_on c (server es) rs st
    = Done (st', concat evss) ∧
    served c (server es) done st ph evss st' ph' ∧ may_request c done st ph ∧
    servers st' = servers st.
Proof.
  revert st ph. induction rs as [|[r a] rs IH]; intros st ph Hr Hes Hm.
  { exists [], [], st, ph, []. split_and!; try done. constructor. }
  cbn [may_request] in Hm.
  destruct (preach_good _ destroy_closes _ _ Hr) as [Hwf Hl].
  destruct (handle_answers c es a r st ph Hwf Hl Hes)
    as (ret & st1 & evs & Hh & Hs & Ha & He);
    [by destruct (request_event c r a) as [e|]; [destruct Hm|]|].
  cbn [handle_requests]. rewrite Hh. orun.
  assert (∃ ph1, preach rtsp_server_destroy st1 ph1 ∧ may_request c rs st1 ph1 ∧
    (∀ rs1 evss st' ph', served c (server es) rs1 st1 ph1 evss st' ph' →
       may_request c rs1 st1 ph1 →
       served c (server es) ((r, a) :: rs1) st ph (evs :: evss) st' ph' ∧
       may_request c ((r, a) :: rs1) st ph)) as (ph1 & Hr1 & Hm1 & Hsv).
  { destruct (request_event c r a) as [e|] eqn:Hev.
    - destruct Hm as [Hal Hm]. exists (next_phase e st ph).
      split; [by eapply runs_step|]. split; [by eapply Hm|].
      intros rs1 evss st' ph' Hv1 Hm1. split; [by eapply served_event|].
      cbn [may_request]. rewrite Hev. split; [done|].
      intros st2 evs2 He2. rewrite He in He2. by injection He2 as <- <-.
    - subst st1. exists ph. split_and!; [done..|].
      intros rs1 evss st' ph' Hv1 Hm1. split; [by eapply served_other|].
      cbn [may_request]. by rewrite Hev. }
  destruct (rtsp_goes_on ret) eqn:Eg.
  - destruct (IH st1 ph1 Hr1) as (dn & rest & st' & ph' & evss & -> & Hall & _ & Hrun
      & Hserved & Hmd & Hs'); [by rewrite Hs|done|].
    destruct (Hsv _ _ _ _ Hserved Hmd) as [Hsv1 Hmr].
    exists ((r, a) :: dn), rest, st', ph', (evs :: evss). rewrite Hrun.
    split_and!; [done|done|done|done|done|done|congruence].
  - destruct (Hsv [] [] st1 ph1) as [Hsv1 Hmr]; [constructor|done|].
    exists [(r, a)], rs, st1, ph1, [evs]. simpl. rewrite app_nil_r.
    split_and!; try done. intros Hgo. by rewrite Hgo in Eg.
Qed.

End requests.

(** * A video that is registered without a proxy *)

Section locked_out.
Context {P : Type} `{VideoProducer P, !VideoProducerLaws P}.
Variable rtsp_server_destroy : N → RtspService P → outcome (RtspService P).
Hypothesis destroy_closes : ∀ c st, rtsp_server_destroy c st = Close c st.
Implicit Types (st : RtspService P) (ph : gmap N cphase).

(** The producer holds a registration of the video, but the service has none. *)
Definition locked (v : VideoRequest) st : Prop :=
  mVideoRequest2ProxyInfo st !! cmpStr v = None ∧
  is_Some (bound (mpRtpProducer st) !! cmpStr v).

(** The proxy of a video that one client has announced. *)
Definition first_proxy (c : N) : ProxyInfo :=
  mkProxyInfo {[c]} ∅ ∅ ∅ false EmptyString new_sendBuffer.

(** A connection is accepted and announces itself for a video without a proxy. *)
Lemma announce_new st ph v uri b c rtsp a :
  preach rtsp_server_destroy st ph → parseUrl uri = Done v →
  mVideoRequest2ProxyInfo st !! cmpStr v = None →
  mBev2RtspServer st !! b = None → servers st !! c = None → proxies st !! a = None →
  ∃ st1 st2 ph2,
    exec rtsp_server_destroy (EAccept b c rtsp) st = Done (st1, []) ∧
    exec rtsp_server_destroy (EOptions c uri a) st1
      = Done (st2, [ReplyOptions rtsp 200]) ∧
    preach rtsp_server_destroy st2 ph2 ∧ ph2 !! c = Some (Optioned (cmpStr v)) ∧
    mBev2RtspServer st2 !! b = Some c ∧
    servers st2 !! c = Some (mkEventRtspServer rtsp b) ∧
    mVideoRequest2ProxyInfo st2 !! cmpStr v = Some (v, a) ∧
    proxies st2 !! a = Some (first_proxy c) ∧ mpRtpProducer st2 = mpRtpProducer st.
Proof.
  intros Hr Hv Hm Hbn Hcn Han.
  set (st1 := mkRtspService (<[b := c]> (mBev2RtspServer st))
                (<[c := mkEventRtspServer rtsp b]> (servers st))
                (mVideoRequest2ProxyInfo st) (proxies st) (mpRtpProducer st)).
  assert (He1 : exec rtsp_server_destroy (EAccept b c rtsp) st = Done (st1, [])).
  { simpl. unfold accept_conn_cb. by rewrite Hbn. }
  set (st2 := mkRtspService (mBev2RtspServer st1) (servers st1)
                (vset v a (mVideoRequest2ProxyInfo st))
                (<[a := first_proxy c]> (proxies st)) (mpRtpProducer st)).
  assert (He2 : exec rtsp_server_destroy (EOptions c uri a) st1
                = Done (st2, [ReplyOptions rtsp 200])).
  { simpl. rewrite lookup_insert_eq. orun. unfold OnOptions. simpl.
    rewrite lookup_insert_eq, Hv. orun. unfold vfind. by rewrite Hm. }
  exists st1, st2, (next_phase (EOptions c uri a) st1 (<[c := Fresh]> ph)).
  split_and!; try done.
  - refine (runs_step _ _ _ _ _ _ _ _ _ He2).
    + by apply (runs_step _ _ _ _ (EAccept b c rtsp) _ [] Hr).
    + split; [apply lookup_insert_eq|done].
  - simpl. rewrite Hv. apply lookup_insert_eq.
  - apply lookup_insert_eq.
  - apply lookup_insert_eq.
  - simpl. unfold vset. rewrite Hm. apply lookup_insert_eq.
  - apply lookup_insert_eq.
Qed.

(** Its DESCRIBE is refused when the producer holds the video. *)
Lemma describe_refused st ph c es uri v a :
  wf st ph → servers st !! c = Some es → parseUrl uri = Done v →
  ph !! c = Some (Optioned (cmpStr v)) →
  mVideoRequest2ProxyInfo st !! cmpStr v = Some (v, a) →
  proxies st !! a = Some (first_proxy c) →
  is_Some (bound (mpRtpProducer st) !! cmpStr v) →
  ∃ p', exec rtsp_server_destroy (EDescribe c uri) st
        = Done (with_producer p' (with_proxy a (now_waiting c (first_proxy c)) st),
                [CloseSocket (bev es)]) ∧
    bound p' = bound (mpRtpProducer st).
Proof.
  intros Hwf Hs Hv Hc Hm Hp [a0 Hb].
  destruct (register_answers st ph c v v a _ Hwf Hc Hm Hp eq_refl)
    as (p' & errs & HR & Hsy).
  destruct (RegisterVideo_law v a (mpRtpProducer st)) as (p1 & errs1 & HR1 & _ & Hb1);
    [apply Hwf|]. rewrite HR1 in HR. injection HR as -> ->. rewrite Hb in Hb1, Hsy.
  exists p'. split; [|apply Hb1]. cbn [exec]. unfold OnDescribe. rewrite Hs, Hv. orun.
  unfold vfind. rewrite Hm. simpl. rewrite Hp. orun. simpl.
  rewrite bool_decide_eq_true_2 by done. rewrite HR1. orun.
  unfold now_waiting, first_proxy in Hsy |- *. cbn [waitingSdpClients
    beforeDescribeClients beforePlayClients playingClients registered sourceSdp
    sendBuffer] in Hsy. rewrite Hsy. orun. unfold closes.
  assert (He : set_iter ({[c]} ∖ {[c]}) = []).
  { unfold set_iter. by rewrite difference_diag_L, elements_empty. }
  rewrite He. unfold set_iter. rewrite elements_empty. simpl. by rewrite Hs.
Qed.

(** The next client that asks for it is cut off, and nothing has changed when it
    is gone. *)
Lemma locked_refuses st ph v uri b c rtsp a :
  preach rtsp_server_destroy st ph → locked v st → parseUrl uri = Done v →
  mBev2RtspServer st !! b = None → servers st !! c = None → proxies st !! a = None →
  ∃ st1 st2 st3 st4 ph4,
    exec rtsp_server_destroy (EAccept b c rtsp) st = Done (st1, []) ∧
    exec rtsp_server_destroy (EOptions c uri a) st1
      = Done (st2, [ReplyOptions rtsp 200]) ∧
    exec rtsp_server_destroy (EDescribe c uri) st2 = Done (st3, [CloseSocket b]) ∧
    exec rtsp_server_destroy (EError b) st3 = Done (st4, []) ∧
    preach rtsp_server_destroy st4 ph4 ∧ locked v st4 ∧
    bound (mpRtpProducer st4) = bound (mpRtpProducer st).
Proof.
  intros Hr [Hm Hb] Hv Hbn Hcn Han.
  destruct (announce_new st ph v uri b c rtsp a)
    as (st1 & st2 & ph2 & He1 & He2 & Hr2 & Hc2 & Hbev & Hs2 & Hm2 & Hp2 & Hpr); [done..|].
  pose proof (preach_wf _ destroy_closes _ _ Hr2) as Hwf2.
  destruct (describe_refused st2 ph2 c _ uri v a Hwf2 Hs2 Hv Hc2 Hm2 Hp2)
    as (p' & He3 & Hb3); [by rewrite Hpr|]. rewrite Hpr in Hb3.
  set (st3 := with_producer p' _) in He3.
  assert (Hr3 : preach rtsp_server_destroy st3 (next_phase (EDescribe c uri) st2 ph2)).
  { refine (runs_step _ _ _ _ _ _ _ Hr2 _ He3). by exists v. }
  pose proof (preach_wf _ destroy_closes _ _ Hr3) as Hwf3.
  destruct (errorcb_wf _ destroy_closes st3 _ b c Hwf3 Hbev)
    as (st4 & He4 & _ & _ & _ & _ & Hrel & _).
  destruct (Hrel (cmpStr v) v a (now_waiting c (first_proxy c)))
    as (Hm4 & _ & Hp4); [done|apply lookup_insert_eq| | |].
  { unfold members. simpl. set_solver. }
  { unfold sessions. simpl. set_solver. }
  simpl in Hp4. exists st1, st2, st3, st4. eexists.
  split; [done|]. split; [done|]. split; [done|].
  split; [simpl; by rewrite He4|]. split.
  { refine (runs_step _ _ _ _ (EError b) _ [] Hr3 _ _); [|by simpl; rewrite He4].
    exists c. split; [done|]. simpl. rewrite Hv. by rewrite lookup_insert_eq. }
  unfold locked. rewrite Hp4, Hb3. done.
Qed.
End locked_out.

Section example.
Import Registry.

(** A client with an answered DESCRIBE sends SETUP, PLAY and TEARDOWN at once. *)
Definition demo_requests : list (rtsp_request * N) :=
  [(RequestSetup demo_uri None (mkTransport RTSP_TRANSPORT_RTP_TCP 0 1), 5%N);
   (RequestPlay demo_uri None, 6%N); (RequestTeardown demo_uri, 9%N)].

End example.
