(* ===== verification/RtspCallbacks.v ===== *)
(** When the producer may call back: core/src/rtsp_service.cpp registers a proxy
    in [OnDescribe] when it has no SDP and nobody waits for one. As long as the
    producer never reports an empty SDP and no client left while the producer had
    yet to report its SDP, such a proxy has no registration yet, so that no callback
    can reach it before it is registered and the registration is not refused. *)
From stdpp Require Import base gmap strings list.
From S2P Require Import Prelude VideoRequest Producer RtspService RtspSessions.

Section callbacks.
Context {P : Type} `{VideoProducer P, !VideoProducerLaws P}.
Variable rtsp_server_destroy : N → RtspService P → outcome (RtspService P).
Hypothesis destroy_closes :
  ∀ c st, rtsp_server_destroy c st = Close c st.
Implicit Types (st : RtspService P) (ph : gmap N cphase) (px : ProxyInfo).

(** The producer's SDP is not the empty string. *)
Definition named_sdp (e : event) : Prop :=
  match e with ESdp _ sdp => sdp ≠ EmptyString | _ => True end.

(** The states of [dreach] without empty SDPs. *)
Definition nreach : RtspService P → gmap N cphase → Prop :=
  runs_to rtsp_server_destroy (fun e st ph => allowed e st ph ∧ named_sdp e).

Lemma nreach_dreach st ph : nreach st ph → dreach rtsp_server_destroy st ph.
Proof. apply runs_mono. by intros e st' ph' [? _]. Qed.

(** * A registered proxy has its SDP *)

Definition sdp_known (px : ProxyInfo) : Prop :=
  registered px = true → sourceSdp px ≠ EmptyString.

Definition sdps_known st : Prop := map_Forall (fun _ => sdp_known) (proxies st).

(** Only the clients of a proxy change. *)
Definition same_sdp (px px' : ProxyInfo) : Prop :=
  registered px' = registered px ∧ sourceSdp px' = sourceSdp px.

Lemma known_with_proxy st a px px' :
  sdps_known st → proxies st !! a = Some px → same_sdp px px' →
  sdps_known (with_proxy a px' st).
Proof.
  intros Hk Hp [Hr Hs]. apply map_Forall_insert_2; [|done].
  unfold sdp_known. rewrite Hr, Hs. by apply (Hk a).
Qed.

Lemma remove_client_same c px px' : remove_client c px = Some px' → same_sdp px px'.
Proof.
  unfold remove_client. intros Hr. by repeat case_bool_decide; simplify_eq.
Qed.

Lemma close_loop_known c l st st' :
  sdps_known st → close_loop c l st = Done st' → sdps_known st'.
Proof.
  revert st. induction l as [|[v a] l IH]; intros st Hk; simpl; [by intros [= <-]|].
  destruct (proxies st !! a) as [px|] eqn:Hp; orun; [|done].
  destruct (remove_client c px) as [px'|] eqn:Hr; [|by apply IH].
  pose proof (known_with_proxy _ _ _ _ Hk Hp (remove_client_same _ _ _ Hr)) as Hk'.
  destruct (needUnregistered px'); [|by intros [= <-]]. intros Hd. outcome_inv.
  assert (Hd : sdps_known (erase_proxy v a (with_proxy a px' st)))
    by (by apply map_Forall_delete).
  destruct (registered px'); outcome_inv; exact Hd.
Qed.

Lemma options_known c rtsp uri a st r st' evs :
  sdps_known st → OnOptions c rtsp uri a st = Done (r, st', evs) → sdps_known st'.
Proof.
  intros Hk Ho. unfold OnOptions in Ho. outcome_inv.
  destruct (vfind _ _) as [a'|]; outcome_inv.
  - destruct (proxies st !! a') as [px|] eqn:Hp; [|done]. simplify_eq/=.
    by eapply known_with_proxy.
  - by apply map_Forall_insert_2.
Qed.

Lemma describe_known c uri st r st' evs :
  sdps_known st → OnDescribe c uri st = Done (r, st', evs) → sdps_known st'.
Proof.
  intros Hk Ho. unfold OnDescribe in Ho. outcome_inv.
  destruct (vfind _ _) as [a'|]; outcome_inv; [|done].
  destruct (proxies st !! a') as [px|] eqn:Hp; [|done]. simplify_eq/=.
  repeat case_bool_decide; simpl in *; outcome_inv; try destruct a2; outcome_inv;
    by eapply known_with_proxy.
Qed.

Lemma play_known c rtsp uri npt st r st' evs :
  sdps_known st → OnPlay c rtsp uri npt st = Done (r, st', evs) → sdps_known st'.
Proof.
  intros Hk Ho. unfold OnPlay in Ho. outcome_inv.
  destruct (vfind _ _) as [a'|]; outcome_inv; [|done].
  destruct (proxies st !! a') as [px|] eqn:Hp; [|done]. simplify_eq/=.
  case_bool_decide; outcome_inv; [|done]. by eapply known_with_proxy.
Qed.

Lemma exec_known e st st' evs :
  named_sdp e → sdps_known st → exec rtsp_server_destroy e st = Done (st', evs) →
  sdps_known st'.
Proof.
  intros Hn Hk He. destruct e as [b c rtsp|c uri a|c uri|c uri npt|b|a sdp|a data|a];
    simpl in He.
  - unfold accept_conn_cb in He. simpl in He.
    by destruct (mBev2RtspServer st !! b); outcome_inv.
  - outcome_inv. repeat case_match; simplify_eq. by eapply options_known.
  - outcome_inv. repeat case_match; simplify_eq. by eapply describe_known.
  - outcome_inv. repeat case_match; simplify_eq. by eapply play_known.
  - outcome_inv. unfold errorcb in E.
    destruct (mBev2RtspServer st !! b) as [c|]; outcome_inv; [|done].
    rewrite destroy_closes in E0. apply close_loop_known in E0; [|done]. exact E0.
  - unfold processSdpFunction in He. outcome_inv.
    apply map_Forall_insert_2; [|done]. by intros _.
  - unfold consumePktFunction in He. outcome_inv.
    destruct (proxies st !! a) as [px|] eqn:Hp; [|done]. simplify_eq/=.
    by eapply known_with_proxy.
  - by outcome_inv.
Qed.

Lemma nreach_known st ph : nreach st ph → sdps_known st.
Proof.
  induction 1 as [p ? ?|st ph e st' evs _ IH [_ Hn] He|st ph p' _ IH _ _];
    [|..|exact IH].
  - apply map_Forall_empty.
  - by eapply exec_known.
Qed.

(** C20: a proxy is registered before it is called back. In every state that clients
    reach which keep to the protocol and do not leave while the producer holds the
    registration of a video whose SDP they wait for, with a producer that reports no
    empty SDP, a proxy that the next DESCRIBE would register is bound to no
    registration, so no SDP, packet or error can arrive for it; and the registration
    is accepted: the producer does not answer it with an error. *)
Theorem registration_precedes_callbacks st ph (uri : string) (v : VideoRequest) (a : N)
    (px : ProxyInfo)
    (Hr : nreach st ph) (Hv : parseUrl uri = Done v)
    (Hm : vfind v (mVideoRequest2ProxyInfo st) = Some a)
    (Hp : proxies st !! a = Some px)
    (Hs : sourceSdp px = EmptyString) (Hw : waitingSdpClients px = ∅) :
  ¬ calls_back st a ∧
  ∃ p', RegisterVideo v a (mpRtpProducer st) = Done (p', []) ∧
    bound p' = if supported v then <[cmpStr v := a]> (bound (mpRtpProducer st))
               else bound (mpRtpProducer st).
Proof.
  pose proof (dreach_wf _ destroy_closes _ _ (nreach_dreach _ _ Hr)) as Hwf.
  pose proof (dreach_anchored _ destroy_closes _ _ (nreach_dreach _ _ Hr)) as Han.
  pose proof (nreach_known _ _ Hr a px Hp) as Hk.
  assert (Hn : ∀ k, bound (mpRtpProducer st) !! k = Some a → False).
  { intros k Hb. destruct (Han _ _ Hb) as (v' & px' & _ & Hp' & Hor).
    rewrite Hp in Hp'. simplify_eq. destruct Hor as [Hreg|]; [|done]. by apply Hk. }
  split; [intros [k Hb]; by eapply Hn|].
  destruct (RegisterVideo_law v a (mpRtpProducer st)) as (p' & errs & HR & _ & Hb);
    [apply Hwf|].
  destruct (bound (mpRtpProducer st) !! cmpStr v) as [a'|] eqn:E.
  - exfalso. destruct (Han _ _ E) as (v' & px' & Hm' & _).
    unfold vfind in Hm. rewrite Hm' in Hm. simplify_eq/=. by eapply Hn.
  - destruct Hb as [-> Hb]. by eauto.
Qed.

Lemma drun_nreach es st ph st' ph' :
  nreach st ph → Forall named_sdp es →
  drun rtsp_server_destroy es st ph = Some (st', ph') → nreach st' ph'.
Proof.
  revert st ph. induction es as [|e es IH]; simpl; intros st ph Hd Hn;
    [by intros [= <- <-]|]. apply Forall_cons in Hn as [Hn Hns].
  destruct (allowedb e st ph) eqn:Ea; [|done].
  destruct (exec rtsp_server_destroy e st) as [[st1 evs]|] eqn:E; [|done].
  apply IH; [|done]. eapply runs_step; eauto using allowedb_sound.
Qed.
End callbacks.

(** * An example: a client has announced itself with OPTIONS *)

Section demo.
Import Registry.

Definition demo_announced : RtspService (gmap string N) * gmap N cphase :=
  default (initial ∅, ∅)
    (drun Close [EAccept 1 7 70; EOptions 7 demo_uri 3] (initial ∅) ∅).

Lemma registration_precedes_callbacks_witness :
  ¬ calls_back demo_announced.1 3 ∧
  ∃ p', RegisterVideo demo_video 3 (mpRtpProducer demo_announced.1) = Done (p', []) ∧
    bound p' = if supported demo_video
               then <[cmpStr demo_video := 3%N]> (bound (mpRtpProducer demo_announced.1))
               else bound (mpRtpProducer demo_announced.1).
Proof.
  refine (registration_precedes_callbacks Close (fun _ _ => eq_refl) _ demo_announced.2
            demo_uri demo_video 3
            (mkProxyInfo {[7%N]} ∅ ∅ ∅ false EmptyString new_sendBuffer) _ _ _ _ _ _);
    try (vm_compute; reflexivity).
  apply (drun_nreach Close [EAccept 1 7 70; EOptions 7 demo_uri 3] (initial ∅) ∅).
  - by constructor.
  - by repeat constructor.
  - vm_compute. reflexivity.
Defined.
End demo.
