(* ===== verification/FileProducer.v ===== *)
(** The file half of core/src/rtp_producer.cpp: probing a video file
    ([RegisterFileVideo]), and the timer callback that reads a frame, repairs
    its timestamps and remuxes it to RTP ([FFGetFrame]).

    FFmpeg is the environment. The functions the code calls are arguments of the
    model: they act on an abstract demuxer and muxer state [S]. What the code
    relies on is stated where a theorem needs it. *)

From stdpp Require Import base gmap strings list sorting numbers.
From S2P Require Import Prelude VideoRequest.

#[local] Open Scope Z_scope.

(** * Data *)

(** A C pointer; [Wild] is an indeterminate value that is not null. *)
Inductive ptr (A : Type) : Type := Null | Wild | Ptr (a : A).
Arguments Null {A}.
Arguments Wild {A}.
Arguments Ptr {A} a.

Definition deref {A} (p : ptr A) : outcome A :=
  match p with
  | Null => Fault NullDeref
  | Wild => Fault UninitRead
  | Ptr a => Done a
  end.

Record AVStream : Type := mkAVStream {
  time_base : Z * Z;
  avg_frame_rate : Z * Z;
  stream_duration : Z;
}.

Record AVFormatContext : Type := mkAVFormatContext { streams : list AVStream }.

Record AVPacket : Type := mkAVPacket {
  stream_index : Z;
  pkt_pts : Z;
  pkt_dts : Z;
  pkt_duration : Z;
  pkt_pos : Z;
  pkt_data : list Z;
}.

(** [AV_NOPTS_VALUE] and [AVERROR_EOF] of libavutil. *)
Definition AV_NOPTS_VALUE : Z := - 2 ^ 63.
Definition AVERROR_EOF : Z := -541478725.

(** The callbacks of a context are bound to one proxy of the RTSP service. *)
Record FileVideoContext : Type := mkFileVideoContext {
  videoRequest : VideoRequest;
  proxy : N;
  fps : Z * Z;
  videoStreamId : Z;
  iFmtCtx : ptr AVFormatContext;
  oFmtCtx : ptr AVFormatContext;
  pts : Z;
  prePts : Z;
  error : Z;
  mpFileEvent : option (nat * Z);
}.

(** What an uninitialised object holds: the constructor sets neither [fps] nor
    [videoStreamId] nor the two format contexts. *)
Record indeterminate : Type := mkIndeterminate {
  ind_fps : Z * Z;
  ind_streamId : Z;
  ind_iFmtCtx : ptr AVFormatContext;
  ind_oFmtCtx : ptr AVFormatContext;
}.

Definition newFileVideoContext (mem : indeterminate) (video : VideoRequest) (a : N)
  : FileVideoContext :=
  mkFileVideoContext video a (ind_fps mem) (ind_streamId mem) (ind_iFmtCtx mem)
    (ind_oFmtCtx mem) 0 0 0 None.

(** What the context does to the outside: a packet given to the muxer, an RTP
    packet given to the proxy, an error or an SDP reported to it. *)
Inductive file_event : Type :=
| Muxed (pkt : AVPacket)
| Consumed (a : N) (data : list Z)
| ReportedError (a : N)
| ReportedSdp (a : N) (sdp : string).

(** * [FFGetFrame] *)

Definition with_stamps (p q : Z) (c : FileVideoContext) : FileVideoContext :=
  mkFileVideoContext (videoRequest c) (proxy c) (fps c) (videoStreamId c)
    (iFmtCtx c) (oFmtCtx c) p q (error c) (mpFileEvent c).

Definition with_error (e : Z) (c : FileVideoContext) : FileVideoContext :=
  mkFileVideoContext (videoRequest c) (proxy c) (fps c) (videoStreamId c)
    (iFmtCtx c) (oFmtCtx c) (pts c) (prePts c) e (mpFileEvent c).

(** The duration of a frame from the frame rate, in [int] arithmetic. *)
Definition default_duration (tb fps : Z * Z) : outcome Z :=
  n ← ck32 (tb.2 * fps.2);
  d ← ck32 (fps.1 * tb.1);
  cdiv n d.

Definition frame_duration (tb fps : Z * Z) (pkt : AVPacket) : outcome Z :=
  if pkt_duration pkt =? 0 then default_duration tb fps
  else Done (pkt_duration pkt).

(** The timestamps a packet of duration [dur] is muxed with, and the context's
    [pts] after it. *)
Definition stamp (c : FileVideoContext) (dur : Z) (pkt : AVPacket)
  : outcome (Z * AVPacket) :=
  let restamp p d :=
    mkAVPacket (stream_index pkt) p d dur (pkt_pos pkt) (pkt_data pkt) in
  if (pkt_pts pkt =? AV_NOPTS_VALUE) || (pkt_pts pkt <=? prePts c) then
    if pkt_dts pkt =? AV_NOPTS_VALUE then
      p ← ck64 (pts c + dur);
      Done (p, restamp p p)
    else if pkt_dts pkt <=? prePts c then
      p ← ck64 (prePts c + dur);
      Done (p, restamp p p)
    else Done (pts c, restamp (pkt_dts pkt) (pkt_dts pkt))
  else Done (pts c, restamp (pkt_pts pkt) (pkt_dts pkt)).

Section FFGetFrame.
Context {S : Type}.
Variable av_read_frame : S → Z * AVPacket * S.
Variable avio_seek : S → Z * S.
Variable avformat_seek_file : nat → Z → S → Z * S.
Variable set_cur_dts : Z → S → S.
Variable av_packet_rescale_ts : AVPacket → Z * Z → Z * Z → AVPacket.
(** The muxer writes RTP packets through the context's write callback. *)
Variable av_interleaved_write_frame : AVPacket → S → Z * list (list Z) * S.

(** The for loop over the streams: the last return value, whether every seek
    succeeded. *)
Fixpoint seek_loop (i : nat) (sts : list AVStream) (ret : Z) (s : S)
  : Z * bool * S :=
  match sts with
  | [] => (ret, true, s)
  | st :: sts' =>
      let '(ret, s) := avio_seek s in
      if ret <? 0 then (ret, false, s)
      else
        let '(ret, s) := avformat_seek_file i (stream_duration st) s in
        if ret <? 0 then (ret, false, s) else seek_loop (Datatypes.S i) sts' ret s
  end.

(** A video packet: rescale, repair the timestamps and mux. *)
Definition remux (i : AVFormatContext) (c : FileVideoContext) (pkt : AVPacket) (s : S)
  : outcome (Z * FileVideoContext * S * list file_event) :=
  in_st ← of_option OutOfBounds (streams i !! Z.to_nat (videoStreamId c));
  o ← deref (oFmtCtx c);
  out_st ← of_option OutOfBounds (streams o !! 0%nat);
  let pkt := av_packet_rescale_ts
               (mkAVPacket 0 (pkt_pts pkt) (pkt_dts pkt) (pkt_duration pkt) (-1)
                  (pkt_data pkt))
               (time_base in_st) (time_base out_st) in
  dur ← frame_duration (time_base in_st) (fps c) pkt;
  '(p, pkt) ← stamp c dur pkt;
  let '(ret, rtps, s) := av_interleaved_write_frame pkt s in
  Done (ret, with_stamps p (pkt_pts pkt) c, s,
        Muxed pkt :: map (Consumed (proxy c)) rtps).

(** The do-while loop; [None] is out of fuel. Every iteration that goes on has
    [getVideoPkt] false. *)
Fixpoint frame_loop (fuel : nat) (i : AVFormatContext) (c : FileVideoContext) (s : S)
  : option (outcome (Z * FileVideoContext * S * list file_event)) :=
  match fuel with
  | O => None
  | Datatypes.S fuel' =>
      let '(ret, pkt, s) := av_read_frame s in
      if ret <? 0 then
        if ret =? AVERROR_EOF then
          if repeatedly (videoRequest c) then
            let '(ret, seekSucc, s) := seek_loop 0 (streams i) ret s in
            if seekSucc then
              match o ← deref (oFmtCtx c); of_option OutOfBounds (streams o !! 0%nat) with
              | Done _ => frame_loop fuel' i c (set_cur_dts 0 s)
              | Fault f => Some (Fault f)
              end
            else Some (Done (ret, c, s, []))
          else Some (Done (ret, with_error AVERROR_EOF c, s, []))
        else Some (Done (ret, c, s, []))
      else if stream_index pkt =? videoStreamId c then Some (remux i c pkt s)
      else frame_loop fuel' i c s
  end.

(** The end of [FFGetFrame]: an error is stored and reported. *)
Definition frame_end (ret : Z) (c : FileVideoContext) (s : S) (evs : list file_event)
  : FileVideoContext * S * list file_event :=
  if ret =? 0 then (c, s, evs)
  else (with_error ret c, s, evs ++ [ReportedError (proxy c)]).

Definition FFGetFrame (fuel : nat) (c : FileVideoContext) (s : S)
  : option (outcome (FileVideoContext * S * list file_event)) :=
  if negb (error c =? 0) then Some (Done (c, s, []))
  else
    match deref (iFmtCtx c) with
    | Fault f => Some (Fault f)
    | Done i =>
        match frame_loop fuel i c s with
        | None => None
        | Some (Fault f) => Some (Fault f)
        | Some (Done (ret, c, s, evs)) =>
            Some (Done (frame_end ret c s evs))
        end
    end.

(** The timer fires [n] times. *)
Fixpoint run_frames (fuel n : nat) (c : FileVideoContext) (s : S)
  : option (outcome (FileVideoContext * S * list file_event)) :=
  match n with
  | O => Some (Done (c, s, []))
  | Datatypes.S n' =>
      match FFGetFrame fuel c s with
      | Some (Done (c, s, evs)) =>
          match run_frames fuel n' c s with
          | Some (Done (c, s, evs')) => Some (Done (c, s, evs ++ evs'))
          | r => r
          end
      | r => r
      end
  end.
End FFGetFrame.

(** * Lemmas *)

(** The timestamps the muxer was given. *)
Definition muxed_pts (evs : list file_event) : list Z :=
  omap (fun e => match e with Muxed pkt => Some (pkt_pts pkt) | _ => None end) evs.

Definition is_error (e : file_event) : bool :=
  match e with ReportedError _ => true | _ => false end.

(** What [FFGetFrame] never changes. *)
Definition same_video (c c' : FileVideoContext) : Prop :=
  videoRequest c' = videoRequest c ∧ proxy c' = proxy c ∧ fps c' = fps c ∧
  videoStreamId c' = videoStreamId c ∧ iFmtCtx c' = iFmtCtx c ∧
  oFmtCtx c' = oFmtCtx c ∧ mpFileEvent c' = mpFileEvent c.

#[export] Instance same_video_preorder : PreOrder same_video.
Proof.
  split; [by intros c; unfold same_video|].
  unfold same_video. intros c1 c2 c3. naive_solver congruence.
Qed.

Lemma muxed_pts_app evs evs' : muxed_pts (evs ++ evs') = muxed_pts evs ++ muxed_pts evs'.
Proof. apply omap_app. Qed.

Lemma muxed_pts_muxed pkt evs : muxed_pts (Muxed pkt :: evs) = pkt_pts pkt :: muxed_pts evs.
Proof. done. Qed.

Lemma muxed_pts_consumed a rtps : muxed_pts (map (Consumed a) rtps) = [].
Proof. induction rtps; simpl; auto. Qed.

Lemma consumed_no_error a rtps :
  Forall (fun e => is_error e = false) (map (Consumed a) rtps).
Proof. apply Forall_map, Forall_true. done. Qed.

(** A packet with a decoding timestamp is muxed after the one before it. *)
Lemma stamp_increases c dur pkt p pkt' :
  pkt_dts pkt ≠ AV_NOPTS_VALUE → 0 < dur →
  stamp c dur pkt = Done (p, pkt') → prePts c < pkt_pts pkt'.
Proof.
  intros Hd Hdur. unfold stamp.
  destruct (Z.eqb_spec (pkt_pts pkt) AV_NOPTS_VALUE);
    [|destruct (Z.leb_spec (pkt_pts pkt) (prePts c))]; simpl;
    [| |intros [= <- <-]; done];
    (rewrite (proj2 (Z.eqb_neq _ _)) by done);
    (destruct (Z.leb_spec (pkt_dts pkt) (prePts c)); [|intros [= <- <-]; done]);
    unfold ck64; destruct (in_int64 _); orun; try done; intros [= <- <-]; simpl; lia.
Qed.

Lemma frame_duration_pos tb r pkt d dur :
  0 ≤ pkt_duration pkt → default_duration tb r = Done d → 0 < d →
  frame_duration tb r pkt = Done dur → 0 < dur.
Proof.
  intros Hp Hd Hpos. unfold frame_duration.
  destruct (Z.eqb_spec (pkt_duration pkt) 0); rewrite ?Hd; intros [= <-]; lia.
Qed.

Section frames.
Context {S : Type}.
Variable av_read_frame : S → Z * AVPacket * S.
Variable avio_seek : S → Z * S.
Variable avformat_seek_file : nat → Z → S → Z * S.
Variable set_cur_dts : Z → S → S.
Variable av_packet_rescale_ts : AVPacket → Z * Z → Z * Z → AVPacket.
Variable av_interleaved_write_frame : AVPacket → S → Z * list (list Z) * S.

#[local] Abbreviation remux' :=
  (remux av_packet_rescale_ts av_interleaved_write_frame).
#[local] Abbreviation frame_loop' :=
  (frame_loop av_read_frame avio_seek avformat_seek_file set_cur_dts
     av_packet_rescale_ts av_interleaved_write_frame).
#[local] Abbreviation FFGetFrame' :=
  (FFGetFrame av_read_frame avio_seek avformat_seek_file set_cur_dts
     av_packet_rescale_ts av_interleaved_write_frame).
#[local] Abbreviation run_frames' :=
  (run_frames av_read_frame avio_seek avformat_seek_file set_cur_dts
     av_packet_rescale_ts av_interleaved_write_frame).

(** The loop ends in the remux of a packet it read or without any event. *)
Lemma frame_loop_result fuel i c s ret c' s' evs :
  frame_loop' fuel i c s = Some (Done (ret, c', s', evs)) →
  (∃ s1 ret1 pkt s2, av_read_frame s1 = (ret1, pkt, s2) ∧ 0 ≤ ret1 ∧
     remux' i c pkt s2 = Done (ret, c', s', evs)) ∨
  (evs = [] ∧ ret < 0 ∧ (c' = c ∨ c' = with_error AVERROR_EOF c)).
Proof.
  revert s. induction fuel as [|fuel IH]; intros s; [done|]. simpl.
  destruct (av_read_frame s) as [[ret1 pkt] s1] eqn:Er.
  destruct (Z.ltb_spec ret1 0) as [Hneg|Hpos]; cycle 1.
  { destruct (_ =? _).
    - intros [= He]. left. by exists s, ret1, pkt, s1.
    - intros He. destruct (IH s1 He) as [?|?]; auto. }
  destruct (ret1 =? AVERROR_EOF).
  2:{ intros [= <- <- <- <-]. auto. }
  destruct (repeatedly (videoRequest c)).
  2:{ intros [= <- <- <- <-]. right. auto. }
  destruct (seek_loop _ _ 0 (streams i) ret1 s1) as [[ret2 b] s2] eqn:Es.
  destruct b.
  - destruct (_ ≫= _); [|done]. intros He. destruct (IH _ He) as [?|?]; auto.
  - intros [= <- <- <- <-]. right. split; [done|]. split; [|auto].
    clear -Es Hneg. revert Es. generalize 0%nat as k, ret1, s1.
    induction (streams i) as [|st sts IHs]; intros k r s0; simpl; [done|].
    destruct (avio_seek s0) as [r1 s3]. destruct (Z.ltb_spec r1 0).
    { intros [= -> _]. done. }
    destruct (avformat_seek_file k (stream_duration st) s3) as [r2 s4].
    destruct (Z.ltb_spec r2 0); [by intros [= -> _]|]. apply IHs.
Qed.

Lemma remux_result i c pkt s ret c' s' evs :
  remux' i c pkt s = Done (ret, c', s', evs) →
  ∃ in_st tb dur p pkt' rtps,
    streams i !! Z.to_nat (videoStreamId c) = Some in_st ∧
    let q := av_packet_rescale_ts
               (mkAVPacket 0 (pkt_pts pkt) (pkt_dts pkt) (pkt_duration pkt) (-1)
                  (pkt_data pkt)) (time_base in_st) tb in
    frame_duration (time_base in_st) (fps c) q = Done dur ∧
    stamp c dur q = Done (p, pkt') ∧
    c' = with_stamps p (pkt_pts pkt') c ∧
    evs = Muxed pkt' :: map (Consumed (proxy c)) rtps.
Proof.
  unfold remux. destruct (streams i !! _) as [in_st|]; orun; [|done].
  destruct (deref (oFmtCtx c)) as [o|]; orun; [|done].
  destruct (streams o !! 0%nat) as [out_st|]; orun; [|done].
  destruct (frame_duration _ _ _) as [dur|] eqn:Ed; orun; [|done].
  destruct (stamp _ _ _) as [[p pkt']|] eqn:Est; orun; [|done].
  destruct (av_interleaved_write_frame pkt' s) as [[r rtps] s1]. intros [= <- <- <- <-].
  exists in_st, (time_base out_st), dur, p, pkt', rtps. done.
Qed.

(** One call of the timer callback: what it did to the context. *)
(** What a timer call reports: the packets of at most one frame, then at most one
    error, which is stored. *)
Lemma FFGetFrame_events fuel c s c' s' evs :
  FFGetFrame' fuel c s = Some (Done (c', s', evs)) →
  same_video c c' ∧
  ((error c ≠ 0 ∧ c' = c ∧ evs = []) ∨
   (error c = 0 ∧ ∃ muxed rtps,
      evs = (map Muxed muxed ++ map (Consumed (proxy c)) rtps) ++
            if error c' =? 0 then [] else [ReportedError (proxy c)])).
Proof.
  unfold FFGetFrame, frame_end. destruct (Z.eqb_spec (error c) 0) as [He|He]; simpl; cycle 1.
  { intros [= <- <- <-]. split; [reflexivity|]. by left. }
  destruct (deref (iFmtCtx c)) as [i|]; [|done].
  destruct (frame_loop' fuel i c s) as [[[[[ret c1] s1] evs1]|]|] eqn:El; [|done..].
  apply frame_loop_result in El as [(s2 & r1 & pkt & s3 & _ & _ & Hr)|(-> & Hr & Hc1)].
  - apply remux_result in Hr as (st & tb & dur & p & pkt' & rtps & _ & _ & _ & -> & ->).
    destruct (Z.eqb_spec ret 0); intros [= <- <- <-]; (split; [by unfold same_video|]);
      right; (split; [done|]); exists [pkt'], rtps; simpl.
    + by rewrite He, app_nil_r.
    + by rewrite (proj2 (Z.eqb_neq ret 0)).
  - destruct (Z.eqb_spec ret 0); [lia|]. intros [= <- <- <-].
    split; [destruct Hc1 as [->| ->]; by unfold same_video|]. right.
    split; [done|]. exists [], []. simpl.
    rewrite (proj2 (Z.eqb_neq ret 0)) by done. by destruct Hc1 as [->| ->].
Qed.

Lemma FFGetFrame_result fuel c s c' s' evs :
  FFGetFrame' fuel c s = Some (Done (c', s', evs)) →
  same_video c c' ∧
  ((error c ≠ 0 ∧ c' = c ∧ evs = []) ∨
   (error c = 0 ∧ ∃ body, Forall (fun e => is_error e = false) body ∧
      evs = body ++ if error c' =? 0 then [] else [ReportedError (proxy c)])).
Proof.
  intros [Hs [H|(He & muxed & rtps & ->)]]%FFGetFrame_events; (split; [done|]); [by left|].
  right. split; [done|]. eexists. split; [|done]. apply Forall_app. split.
  - apply Forall_map, Forall_true. done.
  - apply consumed_no_error.
Qed.

Lemma FFGetFrame_stamps fuel c s c' s' evs i in_st d :
  (∀ s ret pkt s', av_read_frame s = (ret, pkt, s') → 0 ≤ ret →
     pkt_dts pkt ≠ AV_NOPTS_VALUE ∧ 0 ≤ pkt_duration pkt) →
  (∀ p a b, pkt_dts p ≠ AV_NOPTS_VALUE → 0 ≤ pkt_duration p →
     pkt_dts (av_packet_rescale_ts p a b) ≠ AV_NOPTS_VALUE ∧
     0 ≤ pkt_duration (av_packet_rescale_ts p a b)) →
  iFmtCtx c = Ptr i → streams i !! Z.to_nat (videoStreamId c) = Some in_st →
  default_duration (time_base in_st) (fps c) = Done d → 0 < d →
  FFGetFrame' fuel c s = Some (Done (c', s', evs)) →
  (muxed_pts evs = [] ∧ prePts c' = prePts c) ∨
  (muxed_pts evs = [prePts c'] ∧ prePts c < prePts c').
Proof.
  intros Hread Hresc Hi Hst Hd Hpos. unfold FFGetFrame, frame_end.
  destruct (negb _). { intros [= <- <- <-]. by left. }
  rewrite Hi. simpl.
  destruct (frame_loop' fuel i c s) as [[[[[ret c1] s1] evs1]|]|] eqn:El; [|done..].
  apply frame_loop_result in El as [(s2 & r1 & pkt & s3 & Hrd & Hr1 & Hr)|(-> & Hr & Hc1)].
  - apply remux_result in Hr as (st & tb & dur & p & pkt' & rtps & Hst' & Hdur & Hs & -> & ->).
    simplify_eq. destruct (Hread _ _ _ _ Hrd Hr1) as [Hdts Hdu].
    destruct (Hresc (mkAVPacket 0 (pkt_pts pkt) (pkt_dts pkt) (pkt_duration pkt) (-1)
                  (pkt_data pkt)) (time_base in_st) tb) as [Hdts' Hdu']; [done..|].
    apply stamp_increases in Hs; [|done|by eapply frame_duration_pos].
    destruct (ret =? 0); intros [= <- <- <-]; right; simpl prePts;
      rewrite ?muxed_pts_app, muxed_pts_muxed, ?muxed_pts_app, muxed_pts_consumed; done.
  - assert (prePts c1 = prePts c) by (destruct Hc1 as [->| ->]; done).
    destruct (ret =? 0); intros [= <- <- <-]; left; done.
Qed.

(** C16: the timestamps of a file stream increase. When every packet of the file
    has a decoding timestamp and the frame rate gives a positive duration, then
    over any number of timer calls, through every restart of a repeated file,
    the packets reach the RTP muxer with strictly increasing presentation
    timestamps, all later than the last one before. *)
Theorem muxed_pts_increasing (fuel n : nat) (c c' : FileVideoContext) (s s' : S)
    (evs : list file_event) (i : AVFormatContext) (in_st : AVStream) (d : Z)
    (Hread : ∀ s ret pkt s', av_read_frame s = (ret, pkt, s') → 0 ≤ ret →
       pkt_dts pkt ≠ AV_NOPTS_VALUE ∧ 0 ≤ pkt_duration pkt)
    (Hresc : ∀ p a b, pkt_dts p ≠ AV_NOPTS_VALUE → 0 ≤ pkt_duration p →
       pkt_dts (av_packet_rescale_ts p a b) ≠ AV_NOPTS_VALUE ∧
       0 ≤ pkt_duration (av_packet_rescale_ts p a b))
    (Hi : iFmtCtx c = Ptr i)
    (Hst : streams i !! Z.to_nat (videoStreamId c) = Some in_st)
    (Hd : default_duration (time_base in_st) (fps c) = Done d) (Hpos : 0 < d)
    (Hrun : run_frames' fuel n c s = Some (Done (c', s', evs))) :
  StronglySorted Z.lt (prePts c :: muxed_pts evs).
Proof.
  revert c s evs Hi Hst Hd Hrun. induction n as [|n IH]; intros c s evs Hi Hst Hd; simpl.
  { intros [= <- <- <-]. repeat constructor. }
  destruct (FFGetFrame' fuel c s) as [[[[c1 s1] evs1]|]|] eqn:E1; [|done..].
  destruct (run_frames' fuel n c1 s1) as [[[[c2 s2] evs2]|]|] eqn:E2; [|done..].
  intros [= <- <- <-]. rewrite muxed_pts_app.
  pose proof (FFGetFrame_result _ _ _ _ _ _ E1) as [(? & ? & Hf & Hv & Hi1 & _) _].
  assert (Hs2 : StronglySorted Z.lt (prePts c1 :: muxed_pts evs2))
    by (eapply IH; eauto; by rewrite ?Hi1, ?Hv, ?Hf).
  destruct (FFGetFrame_stamps _ _ _ _ _ _ _ _ _ Hread Hresc Hi Hst Hd Hpos E1)
    as [[-> Hp]|[-> Hlt]]; simpl; [by rewrite <- Hp|].
  constructor; [done|]. apply StronglySorted_inv in Hs2 as [_ Hall].
  constructor; [done|]. eapply Forall_impl; [|exact Hall]. simpl. lia.
Qed.

Lemma run_frames_stopped fuel n c s c' s' evs :
  error c ≠ 0 → run_frames' fuel n c s = Some (Done (c', s', evs)) → c' = c ∧ evs = [].
Proof.
  intros He. revert s evs. induction n as [|n IH]; intros s evs; simpl.
  { by intros [= <- <- <-]. }
  unfold FFGetFrame, frame_end. rewrite (proj2 (Z.eqb_neq _ _)) by done. simpl.
  destruct (run_frames' fuel n c s) as [[[[c3 s3] evs3]|]|] eqn:E3; [|done..].
  intros [= <- <- <-]. by apply (IH _ _ E3).
Qed.

(** C18: a file stream reports at most one error, as its last act. Over any
    number of timer calls from a context without an error, either the context is
    still without an error and nothing was reported, or exactly one error was
    reported to the proxy and no packet or error followed it. *)
Theorem frame_error_reported_once (fuel n : nat) (c c' : FileVideoContext) (s s' : S)
    (evs : list file_event) (He : error c = 0)
    (Hrun : run_frames' fuel n c s = Some (Done (c', s', evs))) :
  ∃ body, Forall (fun e => is_error e = false) body ∧
    evs = body ++ if error c' =? 0 then [] else [ReportedError (proxy c)].
Proof.
  revert c s evs He Hrun. induction n as [|n IH]; intros c s evs He; simpl.
  { intros [= <- <- <-]. exists []. by rewrite He. }
  destruct (FFGetFrame' fuel c s) as [[[[c1 s1] evs1]|]|] eqn:E1; [|done..].
  destruct (run_frames' fuel n c1 s1) as [[[[c2 s2] evs2]|]|] eqn:E2; [|done..].
  intros [= <- <- <-].
  destruct (FFGetFrame_result _ _ _ _ _ _ E1) as [Hsame [[? _]|(_ & body & Hb & ->)]];
    [done|].
  destruct (Z.eqb_spec (error c1) 0) as [He1|He1].
  - destruct (IH c1 s1 evs2 He1 E2) as (body2 & Hb2 & ->).
    exists (body ++ body2). split; [by apply Forall_app|].
    rewrite app_nil_r, app_assoc. by destruct Hsame as (_ & -> & _).
  - assert (c2 = c1 ∧ evs2 = []) as [-> ->].
    { by eapply run_frames_stopped. }
    exists body. split; [done|]. rewrite (proj2 (Z.eqb_neq (error c1) 0)) by done.
    by rewrite app_nil_r.
Qed.

(** * A file that is played again and again *)

(** [left s] are the packets the demuxer still has to deliver from a file with
    the packets [content]: reading delivers the next one or reports the end, and
    seeking every stream to the start makes all of them available again. *)
Record file_source (content : list AVPacket) (left : S → list AVPacket) : Prop :=
  mkFileSource {
  read_next s p l :
    left s = p :: l → ∃ s', av_read_frame s = (0, p, s') ∧ left s' = l;
  read_eof s :
    left s = [] → ∃ p s', av_read_frame s = (AVERROR_EOF, p, s');
  avio_seek_ok s : ∃ r s', avio_seek s = (r, s') ∧ 0 ≤ r;
  seek_start i dur s :
    ∃ r s', avformat_seek_file i dur s = (r, s') ∧ 0 ≤ r ∧ left s' = content;
  cur_dts_left d s : left (set_cur_dts d s) = left s;
}.

Lemma seek_loop_ok content left i sts ret s :
  file_source content left → left s = content ∨ sts ≠ [] →
  ∃ r s', seek_loop avio_seek avformat_seek_file i sts ret s = (r, true, s') ∧
    left s' = content.
Proof.
  intros Hsrc. revert i ret s. induction sts as [|st sts IH]; intros i ret s Hl; simpl.
  { destruct Hl as [Hl|]; [|done]. by eauto. }
  destruct (avio_seek_ok _ _ Hsrc s) as (r & s1 & -> & Hr).
  rewrite (proj2 (Z.ltb_ge _ _)) by done.
  destruct (seek_start _ _ Hsrc i (stream_duration st) s1) as (r2 & s2 & -> & Hr2 & Hl2).
  rewrite (proj2 (Z.ltb_ge _ _)) by done. apply IH. by left.
Qed.

(** The next packet of the stream among those given. *)
Definition next_video (v : Z) (ps : list AVPacket) : option AVPacket :=
  head (filter (fun p => stream_index p = v) ps).

Lemma next_video_cons v p ps :
  next_video v (p :: ps) = if stream_index p =? v then Some p else next_video v ps.
Proof.
  unfold next_video. rewrite filter_cons.
  destruct (Z.eqb_spec (stream_index p) v); 
    [by rewrite decide_True|by rewrite decide_False].
Qed.

(** From where the demuxer is, the loop goes on to the next video packet of the rest. *)
Lemma frame_loop_finds content left i c s fuel p :
  file_source content left → next_video (videoStreamId c) (left s) = Some p →
  (length (left s) ≤ fuel)%nat →
  ∃ s', frame_loop' fuel i c s = Some (remux' i c p s').
Proof.
  intros Hsrc. revert s. induction fuel as [|fuel IH]; intros s Hn Hf.
  { destruct (left s); [done|simpl in Hf; lia]. }
  destruct (left s) as [|p1 l] eqn:El; [done|]. rewrite next_video_cons in Hn. simpl.
  destruct (read_next _ _ Hsrc _ _ _ El) as (s1 & -> & Hl1). simpl.
  destruct (stream_index p1 =? videoStreamId c); [injection Hn as ->; by exists s1|].
  apply IH; rewrite Hl1; [done|]. simpl in Hf. lia.
Qed.

(** A repeated file with a video packet never runs dry. *)
Lemma frame_loop_repeats content left i c s o fuel p :
  file_source content left →
  next_video (videoStreamId c) (left s ++ content) = Some p →
  repeatedly (videoRequest c) = true → streams i ≠ [] →
  oFmtCtx c = Ptr o → is_Some (streams o !! 0%nat) →
  (length (left s) + length content < fuel)%nat →
  ∃ s', frame_loop' fuel i c s = Some (remux' i c p s').
Proof.
  intros Hsrc Hn Hrep Hst Ho [ost Host]. revert s Hn.
  induction fuel as [|fuel IH]; intros s Hn Hf; [lia|].
  destruct (left s) as [|p1 l] eqn:El; simpl.
  - destruct (read_eof _ _ Hsrc _ El) as (p1 & s1 & ->). simpl. rewrite Hrep.
    destruct (seek_loop_ok content left 0 (streams i) AVERROR_EOF s1 Hsrc (or_intror Hst))
      as (r & s2 & -> & Hl2). rewrite Ho. simpl. rewrite Host. orun.
    apply (frame_loop_finds content left); [done|..];
      rewrite (cur_dts_left _ _ Hsrc), Hl2; [done|]. simpl in Hf. lia.
  - destruct (read_next _ _ Hsrc _ _ _ El) as (s1 & -> & Hl1). simpl.
    rewrite <- app_comm_cons, next_video_cons in Hn.
    destruct (stream_index p1 =? videoStreamId c); [injection Hn as ->; by exists s1|].
    apply IH; rewrite Hl1; [done|]. simpl in Hf. lia.
Qed.

(** The faults of the arithmetic on time stamps. *)
Lemma stamp_faults tb c q f :
  (dur ← frame_duration tb (fps c) q; stamp c dur q) = Fault f →
  f = DivByZero ∧ (fps c).1 * tb.1 = 0 ∨ f = SignedOverflow.
Proof.
  assert (Hstamp : ∀ dur, stamp c dur q = Fault f → f = SignedOverflow).
  { intros dur. unfold stamp, ck64. by repeat (destruct (_ : bool); orun); intros [=]. }
  unfold frame_duration. destruct (_ =? 0); [|by eauto]. unfold default_duration, ck32, cdiv.
  destruct (in_int32 (tb.2 * _)); orun; [|intros [=]; by auto].
  destruct (in_int32 (_ * tb.1)); orun; [|intros [=]; by auto].
  case_bool_decide; orun; [intros [= <-]; by auto|by eauto].
Qed.

(** C17: a repeated file plays for ever. With a demuxer that delivers the packets
    of a file of which at least one belongs to the video stream and that can be
    seeked back to the start, a timer call on a repeated video returns, from any
    position in the file, after at most as many reads as are left in the file plus
    one whole pass and one end of file. It takes the next video packet, going round
    at the end of the file, and muxes exactly that one, reporting an error only when
    the muxer refused it; or the arithmetic on its time stamps faults, by a division
    by a zero frame rate or time base or by an overflow. *)
Theorem repeated_file_plays (content : list AVPacket) (left : S → list AVPacket)
    (fuel : nat) (i o : AVFormatContext) (in_st out_st : AVStream)
    (c : FileVideoContext) (s : S)
    (Hsrc : file_source content left)
    (Hex : Exists (fun p => stream_index p = videoStreamId c) content)
    (Hrep : repeatedly (videoRequest c) = true) (He : error c = 0)
    (Hi : iFmtCtx c = Ptr i)
    (Hst : streams i !! Z.to_nat (videoStreamId c) = Some in_st)
    (Ho : oFmtCtx c = Ptr o) (Host : streams o !! 0%nat = Some out_st)
    (Hfuel : (length (left s) + length content < fuel)%nat) :
  ∃ p, next_video (videoStreamId c) (left s ++ content) = Some p ∧
    let q := av_packet_rescale_ts
               (mkAVPacket 0 (pkt_pts p) (pkt_dts p) (pkt_duration p) (-1) (pkt_data p))
               (time_base in_st) (time_base out_st) in
    match dur ← frame_duration (time_base in_st) (fps c) q; stamp c dur q with
    | Done (t, pkt) =>
        ∃ c' s' rtps, FFGetFrame' fuel c s
          = Some (Done (c', s', Muxed pkt :: map (Consumed (proxy c)) rtps ++
                    if error c' =? 0 then [] else [ReportedError (proxy c)])) ∧
          pts c' = t ∧ prePts c' = pkt_pts pkt
    | Fault f =>
        FFGetFrame' fuel c s = Some (Fault f) ∧
        (f = DivByZero ∧ (fps c).1 * (time_base in_st).1 = 0 ∨ f = SignedOverflow)
    end.
Proof.
  assert (Hn : ∃ p, next_video (videoStreamId c) (left s ++ content) = Some p).
  { unfold next_video. rewrite list.filter_app.
    destruct (filter _ (left s)) as [|p l]; [simpl|by exists p].
    apply list.Exists_exists in Hex as (p & Hp & Hv).
    assert (Hin : p ∈ filter (fun p => stream_index p = videoStreamId c) content)
      by (apply list_elem_of_filter; done).
    destruct (filter _ content) as [|p' l]; [by apply elem_of_nil in Hin|by exists p']. }
  destruct Hn as [p Hn]. exists p. split; [done|]. intros q.
  unfold FFGetFrame, frame_end. rewrite He, Hi. simpl.
  destruct (frame_loop_repeats content left i c s o fuel p Hsrc Hn Hrep) as (s1 & ->);
    eauto; [by intros Hnil; rewrite Hnil in Hst|].
  unfold remux. rewrite Hst. orun. rewrite Ho. simpl. rewrite Host. orun. fold q.
  pose proof (stamp_faults (time_base in_st) c q) as Hf.
  destruct (frame_duration (time_base in_st) (fps c) q) as [dur|f]; orun; [|by auto].
  simpl in Hf. destruct (stamp c dur q) as [[t pkt]|f]; orun; [|by auto].
  clear Hf. destruct (av_interleaved_write_frame pkt s1) as [[r rtps] s2].
  set (c1 := with_stamps t (pkt_pts pkt) c). destruct (Z.eqb_spec r 0) as [Hr|Hr].
  - exists c1, s2, rtps. split; [|done]. simpl. by rewrite He, app_nil_r.
  - exists (with_error r c1), s2, rtps. split; [|done]. simpl.
    by rewrite (proj2 (Z.eqb_neq r 0)).
Qed.
End frames.

(** * A demuxer and a muxer to run the callback on *)

Section demo_file.
Variable content : list AVPacket.

Definition demo_read (s : list AVPacket) : Z * AVPacket * list AVPacket :=
  match s with
  | [] => (AVERROR_EOF, mkAVPacket 0 0 0 0 0 [], [])
  | p :: l => (0, p, l)
  end.
(** A demuxer that makes up the timestamps and durations the file lacks. *)
Definition demo_read_timed (s : list AVPacket) : Z * AVPacket * list AVPacket :=
  let '(ret, p, l) := demo_read s in
  (ret, mkAVPacket (stream_index p) (pkt_pts p)
          (if pkt_dts p =? AV_NOPTS_VALUE then 0 else pkt_dts p)
          (Z.abs (pkt_duration p)) (pkt_pos p) (pkt_data p), l).
Definition demo_avio_seek (s : list AVPacket) : Z * list AVPacket := (0, s).
Definition demo_seek_file (_ : nat) (_ : Z) (_ : list AVPacket)
  : Z * list AVPacket := (0, content).
Definition demo_cur_dts (_ : Z) (s : list AVPacket) : list AVPacket := s.
Definition demo_rescale (p : AVPacket) (_ _ : Z * Z) : AVPacket :=
  mkAVPacket (stream_index p) (pkt_pts p)
    (pkt_dts p) (pkt_duration p) (pkt_pos p) (pkt_data p).
Definition demo_write (_ : AVPacket) (s : list AVPacket)
  : Z * list (list Z) * list AVPacket := (0, [[128; 96]], s).

Definition demo_run (read : list AVPacket → Z * AVPacket * list AVPacket)
    (n : nat) (c : FileVideoContext) :=
  run_frames read demo_avio_seek demo_seek_file demo_cur_dts demo_rescale
    demo_write 9 n c content.

Lemma demo_source :
  file_source demo_read demo_avio_seek demo_seek_file demo_cur_dts content
    (fun s => s).
Proof.
  split.
  - intros s p l ->. by eexists.
  - intros s ->. by eexists _, _.
  - intros s. by eexists _, s.
  - intros i dur s. by eexists _, content.
  - done.
Qed.
End demo_file.

(** A frame of 40 ms at 90 kHz, and the context of a repeated file with an audio
    and a video stream at 25 frames per second. *)
Definition demo_frame (t : Z) : AVPacket := mkAVPacket 1 t t 3600 0 [].
Definition demo_audio : AVPacket := mkAVPacket 0 0 0 0 0 [].
Definition demo_bare : AVPacket := mkAVPacket 1 AV_NOPTS_VALUE AV_NOPTS_VALUE 3600 0 [].
Definition demo_stream : AVStream := mkAVStream (1, 90000) (25, 1) 7200.
Definition demo_input : AVFormatContext := mkAVFormatContext [demo_stream; demo_stream].
Definition demo_output : AVFormatContext := mkAVFormatContext [demo_stream].
Definition demo_context : FileVideoContext :=
  mkFileVideoContext (mkVideoRequest true "a.mp4" true false EmptyString UDP) 3
    (25, 1) 1 (Ptr demo_input) (Ptr demo_output) 0 0 0 None.

Definition demo_once : FileVideoContext :=
  mkFileVideoContext (mkVideoRequest true "a.mp4" false false EmptyString UDP) 3
    (25, 1) 1 (Ptr demo_input) (Ptr demo_output) 0 0 0 None.
Definition demo_content : list AVPacket :=
  [demo_frame 3600; demo_audio; demo_frame 7200].

Lemma muxed_pts_increasing_witness :
  ∃ c' s' evs,
    demo_run demo_content demo_read_timed 5 demo_context = Some (Done (c', s', evs)) ∧
    muxed_pts evs = [3600; 7200; 10800; 14400; 18000] ∧
    StronglySorted Z.lt (0 :: muxed_pts evs).
Proof.
  destruct (demo_run demo_content demo_read_timed 5 demo_context)
    as [[[[c' s'] evs]|]|] eqn:E; [|vm_compute in E; discriminate E..].
  exists c', s', evs. split; [done|]. split.
  { vm_compute in E. injection E as <- <- <-. reflexivity. }
  refine (muxed_pts_increasing demo_read_timed demo_avio_seek
           (demo_seek_file demo_content) demo_cur_dts demo_rescale demo_write 9 5
           demo_context c' demo_content s' evs demo_input demo_stream 3600
           _ _ eq_refl eq_refl eq_refl eq_refl E).
  - intros s ret pkt s1 Hr _. unfold demo_read_timed in Hr.
    destruct (demo_read s) as [[r p] l]. injection Hr as <- <- <-. simpl.
    split; [|lia]. destruct (Z.eqb_spec (pkt_dts p) AV_NOPTS_VALUE); done.
  - done.
Defined.

Lemma frame_error_reported_once_witness :
  ∃ c' s' evs,
    demo_run demo_content demo_read 4 demo_once = Some (Done (c', s', evs)) ∧ error c' = AVERROR_EOF ∧
    ∃ body, Forall (fun e => is_error e = false) body ∧
      evs = body ++ if error c' =? 0 then [] else [ReportedError 3].
Proof.
  destruct (demo_run demo_content demo_read 4 demo_once) as [[[[c' s'] evs]|]|] eqn:E;
    [|vm_compute in E; discriminate E..].
  exists c', s', evs. split; [done|]. split.
  { vm_compute in E. injection E as <- <- <-. reflexivity. }
  exact (frame_error_reported_once demo_read demo_avio_seek
           (demo_seek_file demo_content) demo_cur_dts demo_rescale demo_write 9 4
           demo_once c'
           demo_content s' evs eq_refl E).
Defined.

Lemma repeated_file_plays_witness :
  ∃ c' s' rtps,
    FFGetFrame demo_read demo_avio_seek (demo_seek_file demo_content) demo_cur_dts
      demo_rescale demo_write 9 demo_context []
    = Some (Done (c', s', Muxed (mkAVPacket 0 3600 3600 3600 (-1) [])
                            :: map (Consumed 3) rtps ++
              if error c' =? 0 then [] else [ReportedError 3])) ∧
    pts c' = 0 ∧ prePts c' = 3600.
Proof.
  destruct (repeated_file_plays demo_read demo_avio_seek (demo_seek_file demo_content)
            demo_cur_dts demo_rescale demo_write demo_content (fun s => s) 9 demo_input
            demo_output demo_stream demo_stream demo_context [] (demo_source demo_content))
    as (p & Hp & Hr); try reflexivity; [left; reflexivity|simpl; lia|].
  vm_compute in Hp. injection Hp as <-. exact Hr.
Defined.

(** Without a decoding timestamp time runs backwards. A packet that has no
    timestamps is stamped from the context's own counter, which frames with
    timestamps do not advance; so after a frame at one second such a packet is
    muxed at 40 ms. *)
Theorem bare_packet_goes_back :
  ∃ c' s' evs,
    demo_run [demo_frame 90000; demo_bare] demo_read 2 demo_context
    = Some (Done (c', s', evs)) ∧ muxed_pts evs = [90000; 3600].
Proof. eexists _, _, _. split; vm_compute; reflexivity. Qed.
