(* ===== verification/RtpProducer.v ===== *)
(** core/include/rtp_producer.h and core/src/rtp_producer.cpp: the producer that
    turns a requested video, a file or a GB28181 camera, into RTP packets for a
    proxy of the RTSP service.

    The critical sections of [mFileContextMutex] and [mRtpContextMutex] are the
    atomic steps: the body of [RegisterVideo] and [UnregisterVideo], the three
    sections of [RegisterFileVideo] (probe, report, erase), and the callbacks of
    the RPC client and of the network server. A [RtpVideoContext] lives at an
    address; [weak_ptr::lock] finds it while [mRtpVideoContextMap] owns it.
    FFmpeg, librtp, libevent and gRPC are the environment, their results are
    arguments. *)

From Stdlib Require Import Ascii.
From stdpp Require Import base gmap strings list pretty numbers.
From S2P Require Import Prelude VideoRequest ThreadPool NetworkServer Producer FileProducer.

#[local] Open Scope Z_scope.

(** * State *)

Record ProducerConfig : Type := mkProducerConfig {
  file_event_thread_num : Z;
  network_receive_host : string;
  sipper_host : string;
  rtp_jitter_in_ms : Z;
  max_bandwidth_in_mb : Z;
  rpc_timeout_in_ms : Z;
}.

(** The callbacks are bound to the proxy at [rtp_proxy]; [packet] and
    [payloadBuf] are the sizes of the buffers; the handles of librtp are
    present or not. *)
Record RtpVideoContext : Type := mkRtpVideoContext {
  rtp_video : VideoRequest;
  rtp_proxy : N;
  inviteId : string;
  demuxer : bool;
  payloadEncoder : bool;
  packet : option Z;
  payloadBuf : option Z;
}.

(** The lambda [RegisterVideo] submits: the video, and the proxy that
    [processSdpFunc] is bound to. *)
Record probe_task : Type := mkProbeTask {
  probe_video : VideoRequest;
  probe_proxy : N;
}.

(** [next_context] is an address no [RtpVideoContext] has had; [F] of the
    network server is the address its callback holds weakly. *)
Record RtpProducer : Type := mkRtpProducer {
  mConfig : ProducerConfig;
  mEventBaseCursor : Z;
  mFileIoBases : nat;
  mpFileIoThreadPool : pool probe_task;
  mFileVideoContextMap : vmap FileVideoContext;
  mRtpVideoContextMap : vmap N;
  rtp_contexts : gmap N RtpVideoContext;
  next_context : N;
  mpNetworkServer : NetworkServer N;
}.

(** ** The messages of api/video_greeter.proto *)

Inductive transmission : Type := TransmissionTCP | TransmissionUDP.

Record GBInviteRequest : Type := mkGBInviteRequest {
  cameraId : string;
  receiveInfo : string;
  startTime : Z;
  endTime : Z;
  request_transmission : transmission;
}.

(** The requests; the responses to the last two are empty messages. *)
Inductive rpc : Type :=
| InviteVideo (gbInviteRequest : GBInviteRequest)
| SendAck (inviteId : string)
| TearDown (inviteId : string).

Record GBInviteVideoResponse : Type := mkGBInviteVideoResponse {
  peerInfo : string;
  response_frequency : Z;
  response_payload : Z;
  response_encoding : string;
}.

Record InviteVideoResponse : Type := mkInviteVideoResponse {
  response_inviteId : string;
  gbInviteResponse : option GBInviteVideoResponse;
}.

(** What the producer does to the rest of the program. A call carries its
    timeout and, for an invitation, the context its callback holds weakly. *)
Inductive prod_event : Type :=
| PSdp (a : N) (sdp : string)
| PError (a : N)
| PPacket (a : N) (data : list Z)
| PCall (r : rpc) (timeout : Z) (ctx : option N)
| PDemux (ctx : N) (data : list Z).

(** * Updates *)

Definition with_files (m : vmap FileVideoContext) (p : RtpProducer) : RtpProducer :=
  mkRtpProducer (mConfig p) (mEventBaseCursor p) (mFileIoBases p)
    (mpFileIoThreadPool p) m (mRtpVideoContextMap p) (rtp_contexts p)
    (next_context p) (mpNetworkServer p).

Definition with_rtp (m : vmap N) (cs : gmap N RtpVideoContext) (n : N)
    (p : RtpProducer) : RtpProducer :=
  mkRtpProducer (mConfig p) (mEventBaseCursor p) (mFileIoBases p)
    (mpFileIoThreadPool p) (mFileVideoContextMap p) m cs n (mpNetworkServer p).

Definition with_pool (q : pool probe_task) (p : RtpProducer) : RtpProducer :=
  mkRtpProducer (mConfig p) (mEventBaseCursor p) (mFileIoBases p) q
    (mFileVideoContextMap p) (mRtpVideoContextMap p) (rtp_contexts p)
    (next_context p) (mpNetworkServer p).

Definition with_cursor (z : Z) (p : RtpProducer) : RtpProducer :=
  mkRtpProducer (mConfig p) z (mFileIoBases p) (mpFileIoThreadPool p)
    (mFileVideoContextMap p) (mRtpVideoContextMap p) (rtp_contexts p)
    (next_context p) (mpNetworkServer p).

Definition with_network (s : NetworkServer N) (p : RtpProducer) : RtpProducer :=
  mkRtpProducer (mConfig p) (mEventBaseCursor p) (mFileIoBases p)
    (mpFileIoThreadPool p) (mFileVideoContextMap p) (mRtpVideoContextMap p)
    (rtp_contexts p) (next_context p) s.

(** * Construction and [Init] *)

Definition newRtpProducer (config : ProducerConfig) (s : NetworkServer N) : RtpProducer :=
  mkRtpProducer config 0 0 (newPool 0) ∅ ∅ ∅ 0 s.

Record init_env : Type := mkInitEnv {
  use_pthreads : Z;
  base_created : bool;
  keepalive_created : bool;
  keepalive_added : Z;
}.

(** One iteration of the loop of [Init] over the file event threads. *)
Definition start_file_loop (e : init_env) (bases : nat) : outcome nat :=
  _ ← require (base_created e) LogFatal;
  _ ← require (keepalive_created e && (0 <=? keepalive_added e)) LogFatal;
  Done (S bases).

Fixpoint start_file_loops (e : init_env) (n bases : nat) : outcome nat :=
  match n with
  | O => Done bases
  | S n' => bases ← start_file_loop e bases; start_file_loops e n' bases
  end.

Definition Init (e : init_env) (hardware_concurrency : Z) (config : ProducerConfig)
    (s : NetworkServer N) (p : RtpProducer) : outcome RtpProducer :=
  _ ← require (use_pthreads e =? 0) LogFatal;
  let n := if file_event_thread_num config =? -1 then hardware_concurrency
           else file_event_thread_num config in
  bases ← start_file_loops e (Z.to_nat n) (mFileIoBases p);
  _ ← require (0 <=? n) (Throw "length_error");
  Done (mkRtpProducer config (mEventBaseCursor p) bases (newPool (Z.to_nat n))
          (mFileVideoContextMap p) (mRtpVideoContextMap p) (rtp_contexts p)
          (next_context p) s).

(** * Registering *)

(** [~FileVideoContext] compares both format contexts with [NULL]. The destruction of
    its [pkt], made with [new] and released with [av_packet_free], is taken to work:
    allocators are not modelled. *)
Definition destroy_context (c : FileVideoContext) : outcome unit :=
  match iFmtCtx c, oFmtCtx c with
  | Wild, _ | _, Wild => Fault UninitRead
  | _, _ => Done tt
  end.

(** [mFileVideoContextMap.erase(video)] *)
Definition erase_file (v : VideoRequest) (p : RtpProducer) : outcome RtpProducer :=
  match vfind v (mFileVideoContextMap p) with
  | None => Done p
  | Some c =>
      _ ← destroy_context c;
      Done (with_files (verase v (mFileVideoContextMap p)) p)
  end.

Definition transmission_of (m : StreamingMode) : transmission :=
  match m with TCP => TransmissionTCP | UDP => TransmissionUDP end.

(** The request of an invitation; the times are not set, so they are 0. *)
Definition gb_invite_request (config : ProducerConfig) (v : VideoRequest)
  : GBInviteRequest :=
  mkGBInviteRequest (gbid v) (network_receive_host config) 0 0
    (transmission_of (gbStreamingMode v)).

(** [RegisterVideo] with callbacks bound to the proxy at [a]; [mem] is what the
    memory of a new [FileVideoContext] holds. *)
Definition register_video (mem : indeterminate) (v : VideoRequest) (a : N)
    (p : RtpProducer) : outcome (RtpProducer * list prod_event) :=
  if _use_file v then
    match vfind v (mFileVideoContextMap p) with
    | Some _ => Done (p, [PError a])
    | None =>
        let p := with_files (vset v (newFileVideoContext mem v a)
                               (mFileVideoContextMap p)) p in
        q ← submit (mkProbeTask v a) (mpFileIoThreadPool p);
        Done (with_pool q p, [])
    end
  else if _use_gb v then
    match vfind v (mRtpVideoContextMap p) with
    | Some _ => Done (p, [PError a])
    | None =>
        let ctx := next_context p in
        Done (with_rtp (vset v ctx (mRtpVideoContextMap p))
                (<[ctx := mkRtpVideoContext v a EmptyString false false None None]>
                   (rtp_contexts p)) (ctx + 1) p,
              [PCall (InviteVideo (gb_invite_request (mConfig p) v))
                 (rpc_timeout_in_ms (mConfig p)) (Some ctx)])
    end
  else Done (p, []).

Definition unregister_video (v : VideoRequest) (p : RtpProducer)
  : outcome (RtpProducer * list prod_event) :=
  if _use_file v then
    p ← erase_file v p; Done (p, [])
  else if _use_gb v then
    match vfind v (mRtpVideoContextMap p) with
    | None => Done (p, [])
    | Some ctx =>
        c ← of_option UseAfterFree (rtp_contexts p !! ctx);
        Done (with_rtp (verase v (mRtpVideoContextMap p)) (delete ctx (rtp_contexts p))
                (next_context p) p,
              if bool_decide (inviteId c = EmptyString) then []
              else [PCall (TearDown (inviteId c)) 0 None])
    end
  else Done (p, []).

(** * Probing a file *)

(** What FFmpeg and libevent answer during one probe. *)
Record probe_env : Type := mkProbeEnv {
  open_input : Z * AVFormatContext;
  find_stream_info : Z;
  best_stream : Z;
  alloc_output : Z;
  new_stream : bool;
  parameters_copy : Z;
  avio_allocated : bool;
  sdp_create : Z * string;
  write_header : Z * (Z * Z);
  event_created : bool;
  event_add : Z;
}.

Definition put_file (v : VideoRequest) (c : FileVideoContext) (p : RtpProducer)
  : RtpProducer := with_files (vset v c (mFileVideoContextMap p)) p.

Definition wrap32 (z : Z) : Z := (z + 2 ^ 31) mod 2 ^ 32 - 2 ^ 31.

(** [long microseconds = 1e6 * fps.second / fps.first], in [double]. The product
    of the [int] with a million is exact; the quotient is rounded, which does not
    change its integer part ([frame_interval_rounding] of Streams.v). Without a frame
    rate it is infinite or not a number, and its conversion is undefined. *)
Definition frame_interval (fps : Z * Z) : outcome Z :=
  if bool_decide (fps.1 = 0) then Fault BadConversion
  else Done (Z.quot (1000000 * fps.2) fps.1).

(** The end of the probe: the timer that calls [FFGetFrame]. [None] is the
    return of [RegisterFileVideo]. *)
Definition start_timer (e : probe_env) (v : VideoRequest) (c : FileVideoContext)
    (ret : Z) (p : RtpProducer) : outcome (RtpProducer * option Z) :=
  _ ← require (bool_decide (mFileIoBases p ≠ 0%nat)) DivByZero;
  let index := Z.to_nat (u64 (mEventBaseCursor p) mod Z.of_nat (mFileIoBases p)) in
  let p := with_cursor (wrap32 (mEventBaseCursor p + 1)) p in
  us ← frame_interval (fps c);
  let ev := if event_created e then Some (index, us) else None in
  let c := mkFileVideoContext (videoRequest c) (proxy c) (fps c) (videoStreamId c)
             (iFmtCtx c) (oFmtCtx c) (pts c) (prePts c) (error c) ev in
  if negb (event_created e) || (event_add e <? 0) then Done (put_file v c p, Some ret)
  else Done (put_file v c p, None).

(** The output half of the probe, with the input opened in [c]. *)
Definition probe_output (e : probe_env) (v : VideoRequest) (a : N)
    (c : FileVideoContext) (p : RtpProducer)
  : outcome (RtpProducer * option Z * list prod_event) :=
  let with_output o :=
    mkFileVideoContext (videoRequest c) (proxy c) (fps c) (videoStreamId c)
      (iFmtCtx c) o (pts c) (prePts c) (error c) (mpFileEvent c) in
  if alloc_output e <? 0 then
    Done (put_file v (with_output Null) p, Some (alloc_output e), [])
  else if negb (new_stream e) then
    Done (put_file v (with_output (Ptr (mkAVFormatContext []))) p,
          Some (alloc_output e), [])
  else
  let c0 := with_output (Ptr (mkAVFormatContext [mkAVStream (0, 1) (0, 1) 0])) in
  if parameters_copy e <? 0 then Done (put_file v c0 p, Some (parameters_copy e), [])
  else
  _ ← require (avio_allocated e) NullDeref;
  let '(ret, sdp) := sdp_create e in
  if ret <? 0 then Done (put_file v c0 p, Some ret, [])
  else
  let '(ret, tb) := write_header e in
  if ret <? 0 then Done (put_file v c0 p, Some ret, [])
  else
  let c1 := with_output (Ptr (mkAVFormatContext [mkAVStream tb (0, 1) 0])) in
  '(p, r) ← start_timer e v c1 ret p;
  Done (p, r, [PSdp a sdp]).

(** The first critical section of [RegisterFileVideo]: [None] when it returns
    from there, otherwise the value of [ret] it breaks with. *)
Definition probe (e : probe_env) (v : VideoRequest) (a : N) (p : RtpProducer)
  : outcome (RtpProducer * option Z * list prod_event) :=
  match vfind v (mFileVideoContextMap p) with
  | None => Done (p, Some 0, [])
  | Some c =>
      _ ← match iFmtCtx c with Wild => Fault UninitRead | _ => Done tt end;
      let '(ret, input) := open_input e in
      let with_input i fps id :=
        mkFileVideoContext (videoRequest c) (proxy c) fps id i (oFmtCtx c) (pts c)
          (prePts c) (error c) (mpFileEvent c) in
      if ret <? 0 then
        Done (put_file v (with_input Null (fps c) (videoStreamId c)) p, Some ret, [])
      else if find_stream_info e <? 0 then
        Done (put_file v (with_input (Ptr input) (fps c) (videoStreamId c)) p,
              Some (find_stream_info e), [])
      else if best_stream e <? 0 then
        Done (put_file v (with_input (Ptr input) (fps c) (best_stream e)) p,
              Some (best_stream e), [])
      else
        st ← of_option OutOfBounds (streams input !! Z.to_nat (best_stream e));
        probe_output e v a (with_input (Ptr input) (avg_frame_rate st) (best_stream e)) p
  end.

(** The second section: the context is looked up again, and dereferenced even
    when it is gone. *)
Definition report_failure (ret : Z) (v : VideoRequest) (p : RtpProducer)
  : outcome (list prod_event) :=
  if ret =? 0 then Done []
  else match vfind v (mFileVideoContextMap p) with
       | None => Fault EndDeref
       | Some c => Done [PError (proxy c)]
       end.

(** Where the task is: its next section, with the [ret] to report. *)
Inductive probe_stage : Type :=
| Probing
| Reporting (ret : Z)
| Erasing
| Ended.

(** The task, one critical section at a time: between two of them the lock is free
    and anything may happen to the producer. *)
Definition RegisterFileVideo (e : probe_env) (t : probe_task) (stage : probe_stage)
    (p : RtpProducer) : outcome (probe_stage * RtpProducer * list prod_event) :=
  match stage with
  | Probing =>
      '(p, r, evs) ← probe e (probe_video t) (probe_proxy t) p;
      Done (match r with None => Ended | Some ret => Reporting ret end, p, evs)
  | Reporting ret =>
      evs ← report_failure ret (probe_video t) p;
      Done (Erasing, p, evs)
  | Erasing =>
      p ← erase_file (probe_video t) p;
      Done (Ended, p, [])
  | Ended => Done (Ended, p, [])
  end.

(** * A camera: the answer to the invitation *)

Definition nl : string := String "010"%char EmptyString.

(** The SDP of a camera stream. *)
Definition gb_sdp (id : string) (payload : Z) (encoding : string) (frequency : Z)
  : string :=
  "v=0" +:+ nl +:+
  "o=- 0 0 IN IP4 127.0.0.1" +:+ nl +:+
  "s=gb:" +:+ id +:+ nl +:+
  "c=IN IP4 127.0.0.1" +:+ nl +:+
  "m=video 0 RTP/AVP " +:+ pretty payload +:+ nl +:+
  "t=0 0" +:+ nl +:+
  "a=rtpmap:" +:+ pretty payload +:+ " " +:+ encoding +:+ "/" +:+ pretty frequency.

(** What librtp answers when the handles of a stream are created. *)
Record rtp_env : Type := mkRtpEnv {
  demuxer_created : bool;
  encoder_created : bool;
}.

Definition put_rtp (ctx : N) (c : RtpVideoContext) (p : RtpProducer) : RtpProducer :=
  with_rtp (mRtpVideoContextMap p) (<[ctx := c]> (rtp_contexts p)) (next_context p) p.

(** [new char[mConfig.max_bandwidth_in_mb * 1024 * 1024]] for H264. *)
Definition new_payload_buf (config : ProducerConfig) (encoding : string)
  : outcome (option Z) :=
  if bool_decide (encoding = "H264") then
    n1 ← ck32 (max_bandwidth_in_mb config * 1024);
    n2 ← ck32 (n1 * 1024);
    _ ← require (0 <=? n2) (Throw "bad_array_new_length");
    Done (Some n2)
  else Done None.

(** The end of the callback when it did not succeed: the error is reported, and the
    context stays as it is. *)
Definition invite_failed (ctx : N) (c : RtpVideoContext) (p : RtpProducer)
  : outcome (RtpProducer * list prod_event) :=
  Done (p, [PError (rtp_proxy c)]).

(** The callback of the [InviteVideo] call: [ok] says that there is no error
    status, [response] is what came with it. *)
Definition on_invite (e : rtp_env) (ctx : N) (ok : bool)
    (response : InviteVideoResponse) (p : RtpProducer)
  : outcome (RtpProducer * list prod_event) :=
  match rtp_contexts p !! ctx with
  | None => Done (p, [])
  | Some c =>
      let fail := invite_failed ctx c in
      if negb ok then fail p
      else match gbInviteResponse response with
      | None => fail p
      | Some (mkGBInviteVideoResponse peerInfo frequency payload encoding) =>
          buf ← new_payload_buf (mConfig p) encoding;
          let buf := match buf with Some n => Some n | None => payloadBuf c end in
          let with_handles d enc :=
            mkRtpVideoContext (rtp_video c) (rtp_proxy c) (response_inviteId response)
              d enc (Some 1600) buf in
          if negb (demuxer_created e) then
            fail (put_rtp ctx (with_handles false (payloadEncoder c)) p)
          else if negb (encoder_created e) then
            fail (put_rtp ctx (with_handles true false) p)
          else
            n1 ← ck32 (max_bandwidth_in_mb (mConfig p) * 1024);
            _ ← ck32 (n1 * 1024);
            let p := put_rtp ctx (with_handles true true) p in
            Done (with_network (registerPeer peerInfo ctx (mpNetworkServer p)) p,
                  [PSdp (rtp_proxy c)
                     (gb_sdp (gbid (rtp_video c)) payload encoding frequency);
                   PCall (SendAck (response_inviteId response)) 0 None])
      end
  end.

(** The function registered for the peer: the data goes to the demuxer of the
    context when it still lives. *)
Definition on_peer_data (ctx : N) (data : list Z) (p : RtpProducer)
  : list prod_event :=
  match rtp_contexts p !! ctx with
  | None => []
  | Some _ => [PDemux ctx data]
  end.

(** [RtpOnPacket]: what the payload encoder is given for a demuxed frame; H264
    frames get a start code in [payloadBuf]. *)
Definition RtpOnPacket (c : RtpVideoContext) (frame : list Z) : outcome (list Z) :=
  match payloadBuf c with
  | Some size =>
      _ ← require (Z.of_nat (length frame) + 3 <=? size) OutOfBounds;
      Done ([0; 0; 1] ++ frame)
  | None => Done frame
  end.

(** [RtpPayloadFunc.alloc], and [RtpPayloadFunc.packet] for a packet the encoder
    filled in. *)
Definition payload_alloc (bytes : Z) : outcome unit :=
  require (negb (1600 <? bytes)) LogFatal.

Definition payload_packet (c : RtpVideoContext) (data : list Z) : list prod_event :=
  [PPacket (rtp_proxy c) data].

(** A demuxed frame through the encoder: [encode] is librtp's packetisation. *)
Fixpoint send_packets (c : RtpVideoContext) (pkts : list (list Z))
  : outcome (list prod_event) :=
  match pkts with
  | [] => Done []
  | d :: pkts' =>
      _ ← payload_alloc (Z.of_nat (length d));
      evs ← send_packets c pkts';
      Done (payload_packet c d ++ evs)
  end.

Definition on_frame (encode : list Z → list (list Z)) (c : RtpVideoContext)
    (frame : list Z) : outcome (list prod_event) :=
  input ← RtpOnPacket c frame;
  send_packets c (encode input).

(** The timer of a file fires: [FFGetFrame] on its context. *)
Definition file_events (evs : list file_event) : list prod_event :=
  omap (fun e => match e with
                 | Muxed _ => None
                 | Consumed a d => Some (PPacket a d)
                 | ReportedError a => Some (PError a)
                 | ReportedSdp a s => Some (PSdp a s)
                 end) evs.

(** * The contract with the service *)

(** The proxy of every registration, by key. *)
Definition file_bound (p : RtpProducer) : gmap string N :=
  (fun e : VideoRequest * FileVideoContext => proxy e.2) <$> mFileVideoContextMap p.

Definition rtp_bound (p : RtpProducer) : gmap string N :=
  omap (fun e : VideoRequest * N => rtp_proxy <$> rtp_contexts p !! e.2)
    (mRtpVideoContextMap p).

Definition no_wild (c : FileVideoContext) : Prop := destroy_context c = Done tt.

Record rtp_ok (p : RtpProducer) : Prop := mkRtpOk {
  ok_files k v c :
    mFileVideoContextMap p !! k = Some (v, c) →
    k = cmpStr v ∧ _use_file v = true ∧ no_wild c;
  ok_rtp k v ctx :
    mRtpVideoContextMap p !! k = Some (v, ctx) →
    k = cmpStr v ∧ _use_file v = false ∧ _use_gb v = true ∧
    ∃ c, rtp_contexts p !! ctx = Some c ∧ rtp_video c = v;
  ok_owned ctx c :
    rtp_contexts p !! ctx = Some c →
    ∃ v, mRtpVideoContextMap p !! cmpStr v = Some (v, ctx);
  ok_fresh ctx c : rtp_contexts p !! ctx = Some c → (ctx < next_context p)%N;
  ok_pool : mStop (mpFileIoThreadPool p) = false;
}.

(** * Lemmas *)

(** The key of a file request is never the key of a camera request. *)
Lemma cmpStr_file_gb v w :
  _use_file v = true → _use_file w = false → _use_gb w = true → cmpStr v ≠ cmpStr w.
Proof. unfold cmpStr. intros -> -> ->. done. Qed.

Lemma file_bound_lookup p k :
  file_bound p !! k = (fun e => proxy e.2) <$> mFileVideoContextMap p !! k.
Proof. apply lookup_fmap. Qed.

Lemma rtp_bound_lookup p k :
  rtp_bound p !! k
  = mRtpVideoContextMap p !! k ≫= fun e => rtp_proxy <$> rtp_contexts p !! e.2.
Proof. apply lookup_omap. Qed.

Definition producer_bound (p : RtpProducer) : gmap string N :=
  file_bound p ∪ rtp_bound p.

Lemma rtp_bound_file p v :
  rtp_ok p → _use_file v = true → rtp_bound p !! cmpStr v = None.
Proof.
  intros Hok Hf. rewrite rtp_bound_lookup.
  destruct (mRtpVideoContextMap p !! cmpStr v) as [[w ctx]|] eqn:E; [|done].
  destruct (ok_rtp _ Hok _ _ _ E) as (Hk & Hw & Hg & _).
  by destruct (cmpStr_file_gb v w).
Qed.

Lemma file_bound_gb p v :
  rtp_ok p → _use_file v = false → _use_gb v = true → file_bound p !! cmpStr v = None.
Proof.
  intros Hok Hf Hg. rewrite file_bound_lookup.
  destruct (mFileVideoContextMap p !! cmpStr v) as [[w c]|] eqn:E; [|done].
  destruct (ok_files _ Hok _ _ _ E) as (Hk & Hw & _).
  by destruct (cmpStr_file_gb w v).
Qed.

(** A request for neither a file nor a camera has the empty key. *)
Lemma bound_unsupported p v :
  rtp_ok p → supported v = false → producer_bound p !! cmpStr v = None.
Proof.
  intros Hok Hs. unfold supported in Hs. apply orb_false_iff in Hs as [Hf Hg].
  assert (Hk : cmpStr v = EmptyString) by (unfold cmpStr; by rewrite Hf, Hg).
  rewrite Hk. apply lookup_union_None. rewrite file_bound_lookup, rtp_bound_lookup. split.
  - destruct (mFileVideoContextMap p !! EmptyString) as [[w c]|] eqn:E; [|done].
    destruct (ok_files _ Hok _ _ _ E) as (Hw & Hu & _). unfold cmpStr in Hw.
    by rewrite Hu in Hw.
  - destruct (mRtpVideoContextMap p !! EmptyString) as [[w c]|] eqn:E; [|done].
    destruct (ok_rtp _ Hok _ _ _ E) as (Hw & Hu & Hg' & _). unfold cmpStr in Hw.
    by rewrite Hu, Hg' in Hw.
Qed.

Lemma vfind_lookup {A} v (m : vmap A) :
  vfind v m = None ↔ m !! cmpStr v = None.
Proof. unfold vfind. apply fmap_None. Qed.

Lemma vset_new {A} v (a : A) (m : vmap A) :
  m !! cmpStr v = None → vset v a m = <[cmpStr v := (v, a)]> m.
Proof. unfold vset. by intros ->. Qed.

(** Registering a file. *)
Lemma register_file_ok mem v a p :
  rtp_ok p → _use_file v = true → mFileVideoContextMap p !! cmpStr v = None →
  no_wild (newFileVideoContext mem v a) →
  ∃ p', register_video mem v a p = Done (p', []) ∧ rtp_ok p' ∧
    producer_bound p' = <[cmpStr v := a]> (producer_bound p).
Proof.
  intros Hok Hf Hn Hw. unfold register_video.
  rewrite Hf, (proj2 (vfind_lookup _ _) Hn). simpl. unfold submit.
  rewrite (ok_pool _ Hok). orun. eexists. split; [done|]. rewrite vset_new by done.
  split.
  - split; simpl; try apply Hok; [|done].
    intros k w c [[<- [= <- <-]]|[_ Hk]]%lookup_insert_Some; [done|].
    by apply (ok_files _ Hok).
  - unfold producer_bound, file_bound, rtp_bound. simpl.
    rewrite fmap_insert. simpl. by rewrite insert_union_l.
Qed.

(** Registering a camera. *)
Lemma register_gb_ok mem v a p :
  rtp_ok p → _use_file v = false → _use_gb v = true →
  mRtpVideoContextMap p !! cmpStr v = None →
  ∃ p' r, register_video mem v a p = Done (p', [r]) ∧ rtp_ok p' ∧
    (∀ b, r ≠ PError b) ∧
    producer_bound p' = <[cmpStr v := a]> (producer_bound p).
Proof.
  intros Hok Hf Hg Hn. unfold register_video.
  rewrite Hf, Hg, (proj2 (vfind_lookup _ _) Hn). eexists _, _. split; [done|].
  rewrite vset_new by done.
  assert (Hne : ∀ ctx c, rtp_contexts p !! ctx = Some c → next_context p ≠ ctx).
  { intros ctx c Hc <-. by apply (ok_fresh _ Hok) in Hc as ?%N.lt_irrefl. }
  split; [|split; [done|]].
  - split; simpl; try apply Hok.
    + intros k w ctx [[<- [= <- <-]]|[_ Hk]]%lookup_insert_Some.
      { rewrite lookup_insert_eq. by eauto 6. }
      destruct (ok_rtp _ Hok _ _ _ Hk) as (-> & ? & ? & c & Hc & Hcv).
      rewrite lookup_insert_ne by (by eapply Hne). by eauto 6.
    + intros ctx c [[<- _]|[_ Hc]]%lookup_insert_Some.
      { exists v. apply lookup_insert_eq. }
      destruct (ok_owned _ Hok _ _ Hc) as [w Hw]. exists w.
      rewrite lookup_insert_ne; [done|]. intros Hk. rewrite Hk in Hn. congruence.
    + intros ctx c [[<- _]|[_ Hc]]%lookup_insert_Some; [lia|].
      apply (ok_fresh _ Hok) in Hc. lia.
  - apply map_eq. intros k. unfold producer_bound. rewrite !lookup_union.
    destruct (decide (k = cmpStr v)) as [->|Hk].
    + rewrite lookup_insert_eq, !file_bound_lookup, !rtp_bound_lookup. simpl.
      pose proof (file_bound_gb _ _ Hok Hf Hg) as Hfn. rewrite file_bound_lookup in Hfn.
      rewrite Hfn, lookup_insert_eq. simpl. by rewrite lookup_insert_eq.
    + rewrite lookup_insert_ne, lookup_union by done.
      rewrite !file_bound_lookup, !rtp_bound_lookup. simpl. f_equal.
      rewrite lookup_insert_ne by done.
      destruct (mRtpVideoContextMap p !! k) as [[w ctx]|] eqn:E; [|done]. simpl.
      destruct (ok_rtp _ Hok _ _ _ E) as (_ & _ & _ & c & Hc & Hcv).
      rewrite lookup_insert_ne; [done|]. by eapply Hne.
Qed.

Lemma bound_taken p v a :
  rtp_ok p → producer_bound p !! cmpStr v = Some a →
  if _use_file v then is_Some (vfind v (mFileVideoContextMap p))
  else is_Some (vfind v (mRtpVideoContextMap p)).
Proof.
  intros Hok Hb. unfold producer_bound in Hb. apply lookup_union_Some_raw in Hb.
  rewrite file_bound_lookup, rtp_bound_lookup in Hb. unfold vfind.
  destruct (_use_file v) eqn:Ef.
  - destruct (mFileVideoContextMap p !! cmpStr v) as [e|] eqn:E; [by eauto|].
    pose proof (rtp_bound_file _ _ Hok Ef) as Hn. rewrite rtp_bound_lookup in Hn.
    rewrite Hn in Hb. naive_solver.
  - destruct (mRtpVideoContextMap p !! cmpStr v) as [e|] eqn:E; [by eauto|].
    destruct Hb as [Hb|[_ Hb]]; [|done].
    destruct (mFileVideoContextMap p !! cmpStr v) as [[w c]|] eqn:Ec; [|done].
    destruct (ok_files _ Hok _ _ _ Ec) as (Hk & Hu & _). unfold cmpStr in Hk.
    rewrite Ef, Hu in Hk. by destruct (_use_gb v).
Qed.

Lemma bound_free p v :
  rtp_ok p → producer_bound p !! cmpStr v = None →
  mFileVideoContextMap p !! cmpStr v = None ∧
  mRtpVideoContextMap p !! cmpStr v = None.
Proof.
  intros Hok. unfold producer_bound. rewrite lookup_union_None.
  rewrite file_bound_lookup, rtp_bound_lookup. intros [Hf Hr].
  apply fmap_None in Hf. split; [done|].
  destruct (mRtpVideoContextMap p !! cmpStr v) as [[w ctx]|] eqn:E; [|done].
  destruct (ok_rtp _ Hok _ _ _ E) as (_ & _ & _ & c & Hc & Hcv). simpl in Hr.
  by rewrite Hc in Hr.
Qed.

(** The proxies whose [processErrorFunc] an operation called. *)
Definition errors_of (evs : list prod_event) : list N :=
  omap (fun e => match e with PError a => Some a | _ => None end) evs.

Lemma register_video_law mem v a p :
  rtp_ok p → no_wild (newFileVideoContext mem v a) →
  ∃ p' evs, register_video mem v a p = Done (p', evs) ∧ rtp_ok p' ∧
    match producer_bound p !! cmpStr v with
    | Some _ => errors_of evs = [a] ∧ producer_bound p' = producer_bound p
    | None => errors_of evs = [] ∧
        producer_bound p' = if supported v then <[cmpStr v := a]> (producer_bound p)
                            else producer_bound p
    end.
Proof.
  intros Hok Hw. destruct (producer_bound p !! cmpStr v) as [b|] eqn:Eb.
  - assert (Hs : supported v = true).
    { destruct (supported v) eqn:E; [done|].
      by rewrite (bound_unsupported _ _ Hok E) in Eb. }
    pose proof (bound_taken _ _ _ Hok Eb) as Ht. unfold register_video, supported in *.
    destruct (_use_file v); [|destruct (_use_gb v); [|done]];
      destruct Ht as [x ->]; by eexists _, _.
  - destruct (bound_free _ _ Hok Eb) as [Hf Hr]. unfold supported.
    destruct (_use_file v) eqn:Ef; [|destruct (_use_gb v) eqn:Eg]; simpl.
    + destruct (register_file_ok mem v a p Hok Ef Hf Hw) as (p' & -> & ? & ?).
      by eexists _, _.
    + destruct (register_gb_ok mem v a p Hok Ef Eg Hr) as (p' & r & -> & ? & Hne & ?).
      eexists _, _. split_and!; [done..| |done]. destruct r; try done.
      by edestruct Hne.
    + unfold register_video. rewrite Ef, Eg. by eexists _, _.
Qed.

Lemma file_bound_erase v p :
  file_bound (with_files (verase v (mFileVideoContextMap p)) p)
  = delete (cmpStr v) (file_bound p).
Proof. unfold file_bound. simpl. unfold verase. apply fmap_delete. Qed.

Lemma rtp_ok_files p m :
  rtp_ok p → (∀ k v c, m !! k = Some (v, c) → k = cmpStr v ∧ _use_file v = true ∧ no_wild c) →
  rtp_ok (with_files m p).
Proof. intros [] Hm. by split. Qed.

Lemma erase_file_ok v p :
  rtp_ok p → _use_file v = true →
  ∃ p', erase_file v p = Done p' ∧ rtp_ok p' ∧
    producer_bound p' = delete (cmpStr v) (producer_bound p).
Proof.
  intros Hok Hf. unfold erase_file, vfind.
  destruct (mFileVideoContextMap p !! cmpStr v) as [[w c]|] eqn:E; simpl.
  - destruct (ok_files _ Hok _ _ _ E) as (_ & _ & ->). orun. eexists. split; [done|].
    split.
    + apply rtp_ok_files; [done|]. unfold verase. intros k v' c' [_ Hk]%lookup_delete_Some.
      by apply (ok_files _ Hok).
    + unfold producer_bound. rewrite file_bound_erase, delete_union. f_equal.
      change (rtp_bound (with_files _ p)) with (rtp_bound p).
      by rewrite delete_id by (by apply rtp_bound_file).
  - exists p. split_and!; [done..|]. symmetry. apply delete_id.
    apply lookup_union_None. split; [by rewrite file_bound_lookup, E|].
    by apply rtp_bound_file.
Qed.

Lemma erase_rtp_ok v ctx c p :
  rtp_ok p → _use_file v = false → _use_gb v = true →
  mRtpVideoContextMap p !! cmpStr v = Some (c, ctx) →
  let p' := with_rtp (verase v (mRtpVideoContextMap p)) (delete ctx (rtp_contexts p))
              (next_context p) p in
  rtp_ok p' ∧ producer_bound p' = delete (cmpStr v) (producer_bound p).
Proof.
  intros Hok Hf Hg E p'.
  assert (Hne : ∀ k w, mRtpVideoContextMap p !! k = Some (w, ctx) → k = cmpStr v).
  { intros k w Hk. destruct (ok_rtp _ Hok _ _ _ E) as (-> & _ & _ & x & Hx & Hv).
    destruct (ok_rtp _ Hok _ _ _ Hk) as (-> & _ & _ & y & Hy & Hw). congruence. }
  split.
  - split; simpl; try apply Hok; unfold verase.
    + intros k w ctx' [Hk Hm]%lookup_delete_Some.
      destruct (ok_rtp _ Hok _ _ _ Hm) as (-> & ? & ? & x & Hx & Hv).
      rewrite lookup_delete_ne; [by eauto 6|]. intros ->. by apply Hk, eq_sym, (Hne _ w).
    + intros ctx' x [Hn Hx]%lookup_delete_Some.
      destruct (ok_owned _ Hok _ _ Hx) as [w Hw]. exists w.
      rewrite lookup_delete_ne; [done|]. congruence.
    + intros ctx' x [_ Hx]%lookup_delete_Some. by apply (ok_fresh _ Hok _ x).
  - apply map_eq. intros k. unfold producer_bound. rewrite lookup_union.
    rewrite file_bound_lookup, rtp_bound_lookup. simpl. unfold verase.
    destruct (decide (k = cmpStr v)) as [->|Hk].
    + rewrite !lookup_delete_eq. pose proof (file_bound_gb _ _ Hok Hf Hg) as Hfn.
      rewrite file_bound_lookup in Hfn. by rewrite Hfn.
    + rewrite !lookup_delete_ne, lookup_union, file_bound_lookup, rtp_bound_lookup by done.
      f_equal. destruct (mRtpVideoContextMap p !! k) as [[w ctx']|] eqn:Ek; [|done]. simpl.
      rewrite lookup_delete_ne; [done|]. intros ->. by apply Hk, (Hne _ w).
Qed.

Lemma unregister_video_law v p :
  rtp_ok p →
  ∃ p' evs, unregister_video v p = Done (p', evs) ∧ rtp_ok p' ∧ errors_of evs = [] ∧
    producer_bound p' = delete (cmpStr v) (producer_bound p).
Proof.
  intros Hok. unfold unregister_video. destruct (_use_file v) eqn:Ef.
  { destruct (erase_file_ok v p Hok Ef) as (p' & -> & ? & ?). orun. by eexists _, _. }
  destruct (_use_gb v) eqn:Eg; cycle 1.
  { eexists _, _. split_and!; [done..|]. symmetry. apply delete_id.
    apply bound_unsupported; [done|]. unfold supported. by rewrite Ef, Eg. }
  unfold vfind. destruct (mRtpVideoContextMap p !! cmpStr v) as [[w ctx]|] eqn:E; simpl.
  - destruct (erase_rtp_ok v ctx w p Hok Ef Eg E) as [Hok' Hb].
    destruct (ok_rtp _ Hok _ _ _ E) as (_ & _ & _ & c & -> & _). orun.
    eexists _, _. split_and!; [done..| |done]. by case_bool_decide.
  - eexists _, _. split_and!; [done..|]. symmetry. apply delete_id.
    apply lookup_union_None. split; [by apply file_bound_gb|].
    by rewrite rtp_bound_lookup, E.
Qed.

(** The instance of the contract, for memory that does not hold wild pointers. *)
Section contract.
Variable mem : indeterminate.

#[export] Instance rtp_producer : VideoProducer RtpProducer := {
  producer_ok := rtp_ok;
  bound := producer_bound;
  RegisterVideo v a p :=
    '(p, evs) ← register_video mem v a p; Done (p, errors_of evs);
  UnregisterVideo v p := '(p, _) ← unregister_video v p; Done p;
}.

Hypothesis mem_clean :
  ind_iFmtCtx mem ≠ Wild ∧ ind_oFmtCtx mem ≠ Wild.

#[export] Instance rtp_producer_laws : VideoProducerLaws RtpProducer.
Proof.
  split; simpl.
  - intros v a p Hok.
    assert (Hw : no_wild (newFileVideoContext mem v a)).
    { unfold no_wild, destroy_context. simpl.
      by destruct mem_clean, (ind_iFmtCtx mem), (ind_oFmtCtx mem). }
    destruct (register_video_law mem v a p Hok Hw) as (p' & evs & -> & ? & Hm). orun.
    by eexists _, _.
  - intros v p Hok. destruct (unregister_video_law v p Hok) as (p' & evs & -> & ? & _ & ?).
    orun. by eexists.
Qed.
End contract.

(** * The steps the producer takes on its own *)

Inductive producer_step : RtpProducer → RtpProducer → Prop :=
| step_probe e t stage stage' p p' evs :
    _use_file (probe_video t) = true →
    RegisterFileVideo e t stage p = Done (stage', p', evs) → producer_step p p'
| step_pool q p : mStop q = false → producer_step p (with_pool q p)
| step_invite e ctx ok r p p' evs :
    on_invite e ctx ok r p = Done (p', evs) → producer_step p p'
| step_frame {S} read seek seek_file cur rescale write fuel v c c' (s s' : S) evs p :
    vfind v (mFileVideoContextMap p) = Some c →
    FFGetFrame read seek seek_file cur rescale write fuel c s
    = Some (Done (c', s', evs)) →
    producer_step p (put_file v c' p).

Lemma vfind_Some_lookup {A} v (m : vmap A) a :
  vfind v m = Some a → ∃ w, m !! cmpStr v = Some (w, a).
Proof.
  unfold vfind. destruct (m !! cmpStr v) as [[w a']|]; [|done].
  intros [= <-]. by exists w.
Qed.

Lemma put_file_lookup v c p :
  vfind v (mFileVideoContextMap (put_file v c p)) = Some c.
Proof.
  unfold put_file, vset, vfind. simpl.
  destruct (mFileVideoContextMap p !! cmpStr v) as [[w c']|]; by rewrite lookup_insert_eq.
Qed.

(** A registered context changes and keeps its proxy. *)
Lemma put_file_ok v c c' p :
  rtp_ok p → vfind v (mFileVideoContextMap p) = Some c →
  proxy c' = proxy c → no_wild c' →
  rtp_ok (put_file v c' p) ∧ producer_bound (put_file v c' p) = producer_bound p.
Proof.
  intros Hok [w Hw]%vfind_Some_lookup Hp Hn. unfold put_file, vset. rewrite Hw. split.
  - apply rtp_ok_files; [done|].
    intros k v' x [[<- [= <- <-]]|[_ Hk]]%lookup_insert_Some.
    + by destruct (ok_files _ Hok _ _ _ Hw) as (? & ? & _).
    + by apply (ok_files _ Hok).
  - unfold producer_bound. f_equal. unfold file_bound. simpl. rewrite fmap_insert. simpl.
    apply insert_id. by rewrite lookup_fmap, Hw, Hp.
Qed.

Lemma with_cursor_ok z p :
  rtp_ok p → rtp_ok (with_cursor z p) ∧ producer_bound (with_cursor z p) = producer_bound p.
Proof. intros []. split; [by split|done]. Qed.

Lemma with_cursor_same p : with_cursor (mEventBaseCursor p) p = p.
Proof. by destruct p. Qed.

(** The format contexts after the probe are never wild. *)
Definition probed (c c' : FileVideoContext) : Prop :=
  proxy c' = proxy c ∧ (oFmtCtx c ≠ Wild → no_wild c').

Lemma start_timer_result e v c ret p p' r :
  start_timer e v c ret p = Done (p', r) →
  ∃ z ev, p' = put_file v (mkFileVideoContext (videoRequest c) (proxy c) (fps c)
                 (videoStreamId c) (iFmtCtx c) (oFmtCtx c) (pts c) (prePts c) (error c)
                 ev) (with_cursor z p).
Proof.
  unfold start_timer. destruct (require _ _); orun; [|done].
  destruct (frame_interval _) as [us|]; orun; [|done].
  destruct (_ || _); intros [= <- <-]; by eexists _, _.
Qed.

Lemma probe_output_result e v a c p p' r evs :
  iFmtCtx c ≠ Wild → probe_output e v a c p = Done (p', r, evs) →
  ∃ z c', p' = put_file v c' (with_cursor z p) ∧ probed c c'.
Proof.
  intros Hi. unfold probe_output.
  assert (Hpr : ∀ o ev, o ≠ Wild → probed c (mkFileVideoContext (videoRequest c) (proxy c)
    (fps c) (videoStreamId c) (iFmtCtx c) o (pts c) (prePts c) (error c) ev)).
  { intros o ev Ho. split; [done|]. intros _. unfold no_wild, destroy_context. simpl.
    by destruct (iFmtCtx c), o. }
  assert (Hput : ∀ c', put_file v c' p
    = put_file v c' (with_cursor (mEventBaseCursor p) p))
    by (intros; by rewrite with_cursor_same).
  destruct (_ <? 0); [intros [= <- <- <-]; rewrite Hput; by eauto|].
  destruct (negb (new_stream e)); [intros [= <- <- <-]; rewrite Hput; by eauto|].
  destruct (_ <? 0); [intros [= <- <- <-]; rewrite Hput; by eauto|].
  destruct (require _ _); orun; [|done]. destruct (sdp_create e) as [r1 sdp].
  destruct (_ <? 0); [intros [= <- <- <-]; rewrite Hput; by eauto|].
  destruct (write_header e) as [r2 tb].
  destruct (_ <? 0); [intros [= <- <- <-]; rewrite Hput; by eauto|].
  destruct (start_timer _ _ _ _ _) as [[p1 r3]|] eqn:Es; orun; [|done].
  intros [= <- <- <-]. apply start_timer_result in Es as (z & ev & ->).
  eexists z, _. split; [done|]. simpl. by apply Hpr.
Qed.

Lemma probe_result e v a p p' r evs :
  probe e v a p = Done (p', r, evs) →
  (vfind v (mFileVideoContextMap p) = None ∧ p' = p ∧ r = Some 0 ∧ evs = []) ∨
  ∃ c z c', vfind v (mFileVideoContextMap p) = Some c ∧
    p' = put_file v c' (with_cursor z p) ∧ probed c c'.
Proof.
  unfold probe. destruct (vfind v (mFileVideoContextMap p)) as [c|]; cycle 1.
  { intros [= <- <- <-]. by left. }
  intros Hd. right. exists c.
  assert (Hput : ∀ c', put_file v c' p
    = put_file v c' (with_cursor (mEventBaseCursor p) p))
    by (intros; by rewrite with_cursor_same).
  assert (Hpr : ∀ i fp id, i ≠ Wild → probed c (mkFileVideoContext (videoRequest c)
    (proxy c) fp id i (oFmtCtx c) (pts c) (prePts c) (error c) (mpFileEvent c))).
  { intros i fp id Hi. split; [done|]. intros Ho. unfold no_wild, destroy_context. simpl.
    by destruct i, (oFmtCtx c). }
  revert Hd. destruct (match iFmtCtx c with Wild => _ | _ => _ end); orun; [|done].
  destruct (open_input e) as [r1 input].
  destruct (_ <? 0); [intros [= <- <- <-]; rewrite Hput; by eauto 6|].
  destruct (_ <? 0); [intros [= <- <- <-]; rewrite Hput; by eauto 6|].
  destruct (_ <? 0); [intros [= <- <- <-]; rewrite Hput; by eauto 6|].
  destruct (streams input !! _) as [st|]; orun; [|done].
  intros (z & c' & -> & Hc)%probe_output_result; [|done]. by eauto 6.
Qed.

Lemma probe_ok e v a p p' r evs :
  rtp_ok p → probe e v a p = Done (p', r, evs) →
  rtp_ok p' ∧ producer_bound p' = producer_bound p.
Proof.
  intros Hok [(_ & -> & _)|(c & z & c' & Hc & -> & Hp & Hw)]%probe_result; [done|].
  destruct (with_cursor_ok z p Hok) as [Hok' Hb]. rewrite <- Hb.
  apply (put_file_ok v c); [done..|]. apply Hw. intros Ho.
  apply vfind_Some_lookup in Hc as [w Hc].
  destruct (ok_files _ Hok _ _ _ Hc) as (_ & _ & Hn). unfold no_wild, destroy_context in Hn.
  rewrite Ho in Hn. by destruct (iFmtCtx c).
Qed.

Lemma put_rtp_ok ctx c c' p :
  rtp_ok p → rtp_contexts p !! ctx = Some c →
  rtp_proxy c' = rtp_proxy c → rtp_video c' = rtp_video c →
  rtp_ok (put_rtp ctx c' p) ∧ producer_bound (put_rtp ctx c' p) = producer_bound p.
Proof.
  intros Hok Hc Hp Hv. split.
  - split; simpl; try apply Hok.
    + intros k v ctx' Hm. destruct (ok_rtp _ Hok _ _ _ Hm) as (-> & ? & ? & x & Hx & Hxv).
      split_and!; [done..|]. destruct (decide (ctx' = ctx)) as [->|].
      * rewrite lookup_insert_eq. exists c'. split; [done|]. congruence.
      * rewrite lookup_insert_ne by done. by eauto.
    + intros ctx' x [[<- _]|[_ Hx]]%lookup_insert_Some; by eapply ok_owned.
    + intros ctx' x [[<- _]|[_ Hx]]%lookup_insert_Some; by eapply ok_fresh.
  - unfold producer_bound. f_equal. apply map_eq. intros k. rewrite !rtp_bound_lookup.
    simpl. destruct (mRtpVideoContextMap p !! k) as [[v ctx']|]; [|done]. simpl.
    destruct (decide (ctx' = ctx)) as [->|].
    + rewrite lookup_insert_eq, Hc. simpl. by rewrite Hp.
    + by rewrite lookup_insert_ne.
Qed.

Lemma on_invite_ok e ctx ok r p p' evs :
  rtp_ok p → on_invite e ctx ok r p = Done (p', evs) →
  rtp_ok p' ∧ producer_bound p' = producer_bound p.
Proof.
  intros Hok. unfold on_invite, invite_failed.
  destruct (rtp_contexts p !! ctx) as [c|] eqn:Ec; [|by intros [= <- <-]].
  destruct (negb ok); [by intros [= <- <-]|].
  destruct (gbInviteResponse r) as [[peer freq pl enc]|]; [|by intros [= <- <-]].
  destruct (new_payload_buf _ _) as [buf|]; orun; [|done].
  destruct (negb (demuxer_created e)).
  { intros [= <- <-]. by apply (put_rtp_ok ctx c). }
  destruct (negb (encoder_created e)).
  { intros [= <- <-]. by apply (put_rtp_ok ctx c). }
  destruct (ck32 _) as [n1|]; orun; [|done]. destruct (ck32 (n1 * 1024)); orun; [|done].
  intros [= <- <-].
  set (c' := mkRtpVideoContext _ _ _ _ _ _ _).
  destruct (put_rtp_ok ctx c c' p) as [[] Hb]; [done..|]. split; [by split|].
  exact Hb.
Qed.

Lemma put_file_same v c c' p :
  rtp_ok p → vfind v (mFileVideoContextMap p) = Some c → same_video c c' →
  rtp_ok (put_file v c' p) ∧ producer_bound (put_file v c' p) = producer_bound p.
Proof.
  intros Hok Hc (_ & Hp & _ & _ & Hi & Ho & _). apply (put_file_ok v c c' p Hok Hc Hp).
  apply vfind_Some_lookup in Hc as [w Hc].
  destruct (ok_files _ Hok _ _ _ Hc) as (_ & _ & Hn).
  unfold no_wild, destroy_context in *. by rewrite Hi, Ho.
Qed.

Lemma producer_step_ok p p' :
  rtp_ok p → producer_step p p' → rtp_ok p' ∧ producer_bound p' ⊆ producer_bound p.
Proof.
  intros Hok Hstep.
  destruct Hstep as [e t stage stage' p p' evs Hf Hr|q p Hq|e ctx ok r p p' evs Hr
                    |S read seek sf cur rs wr fuel v c c' s s' evs p Hc Hr].
  - revert Hr. destruct stage as [|ret| |]; simpl.
    + destruct (probe _ _ _ _) as [[[p1 r] evs1]|] eqn:Ep; orun; [|done].
      intros [= _ <- _]. by destruct (probe_ok _ _ _ _ _ _ _ Hok Ep) as [? ->].
    + destruct (report_failure _ _ _); orun; [|done]. by intros [= _ <- _].
    + destruct (erase_file_ok (probe_video t) p Hok Hf) as (p2 & -> & Hok2 & Hb2). orun.
      intros [= _ <- _]. split; [done|]. rewrite Hb2. apply delete_subseteq.
    + by intros [= _ <- _].
  - split; [|done]. destruct Hok. by split.
  - destruct (on_invite_ok _ _ _ _ _ _ _ Hok Hr) as [? ->]. done.
  - apply FFGetFrame_result in Hr as [Hs _].
    by destruct (put_file_same v c c' p Hok Hc Hs) as [? ->].
Qed.

(** C12: the producer never adds a registration on its own. Whatever the
    environment answers, every section of the probe of a file, the answer to an invitation, a
    worker of the probe pool and the frame timer keep the producer consistent:
    every file context is filed under its key and safe to destroy, every camera
    key owns one live context. And they leave at most the registrations that
    were there, each with its proxy. This is what the sessions of the RTSP
    service assume of the producer. *)
Theorem producer_steps_shrink (p p' : RtpProducer)
    (Hok : rtp_ok p) (Hstep : producer_step p p') :
  rtp_ok p' ∧ producer_bound p' ⊆ producer_bound p.
Proof. by apply producer_step_ok. Qed.

(** C11: the producer implements the contract. For memory without wild pointers,
    [RegisterVideo] and [UnregisterVideo] of the producer act on its
    registrations as the contract of the service says: a key is taken once and
    refused with one error while it is taken, a video that is neither a file nor
    a camera is ignored, and unregistering frees exactly that key. *)
Theorem producer_refines_contract (mem : indeterminate) (v : VideoRequest) (a : N)
    (p : RtpProducer)
    (Hmem : ind_iFmtCtx mem ≠ Wild ∧ ind_oFmtCtx mem ≠ Wild) (Hok : rtp_ok p) :
  (∃ p' evs, register_video mem v a p = Done (p', evs) ∧ rtp_ok p' ∧
     match producer_bound p !! cmpStr v with
     | Some _ => errors_of evs = [a] ∧ producer_bound p' = producer_bound p
     | None => errors_of evs = [] ∧
         producer_bound p' = if supported v then <[cmpStr v := a]> (producer_bound p)
                             else producer_bound p
     end) ∧
  (∃ p' evs, unregister_video v p = Done (p', evs) ∧ rtp_ok p' ∧ errors_of evs = [] ∧
     producer_bound p' = delete (cmpStr v) (producer_bound p)).
Proof.
  split; [|by apply unregister_video_law]. apply register_video_law; [done|].
  unfold no_wild, destroy_context. simpl.
  by destruct Hmem, (ind_iFmtCtx mem), (ind_oFmtCtx mem).
Qed.

Lemma newRtpProducer_ok config s : rtp_ok (newRtpProducer config s).
Proof. by split. Qed.

Lemma Init_ok e hw config s p p' :
  rtp_ok p → Init e hw config s p = Done p' → rtp_ok p' ∧ producer_bound p' = producer_bound p.
Proof.
  intros []. unfold Init. destruct (use_pthreads e =? 0); orun; [|done].
  destruct (start_file_loops _ _ _) as [b|]; orun; [|done].
  destruct (0 <=? _); orun; [|done]. intros [= <-]. split; [by split|done].
Qed.

(** * Examples *)

Definition zero_memory : indeterminate := mkIndeterminate (0, 0) 0 Null Null.
Definition demo_producer_config : ProducerConfig :=
  mkProducerConfig 2 "10.0.0.1:8086" "10.0.0.1:8899" 200 4 3000.
Definition demo_producer : RtpProducer :=
  newRtpProducer demo_producer_config newNetworkServer.
Definition demo_camera : VideoRequest :=
  mkVideoRequest false EmptyString false true "34020000001320000001" UDP.
Definition demo_file : VideoRequest :=
  mkVideoRequest true "a.mp4" true false EmptyString UDP.

(** The producer with the camera registered for the proxy at 3. *)
Definition demo_invited : RtpProducer :=
  match register_video zero_memory demo_camera 3 demo_producer with
  | Done (p, _) => p
  | Fault _ => demo_producer
  end.

Lemma demo_invited_ok : rtp_ok demo_invited.
Proof.
  destruct (register_video_law zero_memory demo_camera 3 demo_producer)
    as (p' & evs & He & Hok & _); [apply newRtpProducer_ok|done|].
  unfold demo_invited. by rewrite He.
Qed.

Lemma producer_steps_shrink_witness :
  ∃ p' evs,
    on_invite (mkRtpEnv true true) 0 true
      (mkInviteVideoResponse "id7"
         (Some (mkGBInviteVideoResponse "10.0.0.9:30000" 90000 96 "H264")))
      demo_invited = Done (p', evs) ∧
    rtp_ok p' ∧ producer_bound p' ⊆ producer_bound demo_invited.
Proof.
  destruct (on_invite (mkRtpEnv true true) 0 true
      (mkInviteVideoResponse "id7"
         (Some (mkGBInviteVideoResponse "10.0.0.9:30000" 90000 96 "H264")))
      demo_invited) as [[p' evs]|] eqn:E; [|vm_compute in E; discriminate E].
  exists p', evs. split; [done|].
  apply (producer_steps_shrink demo_invited p' demo_invited_ok).
  by eapply step_invite.
Defined.

Lemma producer_refines_contract_witness :
  (∃ p' evs, register_video zero_memory demo_file 5 demo_invited = Done (p', evs) ∧
     rtp_ok p' ∧
     match producer_bound demo_invited !! cmpStr demo_file with
     | Some _ => errors_of evs = [5%N] ∧
         producer_bound p' = producer_bound demo_invited
     | None => errors_of evs = [] ∧
         producer_bound p' = if supported demo_file
           then <[cmpStr demo_file := 5%N]> (producer_bound demo_invited)
           else producer_bound demo_invited
     end) ∧
  (∃ p' evs, unregister_video demo_file demo_invited = Done (p', evs) ∧ rtp_ok p' ∧
     errors_of evs = [] ∧
     producer_bound p' = delete (cmpStr demo_file) (producer_bound demo_invited)).
Proof.
  apply (producer_refines_contract zero_memory demo_file 5 demo_invited);
    [done|apply demo_invited_ok].
Defined.
