(* ===== verification/Streams.v ===== *)
(** The life of a stream in the RTP producer: a camera from the invitation to
    the tear-down and its packets in between, a file from the probe to the frame
    timer, and where either of them goes wrong. *)

From stdpp Require Import base gmap strings list pretty numbers.
From S2P Require Import Prelude VideoRequest ThreadPool NetworkServer Producer FileProducer RtpProducer.

#[local] Open Scope Z_scope.

(** * Cameras *)

(** A context that waits for the answer to its invitation. *)
Definition waiting_context (v : VideoRequest) (a : N) : RtpVideoContext :=
  mkRtpVideoContext v a EmptyString false false None None.

Lemma register_camera mem v a p :
  _use_file v = false → _use_gb v = true → vfind v (mRtpVideoContextMap p) = None →
  ∃ p', register_video mem v a p
    = Done (p', [PCall (InviteVideo (gb_invite_request (mConfig p) v))
                   (rpc_timeout_in_ms (mConfig p)) (Some (next_context p))]) ∧
    vfind v (mRtpVideoContextMap p') = Some (next_context p) ∧
    rtp_contexts p' !! next_context p = Some (waiting_context v a) ∧
    mConfig p' = mConfig p ∧ mpNetworkServer p' = mpNetworkServer p.
Proof.
  intros Hf Hg Hn. unfold register_video. rewrite Hf, Hg, Hn. eexists.
  split; [done|]. simpl. split; [|split; [apply lookup_insert_eq|done]].
  apply vfind_lookup in Hn. rewrite vset_new by done. unfold vfind.
  by rewrite lookup_insert_eq.
Qed.

(** The bandwidth of the configuration is a size of a buffer. *)
Definition bandwidth_ok (config : ProducerConfig) : Prop :=
  0 ≤ max_bandwidth_in_mb config < 2048.

Lemma bandwidth_bytes config :
  bandwidth_ok config →
  ck32 (max_bandwidth_in_mb config * 1024) = Done (max_bandwidth_in_mb config * 1024) ∧
  ck32 (max_bandwidth_in_mb config * 1024 * 1024)
  = Done (max_bandwidth_in_mb config * 1048576).
Proof.
  unfold bandwidth_ok, ck32, in_int32. intros Hb.
  rewrite !bool_decide_eq_true_2 by lia. split; [done|]. f_equal. lia.
Qed.

(** The context after a successful answer. *)
Definition streaming_context (config : ProducerConfig) (c : RtpVideoContext)
    (id encoding : string) : RtpVideoContext :=
  mkRtpVideoContext (rtp_video c) (rtp_proxy c) id true true (Some 1600)
    (if bool_decide (encoding = "H264") then Some (max_bandwidth_in_mb config * 1048576)
     else payloadBuf c).

Lemma on_invite_success ctx c id peer frequency payload encoding p :
  rtp_contexts p !! ctx = Some c → bandwidth_ok (mConfig p) →
  on_invite (mkRtpEnv true true) ctx true
    (mkInviteVideoResponse id
       (Some (mkGBInviteVideoResponse peer frequency payload encoding))) p
  = Done (with_network (registerPeer peer ctx (mpNetworkServer p))
            (put_rtp ctx (streaming_context (mConfig p) c id encoding) p),
          [PSdp (rtp_proxy c) (gb_sdp (gbid (rtp_video c)) payload encoding frequency);
           PCall (SendAck id) 0 None]).
Proof.
  intros Hc Hb. destruct (bandwidth_bytes _ Hb) as [H1 H2].
  unfold on_invite, invite_failed. rewrite Hc. simpl. unfold new_payload_buf, streaming_context.
  case_bool_decide; rewrite ?H1; orun; rewrite ?H2; orun; [|done].
  unfold bandwidth_ok in Hb.
  by rewrite (proj2 (Z.leb_le _ _)) by lia.
Qed.

(** C13: the life of a camera stream. For a camera that is not registered and a
    peer that is not known: registering it sends one invitation for the camera;
    the positive answer reports the SDP to the proxy and sends one
    acknowledgement with the identifier of the answer; from then on the data of
    the peer goes to the demuxer of the stream; unregistering sends one
    tear-down with the same identifier; and data of the peer that arrives later
    is dropped without touching the freed context. *)
Theorem camera_lifecycle (mem : indeterminate) (v : VideoRequest) (a : N)
    (id peer encoding : string) (frequency payload : Z) (p : RtpProducer)
    (Hok : rtp_ok p) (Hf : _use_file v = false) (Hg : _use_gb v = true)
    (Hn : vfind v (mRtpVideoContextMap p) = None)
    (Hpeer : mRegisteredPeers (mpNetworkServer p) !! peer = None)
    (Hb : bandwidth_ok (mConfig p)) (Hid : id ≠ EmptyString) :
  let ctx := next_context p in
  ∃ p1 p2 p3,
    register_video mem v a p
    = Done (p1, [PCall (InviteVideo (gb_invite_request (mConfig p) v))
                   (rpc_timeout_in_ms (mConfig p)) (Some ctx)]) ∧
    on_invite (mkRtpEnv true true) ctx true
      (mkInviteVideoResponse id
         (Some (mkGBInviteVideoResponse peer frequency payload encoding))) p1
    = Done (p2, [PSdp a (gb_sdp (gbid v) payload encoding frequency);
                 PCall (SendAck id) 0 None]) ∧
    mRegisteredPeers (mpNetworkServer p2) !! peer = Some (mkPeer peer ctx) ∧
    (∀ data, on_peer_data ctx data p2 = [PDemux ctx data]) ∧
    unregister_video v p2 = Done (p3, [PCall (TearDown id) 0 None]) ∧
    (∀ data, on_peer_data ctx data p3 = []).
Proof.
  intros ctx.
  destruct (register_camera mem v a p Hf Hg Hn) as (p1 & Hr & Hv & Hc & Hcfg & Hnet).
  exists p1. eexists _, _. split; [done|].
  rewrite (on_invite_success ctx _ id peer frequency payload encoding p1 Hc)
    by (by rewrite Hcfg). split; [done|]. simpl. unfold registerPeer.
  rewrite Hnet, Hpeer. simpl. rewrite lookup_insert_eq. split; [done|]. split.
  { intros data. unfold on_peer_data. simpl. by rewrite lookup_insert_eq. }
  unfold unregister_video. rewrite Hf, Hg. simpl. rewrite Hv. simpl.
  rewrite lookup_insert_eq. orun. simpl. rewrite bool_decide_eq_false_2 by done.
  split; [done|]. intros data. unfold on_peer_data. simpl. by rewrite lookup_delete_eq.
Qed.

Lemma camera_lifecycle_witness :
  ∃ p1 p2 p3,
    register_video zero_memory demo_camera 3 demo_producer
    = Done (p1, [PCall (InviteVideo (mkGBInviteRequest "34020000001320000001"
                          "10.0.0.1:8086" 0 0 TransmissionUDP)) 3000 (Some 0%N)]) ∧
    on_invite (mkRtpEnv true true) 0 true
      (mkInviteVideoResponse "id7"
         (Some (mkGBInviteVideoResponse "10.0.0.9:30000" 90000 96 "PS"))) p1
    = Done (p2, [PSdp 3 (gb_sdp "34020000001320000001" 96 "PS" 90000);
                 PCall (SendAck "id7") 0 None]) ∧
    mRegisteredPeers (mpNetworkServer p2) !! "10.0.0.9:30000"
      = Some (mkPeer "10.0.0.9:30000" 0%N) ∧
    (∀ data, on_peer_data 0 data p2 = [PDemux 0 data]) ∧
    unregister_video demo_camera p2 = Done (p3, [PCall (TearDown "id7") 0 None]) ∧
    (∀ data, on_peer_data 0 data p3 = []).
Proof.
  refine (camera_lifecycle zero_memory demo_camera 3 "id7" "10.0.0.9:30000" "PS"
            90000 96 demo_producer (newRtpProducer_ok _ _) eq_refl eq_refl eq_refl
            eq_refl _ _); [|done].
  unfold bandwidth_ok. simpl. lia.
Defined.

(** A camera that is unregistered before its invitation is answered is never
    torn down. [UnregisterVideo] knows no identifier yet and sends nothing; the
    answer, whatever it is, finds the context gone and sends neither an
    acknowledgement nor a tear-down. *)
Theorem early_unregister_leaks (mem : indeterminate) (v : VideoRequest) (a : N)
    (p : RtpProducer)
    (Hf : _use_file v = false) (Hg : _use_gb v = true)
    (Hn : vfind v (mRtpVideoContextMap p) = None) :
  ∃ p1 p2 call,
    register_video mem v a p = Done (p1, [call]) ∧
    unregister_video v p1 = Done (p2, []) ∧
    ∀ e ok r, on_invite e (next_context p) ok r p2 = Done (p2, []).
Proof.
  destruct (register_camera mem v a p Hf Hg Hn) as (p1 & Hr & Hv & Hc & _).
  exists p1. eexists _, _. split; [done|]. unfold unregister_video.
  rewrite Hf, Hg, Hv, Hc. orun. split; [done|]. intros e ok r. unfold on_invite, invite_failed.
  simpl. by rewrite lookup_delete_eq.
Qed.

Lemma early_unregister_leaks_witness :
  ∃ p1 p2 call,
    register_video zero_memory demo_camera 3 demo_producer = Done (p1, [call]) ∧
    unregister_video demo_camera p1 = Done (p2, []) ∧
    ∀ e ok r, on_invite e 0 ok r p2 = Done (p2, []).
Proof.
  exact (early_unregister_leaks zero_memory demo_camera 3 demo_producer
           eq_refl eq_refl eq_refl).
Defined.

(** A camera that streams a second time from the same peer stays dark. No
    code unregisters a peer; so the function of the earlier stream, whose
    context is gone, stays in the table, the new stream is answered with an SDP
    and acknowledged, and the data of the peer is dropped. *)
Theorem second_stream_dark (mem : indeterminate) (v : VideoRequest) (a old : N)
    (id peer encoding : string) (frequency payload : Z) (p : RtpProducer)
    (Hf : _use_file v = false) (Hg : _use_gb v = true)
    (Hn : vfind v (mRtpVideoContextMap p) = None)
    (Hpeer : mRegisteredPeers (mpNetworkServer p) !! peer = Some (mkPeer peer old))
    (Hold : rtp_contexts p !! old = None) (Hlt : (old < next_context p)%N)
    (Hb : bandwidth_ok (mConfig p)) :
  ∃ p1 p2 call,
    register_video mem v a p = Done (p1, [call]) ∧
    on_invite (mkRtpEnv true true) (next_context p) true
      (mkInviteVideoResponse id
         (Some (mkGBInviteVideoResponse peer frequency payload encoding))) p1
    = Done (p2, [PSdp a (gb_sdp (gbid v) payload encoding frequency);
                 PCall (SendAck id) 0 None]) ∧
    mRegisteredPeers (mpNetworkServer p2) !! peer = Some (mkPeer peer old) ∧
    ∀ data, on_peer_data old data p2 = [].
Proof.
  destruct (register_camera mem v a p Hf Hg Hn) as (p1 & Hr & _ & Hc & Hcfg & Hnet).
  assert (Hold1 : rtp_contexts p1 !! old = None).
  { revert Hr. unfold register_video. rewrite Hf, Hg, Hn. intros [= <-]. simpl.
    rewrite lookup_insert_ne; [done|lia]. }
  exists p1. eexists _, _. split; [done|].
  rewrite (on_invite_success _ _ id peer frequency payload encoding p1 Hc)
    by (by rewrite Hcfg). split; [done|]. simpl. unfold registerPeer.
  rewrite Hnet, Hpeer. split; [done|]. intros data. unfold on_peer_data. simpl.
  rewrite lookup_insert_ne by lia. by rewrite Hold1.
Qed.

(** The producer after one whole life of the camera. *)
Definition demo_after : RtpProducer :=
  match (
    '(p, _) ← register_video zero_memory demo_camera 3 demo_producer;
    '(p, _) ← on_invite (mkRtpEnv true true) 0 true
                (mkInviteVideoResponse "id7"
                   (Some (mkGBInviteVideoResponse "10.0.0.9:30000" 90000 96 "PS"))) p;
    '(p, _) ← unregister_video demo_camera p;
    Done p) with
  | Done p => p
  | Fault _ => demo_producer
  end.

Lemma second_stream_dark_witness :
  ∃ p1 p2 call,
    register_video zero_memory demo_camera 4 demo_after = Done (p1, [call]) ∧
    on_invite (mkRtpEnv true true) 1 true
      (mkInviteVideoResponse "id8"
         (Some (mkGBInviteVideoResponse "10.0.0.9:30000" 90000 96 "PS"))) p1
    = Done (p2, [PSdp 4 (gb_sdp "34020000001320000001" 96 "PS" 90000);
                 PCall (SendAck "id8") 0 None]) ∧
    mRegisteredPeers (mpNetworkServer p2) !! "10.0.0.9:30000"
      = Some (mkPeer "10.0.0.9:30000" 0%N) ∧
    ∀ data, on_peer_data 0 data p2 = [].
Proof.
  apply (second_stream_dark zero_memory demo_camera 4 0 "id8" "10.0.0.9:30000" "PS"
           90000 96 demo_after); try (vm_compute; reflexivity).
  unfold bandwidth_ok. vm_compute. split; congruence.
Defined.

(** A refused invitation leaves its registration behind. When the
    invitation of a camera fails, the error is reported to the proxy and the
    context stays; every later registration of the camera is refused until
    somebody unregisters it, which the service does not do for a proxy that
    never got an SDP. *)
Theorem failed_invite_blocks (mem : indeterminate) (v : VideoRequest) (a : N)
    (p : RtpProducer)
    (Hf : _use_file v = false) (Hg : _use_gb v = true)
    (Hn : vfind v (mRtpVideoContextMap p) = None) :
  ∃ p1 call,
    register_video mem v a p = Done (p1, [call]) ∧
    (∀ e r, on_invite e (next_context p) false r p1 = Done (p1, [PError a])) ∧
    ∀ b, register_video mem v b p1 = Done (p1, [PError b]).
Proof.
  destruct (register_camera mem v a p Hf Hg Hn) as (p1 & Hr & Hv & Hc & _).
  exists p1. eexists. split; [done|]. split.
  - intros e r. unfold on_invite, invite_failed. by rewrite Hc.
  - intros b. unfold register_video. by rewrite Hf, Hg, Hv.
Qed.

Lemma failed_invite_blocks_witness :
  ∃ p1 call,
    register_video zero_memory demo_camera 3 demo_producer = Done (p1, [call]) ∧
    (∀ e r, on_invite e 0 false r p1 = Done (p1, [PError 3])) ∧
    ∀ b, register_video zero_memory demo_camera b p1 = Done (p1, [PError b]).
Proof.
  exact (failed_invite_blocks zero_memory demo_camera 3 demo_producer
           eq_refl eq_refl eq_refl).
Defined.

(** The H264 buffer. For a stream answered as H264 the encoder is given the
    start code 00 00 01 and the frame when both fit in the bandwidth of the
    configuration, and a longer frame is written past the end of the buffer; for
    any other encoding of a new stream the frame is passed on as it is. *)
Theorem payload_buffer_bounds (config : ProducerConfig) (v : VideoRequest) (a : N)
    (id encoding : string) (frame : list Z) :
  RtpOnPacket (streaming_context config (waiting_context v a) id encoding) frame
  = if bool_decide (encoding = "H264") then
      if Z.of_nat (length frame) + 3 <=? max_bandwidth_in_mb config * 1048576
      then Done (0 :: 0 :: 1 :: frame) else Fault OutOfBounds
    else Done frame.
Proof.
  unfold RtpOnPacket, streaming_context. simpl. case_bool_decide; [|done].
  by destruct (_ <=? _).
Qed.

(** * Files *)

(** How the first section of the probe ends, by the answers of its environment. It
    plays with a timer; it breaks with the value [ret] then has, after the SDP was
    reported or before; or the code faults. *)
Inductive verdict : Type :=
| Plays (timer : nat * Z)
| Breaks (sdp : bool) (code : Z)
| Crashes (f : fault).

Definition probe_verdict (e : probe_env) (p : RtpProducer) : verdict :=
  if (open_input e).1 <? 0 then Breaks false (open_input e).1
  else if find_stream_info e <? 0 then Breaks false (find_stream_info e)
  else if best_stream e <? 0 then Breaks false (best_stream e)
  else match streams (open_input e).2 !! Z.to_nat (best_stream e) with
  | None => Crashes OutOfBounds
  | Some st =>
      if alloc_output e <? 0 then Breaks false (alloc_output e)
      else if negb (new_stream e) then Breaks false (alloc_output e)
      else if parameters_copy e <? 0 then Breaks false (parameters_copy e)
      else if negb (avio_allocated e) then Crashes NullDeref
      else if (sdp_create e).1 <? 0 then Breaks false (sdp_create e).1
      else if (write_header e).1 <? 0 then Breaks false (write_header e).1
      else if (mFileIoBases p =? 0)%nat then Crashes DivByZero
      else if (avg_frame_rate st).1 =? 0 then Crashes BadConversion
      else if negb (event_created e) || (event_add e <? 0)
      then Breaks true (write_header e).1
      else Plays (Z.to_nat (u64 (mEventBaseCursor p) mod Z.of_nat (mFileIoBases p)),
                  Z.quot (1000000 * (avg_frame_rate st).2) (avg_frame_rate st).1)
  end.

Definition sdp_events (e : probe_env) (a : N) (sdp : bool) : list prod_event :=
  if sdp then [PSdp a (sdp_create e).2] else [].

(** The probe is what [probe_verdict] says; the context stays in the map. *)
Lemma probe_spec e v a c p :
  rtp_ok p → vfind v (mFileVideoContextMap p) = Some c →
  let ends r sdp c' := ∃ p', probe e v a p = Done (p', r, sdp_events e a sdp) ∧
    vfind v (mFileVideoContextMap p') = Some c' ∧ proxy c' = proxy c in
  match probe_verdict e p with
  | Plays timer => ∃ c', ends None true c' ∧ mpFileEvent c' = Some timer
  | Breaks sdp code => ∃ c', ends (Some code) sdp c'
  | Crashes f => probe e v a p = Fault f
  end.
Proof.
  intros Hok Hc. cbn zeta.
  unfold probe, probe_verdict, probe_output, sdp_events. rewrite Hc.
  assert (match iFmtCtx c with Wild => Fault UninitRead | _ => Done tt end = Done tt) as ->.
  { apply vfind_Some_lookup in Hc as [w Hw].
    destruct (ok_files _ Hok _ _ _ Hw) as (_ & _ & Hn). unfold no_wild, destroy_context in Hn.
    by destruct (iFmtCtx c). }
  assert (Hput : ∀ c' (r : option Z) (evs : list prod_event) p1, proxy c' = proxy c →
    ∃ c2 p',
    Done (put_file v c' p1, r, evs) = Done (p', r, evs) ∧
    vfind v (mFileVideoContextMap p') = Some c2 ∧ proxy c2 = proxy c).
  { intros c' r evs p1 Hp. exists c', (put_file v c' p1). by rewrite put_file_lookup. }
  destruct (open_input e) as [r1 input]. simpl. orun.
  destruct (r1 <? 0); [by apply Hput|]. destruct (find_stream_info e <? 0); [by apply Hput|].
  destruct (best_stream e <? 0); [by apply Hput|].
  destruct (streams input !! _) as [st|]; orun; [|done]. simpl.
  destruct (alloc_output e <? 0); [by apply Hput|].
  destruct (negb (new_stream e)); [by apply Hput|].
  destruct (parameters_copy e <? 0); [by apply Hput|].
  destruct (avio_allocated e); orun; [|done]. destruct (sdp_create e) as [r2 sdp]. simpl.
  destruct (r2 <? 0); [by apply Hput|]. destruct (write_header e) as [r3 tb]. simpl.
  destruct (r3 <? 0); [by apply Hput|]. unfold start_timer, frame_interval. simpl.
  destruct (Nat.eqb_spec (mFileIoBases p) 0) as [->|Hb]; [done|].
  rewrite (bool_decide_eq_true_2 (mFileIoBases p ≠ 0%nat)) by done. orun.
  destruct (Z.eqb_spec (avg_frame_rate st).1 0) as [Hz|Hz];
    [by rewrite bool_decide_eq_true_2|rewrite bool_decide_eq_false_2 by done]. orun.
  destruct (event_created e); simpl; [destruct (event_add e <? 0)|]; orun;
    [by apply Hput| |by apply Hput].
  eexists. split.
  { eexists. split; [done|]. rewrite put_file_lookup. by split. }
  done.
Qed.

(** Erasing takes the video out and leaves the others. *)
Lemma erase_file_gone v p :
  rtp_ok p → _use_file v = true →
  ∃ p', erase_file v p = Done p' ∧ vfind v (mFileVideoContextMap p') = None ∧
    ∀ w, cmpStr w ≠ cmpStr v →
      vfind w (mFileVideoContextMap p') = vfind w (mFileVideoContextMap p).
Proof.
  intros Hok Hf. destruct (erase_file_ok v p Hok Hf) as (p' & He & _). exists p'.
  split; [done|]. revert He. unfold erase_file.
  destruct (vfind v (mFileVideoContextMap p)) as [c|] eqn:Hc; [|by intros [= <-]].
  destruct (destroy_context c); orun; [|done]. intros [= <-]. simpl. unfold vfind, verase.
  rewrite lookup_delete_eq. split; [done|]. intros w Hw. by rewrite lookup_delete_ne.
Qed.


Definition demo_probe (added : Z) : probe_env :=
  mkProbeEnv (0, demo_input) 0 1 0 true 0 true (0, "v=0") (0, (1, 90000)) true added.
Definition demo_probing : RtpProducer :=
  put_file demo_file (newFileVideoContext zero_memory demo_file 3)
    (mkRtpProducer demo_producer_config 5 2 (newPool 2) ∅ ∅ ∅ 0 newNetworkServer).

Lemma demo_probing_ok : rtp_ok demo_probing.
Proof.
  split; try done. unfold demo_probing, put_file. rewrite vset_new by done. simpl.
  by intros k v c [[<- [= <- <-]]|[_ Hk]]%lookup_insert_Some.
Qed.


(** Unregistering a file during a failing probe. Between the probe that
    failed and the report of its error the lock is free; when the video is
    unregistered in between, the report dereferences the end iterator of the
    map. *)
Theorem unregister_during_probe (e : probe_env) (v : VideoRequest) (a : N) (code : Z)
    (c : FileVideoContext) (p : RtpProducer)
    (Hok : rtp_ok p) (Hf : _use_file v = true)
    (Hc : vfind v (mFileVideoContextMap p) = Some c)
    (Hv : probe_verdict e p = Breaks false code) (Hcode : code ≠ 0) :
  let task := RegisterFileVideo e (mkProbeTask v a) in
  ∃ p1 p2, task Probing p = Done (Reporting code, p1, []) ∧
    unregister_video v p1 = Done (p2, []) ∧
    task (Reporting code) p2 = Fault EndDeref.
Proof.
  intros task. pose proof (probe_spec e v a c p Hok Hc) as Hp. cbn zeta in Hp.
  rewrite Hv in Hp. destruct Hp as (c' & p1 & Hp & _ & _). simpl in Hp.
  destruct (probe_ok _ _ _ _ _ _ _ Hok Hp) as [Hok1 _].
  destruct (erase_file_gone v p1 Hok1 Hf) as (p2 & He & Hgone & _).
  exists p1, p2. unfold task, unregister_video. simpl. rewrite Hp, Hf, He. orun.
  split_and!; [done..|]. unfold report_failure.
  by rewrite (proj2 (Z.eqb_neq _ _)), Hgone.
Qed.

Lemma unregister_during_probe_witness :
  let e := mkProbeEnv (-2, demo_input) 0 1 0 true 0 true (0, "v=0") (0, (1, 90000))
             true 0 in
  let task := RegisterFileVideo e (mkProbeTask demo_file 3) in
  ∃ p1 p2, task Probing demo_probing = Done (Reporting (-2), p1, []) ∧
    unregister_video demo_file p1 = Done (p2, []) ∧
    task (Reporting (-2)) p2 = Fault EndDeref.
Proof.
  intros e. by apply (unregister_during_probe e demo_file 3 (-2)
    (newFileVideoContext zero_memory demo_file 3) demo_probing demo_probing_ok).
Defined.

(** The constructor leaves the format contexts uninitialised. When the
    memory of the new context does not happen to hold null pointers, the probe
    hands a wild pointer to FFmpeg, and unregistering before the probe compares
    and frees wild pointers. *)
Theorem uninitialised_contexts (mem : indeterminate) (e : probe_env)
    (v : VideoRequest) (a : N) (p p' : RtpProducer) (evs : list prod_event)
    (Hmem : ind_iFmtCtx mem = Wild) (Hf : _use_file v = true)
    (Hn : vfind v (mFileVideoContextMap p) = None)
    (Hr : register_video mem v a p = Done (p', evs)) :
  probe e v a p' = Fault UninitRead ∧ unregister_video v p' = Fault UninitRead.
Proof.
  unfold register_video in Hr. rewrite Hf, Hn in Hr. revert Hr.
  destruct (submit _ _) as [q|]; orun; [|done]. intros [= <- <-].
  assert (Hfind : vfind v (mFileVideoContextMap (with_pool q (with_files
            (vset v (newFileVideoContext mem v a) (mFileVideoContextMap p)) p)))
          = Some (newFileVideoContext mem v a)) by (apply (put_file_lookup v _ p)).
  split.
  - unfold probe. rewrite Hfind. simpl. by rewrite Hmem.
  - unfold unregister_video. rewrite Hf. unfold erase_file. rewrite Hfind.
    unfold destroy_context. simpl. by rewrite Hmem.
Qed.

Lemma uninitialised_contexts_witness :
  let mem := mkIndeterminate (0, 0) 0 Wild Null in
  ∃ p' evs, register_video mem demo_file 3 demo_producer = Done (p', evs) ∧
    probe (demo_probe 0) demo_file 3 p' = Fault UninitRead ∧
    unregister_video demo_file p' = Fault UninitRead.
Proof.
  intros mem. eexists _, _. split; [reflexivity|].
  by eapply (uninitialised_contexts mem (demo_probe 0) demo_file 3 demo_producer).
Defined.

(** The truncation of a quotient that is not too far from the exact one. *)
Lemma quot_near_pos x y a b :
  0 ≤ x < 2 ^ 53 → 0 < y → 0 < b → Z.abs (a * y - x * b) * 2 ^ 53 ≤ x * b →
  (x mod y = 0 → a * y = x * b) → Z.quot a b = Z.quot x y.
Proof.
  intros Hx Hy Hb Herr Hexact. rewrite (Z.quot_div_nonneg x y) by lia.
  pose proof (Z.div_mod x y ltac:(lia)) as Hdm.
  pose proof (Z.mod_pos_bound x y Hy) as Hm. set (q := x / y) in *. set (r := x mod y) in *.
  assert (Hq : 0 ≤ q) by (apply Z.div_pos; lia).
  destruct (decide (r = 0)) as [Hr|Hr].
  - assert (a = q * b) as -> by (specialize (Hexact Hr); nia). apply Z.quot_mul. lia.
  - assert (Hnear : Z.abs (a * y - x * b) < b) by nia.
    assert (q * b < a < (q + 1) * b) as [H1 H2] by nia.
    rewrite Z.quot_div_nonneg by nia. symmetry. apply (Z.div_unique _ _ _ (a - q * b)); nia.
Qed.

(** The quotient [a / b] of two integers of less than 2^53, rounded by IEEE 754 to
    within half a unit in the last place and exact where it is a number, truncates to
    the integer quotient; so does the interval of the frame timer. *)
Theorem frame_interval_rounding (num den a b : Z)
    (Hnum : num ≠ 0) (Hden : - 2 ^ 31 ≤ den < 2 ^ 31) (Hb : 0 < b)
    (Hround : Z.abs (a * num - 1000000 * den * b) * 2 ^ 53 ≤ Z.abs (1000000 * den * b))
    (Hexact : 1000000 * den mod num = 0 → a * num = 1000000 * den * b) :
  frame_interval (num, den) = Done (Z.quot a b).
Proof.
  unfold frame_interval. simpl. rewrite bool_decide_eq_false_2 by done. f_equal.
  set (x := 1000000 * den) in *. symmetry.
  assert (Hx : - 2 ^ 53 < x < 2 ^ 53) by lia. clearbody x. clear den Hden.
  assert (Hmod : ∀ x' y', x' = x ∨ x' = - x → y' = num ∨ y' = - num →
    x' mod y' = 0 → a * num = x * b).
  { intros x' y' Hx' Hy' Hm. apply Hexact. apply Z.mod_divide in Hm; [|lia].
    apply Z.mod_divide; [done|]. destruct Hx' as [-> | ->], Hy' as [-> | ->];
      rewrite ?Z.divide_opp_l, ?Z.divide_opp_r in Hm; done. }
  destruct (Z.le_gt_cases 0 x), (Z.le_gt_cases 0 num).
  - apply quot_near_pos; [lia..| |by apply Hmod; auto]. nia.
  - rewrite <- (Z.opp_involutive num), <- (Z.opp_involutive a).
    rewrite Z.quot_opp_l, Z.quot_opp_r by lia. f_equal.
    apply quot_near_pos; [lia..| |]; [nia|].
    intros Hm. apply Hmod in Hm; [|auto..]. lia.
  - rewrite <- (Z.opp_involutive x), <- (Z.opp_involutive a).
    rewrite (Z.quot_opp_l (- a)), (Z.quot_opp_l (- x)) by lia. f_equal. apply quot_near_pos; [lia..| |]; [nia|].
    intros Hm. apply Hmod in Hm; [|auto..]. lia.
  - rewrite <- (Z.opp_involutive x), <- (Z.opp_involutive num).
    rewrite Z.quot_opp_opp by lia. apply quot_near_pos; [lia..| |]; [nia|].
    intros Hm. apply Hmod in Hm; [|auto..]. lia.
Qed.

(** The interval of the frame timer. For a frame rate num/den with positive
    [int] parts the interval is at most one frame late by a microsecond and
    never negative, and it is a valid [tv_usec] exactly above one frame per
    second; at one frame per second or less [tv_usec] holds a second or more. *)
Theorem frame_interval_bounds (num den : Z) (Hn : 0 < num) (Hd : 0 < den) :
  ∃ us, frame_interval (num, den) = Done us ∧
    us * num ≤ 1000000 * den < (us + 1) * num ∧ 0 ≤ us ∧
    (us < 1000000 ↔ den < num).
Proof.
  unfold frame_interval. simpl. rewrite bool_decide_eq_false_2 by lia.
  eexists. split; [done|]. rewrite Z.quot_div_nonneg by lia.
  pose proof (Z.div_mod (1000000 * den) num) as Hdm.
  pose proof (Z.mod_pos_bound (1000000 * den) num Hn) as Hmod.
  set (q := (1000000 * den) / num) in *.
  assert (Hq : 1000000 * den = num * q + (1000000 * den) mod num) by (apply Hdm; lia).
  split_and!; nia.
Qed.

Lemma frame_interval_bounds_witness :
  ∃ us, frame_interval (30000, 1001) = Done us ∧
    us * 30000 ≤ 1000000 * 1001 < (us + 1) * 30000 ∧ 0 ≤ us ∧
    (us < 1000000 ↔ 1001 < 30000).
Proof. apply (frame_interval_bounds 30000 1001); lia. Defined.
