(* ===== verification/Greeter.v ===== *)
(** The greeter of core/unittest/rtp_producer_ut.cpp, the implementation of the
    RPC service that the producer's test runs against: it invites a camera by
    reserving a local port, starts a process that is to push RTP from this port when
    the invitation is acknowledged, and kills it at the tear-down. [popen2] starts
    the process; it is modelled with its file descriptors. Here the producer of
    core/src/rtp_producer.cpp and this service meet over RPCs that arrive in any
    order. *)
From stdpp Require Import base gmap strings list pretty numbers.
From S2P Require Import Prelude VideoRequest ThreadPool NetworkServer Producer FileProducer RtpProducer Streams.

#[local] Open Scope Z_scope.

(** * [popen2] *)

(** What a file descriptor refers to: something the process had before, or an
    end of the two pipes. *)
Inductive fdesc : Type :=
| Inherited (n : N)
| StdinRead | StdinWrite | StdoutRead | StdoutWrite.

Abbreviation fd_table := (gmap N fdesc).

(** What the kernel answers: the ends of the two pipes, and the result of
    [fork] in the parent. *)
Record popen_env : Type := mkPopenEnv {
  pipe_stdin : option (N * N);
  pipe_stdout : option (N * N);
  forked : Z;
}.

Definition dup2 (from to : N) (t : fd_table) : fd_table :=
  match t !! from with Some d => <[to := d]> t | None => t end.

(** The descriptors of the child when it calls [execvp]. *)
Definition popen_child (r1 w1 r2 w2 : N) (t : fd_table) : fd_table :=
  dup2 w2 1 (delete r2 (dup2 r1 0 (delete w1 t))).

(** The result, the descriptors of the parent afterwards, and those of the child
    when there is one. [infp] and [outfp] say whether the caller wants the other
    ends. *)
Definition popen2 (e : popen_env) (infp outfp : bool) (t : fd_table)
  : Z * fd_table * option fd_table :=
  match pipe_stdin e with
  | None => (-1, t, None)
  | Some (r1, w1) =>
      let t := <[w1 := StdinWrite]> (<[r1 := StdinRead]> t) in
      match pipe_stdout e with
      | None => (-1, t, None)
      | Some (r2, w2) =>
          let t := <[w2 := StdoutWrite]> (<[r2 := StdoutRead]> t) in
          if forked e <? 0 then (forked e, t, None)
          else
            let child := popen_child r1 w1 r2 w2 t in
            let t := if infp then t else delete w1 t in
            let t := if outfp then t else delete r2 t in
            (forked e, t, Some child)
      end
  end.

(** * The service *)

Record RtpSession : Type := mkRtpSession {
  pushPort : Z;
  pushPid : Z;
}.

(** [descriptors] are those of the process the service runs in. *)
Record VideoGreeterServiceImpl : Type := mkGreeter {
  portToUse : Z;
  requestId : Z;
  mPushSessions : gmap string RtpSession;
  descriptors : fd_table;
}.

Definition newGreeter (local_port_begin_with : Z) (t : fd_table)
  : VideoGreeterServiceImpl :=
  mkGreeter local_port_begin_with 0 ∅ t.

(** What the service does to processes: [execvp] in the child with what it finds at
    [argv[1]], and [kill]. *)
Inductive greeter_event : Type :=
| Execs (pid : Z) (argv1 : outcome string)
| Kills (pid : Z).

(** A string and whether it still lives; what [c_str] of it points to. *)
Record cpp_string : Type := mkString { chars : string; alive : bool }.
Definition read_c_str (s : cpp_string) : outcome string :=
  if alive s then Done (chars s) else Fault UseAfterFree.

(** [fmt::format] makes a temporary, which ends with the declaration of [argv]. *)
Definition end_of_lifetime (s : cpp_string) : cpp_string := mkString (chars s) false.

(** [fetch_add] of an atomic [int] wraps. *)
Definition greeter_InviteVideo (s : VideoGreeterServiceImpl)
  : InviteVideoResponse * VideoGreeterServiceImpl :=
  let id := pretty (requestId s) in
  let port := portToUse s in
  (mkInviteVideoResponse id
     (Some (mkGBInviteVideoResponse ("127.0.0.1:" +:+ pretty port) 90000 33 "MP2T")),
   mkGreeter (wrap32 (port + 2)) (wrap32 (requestId s + 1))
     (<[id := mkRtpSession port 0]> (mPushSessions s)) (descriptors s)).

Definition greeter_SendAck (e : popen_env) (id : string) (s : VideoGreeterServiceImpl)
  : VideoGreeterServiceImpl * list greeter_event :=
  match mPushSessions s !! id with
  | Some ses =>
      let port := end_of_lifetime (mkString (pretty (pushPort ses)) true) in
      let '(pid, t, child) := popen2 e false false (descriptors s) in
      (mkGreeter (portToUse s) (requestId s)
         (<[id := mkRtpSession (pushPort ses) pid]> (mPushSessions s)) t,
       match child with Some _ => [Execs pid (read_c_str port)] | None => [] end)
  | None => (s, [])
  end.

Definition greeter_TearDown (id : string) (s : VideoGreeterServiceImpl)
  : VideoGreeterServiceImpl * list greeter_event :=
  match mPushSessions s !! id with
  | Some ses =>
      if pushPid ses =? 0 then (s, [])
      else (mkGreeter (portToUse s) (requestId s) (delete id (mPushSessions s))
              (descriptors s), [Kills (pushPid ses)])
  | None => (s, [])
  end.

(** * Producer and service over RPC *)

(** Calls on their way to the service, answers on their way back, and what the
    service has done to processes. *)
Record session : Type := mkSession {
  producer : RtpProducer;
  greeter : VideoGreeterServiceImpl;
  calls : list (rpc * option N);
  answers : list (N * InviteVideoResponse);
  effects : list greeter_event;
}.

Definition calls_of (evs : list prod_event) : list (rpc * option N) :=
  omap (fun e => match e with PCall r _ ctx => Some (r, ctx) | _ => None end) evs.

Inductive input : Type :=
| Register (v : VideoRequest) (a : N)
| Unregister (v : VideoRequest)
| Deliver (i : nat) (e : popen_env)
| Answer (i : nat).

Definition serve (e : popen_env) (r : rpc) (ctx : option N) (s : session) : session :=
  match r with
  | InviteVideo _ =>
      let '(resp, g) := greeter_InviteVideo (greeter s) in
      mkSession (producer s) g (calls s)
        (answers s ++ match ctx with Some c => [(c, resp)] | None => [] end) (effects s)
  | SendAck id =>
      let '(g, evs) := greeter_SendAck e id (greeter s) in
      mkSession (producer s) g (calls s) (answers s) (effects s ++ evs)
  | TearDown id =>
      let '(g, evs) := greeter_TearDown id (greeter s) in
      mkSession (producer s) g (calls s) (answers s) (effects s ++ evs)
  end.

(** One input; any call on its way may be delivered next. *)
Definition session_step (mem : indeterminate) (i : input) (s : session)
  : outcome (option session) :=
  match i with
  | Register v a =>
      '(p, evs) ← register_video mem v a (producer s);
      Done (Some (mkSession p (greeter s) (calls s ++ calls_of evs) (answers s) (effects s)))
  | Unregister v =>
      '(p, evs) ← unregister_video v (producer s);
      Done (Some (mkSession p (greeter s) (calls s ++ calls_of evs) (answers s) (effects s)))
  | Deliver k e =>
      Done (match calls s !! k with
            | Some (r, ctx) =>
                Some (serve e r ctx (mkSession (producer s) (greeter s) (delete k (calls s))
                                       (answers s) (effects s)))
            | None => None
            end)
  | Answer k =>
      match answers s !! k with
      | Some (ctx, resp) =>
          '(p, evs) ← on_invite (mkRtpEnv true true) ctx true resp (producer s);
          Done (Some (mkSession p (greeter s) (calls s ++ calls_of evs)
                        (delete k (answers s)) (effects s)))
      | None => Done None
      end
  end.

Fixpoint run_session (mem : indeterminate) (ins : list input) (s : session)
  : outcome (option session) :=
  match ins with
  | [] => Done (Some s)
  | i :: ins' =>
      r ← session_step mem i s;
      match r with
      | Some s' => run_session mem ins' s'
      | None => Done None
      end
  end.

(** * File descriptors *)

(** [popen2] leaves two descriptors open. When both pipes and the fork
    succeed, with four new descriptors, the parent keeps the read end of the
    child's standard input and the write end of its standard output for good,
    beside the ends the caller asked for; the child has the pipes as its standard
    input and output and neither of the parent's ends. *)
Theorem popen2_leaks (e : popen_env) (infp outfp : bool) (t : fd_table) (r1 w1 r2 w2 : N)
    (Hp1 : pipe_stdin e = Some (r1, w1)) (Hp2 : pipe_stdout e = Some (r2, w2))
    (Hf : 0 <= forked e) (Hd : NoDup [0%N; 1%N; r1; w1; r2; w2])
    (Hn : t !! r1 = None ∧ t !! w1 = None ∧ t !! r2 = None ∧ t !! w2 = None) :
  ∃ t' child, popen2 e infp outfp t = (forked e, t', Some child) ∧
    t' !! r1 = Some StdinRead ∧ t' !! w2 = Some StdoutWrite ∧
    t' !! w1 = (if infp then Some StdinWrite else None) ∧
    t' !! r2 = (if outfp then Some StdoutRead else None) ∧
    size t' = (size t + 2 + Nat.b2n infp + Nat.b2n outfp)%nat ∧
    child !! 0%N = Some StdinRead ∧ child !! 1%N = Some StdoutWrite ∧
    child !! w1 = None ∧ child !! r2 = None.
Proof.
  destruct Hn as (N1 & N2 & N3 & N4). rewrite !list.NoDup_cons, !not_elem_of_cons in Hd.
  destruct_and! Hd. unfold popen2. rewrite Hp1, Hp2, (proj2 (Z.ltb_ge _ _)) by lia.
  eexists _, _. split; [done|].
  assert (Hsz : size (<[w2:=StdoutWrite]> (<[r2:=StdoutRead]>
    (<[w1:=StdinWrite]> (<[r1:=StdinRead]> t)))) = (size t + 4)%nat).
  { rewrite !map_size_insert_None by (by simplify_map_eq). lia. }
  assert (Hdw : ∀ k d (t0 : fd_table), t0 !! k = Some d →
    size (delete k t0) = pred (size t0)).
  { intros k d t0 Hk. by rewrite map_size_delete, Hk. }
  split_and!.
  - destruct infp, outfp; by simplify_map_eq.
  - destruct infp, outfp; by simplify_map_eq.
  - destruct infp, outfp; by simplify_map_eq.
  - destruct infp, outfp; by simplify_map_eq.
  - destruct infp, outfp; rewrite ?(Hdw r2 StdoutRead), ?(Hdw w1 StdinWrite), ?Hsz
      by (by simplify_map_eq); simpl; lia.
  - unfold popen_child, dup2. by simplify_map_eq.
  - unfold popen_child, dup2. by simplify_map_eq.
  - unfold popen_child, dup2. by simplify_map_eq.
  - unfold popen_child, dup2. by simplify_map_eq.
Qed.

(** * Cameras *)

Lemma pretty_N_go_nonempty x s : s ≠ EmptyString → pretty_N_go x s ≠ EmptyString.
Proof.
  revert s. induction (N.lt_wf_0 x) as [x _ IH]. intros s Hs.
  destruct (decide (x = 0)%N) as [->|]; [by rewrite pretty_N_go_0|].
  rewrite pretty_N_go_step by lia. apply IH; [|done]. apply N.div_lt; lia.
Qed.

Lemma pretty_Z_nonempty (z : Z) : pretty z ≠ EmptyString.
Proof.
  destruct z as [|p|p]; [done| |done].
  change (pretty (Npos p) ≠ EmptyString). unfold pretty, pretty_N.
  case_decide; [done|]. rewrite pretty_N_go_step by lia. by apply pretty_N_go_nonempty.
Qed.

(** Producer and service with no call under way. *)
Definition idle (p : RtpProducer) (g : VideoGreeterServiceImpl) : session :=
  mkSession p g [] [] [].

(** The kernel starts a process. *)
Definition popen_works (e : popen_env) (pid : Z) : Prop :=
  is_Some (pipe_stdin e) ∧ is_Some (pipe_stdout e) ∧ forked e = pid ∧ 0 < pid.

Section camera.
Variables (mem : indeterminate) (v : VideoRequest) (a : N) (p : RtpProducer)
  (g : VideoGreeterServiceImpl) (e : popen_env) (pid : Z).
#[local] Abbreviation id := (pretty (requestId g)).
#[local] Abbreviation peer := ("127.0.0.1:" +:+ pretty (portToUse g)).
Hypothesis Hf : _use_file v = false.
Hypothesis Hg : _use_gb v = true.
Hypothesis Hn : vfind v (mRtpVideoContextMap p) = None.
Hypothesis Hpeer : mRegisteredPeers (mpNetworkServer p) !! peer = None.
Hypothesis Hb : bandwidth_ok (mConfig p).
Hypothesis Hid : mPushSessions g !! id = None.
Hypothesis He : popen_works e pid.

(** The camera is registered and its invitation answered; the acknowledgement is
    on its way. *)
Definition invited (s : session) : Prop :=
  greeter s = (greeter_InviteVideo g).2 ∧ calls s = [(SendAck id, None)] ∧
  answers s = [] ∧ effects s = [] ∧
  mRegisteredPeers (mpNetworkServer (producer s)) !! peer
    = Some (mkPeer peer (next_context p)) ∧
  ∃ p', unregister_video v (producer s) = Done (p', [PCall (TearDown id) 0 None]).

Lemma session_invited :
  ∃ s, run_session mem [Register v a; Deliver 0 e; Answer 0] (idle p g)
       = Done (Some s) ∧ invited s.
Proof.
  destruct (register_camera mem v a p Hf Hg Hn) as (p1 & Hr & Hv & Hc & Hcfg & Hnet).
  unfold run_session, session_step, idle. simpl. rewrite Hr. orun. simpl.
  rewrite (on_invite_success _ _ _ _ _ _ _ p1 Hc) by (by rewrite Hcfg). orun. simpl.
  eexists. split; [done|]. unfold invited. simpl. split_and!; [done..| |].
  - unfold registerPeer. rewrite Hnet, Hpeer. simpl. by rewrite lookup_insert_eq.
  - unfold unregister_video. rewrite Hf, Hg. simpl. rewrite Hv. simpl.
    rewrite lookup_insert_eq. orun. simpl.
    rewrite bool_decide_eq_false_2 by apply pretty_Z_nonempty. by eauto.
Qed.

Lemma run_session_app is1 is2 s s' :
  run_session mem is1 s = Done (Some s') →
  run_session mem (is1 ++ is2) s = run_session mem is2 s'.
Proof.
  revert s. induction is1 as [|i is1 IH]; intros s; simpl; [by intros [= ->]|].
  destruct (session_step mem i s) as [[s1|]|]; orun; [by apply IH|done..].
Qed.

Lemma popen_started t : ∃ t' child, popen2 e false false t = (pid, t', Some child).
Proof.
  destruct He as ([[r1 w1] H1] & [[r2 w2] H2] & H3 & H4). unfold popen2.
  rewrite H1, H2, H3, (proj2 (Z.ltb_ge _ _)) by lia. by eauto.
Qed.
(** The service after the acknowledgement. *)
Definition acked (t' : fd_table) : VideoGreeterServiceImpl :=
  let g1 := (greeter_InviteVideo g).2 in
  mkGreeter (portToUse g1) (requestId g1)
    (<[id := mkRtpSession (portToUse g) pid]> (mPushSessions g1)) t'.

Lemma greeter_acks :
  ∃ t', greeter_SendAck e id (greeter_InviteVideo g).2
        = (acked t', [Execs pid (Fault UseAfterFree)]).
Proof.
  destruct (popen_started (descriptors g)) as (t' & child & Hpo). exists t'.
  unfold greeter_SendAck. simpl. rewrite lookup_insert_eq. by rewrite Hpo.
Qed.

Lemma greeter_tears_down t' :
  ∃ g', greeter_TearDown id (acked t') = (g', [Kills pid]) ∧
    mPushSessions g' = mPushSessions g.
Proof.
  assert (Hpid : 0 < pid) by apply He. unfold greeter_TearDown. simpl.
  rewrite lookup_insert_eq. simpl. rewrite (proj2 (Z.eqb_neq _ _)) by lia.
  eexists. split; [done|]. simpl.
  by rewrite !delete_insert_eq, delete_id.
Qed.

(** A camera against the service. For a camera that is not registered, a service that
    has not used the next identifier and a port whose peer is not known: when every RPC
    arrives in the order it was made, registering the camera and unregistering it later
    starts exactly one process and kills it; the sessions of the service are as before,
    and no call is left. The process takes its port from a string that is gone. *)
Theorem greeter_lifecycle :
  ∃ s1 s2,
    run_session mem [Register v a; Deliver 0 e; Answer 0; Deliver 0 e] (idle p g)
    = Done (Some s1) ∧
    effects s1 = [Execs pid (Fault UseAfterFree)] ∧
    mRegisteredPeers (mpNetworkServer (producer s1)) !! peer
      = Some (mkPeer peer (next_context p)) ∧
    run_session mem [Unregister v; Deliver 0 e] s1 = Done (Some s2) ∧
    effects s2 = [Execs pid (Fault UseAfterFree); Kills pid] ∧
    mPushSessions (greeter s2) = mPushSessions g ∧ calls s2 = [] ∧ answers s2 = [].
Proof.
  destruct session_invited as (s & Hs & Hgr & Hca & Han & Hef & Hpe & p' & Hun).
  destruct greeter_acks as [t' Hack]. destruct (greeter_tears_down t') as (g' & Htd & Hg').
  exists (mkSession (producer s) (acked t') [] [] [Execs pid (Fault UseAfterFree)]),
    (mkSession p' g' [] [] [Execs pid (Fault UseAfterFree); Kills pid]).
  pose proof (run_session_app [Register v a; Deliver 0 e; Answer 0] [Deliver 0 e] _ _ Hs)
    as Happ. cbn [app] in Happ. rewrite Happ. clear Happ Hs.
  split; [|split; [done|split; [done|split; [|done]]]].
  - simpl. rewrite Hca. simpl. rewrite Hgr, Hack, Han, Hef. done.
  - simpl. rewrite Hun. orun. simpl. by rewrite Htd.
Qed.

(** A tear-down that overtakes the acknowledgement. The two are calls of their own,
    made while the other one is still under way, and nothing orders them: the
    service finds no process to kill, then starts one, and nobody ever kills it. *)
Theorem teardown_overtakes_ack :
  ∃ s, run_session mem [Register v a; Deliver 0 e; Answer 0; Unregister v;
                        Deliver 1 e; Deliver 0 e] (idle p g) = Done (Some s) ∧
    effects s = [Execs pid (Fault UseAfterFree)] ∧ calls s = [] ∧ answers s = [] ∧
    mPushSessions (greeter s) !! id = Some (mkRtpSession (portToUse g) pid).
Proof.
  destruct session_invited as (s & Hs & Hgr & Hca & Han & Hef & Hpe & p' & Hun).
  destruct greeter_acks as [t' Hack].
  exists (mkSession p' (acked t') [] [] [Execs pid (Fault UseAfterFree)]).
  pose proof (run_session_app [Register v a; Deliver 0 e; Answer 0]
    [Unregister v; Deliver 1 e; Deliver 0 e] _ _ Hs) as Happ. cbn [app] in Happ.
  rewrite Happ. clear Happ Hs.
  split; [|split_and!; [done..|simpl; by rewrite lookup_insert_eq]].
  simpl. rewrite Hun. orun. rewrite Hca. simpl. rewrite Hgr.
  assert (Hnone : greeter_TearDown id (greeter_InviteVideo g).2
                  = ((greeter_InviteVideo g).2, [])).
  { unfold greeter_TearDown. simpl. by rewrite lookup_insert_eq. }
  rewrite Hnone. simpl. change (mkGreeter _ _ _ _) with (greeter_InviteVideo g).2.
  by rewrite Hack, Han, Hef.
Qed.
End camera.

(** A failed [popen2] is taken for a process: its result -1 is kept as the process
    to kill, and [kill(-1, SIGTERM)] goes to every process. *)
Theorem failed_push_kills_all (e : popen_env) (id : string) (ses : RtpSession)
    (s : VideoGreeterServiceImpl)
    (Hs : mPushSessions s !! id = Some ses) (He : pipe_stdin e = None) :
  greeter_SendAck e id s
  = (mkGreeter (portToUse s) (requestId s)
       (<[id := mkRtpSession (pushPort ses) (-1)]> (mPushSessions s)) (descriptors s), []) ∧
  (greeter_TearDown id (greeter_SendAck e id s).1).2 = [Kills (-1)].
Proof.
  unfold greeter_SendAck, greeter_TearDown. rewrite Hs. unfold popen2. rewrite He. simpl.
  by rewrite lookup_insert_eq.
Qed.

(** * The fixture of the test *)

Definition test_greeter : VideoGreeterServiceImpl := newGreeter 12300 ∅.
Definition test_popen : popen_env := mkPopenEnv (Some (5%N, 6%N)) (Some (7%N, 8%N)) 4711.

Lemma greeter_lifecycle_witness :
  ∃ s1 s2,
    run_session zero_memory [Register demo_camera 3; Deliver 0 test_popen; Answer 0;
                             Deliver 0 test_popen] (idle demo_producer test_greeter)
    = Done (Some s1) ∧
    effects s1 = [Execs 4711 (Fault UseAfterFree)] ∧
    mRegisteredPeers (mpNetworkServer (producer s1)) !! "127.0.0.1:12300"
      = Some (mkPeer "127.0.0.1:12300" 0%N) ∧
    run_session zero_memory [Unregister demo_camera; Deliver 0 test_popen] s1
    = Done (Some s2) ∧
    effects s2 = [Execs 4711 (Fault UseAfterFree); Kills 4711] ∧
    mPushSessions (greeter s2) = ∅ ∧ calls s2 = [] ∧ answers s2 = [].
Proof.
  refine (greeter_lifecycle zero_memory demo_camera 3 demo_producer test_greeter
            test_popen 4711 eq_refl eq_refl eq_refl eq_refl _ eq_refl _).
  - unfold bandwidth_ok. simpl. lia.
  - unfold popen_works. simpl. split_and!; [by eexists|by eexists|done|lia].
Defined.

Lemma popen2_leaks_witness :
  ∃ t' child, popen2 test_popen false false {[0%N := Inherited 0]}
              = (4711, t', Some child) ∧
    t' !! 5%N = Some StdinRead ∧ t' !! 8%N = Some StdoutWrite ∧
    t' !! 6%N = None ∧ t' !! 7%N = None ∧ size t' = (size ({[0%N := Inherited 0]} : fd_table) + 2 + 0 + 0)%nat ∧
    child !! 0%N = Some StdinRead ∧ child !! 1%N = Some StdoutWrite ∧
    child !! 6%N = None ∧ child !! 7%N = None.
Proof.
  apply (popen2_leaks test_popen false false {[0%N := Inherited 0]} 5 6 7 8);
    [reflexivity|reflexivity|simpl; lia| |done].
  apply (bool_decide_unpack _). vm_compute. exact I.
Defined.
