(* ===== verification/AsyncClient.v ===== *)
(** common/grpc: the asynchronous RPC client. Every call goes to the completion
    queue the cursor names next; the thread of a queue takes the calls that
    finished, runs [Processed] and deletes the call. gRPC decides when a call
    finishes and with what status; [A] stands for the callbacks. *)

From stdpp Require Import base list strings numbers relations.
From S2P Require Import Prelude.

#[local] Open Scope Z_scope.

(** The status codes the code names, and any other that gRPC reports. *)
Inductive status : Type := StatusUnknown | StatusOf (code : Z).

#[export] Instance status_eq_dec : EqDecision status.
Proof. solve_decision. Defined.

Section async_client.
Context {A : Type}.

(** A [GeneralAsyncClientCall] that has been started. *)
Record AsyncClientCall : Type := mkCall {
  callback : A;
  deadline : option Z;
}.

Record AsyncClient : Type := mkAsyncClient {
  mCursor : Z;
  mThreadNum : Z;
  mpCqs : list (list AsyncClientCall);
  issued : list A;
  processed : list (A * status);
}.

(** The constructor; it does not initialise [mCursor], which holds [u]. *)
Definition newAsyncClient (u threadNum : Z) : AsyncClient :=
  mkAsyncClient (u64 u) threadNum (replicate (Z.to_nat threadNum) []) [] [].

(** The queue [fetch_add] and the remainder name, in [uint64_t] arithmetic. *)
Definition queue_index (cursor threadNum : Z) : outcome nat :=
  if u64 threadNum =? 0 then Fault DivByZero
  else Done (Z.to_nat (cursor mod u64 threadNum)).

(** [StartCall]: a deadline is set only for a positive timeout. *)
Definition call_deadline (now timeoutInMs : Z) : option Z :=
  if 0 <? timeoutInMs then Some (now + timeoutInMs) else None.

Definition Call (now : Z) (cb : A) (timeoutInMs : Z) (c : AsyncClient)
  : outcome AsyncClient :=
  i ← queue_index (mCursor c) (mThreadNum c);
  q ← of_option OutOfBounds (mpCqs c !! i);
  Done (mkAsyncClient (u64 (mCursor c + 1)) (mThreadNum c)
          (<[i := q ++ [mkCall cb (call_deadline now timeoutInMs)]]> (mpCqs c))
          (issued c ++ [cb]) (processed c)).

(** [Processed]: what the callback is called with. *)
Definition Processed (ok : bool) (st : status) (call : AsyncClientCall) : A * status :=
  (callback call, if ok then st else StatusUnknown).

(** The thread of queue [i] gets the call at [k], which has finished. *)
Definition complete (i k : nat) (ok : bool) (st : status) (c : AsyncClient)
  : option AsyncClient :=
  q ← mpCqs c !! i;
  call ← q !! k;
  Some (mkAsyncClient (mCursor c) (mThreadNum c) (<[i := delete k q]> (mpCqs c))
          (issued c) (processed c ++ [Processed ok st call])).

(** * The destructor

    [Shutdown] of queue [i], then [join] of its thread, queue by queue. A queue
    that is shut down still delivers the calls in it, and [Next] returns false
    after the last one. gRPC aborts the program when a call is started on a queue
    that is shut down. The threads run callbacks until they are joined;
    [starts cb st] are the calls the callback [cb] makes when it is told [st]. *)
Record closing : Type := mkClosing {
  closing_client : AsyncClient;
  shut : nat;
  joined : nat;
}.

(** [Call] while the first [n] queues are shut down. *)
Definition call_closing (n : nat) (now : Z) (cb : A) (c : AsyncClient)
  : outcome AsyncClient :=
  i ← queue_index (mCursor c) (mThreadNum c);
  _ ← require (negb (i <? n)%nat) (Throw "call on a completion queue after Shutdown");
  Call now cb 0 c.

Fixpoint calls_closing (n : nat) (now : Z) (cbs : list A) (c : AsyncClient)
  : outcome AsyncClient :=
  match cbs with
  | [] => Done c
  | cb :: cbs' => c ← call_closing n now cb c; calls_closing n now cbs' c
  end.

Section destructor.
Variable starts : A → status → list A.

(** A call finishes: its callback runs, with the calls it makes. *)
Definition finish (now : Z) (i k : nat) (ok : bool) (st : status) (d : closing)
  : option (outcome closing) :=
  if (i <? joined d)%nat then None
  else
    q ← mpCqs (closing_client d) !! i;
    call ← q !! k;
    c ← complete i k ok st (closing_client d);
    let '(cb, st) := Processed ok st call in
    Some (c ← calls_closing (shut d) now (starts cb st) c;
          Done (mkClosing c (shut d) (joined d))).

(** [mpCqs[i]->Shutdown()], and [mThreads[i].join()] that returns. *)
Definition shutdown_queue (d : closing) : option closing :=
  if (joined d =? shut d)%nat && (Z.of_nat (shut d) <? mThreadNum (closing_client d))
  then Some (mkClosing (closing_client d) (S (shut d)) (joined d)) else None.

Definition join_queue (d : closing) : option closing :=
  if (joined d <? shut d)%nat then
    match mpCqs (closing_client d) !! joined d with
    | Some [] => Some (mkClosing (closing_client d) (shut d) (S (joined d)))
    | _ => None
    end
  else None.

Inductive client_dtor_step : closing → closing → Prop :=
| dtor_shutdown d d' : shutdown_queue d = Some d' → client_dtor_step d d'
| dtor_join d d' : join_queue d = Some d' → client_dtor_step d d'
| dtor_finish now i k ok st d d' :
    finish now i k ok st d = Some (Done d') → client_dtor_step d d'.

(** The destructor has returned. *)
Definition destroyed (d : closing) : Prop :=
  Z.of_nat (joined d) = mThreadNum (closing_client d).
End destructor.

Inductive client_step : AsyncClient → AsyncClient → Prop :=
| client_call now cb t c c' : Call now cb t c = Done c' → client_step c c'
| client_complete i k ok st c c' : complete i k ok st c = Some c' → client_step c c'.

(** * Lemmas *)

Definition pending (c : AsyncClient) : list A := callback <$> concat (mpCqs c).

Lemma concat_insert {B} (ls : list (list B)) i l l' :
  ls !! i = Some l → ∃ rest, concat ls ≡ₚ l ++ rest ∧ concat (<[i := l']> ls) ≡ₚ l' ++ rest.
Proof.
  revert i. induction ls as [|x ls IH]; intros [|i] Hi; simplify_eq/=.
  - by exists (concat ls).
  - destruct (IH i Hi) as (rest & H1 & H2). exists (x ++ rest). rewrite H1, H2.
    by rewrite !(Permutation_app_swap_app x).
Qed.

Lemma delete_perm {B} (l : list B) k x : l !! k = Some x → l ≡ₚ x :: delete k l.
Proof. intros Hk. by apply delete_Permutation. Qed.

Lemma call_pending now cb t c c' :
  Call now cb t c = Done c' →
  pending c' ≡ₚ pending c ++ [cb] ∧ issued c' = issued c ++ [cb] ∧
  processed c' = processed c.
Proof.
  unfold Call. destruct (queue_index _ _) as [i|]; orun; [|done].
  destruct (mpCqs c !! i) as [q|] eqn:Eq; orun; [|done]. intros [= <-].
  split; [|done]. unfold pending. simpl.
  destruct (concat_insert _ _ _ (q ++ [mkCall cb (call_deadline now t)]) Eq)
    as (rest & H1 & H2).
  rewrite H1, H2, !fmap_app. simpl. solve_Permutation.
Qed.

Lemma complete_pending i k ok st c c' :
  complete i k ok st c = Some c' →
  ∃ cb, pending c ≡ₚ cb :: pending c' ∧ issued c' = issued c ∧
    processed c' = processed c ++ [(cb, if ok then st else StatusUnknown)].
Proof.
  unfold complete. destruct (mpCqs c !! i) as [q|] eqn:Eq; [|done]. simpl.
  destruct (q !! k) as [call|] eqn:Ek; [|done]. intros [= <-].
  exists (callback call). split; [|done]. unfold pending. simpl.
  destruct (concat_insert _ _ _ (delete k q) Eq) as (rest & H1 & H2).
  rewrite H1, H2, !fmap_app.
  assert (Hq : callback <$> q ≡ₚ callback call :: (callback <$> delete k q))
    by (by rewrite (delete_perm _ _ _ Ek) at 1).
  by rewrite Hq.
Qed.

Lemma client_accounts u n c :
  rtc client_step (newAsyncClient u n) c → issued c ≡ₚ (processed c).*1 ++ pending c.
Proof.
  intros Hr. remember (newAsyncClient u n) as c0.
  assert (H0 : issued c0 ≡ₚ (processed c0).*1 ++ pending c0).
  { subst. unfold pending. simpl. induction (Z.to_nat n); simpl; done. }
  clear Heqc0. induction Hr as [|c1 c2 c3 Hs _ IH]; [done|]. apply IH. clear IH.
  destruct Hs as [now cb t c1 c2 Hc|i k ok st c1 c2 Hc].
  - apply call_pending in Hc as (H1 & -> & ->). rewrite H1, H0. by rewrite app_assoc.
  - apply complete_pending in Hc as (cb & H1 & -> & ->).
    rewrite H0, H1, fmap_app. simpl. by rewrite <- app_assoc.
Qed.

(** ** Destruction *)

(** The shape of a client: a queue per thread, and a cursor of 64 bits. *)
Definition client_shape (c : AsyncClient) : Prop :=
  Z.of_nat (length (mpCqs c)) = mThreadNum c ∧ 0 ≤ mCursor c ∧ mThreadNum c < 2 ^ 31.

Lemma u64_nonneg z : 0 ≤ u64 z.
Proof. apply Z.mod_pos_bound. lia. Qed.

Lemma new_shape u n : 0 ≤ n < 2 ^ 31 → client_shape (newAsyncClient u n).
Proof.
  intros Hn. unfold client_shape. simpl. rewrite length_replicate.
  split; [lia|]. split; [apply u64_nonneg|lia].
Qed.

Lemma complete_shape i k ok st c c' :
  complete i k ok st c = Some c' → client_shape c → client_shape c'.
Proof.
  unfold complete. destruct (mpCqs c !! i) as [q|]; [|done]. simpl.
  destruct (q !! k); [|done]. intros [= <-]. unfold client_shape. simpl.
  by rewrite length_insert.
Qed.

Lemma call_shape now cb t c c' : Call now cb t c = Done c' → client_shape c → client_shape c'.
Proof.
  unfold Call. intros Hc [H1 H2]. outcome_inv. unfold client_shape. simpl.
  rewrite length_insert. pose proof (u64_nonneg (mCursor c + 1)). by split_and!; [..|apply H2].
Qed.

Lemma client_step_shape c c' : client_step c c' → client_shape c → client_shape c'.
Proof.
  intros [now cb t c1 c2 Hc|i k ok st c1 c2 Hc]; [by eapply call_shape|by eapply complete_shape].
Qed.

Lemma client_run_shape c c' : rtc client_step c c' → client_shape c → client_shape c'.
Proof. induction 1; eauto using client_step_shape. Qed.

(** The queue of the next call of a client that has queues. *)
Lemma queue_index_spec c :
  client_shape c → (0 < length (mpCqs c))%nat →
  ∃ i, queue_index (mCursor c) (mThreadNum c) = Done i ∧ (i < length (mpCqs c))%nat.
Proof.
  intros (H1 & H2 & H3) Hl. unfold queue_index, u64. rewrite (Z.mod_small (mThreadNum c)) by lia.
  rewrite (proj2 (Z.eqb_neq _ 0)) by lia. eexists. split; [done|].
  pose proof (Z.mod_pos_bound (mCursor c) (mThreadNum c)). lia.
Qed.

(** What [complete] and the calls of a callback do to the queues. *)
Record moved (n : nat) (c c' : AsyncClient) (out new : list A) : Prop := mkMoved {
  moved_shape : client_shape c';
  moved_length : length (mpCqs c') = length (mpCqs c);
  moved_threads : mThreadNum c' = mThreadNum c;
  moved_pending : out ++ pending c' ≡ₚ pending c ++ new;
  moved_issued : issued c' = issued c ++ new;
  moved_processed : (processed c').*1 = (processed c).*1 ++ out;
  moved_shut i : (i < n)%nat → mpCqs c !! i = Some [] → mpCqs c' !! i = Some [];
}.

Lemma call_closing_cases n now cb c :
  client_shape c → (0 < length (mpCqs c))%nat →
  (∃ c', call_closing n now cb c = Done c' ∧ moved n c c' [] [cb]) ∨
  call_closing n now cb c = Fault (Throw "call on a completion queue after Shutdown") ∧
  (0 < n)%nat.
Proof.
  intros Hs Hl. destruct (queue_index_spec c Hs Hl) as (i & Hi & Hlt).
  unfold call_closing. rewrite Hi. orun. destruct (Nat.ltb_spec i n) as [Hin|Hin]; simpl; orun.
  { right. split; [done|lia]. }
  left. unfold Call. rewrite Hi. orun. destruct (lookup_lt_is_Some_2 _ _ Hlt) as [q Hq].
  assert (Hc : ∃ c', Call now cb 0 c = Done c').
  { unfold Call. rewrite Hi. orun. rewrite Hq. by eexists. }
  destruct Hc as [c' Hc]. pose proof (call_shape _ _ _ _ _ Hc Hs) as Hs'.
  destruct (call_pending _ _ _ _ _ Hc) as (Hp & Hiss & Hpr).
  unfold Call in Hc. rewrite Hi in Hc. revert Hc. orun. rewrite Hq. orun. intros [= <-].
  eexists. split; [done|]. split; simpl in *; try done.
  - by rewrite length_insert.
  - by rewrite app_nil_r.
  - intros j Hj Hq0. rewrite list_lookup_insert_ne by lia. done.
Qed.

Lemma moved_refl n c : client_shape c → moved n c c [] [].
Proof. intros Hs. split; simpl; rewrite ?app_nil_r; done. Qed.

Lemma moved_trans n c1 c2 c3 out new new' :
  moved n c1 c2 out new → moved n c2 c3 [] new' → moved n c1 c3 out (new ++ new').
Proof.
  intros [_ ? ? Hp Hi Hr Hq] [? ? ? Hp' Hi' Hr' Hq']. simpl in *.
  split; [done|congruence|congruence| | | |by auto].
  - rewrite Hp', app_assoc, Hp. by rewrite app_assoc.
  - by rewrite Hi', Hi, app_assoc.
  - by rewrite Hr', Hr, app_nil_r.
Qed.

Lemma calls_closing_cases n now cbs c :
  client_shape c → (0 < length (mpCqs c))%nat →
  (∃ c', calls_closing n now cbs c = Done c' ∧ moved n c c' [] cbs) ∨
  calls_closing n now cbs c = Fault (Throw "call on a completion queue after Shutdown") ∧
  (0 < n)%nat ∧ cbs ≠ [].
Proof.
  revert c. induction cbs as [|cb cbs IH]; intros c Hs Hl; simpl.
  { left. exists c. split; [done|]. by apply moved_refl. }
  destruct (call_closing_cases n now cb c Hs Hl) as [(c1 & -> & Hm)|[-> Hn]]; orun;
    [|by right].
  destruct (IH c1) as [(c2 & -> & Hm2)|(-> & Hn & _)];
    [apply Hm|by rewrite (moved_length _ _ _ _ _ Hm)| |by right].
  left. exists c2. split; [done|]. by apply (moved_trans n c c1 c2 [] [cb] cbs).
Qed.

Lemma complete_moved n i k ok st c q call :
  client_shape c → (n ≤ i)%nat → mpCqs c !! i = Some q → q !! k = Some call →
  ∃ c', complete i k ok st c = Some c' ∧ moved n c c' [callback call] [].
Proof.
  intros Hs Hi Hq Hk.
  assert (Hc : ∃ c', complete i k ok st c = Some c').
  { unfold complete. rewrite Hq. simpl. rewrite Hk. by eexists. }
  destruct Hc as [c' Hc]. exists c'. split; [done|].
  pose proof (complete_shape _ _ _ _ _ _ Hc Hs) as Hs'.
  pose proof (complete_pending _ _ _ _ _ _ Hc) as (cb & Hp & Hiss & Hpr).
  unfold complete in Hc. rewrite Hq in Hc. simpl in Hc. rewrite Hk in Hc. injection Hc as <-.
  simpl in *. apply app_inj_tail in Hpr as [_ Hcb]. injection Hcb as Hcb.
  split; simpl; [done|by rewrite length_insert|done| |by rewrite app_nil_r| |].
  - rewrite app_nil_r, Hp, Hcb. done.
  - by rewrite fmap_app.
  - intros j Hj Hq0. rewrite list_lookup_insert_ne by lia. done.
Qed.

(** The loop of the destructor has joined the first queues, which are empty, and
    is at most one [Shutdown] ahead. *)
Record closing_inv (d : closing) : Prop := mkClosingInv {
  inv_shape : client_shape (closing_client d);
  inv_order : (joined d ≤ shut d ≤ S (joined d))%nat;
  inv_shut : (shut d ≤ length (mpCqs (closing_client d)))%nat;
  inv_drained i : (i < joined d)%nat → mpCqs (closing_client d) !! i = Some [];
  inv_accounts : issued (closing_client d) ≡ₚ
    (processed (closing_client d)).*1 ++ pending (closing_client d);
}.

Section callbacks.
Variable starts : A → status → list A.

(** A call that finishes: its callback runs and makes its calls, or one of these goes
    to a queue that is shut down. *)
Lemma finish_cases now i k (ok : bool) st d q call :
  closing_inv d → (joined d ≤ i)%nat → mpCqs (closing_client d) !! i = Some q →
  q !! k = Some call →
  let new := starts (callback call) (if ok then st else StatusUnknown) in
  (∃ c, finish starts now i k ok st d = Some (Done (mkClosing c (shut d) (joined d))) ∧
     moved (joined d) (closing_client d) c [callback call] new) ∨
  finish starts now i k ok st d
    = Some (Fault (Throw "call on a completion queue after Shutdown")) ∧
  (0 < shut d)%nat ∧ new ≠ [].
Proof.
  intros [H1 H2 H3 H4 _] Hi Hq Hk new. unfold finish.
  rewrite (proj2 (Nat.ltb_ge _ _) Hi), Hq. simpl. rewrite Hk. simpl.
  destruct (complete_moved (joined d) i k ok st _ q call H1 Hi Hq Hk) as (c & -> & Hm). simpl.
  pose proof (lookup_lt_Some _ _ _ Hq) as Hlt.
  destruct (calls_closing_cases (shut d) now new c) as [(c' & E & Hm')|(E & Hn & Hne)].
  - apply Hm.
  - rewrite (moved_length _ _ _ _ _ Hm). lia.
  - left. exists c'. fold new. rewrite E. orun. split; [done|].
    apply (moved_trans _ _ c _ _ [] new); [done|]. destruct Hm'. split; try done.
    intros j Hj. apply moved_shut0. lia.
  - right. fold new. by rewrite E.
Qed.

Lemma finish_some now i k ok st d r :
  finish starts now i k ok st d = Some r →
  ∃ q call, (joined d ≤ i)%nat ∧ mpCqs (closing_client d) !! i = Some q ∧ q !! k = Some call.
Proof.
  unfold finish. destruct (Nat.ltb_spec i (joined d)) as [|Hi]; [done|].
  destruct (mpCqs _ !! i) as [q|] eqn:Hq; [|done]. simpl.
  destruct (q !! k) as [call|] eqn:Hk; [|done]. by eauto.
Qed.

Lemma dtor_step_inv d d' :
  client_dtor_step starts d d' → closing_inv d → closing_inv d'.
Proof.
  intros Hs Hinv. pose proof Hinv as [H1 H2 H3 H4 H5].
  destruct Hs as [d d' Hs|d d' Hs|now i k ok st d d' Hs].
  - unfold shutdown_queue in Hs. destruct (_ && _) eqn:E; [|done]. simplify_eq/=.
    apply andb_prop in E as [E1%Nat.eqb_eq E2%Z.ltb_lt]. destruct H1 as [H1 ?].
    by split; simpl; [| lia | lia | |].
  - unfold join_queue in Hs. destruct (_ <? _)%nat eqn:E; [|done].
    apply Nat.ltb_lt in E. destruct (_ !! _) as [[|]|] eqn:Eq; simplify_eq/=.
    split; simpl; [done|lia|done| |done]. intros i Hi.
    destruct (decide (i = joined d)) as [->|]; [done|]. apply H4. lia.
  - destruct (finish_some _ _ _ _ _ _ _ Hs) as (q & call & Hi & Hq & Hk).
    destruct (finish_cases now i k ok st d q call Hinv Hi Hq Hk)
      as [(c & E & [? Hl _ Hp Hiss Hpr Hsh])|[E _]]; rewrite E in Hs; [|done].
    injection Hs as <-. split; simpl; [done|done|by rewrite Hl|by auto|].
    by rewrite Hiss, Hpr, H5, <- !app_assoc, Hp.
Qed.

(** The destructor is never stuck before it has joined every thread, unless a call
    that it waits for aborts the program. *)
Lemma dtor_progress d :
  closing_inv d → ¬ destroyed d →
  (∃ d', client_dtor_step starts d d') ∨
  ∃ now i k ok st, finish starts now i k ok st d
    = Some (Fault (Throw "call on a completion queue after Shutdown")).
Proof.
  intros Hinv Hn. pose proof Hinv as [[H1 _] H2 H3 H4 _]. unfold destroyed in *.
  destruct (decide (joined d = shut d)) as [He|Hne].
  - left. eexists. apply dtor_shutdown. unfold shutdown_queue.
    rewrite (proj2 (Nat.eqb_eq _ _) He), (proj2 (Z.ltb_lt _ _)) by lia. done.
  - destruct (lookup_lt_is_Some_2 (mpCqs (closing_client d)) (joined d)) as [q Hq];
      [lia|]. destruct q as [|call q].
    + left. eexists. apply dtor_join. unfold join_queue.
      rewrite (proj2 (Nat.ltb_lt _ _)), Hq by lia. done.
    + destruct (finish_cases 0 (joined d) 0 true (StatusOf 0) d _ call Hinv (Nat.le_refl _)
        Hq eq_refl) as [(c & E & _)|[E _]]; [left|right; by eauto 6].
      eexists. by apply (dtor_finish _ 0 (joined d) 0 true (StatusOf 0)).
Qed.

(** What is left for the destructor to do, when no callback starts a chain of calls
    without an end. *)
Section chains.
Variable weight : A → nat.
Hypothesis chains_end : ∀ cb st, (sum_list_with weight (starts cb st) < weight cb)%nat.

Definition closing_work (d : closing) : nat :=
  (sum_list_with weight (pending (closing_client d))
   + (length (mpCqs (closing_client d)) - shut d)
   + (length (mpCqs (closing_client d)) - joined d))%nat.

Lemma dtor_work_decreases d d' :
  closing_inv d → client_dtor_step starts d d' → (closing_work d' < closing_work d)%nat.
Proof.
  intros Hinv Hs. pose proof Hinv as [[H1 _] H2 H3 H4 _]. unfold closing_work.
  destruct Hs as [d d' Hs|d d' Hs|now i k ok st d d' Hs].
  - unfold shutdown_queue in Hs. destruct (_ && _) eqn:E; [|done]. simplify_eq/=.
    apply andb_prop in E as [E1%Nat.eqb_eq E2%Z.ltb_lt]. lia.
  - unfold join_queue in Hs. destruct (_ <? _)%nat eqn:E; [|done].
    apply Nat.ltb_lt in E. destruct (_ !! _) as [[|]|] eqn:Eq; simplify_eq/=. lia.
  - destruct (finish_some _ _ _ _ _ _ _ Hs) as (q & call & Hi & Hq & Hk).
    destruct (finish_cases now i k ok st d q call Hinv Hi Hq Hk)
      as [(c & E & [_ Hl _ Hp _ _ _])|[E _]]; rewrite E in Hs; [|done].
    injection Hs as <-. simpl. rewrite Hl.
    assert (Hsum : ∀ l l', l ≡ₚ l' → sum_list_with weight l = sum_list_with weight l').
    { intros l l' Hpm. by rewrite Hpm. }
    apply Hsum in Hp. rewrite !sum_list_with_app in Hp. simpl in Hp.
    pose proof (chains_end (callback call) (if ok then st else StatusUnknown)). lia.
Qed.

Lemma closing_sn d : closing_inv d → sn (client_dtor_step starts) d.
Proof.
  remember (closing_work d) as n eqn:En. revert d En.
  induction (Nat.lt_wf_0 n) as [n _ IH]. intros d -> Hinv. constructor. intros d' Hs.
  eapply IH; [by eapply dtor_work_decreases|done|by eapply dtor_step_inv].
Qed.
End chains.

Lemma rtc_closing_inv d d' :
  rtc (client_dtor_step starts) d d' → closing_inv d → closing_inv d'.
Proof. induction 1; eauto using dtor_step_inv. Qed.

(** Calls are only added. *)
Lemma rtc_closing_issued d d' :
  closing_inv d → rtc (client_dtor_step starts) d d' →
  ∃ new, issued (closing_client d') = issued (closing_client d) ++ new ∧
    ((∀ cb st, starts cb st = []) → new = []).
Proof.
  intros Hinv Hr. revert Hinv. induction Hr as [d|d1 d2 d3 Hs _ IH]; intros Hinv.
  { exists []. by rewrite app_nil_r. }
  destruct IH as (new & E & Hnew); [by eapply dtor_step_inv|].
  assert (Hd : ∃ new', issued (closing_client d2) = issued (closing_client d1) ++ new' ∧
    ((∀ cb st, starts cb st = []) → new' = [])).
  { destruct Hs as [d d' Hs|d d' Hs|now i k ok st d d' Hs].
    - unfold shutdown_queue in Hs. destruct (_ && _); simplify_eq/=.
      exists []. by rewrite app_nil_r.
    - unfold join_queue in Hs. repeat case_match; simplify_eq/=.
      exists []. by rewrite app_nil_r.
    - destruct (finish_some _ _ _ _ _ _ _ Hs) as (q & call & Hi & Hq & Hk).
      destruct (finish_cases now i k ok st d q call Hinv Hi Hq Hk)
        as [(c & E' & Hm)|[E' _]]; rewrite E' in Hs; [|done].
      injection Hs as <-. eexists. split; [apply Hm|]. auto. }
  destruct Hd as (new' & E' & Hnew'). exists (new' ++ new). rewrite E, E', app_assoc.
  split; [done|]. intros Hq. by rewrite Hnew, Hnew'.
Qed.
End callbacks.
End async_client.
Arguments AsyncClient A : clear implicits.
Arguments AsyncClientCall A : clear implicits.

(** The queues [n] calls in a row go to. *)
Fixpoint call_queues (n : nat) (cursor threadNum : Z) : list (outcome nat) :=
  match n with
  | O => []
  | S n' => queue_index cursor threadNum :: call_queues n' (u64 (cursor + 1)) threadNum
  end.

Lemma call_queues_seq n cursor t :
  0 ≤ cursor → cursor + Z.of_nat n ≤ 2 ^ 64 → 0 < t < 2 ^ 31 →
  call_queues n cursor t
  = (fun j => Done (Z.to_nat ((cursor + Z.of_nat j) mod t))) <$> seq 0 n.
Proof.
  revert cursor. induction n as [|n IH]; intros cursor H0 Hn Ht; [done|].
  simpl. unfold queue_index, u64 at 1 2. rewrite (Z.mod_small t) by lia.
  rewrite (proj2 (Z.eqb_neq t 0)) by lia. f_equal; [do 3 f_equal; lia|].
  destruct (decide (n = 0)%nat) as [->|]; [done|].
  unfold u64. rewrite (Z.mod_small (cursor + 1)) by lia. rewrite IH by lia.
  rewrite <- fmap_S_seq, <- list_fmap_compose. apply list_fmap_ext.
  intros _ j _. simpl. do 3 f_equal. lia.
Qed.

(** Every callback runs exactly once. After any calls and completions, the
    callbacks of the calls issued are, with multiplicity, the ones that have run
    and the ones whose call is still in a queue. *)
Theorem callbacks_exactly_once {A : Type} (u n : Z) (c : AsyncClient A)
    (Hr : rtc client_step (newAsyncClient u n) c) :
  issued c ≡ₚ (processed c).*1 ++ pending c.
Proof. by apply (client_accounts u n). Qed.

(** Two calls on two queues; the first one has failed. *)
Definition demo_client : AsyncClient nat :=
  mkAsyncClient 9 2 [[mkCall 6%nat None]; []] [5%nat; 6%nat] [(5%nat, StatusUnknown)].

Lemma demo_client_run : rtc client_step (newAsyncClient 7 2) demo_client.
Proof.
  eapply rtc_l; [apply (client_call 100 5%nat 3000); vm_compute; reflexivity|].
  eapply rtc_l; [apply (client_call 100 6%nat 0); vm_compute; reflexivity|].
  eapply rtc_l; [apply (client_complete 1 0 false (StatusOf 0)); vm_compute; reflexivity|].
  apply rtc_refl.
Qed.

Lemma callbacks_exactly_once_witness : [5%nat; 6%nat] ≡ₚ [5%nat] ++ [6%nat].
Proof. exact (callbacks_exactly_once 7 2 demo_client demo_client_run). Defined.

(** Calls go round the queues. As long as the 64-bit cursor does not wrap,
    any [mThreadNum] calls in a row go to every completion queue exactly once. *)
Theorem calls_round_robin (cursor t : Z)
    (Hc : 0 ≤ cursor) (Ht : 0 < t < 2 ^ 31) (Hw : cursor + t ≤ 2 ^ 64) :
  call_queues (Z.to_nat t) cursor t ≡ₚ Done <$> seq 0 (Z.to_nat t).
Proof.
  rewrite call_queues_seq by lia.
  assert (Hp : (fun j => Z.to_nat ((cursor + Z.of_nat j) mod t)) <$> seq 0 (Z.to_nat t)
               ≡ₚ seq 0 (Z.to_nat t)).
  { apply submseteq_length_Permutation; [|by rewrite length_fmap].
    apply NoDup_submseteq.
    - apply NoDup_fmap_2_strong; [|apply NoDup_seq].
      intros j k Hj%elem_of_seq Hk%elem_of_seq He.
      pose proof (Z.mod_pos_bound (cursor + Z.of_nat j) t).
      pose proof (Z.mod_pos_bound (cursor + Z.of_nat k) t).
      pose proof (Z.div_mod (cursor + Z.of_nat j) t).
      pose proof (Z.div_mod (cursor + Z.of_nat k) t).
      assert (He' : (cursor + Z.of_nat j) mod t = (cursor + Z.of_nat k) mod t) by lia.
      assert ((cursor + Z.of_nat j) / t = (cursor + Z.of_nat k) / t) by nia. nia.
    - intros x (j & -> & Hj)%list_elem_of_fmap. apply elem_of_seq.
      pose proof (Z.mod_pos_bound (cursor + Z.of_nat j) t). lia. }
  apply (Permutation_map (Done (A := nat))) in Hp. rewrite map_map in Hp. exact Hp.
Qed.

Lemma calls_round_robin_witness :
  call_queues 3 100 3 ≡ₚ [Done 0%nat; Done 1%nat; Done 2%nat].
Proof. apply (calls_round_robin 100 3); lia. Defined.

(** * Destroying the client *)

Section destroying.
Context {A : Type}.
Variable starts : A → status → list A.
Implicit Types (c : AsyncClient A) (d : closing (A := A)).

Lemma drained_pending c :
  (∀ i, (i < length (mpCqs c))%nat → mpCqs c !! i = Some []) → pending c = [].
Proof.
  intros Hall. unfold pending. destruct (concat (mpCqs c)) as [|x l] eqn:E; [done|].
  assert (Hx : x ∈ concat (mpCqs c)) by (rewrite E; apply elem_of_cons; by left).
  apply list_elem_of_In, in_concat in Hx as (q & Hq%list_elem_of_In & Hxq).
  apply list_elem_of_lookup in Hq as [i Hi]. pose proof (lookup_lt_Some _ _ _ Hi) as Hlt.
  rewrite (Hall _ Hlt) in Hi. simplify_eq. done.
Qed.

Lemma destroyed_drained d :
  closing_inv d → destroyed d →
  pending (closing_client d) = [] ∧
  (processed (closing_client d)).*1 ≡ₚ issued (closing_client d).
Proof.
  intros [[H1 _] H2 H3 H4 H5] Hd. unfold destroyed in Hd.
  assert (Hp : pending (closing_client d) = []).
  { apply drained_pending. intros i Hi. apply H4. lia. }
  split; [done|]. by rewrite H5, Hp, app_nil_r.
Qed.

(** C22: how the destructor of the RPC client ends. After any calls and completions,
    with callbacks that start no endless chain of calls, the loop of [Shutdown] and
    [join] has no endless run. Where it can do nothing more, it has joined every
    thread, every queue is empty and the callbacks that have run are those of the
    calls issued; or a call that has finished aborts the program, because its
    callback makes a call that goes to a queue that is shut down. No other fault
    happens, and none with callbacks that make no calls: then the callbacks that have
    run in the end are those of the calls issued before the destructor. *)
Theorem client_destructor_drains (u n : Z) c (weight : A → nat)
    (Hn : 0 ≤ n < 2 ^ 31)
    (Hw : ∀ cb st, (sum_list_with weight (starts cb st) < weight cb)%nat)
    (Hr : rtc client_step (newAsyncClient u n) c) :
  let start := mkClosing c 0 0 in
  sn (client_dtor_step starts) start ∧
  ∀ d, rtc (client_dtor_step starts) start d →
    (nf (client_dtor_step starts) d →
       destroyed d ∧ pending (closing_client d) = [] ∧
       (processed (closing_client d)).*1 ≡ₚ issued (closing_client d) ∨
       ∃ now i k ok st f, finish starts now i k ok st d = Some (Fault f)) ∧
    (∀ now i k ok st f, finish starts now i k ok st d = Some (Fault f) →
       f = Throw "call on a completion queue after Shutdown" ∧ (0 < shut d)%nat ∧
       ∃ cb st', starts cb st' ≠ []) ∧
    ((∀ cb st, starts cb st = []) → issued (closing_client d) = issued c).
Proof.
  intros start. pose proof (client_run_shape _ _ Hr (new_shape u n Hn)) as Hs.
  assert (Hinv : closing_inv start).
  { split; simpl; [done|lia|lia|lia|by eapply client_accounts]. }
  split; [by eapply closing_sn|]. intros d Hd. pose proof (rtc_closing_inv _ _ _ Hd Hinv) as Hi.
  split_and!.
  - intros Hnf.
    destruct (decide (Z.of_nat (joined d) = mThreadNum (closing_client d))) as [He|Hne].
    { left. split; [done|]. by apply destroyed_drained. }
    right. destruct (dtor_progress starts d Hi Hne) as [Hgo|(now & i & k & ok & st & E)];
      [by destruct Hnf|]. by eauto 8.
  - intros now i k ok st f Hf.
    destruct (finish_some _ _ _ _ _ _ _ _ Hf) as (q & call & Hj & Hq & Hk).
    destruct (finish_cases starts now i k ok st d q call Hi Hj Hq Hk)
      as [(c' & E & _)|(E & Hsh & Hne)]; rewrite E in Hf; [done|].
    injection Hf as <-. by eauto.
  - intros Hq. destruct (rtc_closing_issued starts start d Hinv Hd) as (new & -> & Hnew).
    by rewrite (Hnew Hq), app_nil_r.
Qed.

(** A call that a callback makes while every queue is shut down aborts the
    program: the last queue still delivers its calls. The answer to an invitation
    makes such a call, the acknowledgement. *)
Theorem late_call_aborts (now : Z) (i k : nat) (ok : bool) (st : status) d
    (q : list (AsyncClientCall A)) (call : AsyncClientCall A) (cb : A) (cbs : list A)
    (Hinv : closing_inv d) (Hn : mThreadNum (closing_client d) < 2 ^ 31)
    (Hsh : shut d = length (mpCqs (closing_client d)))
    (Hc : 0 ≤ mCursor (closing_client d))
    (Hi : (joined d ≤ i)%nat) (Hq : mpCqs (closing_client d) !! i = Some q)
    (Hk : q !! k = Some call)
    (Hs : starts (callback call) (if ok then st else StatusUnknown) = cb :: cbs) :
  finish starts now i k ok st d
  = Some (Fault (Throw "call on a completion queue after Shutdown")).
Proof.
  destruct Hinv as [[H1 _] _ _ _].
  pose proof (lookup_lt_Some _ _ _ Hq) as Hlt.
  unfold finish. rewrite (proj2 (Nat.ltb_ge _ _) Hi), Hq. simpl. rewrite Hk. simpl.
  unfold complete. rewrite Hq. simpl. rewrite Hk. simpl. rewrite Hs. simpl.
  unfold call_closing. simpl. unfold queue_index, u64.
  rewrite (Z.mod_small (mThreadNum _)) by lia. rewrite (proj2 (Z.eqb_neq _ 0)) by lia.
  orun. pose proof (Z.mod_pos_bound (mCursor (closing_client d)) (mThreadNum (closing_client d))).
  rewrite (proj2 (Nat.ltb_lt _ _)) by lia. done.
Qed.
End destroying.

(** A callback 6 that makes the call 7, as the answer to an invitation makes the call
    of its acknowledgement. *)
Definition demo_starts (cb : nat) (_ : status) : list nat :=
  if (cb =? 6)%nat then [7%nat] else [].
Definition demo_weight (cb : nat) : nat := if (cb =? 6)%nat then 2 else 1.

Definition demo_destroyed : closing (A := nat) :=
  mkClosing (mkAsyncClient 10 2 [[]; []] [5%nat; 6%nat; 7%nat]
    [(5%nat, StatusUnknown); (6%nat, StatusOf 0); (7%nat, StatusOf 0)]) 2 2.

Lemma client_destructor_drains_witness :
  sn (client_dtor_step demo_starts) (mkClosing demo_client 0 0) ∧
  rtc (client_dtor_step demo_starts) (mkClosing demo_client 0 0) demo_destroyed ∧
  (destroyed demo_destroyed ∧ pending (closing_client demo_destroyed) = [] ∧
   (processed (closing_client demo_destroyed)).*1 ≡ₚ [5%nat; 6%nat; 7%nat] ∨
   ∃ now i k ok st f, finish demo_starts now i k ok st demo_destroyed = Some (Fault f)).
Proof.
  destruct (client_destructor_drains demo_starts 7 2 demo_client demo_weight)
    as [Hsn Hall]; [lia| |exact demo_client_run|].
  { intros cb st. unfold demo_starts, demo_weight. destruct (cb =? 6)%nat; simpl; lia. }
  assert (Hrun : rtc (client_dtor_step demo_starts) (mkClosing demo_client 0 0)
    demo_destroyed).
  { eapply rtc_l; [apply dtor_shutdown; vm_compute; reflexivity|].
    eapply rtc_l; [apply (dtor_finish _ 0 0 0 true (StatusOf 0)); vm_compute; reflexivity|].
    eapply rtc_l; [apply dtor_join; vm_compute; reflexivity|].
    eapply rtc_l; [apply dtor_shutdown; vm_compute; reflexivity|].
    eapply rtc_l; [apply (dtor_finish _ 0 1 0 true (StatusOf 0)); vm_compute; reflexivity|].
    eapply rtc_l; [apply dtor_join; vm_compute; reflexivity|]. apply rtc_refl. }
  split; [exact Hsn|]. split; [exact Hrun|]. apply (Hall _ Hrun).
  intros [d' Hs]. inversion Hs as [? ? Hx|? ? Hx|? [|[|i]] [|k] ? ? ? ? Hx];
    vm_compute in Hx; discriminate Hx.
Defined.
