(* ===== verification/PacketFile.v ===== *)
(** tools/src/rtp-payload-test.cpp: the tool that reads a file of dumped RTP
    packets, each with its length in two bytes before it, and writes the media
    frames librtp decodes from them, with an H264/H265 start code or an ADTS
    header. The decoder of librtp is the environment. *)

From stdpp Require Import base list strings numbers.
From S2P Require Import Prelude.

#[local] Open Scope Z_scope.

(** * Reading the packets *)

Definition packet_capacity : Z := 64 * 1024.

(** [fread] of [n] bytes from what is left of the file. *)
Definition fread (n : nat) (file : list Z) : list Z * list Z :=
  (take n file, drop n file).

(** The while loop of [rtp_payload_test]: the packets given to the decoder.
    Every iteration that goes on has read at least two bytes, so the length of
    the file is enough fuel. *)
Fixpoint read_packets (fuel : nat) (file : list Z) : outcome (list (list Z)) :=
  match fuel with
  | O => Done []
  | S fuel' =>
      let '(s2, file) := fread 2 file in
      match s2 with
      | [b0; b1] =>
          let size := Z.lor (Z.shiftl b0 8) b1 in
          _ ← require (size <? packet_capacity) LogFatal;
          let '(packet, file) := fread (Z.to_nat size) file in
          if negb (Z.of_nat (length packet) =? size) then Done []
          else
            ps ← read_packets fuel' file;
            Done (packet :: ps)
      | _ => Done []
      end
  end.

Definition read_file (file : list Z) : outcome (list (list Z)) :=
  read_packets (length file) file.

(** The format the dumps of the receiver and of the packetiser have: the length
    in two bytes, then the packet. *)
Definition dump_packet (p : list Z) : list Z :=
  let len := Z.of_nat (length p) in
  u8 (Z.shiftr len 8) :: u8 (Z.land len 255) :: p.

Definition dump (ps : list (list Z)) : list Z := concat (map dump_packet ps).

(** * Writing the frames *)

Definition start_code : list Z := [0; 0; 0; 1].

(** The ADTS header of [rtp_decode_packet] for AAC of [bytes] bytes. *)
Definition adts_header (bytes : Z) : list Z :=
  let len := bytes + 7 in
  let profile := 2 in
  let sampling_frequency_index := 4 in
  let channel_configuration := 2 in
  map u8
    [255;
     Z.lor 240 1;
     Z.lor (Z.lor (Z.shiftl (profile - 1) 6)
              (Z.shiftl (Z.land sampling_frequency_index 15) 2))
       (Z.land (Z.shiftr channel_configuration 2) 1);
     Z.lor (Z.shiftl (Z.land channel_configuration 3) 6) (Z.land (Z.shiftr len 11) 3);
     Z.shiftr len 3;
     Z.lor (Z.shiftl (Z.land len 7) 5) 31;
     Z.lor 252 (Z.land (Z.quot len 1024) 3)].

Definition is_annexb (encoding : string) : bool :=
  bool_decide (encoding = "H264" ∨ encoding = "H265").

(** [strcasecmp] with a lower-case name. *)
Definition lower (c : Ascii.ascii) : Ascii.ascii :=
  let n := Ascii.nat_of_ascii c in
  if (65 <=? n)%nat && (n <=? 90)%nat then Ascii.ascii_of_nat (n + 32) else c.

Fixpoint lower_string (s : string) : string :=
  match s with
  | EmptyString => EmptyString
  | String c s' => String (lower c) (lower_string s')
  end.

(** [rtp_decode_packet]: the bytes written to the media file. *)
Definition rtp_decode_packet (encoding : string) (packet : list Z) : outcome (list Z) :=
  let bytes := Z.of_nat (length packet) in
  _ ← require (negb (2 * 1024 * 1024 <=? bytes + 4)) LogFatal;
  let header :=
    if is_annexb encoding then start_code
    else if bool_decide (lower_string encoding = "mpeg4-generic")
    then adts_header bytes else [] in
  _ ← require (Z.of_nat (length header) + bytes <=? 2 * 1024 * 1024) OutOfBounds;
  Done (header ++ packet).

(** * The tool *)

(** [rtp_alloc]: the comparison is between unsigned numbers. *)
Definition rtp_alloc (bytes : Z) : outcome unit :=
  require (negb (2 * 1024 * 1024 <? u64 bytes)) LogFatal.

(** What the decoder of librtp does with a packet: it asks for memory and hands
    out frames. *)
Inductive decoder_call : Type :=
| DecoderAlloc (bytes : Z)
| DecoderFrame (frame : list Z).

Section tool.
Context {D : Type}.
Variable rtp_payload_decode_create : Z → string → D.
Variable rtp_payload_decode_input : D → list Z → list decoder_call * D.

(** The callbacks of the tool; the result is what was written. *)
Fixpoint decoder_calls (encoding : string) (cs : list decoder_call)
  : outcome (list Z) :=
  match cs with
  | [] => Done []
  | DecoderAlloc bytes :: cs' => _ ← rtp_alloc bytes; decoder_calls encoding cs'
  | DecoderFrame frame :: cs' =>
      w ← rtp_decode_packet encoding frame;
      out ← decoder_calls encoding cs';
      Done (w ++ out)
  end.

(** The while loop of [rtp_payload_test], with the decoder. *)
Fixpoint decode_loop (fuel : nat) (encoding : string) (d : D) (file : list Z)
  : outcome (list Z) :=
  match fuel with
  | O => Done []
  | S fuel' =>
      let '(s2, file) := fread 2 file in
      match s2 with
      | [b0; b1] =>
          let size := Z.lor (Z.shiftl b0 8) b1 in
          _ ← require (size <? packet_capacity) LogFatal;
          let '(packet, file) := fread (Z.to_nat size) file in
          if negb (Z.of_nat (length packet) =? size) then Done []
          else
            let '(cs, d) := rtp_payload_decode_input d packet in
            w ← decoder_calls encoding cs;
            out ← decode_loop fuel' encoding d file;
            Done (w ++ out)
      | _ => Done []
      end
  end.

(** [rtp_payload_test]: the media file it writes; [rtpfile] is [None] when the
    file does not exist. *)
Definition rtp_payload_test (payload : Z) (encoding : string)
    (rtpfile : option (list Z)) : outcome (list Z) :=
  file ← of_option LogFatal rtpfile;
  decode_loop (length file) encoding (rtp_payload_decode_create payload encoding) file.

(** [main] analyses MPEG transport streams. *)
Definition payload_test_main (rtpfile : option (list Z)) : outcome (list Z) :=
  rtp_payload_test 33 "MP2T" rtpfile.

(** Reference: what the decoder makes of packets in sequence. *)
Fixpoint decoded (d : D) (ps : list (list Z)) : list decoder_call :=
  match ps with
  | [] => []
  | p :: ps' =>
      let '(cs, d') := rtp_payload_decode_input d p in cs ++ decoded d' ps'
  end.
End tool.

(** * Lemmas *)

(** The fields of an ADTS header that a decoder reads (ISO/IEC 13818-7). *)
Definition adts_sync (h : list Z) : Z :=
  Z.lor (Z.shiftl (nth 0 h 0) 4) (Z.shiftr (nth 1 h 0) 4).
Definition adts_frame_length (h : list Z) : Z :=
  (nth 3 h 0 mod 4) * 2048 + nth 4 h 0 * 8 + nth 5 h 0 / 32.

Lemma size_bytes (n : Z) :
  0 ≤ n < 65536 →
  Z.lor (Z.shiftl (u8 (Z.shiftr n 8)) 8) (u8 (Z.land n 255)) = n.
Proof.
  intros Hn. unfold u8. change 255 with (Z.ones 8).
  rewrite Z.land_ones, Z.shiftr_div_pow2 by lia. change (2 ^ 8) with 256.
  rewrite Z.mod_mod by lia.
  rewrite (Z.mod_small (n / 256)) by
    (split; [apply Z.div_pos; lia|apply Z.div_lt_upper_bound; lia]).
  pose proof (Z.mod_pos_bound n 256). rewrite lor_shiftl_8 by (lia || apply Z.div_pos; lia).
  pose proof (Z.div_mod n 256). lia.
Qed.

(** What remains of a dump that was cut off: not even a length, or less than the
    length announces. *)
Definition incomplete (tail : list Z) : Prop :=
  (length tail < 2)%nat ∨
  ∃ b0 b1 rest, tail = b0 :: b1 :: rest ∧ 0 ≤ b0 < 256 ∧ 0 ≤ b1 < 256 ∧
    Z.of_nat (length rest) < b0 * 256 + b1.

Lemma read_incomplete fuel tail : incomplete tail → read_packets fuel tail = Done [].
Proof.
  destruct fuel as [|fuel]; [done|].
  intros [Hlen|(b0 & b1 & rest & -> & Hb0 & Hb1 & Hlen)]; simpl.
  - destruct tail as [|x [|y tail]]; simpl in *; [done..|lia].
  - rewrite lor_shiftl_8, drop_0 by lia. unfold packet_capacity.
    rewrite (proj2 (Z.ltb_lt _ _)) by lia. orun. rewrite length_take.
    rewrite (proj2 (Z.eqb_neq _ _)) by lia. done.
Qed.

Lemma read_packet fuel p rest :
  Z.of_nat (length p) < 65536 →
  read_packets (S fuel) (dump_packet p ++ rest)
  = (ps ← read_packets fuel rest; Done (p :: ps)).
Proof.
  intros Hp. unfold dump_packet. simpl. rewrite drop_0, size_bytes by lia.
  unfold packet_capacity. rewrite (proj2 (Z.ltb_lt _ _)) by lia. orun.
  rewrite Nat2Z.id, take_app_length, drop_app_length, Z.eqb_refl. done.
Qed.

(** The tool reads back what was dumped. From a file that holds dumped
    packets shorter than 64 KiB, and perhaps the beginning of one more that was
    cut off, the decoder is given exactly these packets in order, the fatal size
    check never fires, and the loop ends. *)
Theorem packet_file_roundtrip (ps : list (list Z)) (tail : list Z)
    (Hps : Forall (fun p => Z.of_nat (length p) < 65536) ps)
    (Htail : incomplete tail) :
  read_file (dump ps ++ tail) = Done ps.
Proof.
  unfold read_file.
  assert (Hf : (length (dump ps ++ tail) ≤ length (dump ps ++ tail))%nat) by done.
  revert Hf. generalize (length (dump ps ++ tail)) at 2 3 as fuel.
  induction Hps as [|p ps Hp _ IH]; intros fuel Hf.
  { by apply read_incomplete. }
  assert (Hd : dump (p :: ps) ++ tail = dump_packet p ++ (dump ps ++ tail))
    by (unfold dump; simpl; by rewrite <- app_assoc).
  rewrite Hd in *. destruct fuel as [|fuel].
  { rewrite length_app in Hf. simpl in Hf. lia. }
  rewrite read_packet, IH by (done || (rewrite length_app in Hf; simpl in Hf; lia)). done.
Qed.

Lemma packet_file_roundtrip_witness :
  read_file ([0; 3; 128; 96; 1; 0; 0; 0; 2; 7; 8] ++ [1; 0; 5])
  = Done [[128; 96; 1]; []; [7; 8]].
Proof.
  apply (packet_file_roundtrip [[128; 96; 1]; []; [7; 8]] [1; 0; 5]).
  - repeat constructor; simpl; lia.
  - right. exists 1, 0, [5]. split_and!; [done|lia..|simpl; lia].
Defined.

Definition adts_good (bytes : Z) : bool :=
  let h := adts_header bytes in
  (adts_sync h =? 4095) && (adts_frame_length h =? bytes + 7) &&
  (nth 6 h 0 mod 4 =? (bytes + 7) / 1024 mod 4).

Lemma adts_good_all : forallb adts_good (seqZ 0 8185) = true.
Proof. vm_compute. reflexivity. Qed.

(** The ADTS header. For AAC frames that fit the 13-bit length field, a
    decoder finds the syncword 0xFFF and the length of header and frame. The last
    field counts additional raw data blocks and is filled with bits of the
    length instead, so that frames of 1 KiB or more announce blocks they do not
    have. *)
Theorem adts_header_fields (bytes : Z) (Hb : 0 ≤ bytes) (Hlen : bytes + 7 < 8192) :
  let h := adts_header bytes in
  adts_sync h = 4095 ∧ adts_frame_length h = bytes + 7 ∧
  nth 6 h 0 mod 4 = (bytes + 7) / 1024 mod 4.
Proof.
  pose proof (proj1 (forallb_forall _ _) adts_good_all bytes) as Hg.
  assert (Hin : In bytes (seqZ 0 8185)).
  { apply list_elem_of_In, elem_of_seqZ. lia. }
  specialize (Hg Hin). unfold adts_good in Hg.
  rewrite !andb_true_iff, !Z.eqb_eq in Hg. intuition.
Qed.

Lemma adts_header_fields_witness :
  adts_header 1017 = [255; 241; 80; 128; 128; 31; 253] ∧
  adts_sync (adts_header 1017) = 4095 ∧ adts_frame_length (adts_header 1017) = 1024 ∧
  nth 6 (adts_header 1017) 0 mod 4 = 1.
Proof.
  split; [reflexivity|]. apply (adts_header_fields 1017); lia.
Defined.

(** * The whole tool *)

(** The bytes of the frames among the calls. *)
Definition frames_of (cs : list decoder_call) : list Z :=
  concat (omap (fun c => match c with DecoderFrame f => Some f | _ => None end) cs).

(** A call that the buffers of the tool can serve. *)
Definition call_fits (c : decoder_call) : Prop :=
  match c with
  | DecoderAlloc bytes => 0 ≤ bytes ≤ 2 * 1024 * 1024
  | DecoderFrame f => Z.of_nat (length f) + 4 < 2 * 1024 * 1024
  end.

Lemma decode_plain f :
  Z.of_nat (length f) + 4 < 2 * 1024 * 1024 → rtp_decode_packet "MP2T" f = Done f.
Proof.
  intros Hf. unfold rtp_decode_packet.
  rewrite (proj2 (Z.leb_gt (2 * 1024 * 1024) _) Hf). orun. cbn [negb].
  change (is_annexb "MP2T") with false. cbn iota beta.
  change (bool_decide (lower_string "MP2T" = "mpeg4-generic")) with false.
  by rewrite (proj2 (Z.leb_le _ (2 * 1024 * 1024))) by (simpl length; lia).
Qed.

Lemma calls_plain cs :
  Forall call_fits cs → decoder_calls "MP2T" cs = Done (frames_of cs).
Proof.
  induction 1 as [|[bytes|f] cs Hc _ IH]; simpl in *; [done|..].
  - unfold rtp_alloc, u64. rewrite Z.mod_small, (proj2 (Z.ltb_ge _ _)) by lia. orun.
    apply IH.
  - rewrite decode_plain by done. orun. rewrite IH. done.
Qed.

Lemma frames_of_app cs cs' : frames_of (cs ++ cs') = frames_of cs ++ frames_of cs'.
Proof. unfold frames_of. by rewrite omap_app, concat_app. Qed.

Section whole_tool.
Context {D : Type}.
Variable create : Z → string → D.
Variable input : D → list Z → list decoder_call * D.

Lemma decode_incomplete fuel encoding d tail :
  incomplete tail → decode_loop input fuel encoding d tail = Done [].
Proof.
  destruct fuel as [|fuel]; [done|].
  intros [Hlen|(b0 & b1 & rest & -> & Hb0 & Hb1 & Hlen)]; simpl.
  - destruct tail as [|x [|y tail]]; simpl in *; [done..|lia].
  - rewrite lor_shiftl_8, drop_0 by lia. unfold packet_capacity.
    rewrite (proj2 (Z.ltb_lt _ _)) by lia. orun. rewrite length_take.
    rewrite (proj2 (Z.eqb_neq _ _)) by lia. done.
Qed.

Lemma decode_packet fuel encoding d p rest :
  Z.of_nat (length p) < 65536 →
  decode_loop input (S fuel) encoding d (dump_packet p ++ rest)
  = (w ← decoder_calls encoding (input d p).1;
     out ← decode_loop input fuel encoding (input d p).2 rest; Done (w ++ out)).
Proof.
  intros Hp. unfold dump_packet. simpl. rewrite drop_0, size_bytes by lia.
  unfold packet_capacity. rewrite (proj2 (Z.ltb_lt _ _)) by lia. orun.
  rewrite Nat2Z.id, take_app_length, drop_app_length, Z.eqb_refl. simpl.
  by destruct (input d p).
Qed.

(** C34: the tool writes what the decoder makes of the dump. From a file of dumped
    packets, perhaps cut off, [main] writes exactly the frames the decoder gives
    for these packets, one after the other and unchanged, as long as the decoder
    asks for at most 2 MiB and its frames are smaller than that by more than four
    bytes; without the file it ends with a fatal log entry. *)
Theorem payload_test_decodes (ps : list (list Z)) (tail : list Z)
    (Hps : Forall (fun p => Z.of_nat (length p) < 65536) ps)
    (Htail : incomplete tail)
    (Hfit : Forall call_fits (decoded input (create 33 "MP2T") ps)) :
  payload_test_main create input (Some (dump ps ++ tail))
  = Done (frames_of (decoded input (create 33 "MP2T") ps)) ∧
  payload_test_main create input None = Fault LogFatal.
Proof.
  split; [|done]. unfold payload_test_main, rtp_payload_test. orun.
  revert Hfit. generalize (create 33 "MP2T") as d.
  assert (Hf : (length (dump ps ++ tail) ≤ length (dump ps ++ tail))%nat) by done.
  revert Hf. generalize (length (dump ps ++ tail)) at 2 3 as fuel.
  induction Hps as [|p ps Hp _ IH]; intros fuel Hf d Hfit.
  { by apply decode_incomplete. }
  assert (Hd : dump (p :: ps) ++ tail = dump_packet p ++ (dump ps ++ tail))
    by (unfold dump; simpl; by rewrite <- app_assoc).
  rewrite Hd in *. destruct fuel as [|fuel].
  { rewrite length_app in Hf. simpl in Hf. lia. }
  rewrite decode_packet by done. simpl in Hfit |- *.
  destruct (input d p) as [cs d']. apply Forall_app in Hfit as [H1 H2]. simpl.
  rewrite calls_plain by done. orun. rewrite length_app in Hf. simpl in Hf.
  rewrite IH by (done || lia). orun. by rewrite frames_of_app.
Qed.
End whole_tool.

(** A decoder that hands out each packet without its first byte. *)
Lemma payload_test_decodes_witness :
  payload_test_main (fun _ _ => tt)
    (fun _ p => ([DecoderAlloc 10; DecoderFrame (tail p)], tt))
    (Some ([0; 3; 128; 71; 1; 0; 2; 7; 8] ++ [1; 0; 5])) = Done [71; 1; 8] ∧
  payload_test_main (fun _ _ => tt)
    (fun _ p => ([DecoderAlloc 10; DecoderFrame (tail p)], tt)) None = Fault LogFatal.
Proof.
  apply (payload_test_decodes (fun _ _ => tt)
           (fun _ p => ([DecoderAlloc 10; DecoderFrame (tail p)], tt))
           [[128; 71; 1]; [7; 8]] [1; 0; 5]).
  - repeat constructor; simpl; lia.
  - right. exists 1, 0, [5]. split_and!; [done|lia..|simpl; lia].
  - simpl. repeat constructor; simpl; lia.
Defined.
