(* ===== verification/Metrics.v ===== *)
(** common/metrics/prometheus: the process-wide [MetricsManager], its four
    families, the counters the network server and the producer create with it,
    and the scope that measures a latency ([LatencyMeasureMsScoped]). prometheus-cpp is the environment: a family is an abstract value with
    the function [Add], of which the code relies on that equal labels name one
    metric and different labels different ones. *)

From stdpp Require Import base gmap strings list pretty.
From S2P Require Import Prelude.

(** [std::map<std::string, std::string>] *)
Abbreviation labels := (gmap string string).

(** The contract of [Family::Add]: it returns the metric of the labels, which is
    made on first use, and leaves the metrics of other labels alone. *)
Class Family (F : Type) : Type := {
  new_family : string → F;
  metric_of : F → labels → option N;
  family_add : labels → F → N * F;
}.

Class FamilyLaws (F : Type) `{Family F} : Prop := {
  new_family_empty name l : metric_of (new_family name) l = None;
  add_metric l f : metric_of (family_add l f).2 l = Some (family_add l f).1;
  add_existing l f a : metric_of f l = Some a → (family_add l f).1 = a;
  add_other l l' f : l ≠ l' → metric_of (family_add l f).2 l' = metric_of f l';
  add_fresh l l' f a :
    metric_of f l = None → metric_of f l' = Some a → (family_add l f).1 ≠ a;
}.

Section metrics.
Context {F : Type} `{Family F}.

Record Options : Type := mkOptions {
  exposer_port : Z;
  family_prefix : string;
  endpoint_uri : string;
}.

Record MetricsManager : Type := mkMetricsManager {
  exposer : string;
  endpoint : option string;
  mpCounterFamily : F;
  mpGaugeFamily : F;
  mpHistogramFamily : F;
  mpSummaryFamily : F;
}.

Definition newMetricsManager (o : Options) : MetricsManager :=
  mkMetricsManager ("0.0.0.0:" +:+ pretty (exposer_port o))
    (if bool_decide (endpoint_uri o = EmptyString) then None else Some (endpoint_uri o))
    (new_family (family_prefix o +:+ "_counter"))
    (new_family (family_prefix o +:+ "_gauge"))
    (new_family (family_prefix o +:+ "_histogram"))
    (new_family (family_prefix o +:+ "_summary")).

(** [spInstance]: [std::call_once] runs the first initialisation only. *)
Definition metrics_init (o : Options) (sp : option MetricsManager)
  : option MetricsManager :=
  match sp with
  | None => Some (newMetricsManager o)
  | Some m => Some m
  end.

Definition GetInstance (sp : option MetricsManager) : outcome MetricsManager :=
  of_option NullDeref sp.

(** [AddCounter]; it writes the name into the caller's labels. *)
Definition AddCounter (name : string) (ls : labels) (m : MetricsManager)
  : N * labels * MetricsManager :=
  let ls := <["metric_name" := name]> ls in
  let '(c, f) := family_add ls (mpCounterFamily m) in
  (c, ls, mkMetricsManager (exposer m) (endpoint m) f (mpGaugeFamily m)
            (mpHistogramFamily m) (mpSummaryFamily m)).

Definition AddGauge (name : string) (ls : labels) (m : MetricsManager)
  : N * labels * MetricsManager :=
  let ls := <["metric_name" := name]> ls in
  let '(c, f) := family_add ls (mpGaugeFamily m) in
  (c, ls, mkMetricsManager (exposer m) (endpoint m) (mpCounterFamily m) f
            (mpHistogramFamily m) (mpSummaryFamily m)).

(** [AddHistogram] and [AddSummary] pass their parameters on to the family. *)
Definition AddHistogram (name : string) (ls : labels) (m : MetricsManager)
  : N * labels * MetricsManager :=
  let ls := <["metric_name" := name]> ls in
  let '(c, f) := family_add ls (mpHistogramFamily m) in
  (c, ls, mkMetricsManager (exposer m) (endpoint m) (mpCounterFamily m)
            (mpGaugeFamily m) f (mpSummaryFamily m)).

Definition AddSummary (name : string) (ls : labels) (m : MetricsManager)
  : N * labels * MetricsManager :=
  let ls := <["metric_name" := name]> ls in
  let '(c, f) := family_add ls (mpSummaryFamily m) in
  (c, ls, mkMetricsManager (exposer m) (endpoint m) (mpCounterFamily m)
            (mpGaugeFamily m) (mpHistogramFamily m) f).

(** The counter of a peer of the network server. *)
Definition peer_counter (name : string) (sp : option MetricsManager)
  : outcome (N * MetricsManager) :=
  m ← GetInstance sp;
  let ls := <["info" := "received bytes"]> (<["module" := "network server"]> ∅) in
  let '(c, _, m) := AddCounter name ls m in
  Done (c, m).

(** The three counters of a camera stream: one label map is reused. *)
Definition stream_counters (gbid : string) (sp : option MetricsManager)
  : outcome (N * N * N * MetricsManager) :=
  m ← GetInstance sp;
  let ls := <["info" := "produced bytes"]> (<["module" := "rtp producer"]> ∅) in
  let '(c1, ls, m) := AddCounter gbid ls m in
  let '(c2, ls, m) := AddCounter gbid (<["info" := "remux input bytes"]> ls) m in
  let '(c3, _, m) := AddCounter gbid (<["info" := "demux input bytes"]> ls) m in
  Done (c1, c2, c3, m).

(** The labels each counter is filed under. *)
Definition stream_labels (gbid info : string) : labels :=
  <["metric_name" := gbid]> (<["info" := info]> (<["module" := "rtp producer"]> ∅)).
Definition peer_labels (name : string) : labels :=
  <["metric_name" := name]>
    (<["info" := "received bytes"]> (<["module" := "network server"]> ∅)).

(** * Lemmas *)

Context `{!FamilyLaws F}.

(** Different labels of a family name different metrics. *)
Definition family_inj (f : F) : Prop :=
  ∀ l l' a, metric_of f l = Some a → metric_of f l' = Some a → l = l'.

Lemma family_inj_new name : family_inj (new_family name).
Proof. intros l l' a. by rewrite new_family_empty. Qed.

Lemma family_inj_add l f : family_inj f → family_inj (family_add l f).2.
Proof.
  intros Hi. destruct (metric_of f l) as [b|] eqn:Eb.
  - assert (Hsame : ∀ x, metric_of (family_add l f).2 x = metric_of f x).
    { intros x. destruct (decide (l = x)) as [<-|]; [|by apply add_other].
      by rewrite add_metric, Eb, (add_existing _ _ _ Eb). }
    intros x y a. rewrite !Hsame. apply Hi.
  - intros x y a. destruct (decide (l = x)) as [<-|Hx], (decide (l = y)) as [<-|Hy];
      [done|..].
    + rewrite add_metric, add_other by done. intros [= <-] Hm.
      by destruct (add_fresh l y f _ Eb Hm).
    + rewrite add_metric, add_other by done. intros Hm [= <-].
      by destruct (add_fresh l x f _ Eb Hm).
    + rewrite !add_other by done. apply Hi.
Qed.

Lemma family_add_keeps l l' f a :
  metric_of f l' = Some a → metric_of (family_add l f).2 l' = Some a.
Proof.
  intros Hm. destruct (decide (l = l')) as [<-|]; [|by rewrite add_other].
  by rewrite add_metric, (add_existing _ _ _ Hm).
Qed.

Lemma AddCounter_spec name ls m :
  let '(c, ls', m') := AddCounter name ls m in
  ls' = <["metric_name" := name]> ls ∧
  metric_of (mpCounterFamily m') ls' = Some c ∧
  (family_inj (mpCounterFamily m) → family_inj (mpCounterFamily m')) ∧
  (∀ l a, metric_of (mpCounterFamily m) l = Some a →
     metric_of (mpCounterFamily m') l = Some a).
Proof.
  unfold AddCounter. destruct (family_add _ (mpCounterFamily m)) as [c f] eqn:E.
  set (l := <["metric_name" := name]> ls) in *. simpl.
  pose proof (add_metric l (mpCounterFamily m)) as Hm. rewrite E in Hm.
  split_and!; [done|done|..].
  - intros Hi. pose proof (family_inj_add l _ Hi) as Hi'. by rewrite E in Hi'.
  - intros l' a Ha. pose proof (family_add_keeps l _ _ _ Ha) as Hk. by rewrite E in Hk.
Qed.

Lemma stream_counters_spec gbid m :
  family_inj (mpCounterFamily m) →
  ∃ c1 c2 c3 m', stream_counters gbid (Some m) = Done (c1, c2, c3, m') ∧
    metric_of (mpCounterFamily m') (stream_labels gbid "produced bytes") = Some c1 ∧
    metric_of (mpCounterFamily m') (stream_labels gbid "remux input bytes") = Some c2 ∧
    metric_of (mpCounterFamily m') (stream_labels gbid "demux input bytes") = Some c3 ∧
    family_inj (mpCounterFamily m') ∧
    (∀ l a, metric_of (mpCounterFamily m) l = Some a →
       metric_of (mpCounterFamily m') l = Some a).
Proof.
  intros Hi. unfold stream_counters. orun. simpl.
  destruct (AddCounter gbid _ m) as [[c1 l1] m1] eqn:E1.
  pose proof (AddCounter_spec gbid
    (<["info" := "produced bytes"]> (<["module" := "rtp producer"]> ∅)) m) as S1.
  rewrite E1 in S1. destruct S1 as (-> & M1 & I1 & K1).
  destruct (AddCounter gbid _ m1) as [[c2 l2] m2] eqn:E2.
  match type of E2 with AddCounter _ ?l _ = _ =>
    pose proof (AddCounter_spec gbid l m1) as S2 end.
  rewrite E2 in S2. destruct S2 as (-> & M2 & I2 & K2).
  destruct (AddCounter gbid _ m2) as [[c3 l3] m3] eqn:E3.
  match type of E3 with AddCounter _ ?l _ = _ =>
    pose proof (AddCounter_spec gbid l m2) as S3 end.
  rewrite E3 in S3. destruct S3 as (-> & M3 & I3 & K3).
  exists c1, c2, c3, m3. split; [done|]. by split_and!; auto.
Qed.

Lemma peer_counter_spec name m :
  family_inj (mpCounterFamily m) →
  ∃ c m', peer_counter name (Some m) = Done (c, m') ∧
    metric_of (mpCounterFamily m') (peer_labels name) = Some c ∧
    family_inj (mpCounterFamily m') ∧
    (∀ l a, metric_of (mpCounterFamily m) l = Some a →
       metric_of (mpCounterFamily m') l = Some a).
Proof.
  intros Hi. unfold peer_counter. orun. simpl.
  match goal with |- context [AddCounter ?n ?l ?m] =>
    pose proof (AddCounter_spec n l m) as S1;
    destruct (AddCounter n l m) as [[c l1] m1] end.
  destruct S1 as (-> & M1 & I1 & K1). exists c, m1. by split_and!; auto.
Qed.

(** The labels of the counters differ in what they count. *)
Lemma stream_labels_inj g g' i i' :
  stream_labels g i = stream_labels g' i' → i = i' ∧ g = g'.
Proof.
  intros E. split.
  - apply (f_equal (lookup "info")) in E. unfold stream_labels in E.
    rewrite !(lookup_insert_ne _ "metric_name" "info"), !lookup_insert_eq in E by done.
    congruence.
  - apply (f_equal (lookup "metric_name")) in E. unfold stream_labels in E.
    rewrite !lookup_insert_eq in E. congruence.
Qed.

Lemma stream_peer_labels g i n : stream_labels g i ≠ peer_labels n.
Proof.
  intros E. apply (f_equal (lookup "module")) in E. unfold stream_labels, peer_labels in E.
  rewrite !(lookup_insert_ne _ "metric_name" "module"),
    !(lookup_insert_ne _ "info" "module"), !lookup_insert_eq in E by done. congruence.
Qed.

Lemma metrics_init_inj o : family_inj (mpCounterFamily (newMetricsManager o)).
Proof. apply family_inj_new. Qed.
End metrics.
Arguments MetricsManager F : clear implicits.

(** Every stream and every peer counts for itself. In a manager whose counter
    family tells labels apart, as the one [Init] makes does, the three counters
    of a camera and the counter of a peer are four different counters, the
    counters of another camera are different from them, and a camera that is
    registered again goes on with its three counters. *)
Theorem counters_distinct `{Family F, !FamilyLaws F} (gbid gbid' peer : string)
    (m : MetricsManager F)
    (Hi : family_inj (mpCounterFamily m)) (Hne : gbid ≠ gbid') :
  ∃ c1 c2 c3 m1 c m2 d1 d2 d3 m3 m4,
    stream_counters gbid (Some m) = Done (c1, c2, c3, m1) ∧
    peer_counter peer (Some m1) = Done (c, m2) ∧
    stream_counters gbid' (Some m2) = Done (d1, d2, d3, m3) ∧
    NoDup [c1; c2; c3; c; d1; d2; d3] ∧
    stream_counters gbid (Some m3) = Done (c1, c2, c3, m4).
Proof.
  destruct (stream_counters_spec gbid m Hi) as (c1 & c2 & c3 & m1 & E1 & M1 & M2 & M3 & I1 & K1).
  destruct (peer_counter_spec peer m1 I1) as (c & m2 & E2 & Mc & I2 & K2).
  destruct (stream_counters_spec gbid' m2 I2)
    as (d1 & d2 & d3 & m3 & E3 & N1 & N2 & N3 & I3 & K3).
  destruct (stream_counters_spec gbid m3 I3)
    as (e1 & e2 & e3 & m4 & E4 & P1 & P2 & P3 & I4 & K4).
  assert (e1 = c1 ∧ e2 = c2 ∧ e3 = c3) as (-> & -> & ->).
  { apply K2, K3, K4 in M1, M2, M3. by rewrite M1 in P1; rewrite M2 in P2;
      rewrite M3 in P3; simplify_eq. }
  exists c1, c2, c3, m1, c, m2, d1, d2, d3, m3, m4. split_and!; [done..| |done].
  apply K2, K3 in M1, M2, M3. apply K3 in Mc. clear -I3 M1 M2 M3 Mc N1 N2 N3 Hne.
  assert (Hd : ∀ l l' a b, metric_of (mpCounterFamily m3) l = Some a →
            metric_of (mpCounterFamily m3) l' = Some b → l ≠ l' → a ≠ b).
  { intros l l' a b Ha Hb Hl ->. by apply Hl, (I3 _ _ b). }
  rewrite !NoDup_cons, !not_elem_of_cons. pose proof stream_labels_inj.
  pose proof stream_peer_labels.
  split_and!; try apply not_elem_of_nil; try apply NoDup_nil_2;
    (eapply Hd; [eassumption|eassumption|]); naive_solver.
Qed.

(** * A family to run on *)

Module TableFamily.
Definition add (l : labels) (f : gmap labels N) : N * gmap labels N :=
  match f !! l with
  | Some a => (a, f)
  | None => let a := fresh (map_img (SA := gset N) f) in (a, <[l := a]> f)
  end.

#[export] Instance table_family : Family (gmap labels N) := {
  new_family _ := ∅;
  metric_of f l := f !! l;
  family_add := add;
}.

#[export] Instance table_family_laws : FamilyLaws (gmap labels N).
Proof.
  split; simpl; unfold add.
  - done.
  - intros l f. destruct (f !! l) eqn:E; simpl; [done|]. apply lookup_insert_eq.
  - intros l f a ->. done.
  - intros l l' f Hl. destruct (f !! l); simpl; [done|]. by apply lookup_insert_ne.
  - intros l l' f a -> Hl'. simpl. intros E.
    apply (is_fresh (map_img (SA := gset N) f)). rewrite E.
    by apply elem_of_map_img_2 with l'.
Qed.
End TableFamily.

Lemma counters_distinct_witness :
  let m := @newMetricsManager _ TableFamily.table_family
             (mkOptions 9090 "ffvms" EmptyString) in
  ∃ c1 c2 c3 m1 c m2 d1 d2 d3 m3 m4,
    @stream_counters _ TableFamily.table_family "34" (Some m)
    = Done (c1, c2, c3, m1) ∧
    @peer_counter _ TableFamily.table_family "10.0.0.9:30000" (Some m1)
    = Done (c, m2) ∧
    @stream_counters _ TableFamily.table_family "35" (Some m2)
    = Done (d1, d2, d3, m3) ∧
    NoDup [c1; c2; c3; c; d1; d2; d3] ∧
    @stream_counters _ TableFamily.table_family "34" (Some m3)
    = Done (c1, c2, c3, m4).
Proof.
  apply (@counters_distinct _ TableFamily.table_family TableFamily.table_family_laws
           "34" "35" "10.0.0.9:30000"); [|done].
  apply (@metrics_init_inj _ _ TableFamily.table_family_laws).
Defined.

(** * Measuring a latency *)

Section latency.
#[local] Open Scope Z_scope.

(** [LatencyMeasureMsScoped]: the start of the scope, in nanoseconds. *)
Record LatencyMeasureMsScoped : Type := mkLatencyMeasure {
  mStartTime : Z;
}.

(** The constructor reads the clock. *)
Definition start_measure (now : Z) : LatencyMeasureMsScoped := mkLatencyMeasure now.

(** The destructor: what is observed, in whole milliseconds towards zero
    ([duration_cast]). *)
Definition observe_latency (l : LatencyMeasureMsScoped) (now : Z) : Z :=
  Z.quot (now - mStartTime l) 1000000.

(** Scopes one after the other on a clock: what each of them observes. *)
Fixpoint measure_scopes (now : Z) (lengths : list Z) : list Z :=
  match lengths with
  | [] => []
  | d :: ds => observe_latency (start_measure now) (now + d) :: measure_scopes (now + d) ds
  end.

Definition total (l : list Z) : Z := foldr Z.add 0 l.

Lemma quot_bounds d : 0 ≤ d → 1000000 * Z.quot d 1000000 ≤ d < 1000000 * Z.quot d 1000000 + 1000000.
Proof.
  intros Hd. pose proof (Z.quot_rem d 1000000). pose proof (Z.rem_bound_pos d 1000000). lia.
Qed.

(** Latencies add up. For scopes in sequence on a clock that does not go back, each
    observation is not negative and less than a millisecond short; the sum of the
    observations is at most what one scope around all of them observes, and short
    of it by less than one millisecond for each scope. *)
Theorem latencies_add_up (now : Z) (lengths : list Z)
    (Hd : Forall (fun d => 0 ≤ d) lengths) :
  Forall (fun o => 0 ≤ o) (measure_scopes now lengths) ∧
  total (measure_scopes now lengths)
  ≤ observe_latency (start_measure now) (now + total lengths)
  ≤ total (measure_scopes now lengths) + Z.of_nat (length lengths).
Proof.
  assert (Hb : 0 ≤ total lengths ∧ Forall (fun o => 0 ≤ o) (measure_scopes now lengths) ∧
    1000000 * total (measure_scopes now lengths) ≤ total lengths
    ≤ 1000000 * total (measure_scopes now lengths) + 999999 * Z.of_nat (length lengths)).
  { revert now. induction Hd as [|d ds Hd _ IH]; intros now; simpl.
    { unfold total. simpl. split_and!; [lia|constructor|lia..]. }
    destruct (IH (now + d)) as (H0 & H1 & H2). unfold observe_latency. simpl.
    replace (now + d - now) with d by lia. pose proof (quot_bounds d Hd).
    pose proof (Z.quot_pos d 1000000). unfold total in *.
    split_and!; [lia|constructor; [lia|done]|lia|lia]. }
  destruct Hb as (H0 & H1 & H2). split; [done|]. unfold observe_latency. simpl.
  replace (now + total lengths - now) with (total lengths) by lia.
  pose proof (quot_bounds _ H0). lia.
Qed.

Lemma latencies_add_up_witness :
  measure_scopes 5 [1500000; 2600000] = [1; 2] ∧
  1 + (2 + 0) ≤ observe_latency (start_measure 5) (5 + (1500000 + (2600000 + 0)))
  ≤ 1 + (2 + 0) + 2.
Proof.
  split; [reflexivity|].
  apply (latencies_add_up 5 [1500000; 2600000]). repeat constructor; lia.
Defined.

(** [high_resolution_clock] need not be steady: when the clock is set back the
    scope observes a negative latency. *)
Lemma latency_negative (now back : Z) :
  1000000 ≤ back → observe_latency (start_measure now) (now - back) < 0.
Proof.
  intros Hb. unfold observe_latency. simpl.
  replace (now - back - now) with (- back) by lia. rewrite Z.quot_opp_l by lia.
  pose proof (Z.quot_str_pos back 1000000). lia.
Qed.
End latency.
