(* ===== verification/Locks.v ===== *)
(** The locks of the program: which of them each callback takes, in which mode
    and order, and which shared variables it touches in between, in
    core/src/rtsp_service.cpp, core/src/rtp_producer.cpp,
    core/src/network_server.cpp and common/thread_pool.

    An operation is its sequence of acquisitions, releases and accesses; the
    branches that matter for them are its arguments. Threads run operations
    interleaved in any way. [event_free] of the frame timer waits until the
    callback that is running has returned (libevent), so a running timer callback
    counts as a lock. The policy of [std::shared_mutex] is a parameter: the
    standard does not say whether a waiting writer keeps new readers out. Locks
    that are never held while another one is taken, inside libevent, gRPC and
    prometheus-cpp, are left out. Deadlocks are here, data races in Races.v. *)
From Stdlib Require Import Btauto.
From stdpp Require Import base list numbers relations.
From S2P Require Import Prelude.

(** * Locks and operations *)

Inductive mode : Type := Shared | Unique.

(** [ClientMutex a] is [mClientMutex] of the proxy at [a], [PeerMutex] is
    [mMutex] of the network server, [FilePoolMutex] and [WorkerMutex i] are the
    mutexes of the producer's thread pool and of the pool of UDP worker [i], and
    [FrameEvent a] is the frame timer of the file bound to proxy [a]. *)
Inductive lock : Type :=
| RtspServerMutex
| ProxyInfoMutex
| ClientMutex (a : N)
| FileContextMutex
| RtpContextMutex
| PeerMutex
| BufferMutex
| FilePoolMutex
| WorkerMutex (i : nat)
| FrameEvent (a : N).

#[export] Instance mode_eq_dec : EqDecision mode.
Proof. solve_decision. Defined.
#[export] Instance lock_eq_dec : EqDecision lock.
Proof. solve_decision. Defined.

(** What threads share. [ProxyFields a] are the client sets and the SDP of the
    proxy at [a], [SendBuffer a] is its send buffer, [Tasks l] the queue of the
    pool with mutex [l]. *)
Inductive variable : Type :=
| BevMap
| ProxyMap
| ProxyFields (a : N)
| SendBuffer (a : N)
| FileMap
| RtpMap
| PeerMap
| ReceivePosition
| Tasks (l : lock).

#[export] Instance variable_eq_dec : EqDecision variable.
Proof. solve_decision. Defined.

(** [Touch x Shared] reads [x], [Touch x Unique] writes it. *)
Inductive action : Type :=
| Acquire (l : lock) (m : mode)
| Release (l : lock)
| Touch (x : variable) (m : mode).

(** A lock guard with what runs in its scope. *)
Definition scoped (l : lock) (m : mode) (body : list action) : list action :=
  Acquire l m :: body ++ [Release l].

Inductive video_kind : Type := FileVideo | CameraVideo | UnsupportedVideo.

(** The callbacks bound to a proxy; [processErrorFunction] takes no lock. *)
Definition processSdp_locks (a : N) : list action :=
  scoped (ClientMutex a) Unique [Touch (ProxyFields a) Unique].
Definition consumePkt_locks (a : N) : list action :=
  scoped (ClientMutex a) Shared
    [Touch (SendBuffer a) Unique; Touch (ProxyFields a) Shared].
Definition processError_locks (a : N) : list action := [Touch (ProxyFields a) Shared].

(** [n] packets for the proxy. *)
Definition packets_locks (a : N) (n : nat) : list action :=
  concat (replicate n (consumePkt_locks a)).

(** [event_del] and [event_free] of a timer that was added. *)
Definition event_free_locks (timer : option N) : list action :=
  match timer with Some a => scoped (FrameEvent a) Unique [] | None => [] end.

Definition submit_locks (pool : lock) : list action :=
  scoped pool Unique [Touch (Tasks pool) Unique].

(** [fresh] says that the video is not registered yet. *)
Definition RegisterVideo_locks (a : N) (k : video_kind) (fresh : bool) : list action :=
  match k with
  | FileVideo =>
      scoped FileContextMutex Unique
        (Touch FileMap Shared ::
         if fresh then Touch FileMap Unique :: submit_locks FilePoolMutex
         else processError_locks a)
  | CameraVideo =>
      scoped RtpContextMutex Unique
        (Touch RtpMap Shared ::
         if fresh then [Touch RtpMap Unique] else processError_locks a)
  | UnsupportedVideo => []
  end.

Definition UnregisterVideo_locks (k : video_kind) (timer : option N) : list action :=
  match k with
  | FileVideo =>
      scoped FileContextMutex Unique (Touch FileMap Unique :: event_free_locks timer)
  | CameraVideo => scoped RtpContextMutex Unique [Touch RtpMap Unique]
  | UnsupportedVideo => []
  end.

(** The probe: it may report the SDP, and unless it ends well it reports an error
    when [ret] is not zero and erases the context. *)
Definition RegisterFileVideo_locks (a : N) (sdp ended ret : bool) (timer : option N)
  : list action :=
  scoped FileContextMutex Shared
    (Touch FileMap Shared :: if sdp then processSdp_locks a else []) ++
  if ended then []
  else (if ret then
          scoped FileContextMutex Shared (Touch FileMap Shared :: processError_locks a)
        else []) ++
       scoped FileContextMutex Unique (Touch FileMap Unique :: event_free_locks timer).

(** The frame timer, with the packets the muxer writes. *)
Definition FFGetFrame_locks (a : N) (n : nat) (failed : bool) : list action :=
  scoped (FrameEvent a) Unique
    (packets_locks a n ++ if failed then processError_locks a else []).

Definition registerPeer_locks : list action :=
  scoped PeerMutex Unique [Touch PeerMap Unique].

(** The answer to an invitation; [alive] is the proxy of a context that lives,
    and whether it streams now. *)
Definition on_invite_locks (alive : option (N * bool)) : list action :=
  scoped RtpContextMutex Shared
    (match alive with
     | Some (a, true) => processSdp_locks a ++ registerPeer_locks
     | Some (a, false) => processError_locks a
     | None => []
     end).

(** The callback of a peer; [alive] is the proxy of the context and the packets
    the datagram completes. *)
Definition on_peer_data_locks (alive : option (N * nat)) : list action :=
  scoped RtpContextMutex Shared
    (match alive with Some (a, n) => packets_locks a n | None => [] end).

Definition dispatch_locks (peer : option (option (N * nat))) : list action :=
  scoped PeerMutex Shared
    (Touch PeerMap Shared ::
     match peer with Some alive => on_peer_data_locks alive | None => [] end).

Definition alloc_slot_locks : list action :=
  scoped BufferMutex Unique [Touch ReceivePosition Unique].

(** One round of the read callback: dispatched in place or given to a worker. *)
Definition datagram_locks (d : option (option (N * nat)) + nat) : list action :=
  alloc_slot_locks ++
  match d with
  | inl peer => dispatch_locks peer
  | inr i => submit_locks (WorkerMutex i)
  end.

Definition on_readable_locks (ds : list (option (option (N * nat)) + nat))
  : list action :=
  concat (map datagram_locks ds) ++ alloc_slot_locks.

Definition OnOptions_locks (found : option N) : list action :=
  scoped ProxyInfoMutex Unique
    (Touch ProxyMap Shared ::
     match found with
     | Some a => scoped (ClientMutex a) Unique [Touch (ProxyFields a) Unique]
     | None => [Touch ProxyMap Unique]
     end).

(** [found] is the proxy, with the registration when the DESCRIBE makes one. *)
Definition OnDescribe_locks (found : option (N * option (video_kind * bool)))
  : list action :=
  scoped ProxyInfoMutex Unique
    (Touch ProxyMap Shared ::
     match found with
     | Some (a, r) =>
         scoped (ClientMutex a) Unique
           (Touch (ProxyFields a) Unique ::
            match r with Some (k, fresh) => RegisterVideo_locks a k fresh | None => [] end)
     | None => []
     end).

Definition OnPlay_locks (found : option N) : list action :=
  Touch ProxyMap Shared ::
  match found with
  | Some a => scoped (ClientMutex a) Unique [Touch (ProxyFields a) Unique]
  | None => []
  end.

Inductive request : Type :=
| Options (found : option N)
| Describe (found : option (N * option (video_kind * bool)))
| Play (found : option N)
| Other.

Definition request_locks (r : request) : list action :=
  match r with
  | Options found => OnOptions_locks found
  | Describe found => OnDescribe_locks found
  | Play found => OnPlay_locks found
  | Other => []
  end.

Definition readcb_locks (rs : list request) : list action :=
  scoped RtspServerMutex Shared
    (Touch BevMap Shared :: concat (map request_locks rs)).

(** What [Close] comes across: the proxies it looks at, the one with the client,
    and when its last session ends, the video to unregister if there is one. *)
Record close_path : Type := mkClosePath {
  visited : list N;
  client_of : option N;
  last_of : option (option (video_kind * option N));
}.

Definition Close_locks (c : close_path) : list action :=
  scoped ProxyInfoMutex Unique
    (Touch ProxyMap Shared ::
     map (fun a => Touch (ProxyFields a) Shared) (visited c) ++
     match client_of c with Some a => [Touch (ProxyFields a) Unique] | None => [] end ++
     match last_of c with
     | Some unregistered =>
         match unregistered with
         | Some (k, timer) => UnregisterVideo_locks k timer
         | None => []
         end ++ [Touch ProxyMap Unique]
     | None => []
     end).

(** [known] holds what [Close] does for a known connection. *)
Definition errorcb_locks (known : option close_path) : list action :=
  scoped RtspServerMutex Unique
    (Touch BevMap Shared ::
     match known with
     | Some c => Touch BevMap Unique :: Close_locks c
     | None => []
     end).

Definition accept_locks : list action :=
  scoped RtspServerMutex Unique [Touch BevMap Unique].

(** A round of a pool worker: the pop, and the task outside of the mutex. *)
Definition worker_locks (pool : lock) (task : list action) : list action :=
  scoped pool Unique [Touch (Tasks pool) Unique] ++ task.

Inductive operation : Type :=
| OpRead (rs : list request)
| OpError (known : option close_path)
| OpAccept
| OpProbe (a : N) (sdp ended ret : bool) (timer : option N)
| OpFrame (a : N) (n : nat) (failed : bool)
| OpInvite (alive : option (N * bool))
| OpUdp (ds : list (option (option (N * nat)) + nat))
| OpUdpWorker (i : nat) (peer : option (option (N * nat))).

Definition program (o : operation) : list action :=
  match o with
  | OpRead rs => readcb_locks rs
  | OpError known => errorcb_locks known
  | OpAccept => accept_locks
  | OpProbe a sdp ended ret timer =>
      worker_locks FilePoolMutex (RegisterFileVideo_locks a sdp ended ret timer)
  | OpFrame a n failed => FFGetFrame_locks a n failed
  | OpInvite alive => on_invite_locks alive
  | OpUdp ds => on_readable_locks ds
  | OpUdpWorker i peer => worker_locks (WorkerMutex i) (dispatch_locks peer)
  end.

(** * Threads *)

(** What a thread has left to do, and the locks it holds, the last one first. *)
Record thread : Type := mkThread {
  todo : list action;
  held : list (lock * mode);
}.

Inductive policy : Type := ReaderPreferred | WriterPreferred.

Definition conflicts (m m' : mode) : bool :=
  match m, m' with Shared, Shared => false | _, _ => true end.

(** The thread holds [l] in a mode that excludes [m]. *)
Definition excludes (l : lock) (m : mode) (t : thread) : bool :=
  existsb (fun h => bool_decide (h.1 = l) && conflicts h.2 m) (held t).

Definition waits_for (w : lock * mode) (t : thread) : bool :=
  match todo t with
  | Acquire l m :: _ => bool_decide ((l, m) = w)
  | _ => false
  end.

Definition granted (p : policy) (l : lock) (m : mode) (st : list thread) : bool :=
  negb (existsb (excludes l m) st) &&
  match p, m with
  | WriterPreferred, Shared => negb (existsb (waits_for (l, Unique)) st)
  | _, _ => true
  end.

Fixpoint release (l : lock) (hs : list (lock * mode)) : list (lock * mode) :=
  match hs with
  | [] => []
  | h :: hs' => if bool_decide (h.1 = l) then hs' else h :: release l hs'
  end.

(** The next action of thread [i]; [None] when it is finished or has to wait. *)
Definition act (p : policy) (i : nat) (st : list thread) : option (list thread) :=
  t ← st !! i;
  match todo t with
  | [] => None
  | Acquire l m :: r =>
      if granted p l m st then Some (<[i := mkThread r ((l, m) :: held t)]> st)
      else None
  | Release l :: r => Some (<[i := mkThread r (release l (held t))]> st)
  | Touch _ _ :: r => Some (<[i := mkThread r (held t)]> st)
  end.

Inductive lock_step (p : policy) : list thread → list thread → Prop :=
| step_start st o : lock_step p st (st ++ [mkThread (program o) []])
| step_act st i st' : act p i st = Some st' → lock_step p st st'.

Definition lock_reachable (p : policy) (st : list thread) : Prop :=
  rtc (lock_step p) [] st.

(** * The order of the locks *)

(** What a thread may ask for while it holds [h]. *)
Definition may_wait (h w : lock * mode) : bool :=
  match h, w with
  | (RtspServerMutex, _), ((ProxyInfoMutex | ClientMutex _ | FrameEvent _
                            | FilePoolMutex), _) => true
  | (RtspServerMutex, _), ((FileContextMutex | RtpContextMutex), Unique) => true
  | (ProxyInfoMutex, _), ((ClientMutex _ | FrameEvent _ | FilePoolMutex), _) => true
  | (ProxyInfoMutex, _), ((FileContextMutex | RtpContextMutex), Unique) => true
  | (ClientMutex _, Unique), ((FileContextMutex | RtpContextMutex), Unique) => true
  | (ClientMutex _, Unique), (FilePoolMutex, _) => true
  | (FileContextMutex, Shared), (ClientMutex _, _) => true
  | (FileContextMutex, Unique), ((FrameEvent _ | FilePoolMutex), _) => true
  | (FrameEvent _, _), (ClientMutex _, _) => true
  | (RtpContextMutex, Shared), (ClientMutex _, _) => true
  | (RtpContextMutex, Shared), (PeerMutex, Unique) => true
  | (PeerMutex, Shared), (RtpContextMutex, Shared) => true
  | (PeerMutex, Shared), (ClientMutex _, _) => true
  | _, _ => false
  end.

(** The lock that guards a variable. The code has none for the map of proxies,
    which [OnPlay] reads without [mProxyInfoMutex], for the fields of a proxy,
    which [Close] and [processErrorFunction] touch without [mClientMutex], and
    for the send buffer, which the packet callback writes under a shared lock. *)
Definition guard (x : variable) : option lock :=
  match x with
  | BevMap => Some RtspServerMutex
  | ProxyMap | ProxyFields _ | SendBuffer _ => None
  | FileMap => Some FileContextMutex
  | RtpMap => Some RtpContextMutex
  | PeerMap => Some PeerMutex
  | ReceivePosition => Some BufferMutex
  | Tasks l => Some l
  end.

(** The held locks allow the access: a write needs its guard in [Unique] mode. *)
Definition guarded (hs : list (lock * mode)) (x : variable) (m : mode) : bool :=
  match guard x with
  | Some l => existsb (fun h => bool_decide (h.1 = l) &&
                (bool_decide (m = Shared) || bool_decide (h.2 = Unique))) hs
  | None => true
  end.

(** What is left keeps to [may_wait] and to the guards, and releases the last lock
    first until nothing is held. *)
Fixpoint ordered (hs : list (lock * mode)) (r : list action) : Prop :=
  match r with
  | [] => hs = []
  | Acquire l m :: r' => Forall (fun h => may_wait h (l, m) = true) hs ∧
                         ordered ((l, m) :: hs) r'
  | Release l :: r' => match hs with
                       | (l', _) :: hs' => l' = l ∧ ordered hs' r'
                       | [] => False
                       end
  | Touch x m :: r' => guarded hs x m = true ∧ ordered hs r'
  end.

(** A piece of a program that leaves the held locks as they were. *)
Definition nested (hs : list (lock * mode)) (r : list action) : Prop :=
  ∀ rest, ordered hs rest → ordered hs (r ++ rest).

Lemma nested_nil hs : nested hs [].
Proof. by intros rest. Qed.

Lemma nested_app hs r r' : nested hs r → nested hs r' → nested hs (r ++ r').
Proof. intros H1 H2 rest Hr. rewrite <- app_assoc. by apply H1, H2. Qed.

Lemma nested_scoped hs l m body :
  Forall (fun h => may_wait h (l, m) = true) hs →
  nested ((l, m) :: hs) body → nested hs (scoped l m body).
Proof.
  intros Hw Hb rest Hr. unfold scoped. simpl. split; [done|].
  rewrite <- app_assoc. by apply Hb.
Qed.

Lemma guarded_head l hs x m : guard x = Some l → guarded ((l, Unique) :: hs) x m = true.
Proof.
  intros Hg. unfold guarded. rewrite Hg. simpl.
  by rewrite (bool_decide_eq_true_2 (l = l)), orb_true_r by done.
Qed.

Lemma nested_touch hs x m r :
  guarded hs x m = true → nested hs r → nested hs (Touch x m :: r).
Proof. intros Hg Hn rest Hr. split; [done|]. by apply Hn. Qed.

Lemma nested_concat hs rs : Forall (nested hs) rs → nested hs (concat rs).
Proof. induction 1; simpl; [apply nested_nil|by apply nested_app]. Qed.

(** Descends into the scopes of a program. *)
Ltac nest :=
  repeat first
    [ apply nested_nil | apply nested_app
    | apply nested_scoped; [repeat constructor|]
    | apply nested_touch; [first [reflexivity | by apply guarded_head]|]
    | match goal with
      | |- nested _ (match ?x with _ => _ end) => destruct x
      end ].

Lemma nested_packets hs a n :
  Forall (fun h => may_wait h (ClientMutex a, Shared) = true) hs →
  nested hs (packets_locks a n).
Proof.
  intros Hw. apply nested_concat, Forall_replicate.
  apply nested_scoped; [done|nest].
Qed.

Lemma nested_dispatch peer : nested [] (dispatch_locks peer).
Proof.
  unfold dispatch_locks, on_peer_data_locks. nest.
  apply nested_packets. repeat constructor.
Qed.

Lemma nested_map_touch hs f (l : list N) :
  (∀ a, guarded hs (f a) Shared = true) → nested hs (map (fun a => Touch (f a) Shared) l).
Proof.
  intros Hf. induction l as [|a l IH]; simpl; [apply nested_nil|].
  by apply nested_touch.
Qed.

Lemma nested_request r : nested [(RtspServerMutex, Shared)] (request_locks r).
Proof.
  destruct r as [found|found|found|]; unfold request_locks, OnOptions_locks,
    OnDescribe_locks, OnPlay_locks, RegisterVideo_locks, submit_locks; nest.
Qed.

(** Every operation keeps to the order. *)
Lemma program_nested o : nested [] (program o).
Proof.
  destruct o; unfold program, readcb_locks, errorcb_locks, Close_locks,
    UnregisterVideo_locks, event_free_locks, accept_locks, worker_locks,
    RegisterFileVideo_locks, FFGetFrame_locks, on_invite_locks, processSdp_locks,
    registerPeer_locks, on_readable_locks, event_free_locks; nest.
  - apply nested_concat, Forall_map, Forall_true. apply nested_request.
  - by apply nested_map_touch.
  - apply nested_packets. repeat constructor.
  - apply nested_concat, Forall_map, Forall_true. intros d.
    unfold datagram_locks. apply nested_app; [nest|].
    destruct d; [apply nested_dispatch|unfold submit_locks; nest].
  - apply nested_packets. repeat constructor.
Qed.

Lemma program_ordered o : ordered [] (program o).
Proof. rewrite <- (app_nil_r (program o)). by apply program_nested. Qed.

(** * The invariant *)

Definition exclusion (st : list thread) : Prop :=
  ∀ i j t t' l m m', i ≠ j → st !! i = Some t → st !! j = Some t' →
    (l, m) ∈ held t → (l, m') ∈ held t' → m = Shared ∧ m' = Shared.

Definition locks_inv (st : list thread) : Prop :=
  Forall (fun t => ordered (held t) (todo t)) st ∧ exclusion st.

Lemma excludes_spec l m t :
  excludes l m t = true ↔ ∃ m', (l, m') ∈ held t ∧ conflicts m' m = true.
Proof.
  unfold excludes. rewrite existsb_exists. split.
  - intros ([l' m'] & Hin & [Hl Hc]%andb_prop).
    apply bool_decide_eq_true in Hl. simpl in *. subst.
    exists m'. by rewrite list_elem_of_In.
  - intros (m' & Hin & Hc). exists (l, m'). rewrite <- list_elem_of_In.
    simpl.
    by rewrite bool_decide_eq_true_2, Hc.
Qed.

(** What a granted lock says of the others. *)
Lemma granted_excludes p l m st j t :
  granted p l m st = true → st !! j = Some t → excludes l m t = false.
Proof.
  unfold granted. intros [Hg _]%andb_prop Hj. apply negb_true_iff in Hg.
  destruct (excludes l m t) eqn:He; [|done].
  assert (existsb (excludes l m) st = true) as Ht; [|congruence].
  apply existsb_exists. exists t. split; [|done].
  apply list_elem_of_In. by eapply list_elem_of_lookup_2.
Qed.

(** A thread that holds less or the same keeps the exclusion. *)
Lemma exclusion_insert st i t :
  exclusion st →
  (∀ j t' l m m', i ≠ j → st !! j = Some t' → (l, m) ∈ held t → (l, m') ∈ held t' →
    m = Shared ∧ m' = Shared) →
  exclusion (<[i := t]> st).
Proof.
  intros Hex Hi j k tj tk l m m' Hne Hj Hk Hl Hl'.
  apply list_lookup_insert_Some in Hj as [(<- & <- & _)|(Hij & Hj)],
    Hk as [(<- & <- & _)|(Hik & Hk)]; [done|by eauto| |by eauto].
  destruct (Hi j tj l m' m) as [-> ->]; auto.
Qed.

Lemma conflicts_false m m' : conflicts m m' = false → m = Shared ∧ m' = Shared.
Proof. by destruct m, m'. Qed.

Lemma act_inv p i st st' : locks_inv st → act p i st = Some st' → locks_inv st'.
Proof.
  intros [Ho Hex] Ha. unfold act in Ha.
  destruct (st !! i) as [t|] eqn:Hi; simpl in Ha; [|done].
  pose proof (Forall_lookup_1 _ _ _ _ Ho Hi) as Ht. simpl in Ht.
  destruct (todo t) as [|[l m|l|x m] r] eqn:Htd; [done| | |].
  - destruct (granted p l m st) eqn:Hg; [|done]. simplify_eq. destruct Ht as [_ Ht].
    split; [by apply Forall_insert|]. apply exclusion_insert; [done|].
    intros j t' l' m1 m2 Hne Hj [Heq|Hin]%elem_of_cons Hin'; [|by eauto].
    simplify_eq. pose proof (granted_excludes _ _ _ _ _ _ Hg Hj) as Hf.
    destruct (conflicts m2 m) eqn:Hc; [|by apply conflicts_false in Hc as [-> ->]].
    exfalso. assert (excludes l m t' = true); [|congruence].
    apply excludes_spec. by eauto.
  - simplify_eq. simpl in Ht. destruct (held t) as [|[l' m'] hs] eqn:Hh; [done|].
    destruct Ht as [-> Ht]. simpl. rewrite bool_decide_eq_true_2 by done.
    split; [by apply Forall_insert|]. apply exclusion_insert; [done|].
    intros j t' l1 m1 m2 Hne Hj Hin Hin'.
    apply (Hex i j t t' l1); auto. rewrite Hh. apply elem_of_cons. by right.
  - simplify_eq. destruct Ht as [_ Ht].
    split; [by apply Forall_insert|]. apply exclusion_insert; [done|]. by eauto.
Qed.

Lemma start_inv st o : locks_inv st → locks_inv (st ++ [mkThread (program o) []]).
Proof.
  intros [Ho Hex]. split.
  { apply Forall_app_2; [done|]. constructor; [apply program_ordered|done]. }
  intros i j t t' l m m' Hne Hi Hj Hl Hl'.
  apply lookup_app_Some in Hi as [Hi|[_ Hi]];
    [|apply list_lookup_singleton_Some in Hi as [_ <-]; by apply elem_of_nil in Hl].
  apply lookup_app_Some in Hj as [Hj|[_ Hj]];
    [|apply list_lookup_singleton_Some in Hj as [_ <-]; by apply elem_of_nil in Hl'].
  by eauto.
Qed.

Lemma reachable_locks_inv p st : lock_reachable p st → locks_inv st.
Proof.
  unfold lock_reachable. revert st. apply rtc_ind_r.
  - split; [constructor|]. intros i j t t' l m m' _ Hi. by rewrite lookup_nil in Hi.
  - intros st st' _ Hs Hinv. inversion Hs; subst; [by apply start_inv|by eapply act_inv].
Qed.

(** * No deadlock *)

(** A DESCRIBE that holds the clients of proxy [a] and waits for the producer. *)
Definition registering (a : N) (t : thread) : bool :=
  (waits_for (FileContextMutex, Unique) t || waits_for (RtpContextMutex, Unique) t)
  && bool_decide ((ClientMutex a, Unique) ∈ held t).

Definition producer_lock (h : lock * mode) : bool :=
  match h.1 with
  | FileContextMutex | RtpContextMutex | PeerMutex | FrameEvent _ => true
  | _ => false
  end.

(** A thread of the producer that waits for the clients of proxy [a]. *)
Definition calling_back (a : N) (t : thread) : bool :=
  (waits_for (ClientMutex a, Shared) t || waits_for (ClientMutex a, Unique) t)
  && existsb producer_lock (held t).

(** No proxy is registered while the producer calls back to it: the service
    registers a proxy that the producer knows no callback of (for disciplined
    clients, [registration_precedes_callbacks] of RtspCallbacks.v). *)
Definition register_before_callback (st : list thread) : Prop :=
  ∀ a, existsb (registering a) st = true → existsb (calling_back a) st = false.

(** The order of waiting. A reader of [RtpContextMutex] comes after the writer of
    [PeerMutex], and that one after the writer of [RtpContextMutex]. *)
Definition wait_rank (st : list thread) (w : lock * mode) : nat :=
  match w with
  | (RtspServerMutex, _) => 0
  | (ProxyInfoMutex, _) => 1
  | (ClientMutex a, _) => if existsb (registering a) st then 2 else 6
  | (FileContextMutex, _) | (RtpContextMutex, Unique) => 3
  | (FrameEvent _, _) | (PeerMutex, _) => 4
  | (RtpContextMutex, Shared) => 5
  | _ => 7
  end.

Lemma waits_for_head l m r t : todo t = Acquire l m :: r → waits_for (l, m) t = true.
Proof. intros Ht. unfold waits_for. rewrite Ht. by apply bool_decide_eq_true_2. Qed.

Lemma existsb_elem {A} (f : A → bool) l x : x ∈ l → f x = true → existsb f l = true.
Proof. intros Hx Hf. apply existsb_exists. exists x. by rewrite <- list_elem_of_In. Qed.

(** The rank grows along the edge from a waiting thread to the one that holds the
    lock and itself waits. *)
Lemma wait_rank_grows st t l m m' l' w r :
  register_before_callback st → t ∈ st → todo t = Acquire l' w :: r →
  (l, m') ∈ held t → may_wait (l, m') (l', w) = true → conflicts m' m = true →
  (wait_rank st (l, m) < wait_rank st (l', w))%nat.
Proof.
  intros Hrb Ht Htd Hh Hw Hc. pose proof (waits_for_head _ _ _ _ Htd) as Hwf.
  assert (Hreg : ∀ a, l = ClientMutex a → m' = Unique → w = Unique →
      l' = FileContextMutex ∨ l' = RtpContextMutex → existsb (registering a) st = true).
  { intros a -> -> -> Hl'. apply (existsb_elem _ _ t); [done|]. unfold registering.
    rewrite bool_decide_eq_true_2 by done.
    by destruct Hl' as [-> | ->]; rewrite Hwf, ?orb_true_r. }
  assert (Hcall : ∀ a, l' = ClientMutex a → producer_lock (l, m') = true →
      existsb (registering a) st = false).
  { intros a -> Hp. destruct (existsb (registering a) st) eqn:Hr; [|done].
    rewrite <- (Hrb a Hr). symmetry. apply (existsb_elem _ _ t); [done|].
    unfold calling_back. rewrite (existsb_elem _ _ _ Hh Hp).
    by destruct w; rewrite Hwf, ?orb_true_r. }
  destruct l, m'; try done; destruct l' as [| |a'| | | | | | |], w; try done;
    destruct m; try done; simpl;
    rewrite ?(Hreg _ eq_refl eq_refl eq_refl) by auto;
    rewrite ?(Hcall _ eq_refl eq_refl);
    repeat match goal with |- context [if ?b then _ else _] => destruct b end; lia.
Qed.

Lemma wait_rank_bound st w : (wait_rank st w ≤ 7)%nat.
Proof.
  destruct w as [[] []]; simpl;
    repeat match goal with |- context [if ?b then _ else _] => destruct b end; lia.
Qed.

(** A thread that is not finished leads to one that can go on. *)
Lemma waiting_leads_on st n i t l m r :
  locks_inv st → register_before_callback st →
  st !! i = Some t → todo t = Acquire l m :: r → (8 ≤ wait_rank st (l, m) + n)%nat →
  ∃ j st', act ReaderPreferred j st = Some st'.
Proof.
  intros [Ho Hex] Hrb. revert i t l m r. induction n as [|n IH]; intros i t l m r Hi Ht Hn.
  { pose proof (wait_rank_bound st (l, m)). lia. }
  destruct (existsb (excludes l m) st) eqn:He; last first.
  { exists i, (<[i := mkThread r ((l, m) :: held t)]> st). unfold act, granted.
    rewrite Hi. simpl. by rewrite Ht, He. }
  apply existsb_exists in He as (t' & Hin%list_elem_of_In & Hx).
  apply excludes_spec in Hx as (m' & Hh & Hc).
  apply list_elem_of_lookup in Hin as [j Hj].
  pose proof (Forall_lookup_1 _ _ _ _ Ho Hj) as Hord. simpl in Hord.
  destruct (todo t') as [|[l' w|l'|x w] r'] eqn:Ht'.
  - simpl in Hord. rewrite Hord in Hh. by apply elem_of_nil in Hh.
  - destruct Hord as [Hw _]. rewrite Forall_forall in Hw.
    apply (IH j t' l' w r'); [done|done|].
    pose proof (wait_rank_grows st t' l m m' l' w r' Hrb
                  (list_elem_of_lookup_2 _ _ _ Hj) Ht' Hh (Hw _ Hh) Hc). lia.
  - exists j. unfold act. rewrite Hj. simpl. rewrite Ht'. by eauto.
  - exists j. unfold act. rewrite Hj. simpl. rewrite Ht'. by eauto.
Qed.

(** Whether a proxy is being registered to which the producer calls back. *)
Definition meets_callback (st : list thread) (t : thread) : bool :=
  existsb (fun h => match h.1 with
                    | ClientMutex a => registering a t && existsb (calling_back a) st
                    | _ => false
                    end) (held t).

Lemma meets_callback_cases st :
  register_before_callback st ∨
  ∃ a t t', t ∈ st ∧ t' ∈ st ∧ registering a t = true ∧ calling_back a t' = true.
Proof.
  destruct (existsb (meets_callback st) st) eqn:E.
  - right. apply existsb_exists in E as (t & Ht & Hm).
    apply existsb_exists in Hm as ([l m] & _ & Hh). destruct l; try done.
    apply andb_true_iff in Hh as [Hr Hc]. apply existsb_exists in Hc as (t' & Ht' & Hc).
    eexists _, t, t'. by rewrite !list_elem_of_In.
  - left. intros a Ha. apply existsb_exists in Ha as (t & Ht & Hr).
    destruct (existsb (calling_back a) st) eqn:Hc; [|done].
    rewrite <- E. symmetry. apply existsb_exists. exists t. split; [done|].
    apply existsb_exists. exists (ClientMutex a, Unique). simpl. rewrite Hr, Hc.
    split; [|done]. apply list_elem_of_In. unfold registering in Hr.
    apply andb_true_iff in Hr as [_ Hr]. by apply bool_decide_eq_true_1 in Hr.
Qed.

(** C15: the locks exclude, and they deadlock in at most one way. In every
    interleaving of the callbacks of connections, probes, frame timers, invitation
    answers and UDP loops and workers, no two threads hold a lock in conflicting
    modes; and with shared mutexes that admit readers while no writer holds them, as
    long as a callback has something left to do, some thread can go on, or a thread
    that registers a proxy holds its clients and waits for the contexts while a
    thread of the producer waits for the clients of the same proxy. *)
Theorem locks_exclude_and_progress (p : policy) (st : list thread)
    (Hr : lock_reachable p st) :
  exclusion st ∧
  (Exists (fun t => todo t ≠ []) st →
   (∃ i st', act ReaderPreferred i st = Some st') ∨
   ∃ a t t', t ∈ st ∧ t' ∈ st ∧ registering a t = true ∧ calling_back a t' = true).
Proof.
  pose proof (reachable_locks_inv _ _ Hr) as Hinv. split; [apply Hinv|].
  intros (t & Hin & Hne)%Exists_exists.
  destruct (meets_callback_cases st) as [Hrb|?]; [left|by right].
  apply list_elem_of_lookup in Hin as [i Hi].
  destruct (todo t) as [|[l m|l|x m] r] eqn:Ht; [done| | |].
  - by apply (waiting_leads_on st 8 i t l m r); [..|lia].
  - exists i. unfold act. rewrite Hi. simpl. rewrite Ht. by eauto.
  - exists i. unfold act. rewrite Hi. simpl. rewrite Ht. by eauto.
Qed.

(** * Waiting writers *)

(** A schedule: start an operation or let thread [i] act. *)
Fixpoint run_schedule (p : policy) (xs : list (operation + nat)) (st : list thread)
  : option (list thread) :=
  match xs with
  | [] => Some st
  | inl o :: xs' => run_schedule p xs' (st ++ [mkThread (program o) []])
  | inr i :: xs' => st' ← act p i st; run_schedule p xs' st'
  end.

Lemma run_schedule_rtc p xs st st' :
  run_schedule p xs st = Some st' → rtc (lock_step p) st st'.
Proof.
  revert st. induction xs as [|[o|i] xs IH]; intros st; simpl.
  - intros [= ->]. done.
  - intros Hr. eapply rtc_l; [apply step_start|]. by apply IH.
  - destruct (act p i st) as [st1|] eqn:Ha; simpl; [|done].
    intros Hr. eapply rtc_l; [by eapply step_act|]. by apply IH.
Qed.

(** Thread 0 brings a datagram of a camera, thread 1 the answer of another one,
    and thread 2 a DESCRIBE of a third. *)
Definition demo_schedule : list (operation + nat) :=
  [inl (OpUdp [inl (Some (Some (3%N, 1%nat)))]); inl (OpInvite (Some (2%N, true)));
   inl (OpRead [Describe (Some (1%N, Some (CameraVideo, true)))])] ++
  replicate 5 (inr 0%nat) ++ replicate 4 (inr 1%nat) ++ replicate 6 (inr 2%nat).
Definition demo_cycle : list thread :=
  default [] (run_schedule WriterPreferred demo_schedule []).

Lemma demo_cycle_reachable : lock_reachable WriterPreferred demo_cycle.
Proof. apply (run_schedule_rtc _ demo_schedule). vm_compute. reflexivity. Qed.

(** Nobody in the cycle waits for the clients of a proxy. *)
Lemma demo_cycle_register : register_before_callback demo_cycle.
Proof. intros a _. by vm_compute. Qed.

(** More threads do not help one that waits. *)
Lemma granted_app p l m st rest :
  granted p l m (st ++ rest) = granted p l m st && granted p l m rest.
Proof.
  unfold granted. rewrite !existsb_app, !negb_orb.
  destruct p, m; rewrite ?andb_true_r; try done. btauto.
Qed.

Lemma act_stuck p i st rest :
  (i < length st)%nat → act p i st = None → act p i (st ++ rest) = None.
Proof.
  intros Hi. unfold act. rewrite lookup_app_l by done.
  destruct (st !! i) as [t|]; [|done]. simpl. destruct (todo t) as [|[l m|l|x m] r]; try done.
  rewrite granted_app. by destruct (granted p l m st).
Qed.

Lemma act_others p i st rest st' :
  act p i (st ++ rest) = Some st' → (length st ≤ i)%nat → ∃ rest', st' = st ++ rest'.
Proof.
  intros Ha Hi. unfold act in Ha. destruct (_ !! i) as [t|]; simpl in Ha; [|done].
  destruct (todo t) as [|[l m|l|x m] r]; [done| | |];
    [destruct (granted _ _ _ _); [|done]| |]; injection Ha as <-; eexists;
    by apply insert_app_r_alt.
Qed.

Lemma demo_cycle_stuck i : (i < 3)%nat → act WriterPreferred i demo_cycle = None.
Proof. intros Hi. destruct i as [|[|[|i]]]; [..|lia]; by vm_compute. Qed.

(** C37: with shared mutexes that keep readers out while a writer waits, which
    the standard allows, the program can deadlock. The UDP thread holds the
    peers and asks to read the contexts, the answer to an invitation reads the
    contexts and asks to write the peers, and a DESCRIBE that waits to write the
    contexts keeps the reader out. From there on none of the three ever moves
    again, whatever other threads start and do. *)
Theorem waiting_writer_deadlocks :
  ∃ st, lock_reachable WriterPreferred st ∧ register_before_callback st ∧
    length st = 3%nat ∧ Forall (fun t => todo t ≠ []) st ∧
    ∀ st', rtc (lock_step WriterPreferred) st st' → ∃ others, st' = st ++ others.
Proof.
  exists demo_cycle. split; [apply demo_cycle_reachable|].
  split; [apply demo_cycle_register|]. split; [done|].
  split; [vm_compute; repeat constructor; done|].
  apply (rtc_ind_r (fun st' => ∃ others, st' = demo_cycle ++ others)).
  - exists []. by rewrite app_nil_r.
  - intros st' st'' _ Hs [others ->]. inversion Hs as [? o|? i ? Ha]; subst.
    + exists (others ++ [mkThread (program o) []]). by rewrite app_assoc.
    + destruct (decide (i < 3)%nat) as [Hlt|Hge].
      { by rewrite act_stuck in Ha; auto using demo_cycle_stuck. }
      by apply (act_others _ _ _ _ _ Ha); change (length demo_cycle) with 3%nat; lia.
Qed.

Lemma locks_exclude_and_progress_witness :
  exclusion demo_cycle ∧ ∃ i st', act ReaderPreferred i demo_cycle = Some st'.
Proof.
  destruct (locks_exclude_and_progress WriterPreferred demo_cycle demo_cycle_reachable)
    as [Hex Hgo].
  split; [exact Hex|]. destruct Hgo as [Hgo|(a & t & t' & Ht & Ht' & Hr & Hc)].
  - apply Exists_cons_hd. vm_compute. discriminate.
  - exact Hgo.
  - exfalso. assert (H : existsb (registering a) demo_cycle = true)
      by (by apply (existsb_elem _ _ t)).
    apply demo_cycle_register in H.
    by rewrite (existsb_elem _ _ t' Ht' Hc) in H.
Defined.
