(* ===== verification/Races.v ===== *)
(** Data races between the callbacks of Locks.v: which of the shared variables of
    core/src/rtsp_service.cpp, core/src/rtp_producer.cpp,
    core/src/network_server.cpp and common/thread_pool are always accessed under
    their lock, and where two threads can meet at one of the others. *)
From stdpp Require Import base list numbers relations.
From S2P Require Import Prelude Locks.

(** The thread is about to access [x]. *)
Definition at_access (x : variable) (m : mode) (t : thread) : Prop :=
  ∃ r, todo t = Touch x m :: r.

(** Two threads are about to access [x], one of them to write it. *)
Definition race (x : variable) (st : list thread) : Prop :=
  ∃ i j t t' m m', i ≠ j ∧ st !! i = Some t ∧ st !! j = Some t' ∧
    at_access x m t ∧ at_access x m' t' ∧ conflicts m m' = true.

(** Who accesses a guarded variable holds its lock, to write it exclusively. *)
Lemma guarded_holds hs x m l :
  guard x = Some l → guarded hs x m = true →
  ∃ m', (l, m') ∈ hs ∧ (m = Unique → m' = Unique).
Proof.
  intros Hg. unfold guarded. rewrite Hg.
  intros ([l' m'] & Hin & [Hl%bool_decide_eq_true Hm%orb_prop]%andb_prop)%existsb_exists.
  simpl in *. subst. exists m'. rewrite list_elem_of_In. split; [done|].
  intros ->. by destruct Hm as [Hm%bool_decide_eq_true | Hm%bool_decide_eq_true].
Qed.

Lemma access_holds st i t x m l :
  locks_inv st → st !! i = Some t → at_access x m t → guard x = Some l →
  ∃ m', (l, m') ∈ held t ∧ (m = Unique → m' = Unique).
Proof.
  intros [Ho _] Hi [r Ht] Hg. pose proof (Forall_lookup_1 _ _ _ _ Ho Hi) as Hord.
  simpl in Hord. rewrite Ht in Hord. destruct Hord as [Hgd _].
  by eapply guarded_holds.
Qed.

(** Two threads that keep to the locks do not meet at a guarded variable. *)
Lemma locks_inv_race_free st x l : locks_inv st → guard x = Some l → ¬ race x st.
Proof.
  intros Hinv Hg (i & j & t & t' & m & m' & Hij & Hi & Hj & Ha & Ha' & Hc).
  destruct (access_holds _ _ _ _ _ _ Hinv Hi Ha Hg) as (n & Hn & Hu).
  destruct (access_holds _ _ _ _ _ _ Hinv Hj Ha' Hg) as (n' & Hn' & Hu').
  destruct (proj2 Hinv i j t t' l n n' Hij Hi Hj Hn Hn') as [-> ->].
  destruct m, m'; [done|by discriminate Hu'|by discriminate Hu|by discriminate Hu].
Qed.

(** C19: no data race on a variable that has a guard. In every interleaving of the
    callbacks, two threads never meet at an access to the map of connections, to
    the two maps of stream contexts, to the table of peers, to the position in
    the receive buffers or to the queue of a thread pool, one of them writing. *)
Theorem guarded_race_free (p : policy) (st : list thread) (x : variable) (l : lock)
    (Hr : lock_reachable p st) (Hg : guard x = Some l) : ¬ race x st.
Proof. apply (locks_inv_race_free st x l); [by eapply reachable_locks_inv|done]. Qed.

(** * Where threads meet *)

(** The state after two operations have started and the first one has acted [n]
    times and the second one [k] times. *)
Definition meeting (p : policy) (o o' : operation) (n k : nat) : option (list thread) :=
  run_schedule p ([inl o; inl o'] ++ replicate n (inr 0%nat) ++ replicate k (inr 1%nat)) [].

Lemma meeting_race p o o' n k x t t' m m' r r' :
  meeting p o o' n k = Some [t; t'] →
  todo t = Touch x m :: r → todo t' = Touch x m' :: r' → conflicts m m' = true →
  ∃ st, lock_reachable p st ∧ race x st.
Proof.
  intros Hr Ht Ht' Hc. exists [t; t']. split; [by eapply run_schedule_rtc|].
  exists 0, 1, t, t', m, m'. unfold at_access. by eauto 10.
Qed.

(** Runs a schedule for an arbitrary proxy: a test is decided where the locks
    are different or the same, or their modes do not conflict. *)
Ltac run_meeting :=
  unfold meeting; cbn [replicate app];
  repeat (progress (cbn -[bool_decide granted]; unfold granted; cbn -[bool_decide];
          rewrite ?(bool_decide_eq_false_2 (_ = _)) by congruence;
          rewrite ?(bool_decide_eq_true_2 (_ = _)) by reflexivity;
          rewrite ?andb_false_r));
  reflexivity.

(** PLAY looks the proxy up while an OPTIONS on another connection makes one. *)
Lemma proxy_map_race p : ∃ st, lock_reachable p st ∧ race ProxyMap st.
Proof.
  destruct p; (eapply (meeting_race _ (OpRead [Play None]) (OpRead [Options None]) 2 4);
    [run_meeting|reflexivity..]).
Qed.

(** A frame is sent while a client of the proxy disconnects. *)
Lemma proxy_fields_race p a : ∃ st, lock_reachable p st ∧ race (ProxyFields a) st.
Proof.
  destruct p; (eapply (meeting_race _ (OpFrame a 1 false)
    (OpError (Some (mkClosePath [a] (Some a) None))) 3 6); [run_meeting|reflexivity..]).
Qed.

(** Two event loops without workers bring datagrams of one camera. *)
Lemma send_buffer_race p a : ∃ st, lock_reachable p st ∧ race (SendBuffer a) st.
Proof.
  destruct p; (eapply (meeting_race _ (OpUdp [inl (Some (Some (a, 1%nat)))])
    (OpUdp [inl (Some (Some (a, 1%nat)))]) 7 7); [run_meeting|reflexivity..]).
Qed.


Lemma guarded_race_free_witness : ¬ race FileMap demo_cycle.
Proof.
  apply (guarded_race_free WriterPreferred _ FileMap FileContextMutex
           demo_cycle_reachable). reflexivity.
Defined.
