(* ===== verification/Atomicity.v ===== *)
(** Why a lock-protected section is one step. The other files treat a critical
    section of the C++ code as atomic: here this is proved for the callbacks of
    Locks.v. Their accesses to shared variables get a meaning, any meaning, as
    functions on the values of the variables and on what the threads know; then a
    section can be moved together: from the same state there is a run in which
    nothing comes between its first and its last step, with the same result. *)
From stdpp Require Import base list numbers relations.
From S2P Require Import Prelude Locks Races.

(** * Labelled runs *)

(** A new callback, or the next action of thread [i]. *)
Inductive label : Type :=
| Start (o : operation)
| Do (i : nat) (a : action).

#[export] Instance action_eq_dec : EqDecision action.
Proof. solve_decision. Defined.

Definition by_thread (i : nat) (lab : label) : bool :=
  match lab with Start _ => false | Do j _ => bool_decide (j = i) end.

Definition step_label (p : policy) (lab : label) (st : list thread)
  : option (list thread) :=
  match lab with
  | Start o => Some (st ++ [mkThread (program o) []])
  | Do i a =>
      t ← st !! i;
      if bool_decide (head (todo t) = Some a) then act p i st else None
  end.

Fixpoint run_labels (p : policy) (labs : list label) (st : list thread)
  : option (list thread) :=
  match labs with
  | [] => Some st
  | lab :: labs' => st ← step_label p lab st; run_labels p labs' st
  end.

(** * What the accesses mean *)

Section meaning.
(** The values of variables, and what a thread has read so far. *)
Context {V K : Type}.
Variable read : nat → variable → K → V → K.
Variable write : nat → variable → K → V → K * V.

Record memory : Type := mkMemory {
  value : variable → V;
  known : nat → K;
}.

#[export] Instance memory_equiv : Equiv memory := fun s s' =>
  (∀ x, value s x = value s' x) ∧ ∀ i, known s i = known s' i.

#[export] Instance memory_equivalence : Equivalence (≡@{memory}).
Proof.
  split.
  - by intros s.
  - intros s s' [H1 H2]. by split.
  - intros s1 s2 s3 [H1 H2] [H3 H4]. split; intros; [by rewrite H1|by rewrite H2].
Qed.

Definition set_value (x : variable) (v : V) (s : memory) : memory :=
  mkMemory (fun y => if decide (y = x) then v else value s y) (known s).
Definition set_known (i : nat) (k : K) (s : memory) : memory :=
  mkMemory (value s) (fun j => if decide (j = i) then k else known s j).

Definition effect (lab : label) (s : memory) : memory :=
  match lab with
  | Do i (Touch x Shared) => set_known i (read i x (known s i) (value s x)) s
  | Do i (Touch x Unique) =>
      let '(k, v) := write i x (known s i) (value s x) in set_value x v (set_known i k s)
  | _ => s
  end.

Definition effects (labs : list label) (s : memory) : memory :=
  fold_left (fun s lab => effect lab s) labs s.

#[export] Instance effect_proper lab : Proper ((≡) ==> (≡)) (effect lab).
Proof.
  intros s s' [H1 H2]. destruct lab as [o|i [l m|l|x []]]; simpl; [by split..| |].
  - split; simpl; [done|]. intros j. rewrite H1, H2. by destruct (decide _).
  - rewrite H1, H2. destruct (write _ _ _ _) as [k v].
    split; simpl; intros; destruct (decide _); done.
Qed.

#[export] Instance effects_proper labs : Proper ((≡) ==> (≡)) (effects labs).
Proof.
  induction labs as [|lab labs IH]; intros s s' Hs; [done|]. simpl. apply IH. by rewrite Hs.
Qed.

Lemma effects_app labs labs' s : effects (labs ++ labs') s = effects labs' (effects labs s).
Proof. apply fold_left_app. Qed.

(** Accesses of two threads commute unless they are to one variable and one of them
    writes it. *)
Definition clash (lab lab' : label) : Prop :=
  match lab, lab' with
  | Do _ (Touch x m), Do _ (Touch y m') => x = y ∧ conflicts m m' = true
  | _, _ => False
  end.

Lemma effect_comm i a lab s :
  by_thread i lab = false → ¬ clash (Do i a) lab →
  effect lab (effect (Do i a) s) ≡ effect (Do i a) (effect lab s).
Proof.
  intros Hi Hc. destruct lab as [o|j b]; [done|]. simpl in Hi.
  apply bool_decide_eq_false in Hi.
  destruct a as [l m|l|x m]; [done..|]. destruct b as [l' m'|l'|y m']; [by destruct m..|].
  simpl in Hc. destruct m, m'; simpl.
  - split; simpl; [done|]. intros k.
    rewrite (decide_False (P := j = i)), (decide_False (P := i = j)) by done.
    repeat case_decide; congruence.
  - assert (x ≠ y) by (intros ->; by apply Hc).
    rewrite (decide_False (P := j = i)) by done.
    destruct (write j y _ _) as [k v]. split; simpl; [done|]. intros k'.
    rewrite (decide_False (P := i = j)), (decide_False (P := x = y)) by done.
    repeat case_decide; congruence.
  - assert (x ≠ y) by (intros ->; by apply Hc).
    destruct (write i x _ _) as [k v] eqn:E. simpl.
    rewrite (decide_False (P := j = i)), (decide_False (P := y = x)) by done.
    rewrite (decide_False (P := i = j)) by done. rewrite E.
    split; simpl; [done|]. intros k'. repeat case_decide; congruence.
  - assert (x ≠ y) by (intros ->; by apply Hc).
    destruct (write i x _ _) as [k v] eqn:E. simpl.
    rewrite (decide_False (P := j = i)), (decide_False (P := y = x)) by done.
    destruct (write j y _ _) as [k2 v2] eqn:E2. simpl.
    rewrite (decide_False (P := i = j)), (decide_False (P := x = y)) by done.
    rewrite E. split; simpl; intros; repeat case_decide; congruence.
Qed.
End meaning.

(** * Moving steps *)

Lemma granted_spec p l m st :
  granted p l m st = true ↔
  (∀ j t, st !! j = Some t → excludes l m t = false) ∧
  (p = WriterPreferred → m = Shared →
   ∀ j t, st !! j = Some t → waits_for (l, Unique) t = false).
Proof.
  assert (Hex : ∀ f : thread → bool,
    negb (existsb f st) = true ↔ ∀ j t, st !! j = Some t → f t = false).
  { intros f. rewrite negb_true_iff. split.
    - intros Hf j t Hj. destruct (f t) eqn:Hft; [|done].
      assert (existsb f st = true); [|congruence]. apply existsb_exists. exists t.
      split; [|done]. apply list_elem_of_In. by eapply list_elem_of_lookup_2.
    - intros Hf. destruct (existsb f st) eqn:E; [|done].
      apply existsb_exists in E as (t & [j Hj]%list_elem_of_In%list_elem_of_lookup & Ht).
      by rewrite (Hf _ _ Hj) in Ht. }
  unfold granted. rewrite andb_true_iff, Hex. destruct p, m; rewrite ?Hex; naive_solver.
Qed.

(** A thread that is replaced by one that holds as much, or that only holds what
    does not matter, and does not start to wait, leaves a grant as it is. *)
Lemma granted_insert p l m st i t' :
  granted p l m st = true → excludes l m t' = false →
  (p = WriterPreferred → m = Shared → waits_for (l, Unique) t' = false) →
  granted p l m (<[i := t']> st) = true.
Proof.
  rewrite !granted_spec. intros [H1 H2] Ht Hw.
  split; [|intros Hp Hm]; intros j t [(<- & <- & _)|(_ & Hj)]%list_lookup_insert_Some; eauto.
Qed.

(** What an action needs of the others, and the locks its thread holds then. *)
Definition allowed (p : policy) (a : action) (st : list thread) : Prop :=
  match a with Acquire l m => granted p l m st = true | _ => True end.

Definition held_after (a : action) (hs : list (lock * mode)) : list (lock * mode) :=
  match a with
  | Acquire l m => (l, m) :: hs
  | Release l => release l hs
  | Touch _ _ => hs
  end.

Lemma step_do p i a st st' :
  step_label p (Do i a) st = Some st' ↔
  ∃ r hs, st !! i = Some (mkThread (a :: r) hs) ∧ allowed p a st ∧
          st' = <[i := mkThread r (held_after a hs)]> st.
Proof.
  simpl. unfold act. split.
  - destruct (st !! i) as [[[|a' r] hs]|]; simpl; [done| |done].
    case_bool_decide as Ha; [|done]. injection Ha as ->. intros Hs. exists r, hs.
    destruct a as [l m|l|x m]; simpl; [destruct (granted p l m st)|..]; naive_solver.
  - intros (r & hs & Hi & Ha & ->). rewrite Hi. simpl. rewrite bool_decide_eq_true_2 by done.
    destruct a; simpl in *; by rewrite ?Ha.
Qed.

Lemma step_inv p lab st st' : locks_inv st → step_label p lab st = Some st' → locks_inv st'.
Proof.
  intros Hinv. destruct lab as [o|i a]; simpl.
  - intros [= <-]. by apply start_inv.
  - destruct (st !! i); simpl; [|done]. case_bool_decide; [|done]. by apply act_inv.
Qed.

(** A step of another thread leaves a thread as it is. *)
Lemma step_other p lab st st' i t :
  step_label p lab st = Some st' → by_thread i lab = false → st !! i = Some t →
  st' !! i = Some t.
Proof.
  destruct lab as [o|j a]; [intros [= <-] _ Hi; by apply lookup_app_l_Some|].
  intros (r & hs & Hj & _ & ->)%step_do Hij%bool_decide_eq_false Hi.
  by rewrite list_lookup_insert_ne.
Qed.

Lemma excludes_less l m r r' hs hs' :
  excludes l m (mkThread r hs) = false → hs' ⊆ hs → excludes l m (mkThread r' hs') = false.
Proof.
  intros He Hsub. destruct (excludes l m (mkThread r' hs')) eqn:E; [|done].
  apply excludes_spec in E as (m' & Hin & Hc). rewrite <- He. symmetry.
  apply excludes_spec. exists m'. split; [by apply Hsub|done].
Qed.

Lemma release_subseteq l hs : release l hs ⊆ hs.
Proof.
  induction hs as [|h hs IH]; simpl; [done|]. case_bool_decide; set_solver.
Qed.

Lemma excludes_cons l m l' m' hs r :
  excludes l m (mkThread r ((l', m') :: hs)) = false ↔
  excludes l m (mkThread r hs) = false ∧ (l' = l → conflicts m' m = false).
Proof.
  unfold excludes. simpl. rewrite orb_false_iff, andb_false_iff, bool_decide_eq_false.
  destruct (decide (l' = l)); naive_solver.
Qed.

Lemma conflicts_sym m m' : conflicts m m' = conflicts m' m.
Proof. by destruct m, m'. Qed.

(** Steps that may be put off: taking a lock, unless a waiting writer could come in
    between, and accesses; and steps that may be done early: giving back a lock, and
    accesses. The accesses are to variables that have a guard. *)
Definition has_guard (x : variable) : bool :=
  match guard x with Some _ => true | None => false end.

Definition grows (p : policy) (a : action) : bool :=
  match a, p with
  | Acquire _ Shared, WriterPreferred => false
  | Acquire _ _, _ => true
  | Touch x _, _ => has_guard x
  | Release _, _ => false
  end.

Definition shrinks (a : action) : bool :=
  match a with Acquire _ _ => false | Release _ => true | Touch x _ => has_guard x end.

(** Who delays a step holds at most as much before it, and waits for nothing that
    another one may get meanwhile. *)
Lemma delay_granted p i a r hs st l m :
  grows p a = true → st !! i = Some (mkThread (a :: r) hs) →
  granted p l m (<[i := mkThread r (held_after a hs)]> st) = true →
  granted p l m st = true.
Proof.
  intros Ha Hi Hg. assert (Hlt : (i < length st)%nat) by by eapply lookup_lt_Some.
  pose proof (granted_excludes _ _ _ _ i _ Hg (list_lookup_insert_eq _ _ _ Hlt)) as He.
  rewrite <- (list_insert_id st i _ Hi).
  erewrite <- (list_insert_insert_eq st i). apply granted_insert; [exact Hg|..].
  - destruct a as [l' m'|l'|x m']; [by apply excludes_cons in He as [He _]|done|done].
  - intros _ ->. destruct a as [l' m'|l'|x m']; [|done..].
    apply excludes_cons in He as [_ He]. unfold waits_for. simpl.
    apply bool_decide_eq_false. intros [= -> ->]. by specialize (He eq_refl).
Qed.

(** What was granted before the step of another thread is granted after it. *)
Lemma delayed_allowed p i a j b r hs r' hs' st :
  grows p a = true → i ≠ j → allowed p a st →
  st !! i = Some (mkThread (a :: r) hs) → st !! j = Some (mkThread (b :: r') hs') →
  allowed p b (<[i := mkThread r (held_after a hs)]> st) →
  allowed p a (<[j := mkThread r' (held_after b hs')]> st).
Proof.
  intros Hgr Hij Ha Hi Hj Hb. destruct a as [l m| |]; [|done..]. simpl in *.
  assert (Hlt : (i < length st)%nat) by by eapply lookup_lt_Some.
  pose proof (granted_excludes _ _ _ _ _ _ Ha Hj) as He.
  apply granted_insert; [done|..].
  - destruct b as [l' m'|l'|x m']; simpl in *; [|by eapply excludes_less, release_subseteq|done].
    apply excludes_cons. split; [done|]. intros ->.
    pose proof (granted_excludes _ _ _ _ i _ Hb
      (list_lookup_insert_eq _ _ _ Hlt)) as [_ Hc]%excludes_cons.
    rewrite conflicts_sym. by apply Hc.
  - intros -> ->. done.
Qed.

Lemma granted_start p l m st o :
  m = Unique ∨ p = ReaderPreferred → granted p l m st = true →
  granted p l m (st ++ [mkThread (program o) []]) = true.
Proof.
  intros Hm. rewrite !granted_spec. intros [H1 H2]. split.
  - intros j t [Hj|[_ Hj]]%lookup_app_Some; [by eauto|].
    by apply list_lookup_singleton_Some in Hj as [_ <-].
  - intros -> ->. by destruct Hm.
Qed.

Lemma right_mover p i a lab st st1 st2 :
  grows p a = true → by_thread i lab = false →
  step_label p (Do i a) st = Some st1 → step_label p lab st1 = Some st2 →
  ∃ st1', step_label p lab st = Some st1' ∧ step_label p (Do i a) st1' = Some st2.
Proof.
  intros Hgr Hlab (r & hs & Hi & Ha & ->)%step_do Hs.
  assert (Hlt : (i < length st)%nat) by by eapply lookup_lt_Some.
  destruct lab as [o|j b].
  - injection Hs as <-. eexists. split; [done|]. apply step_do. exists r, hs.
    split; [by apply lookup_app_l_Some|]. split; [|by rewrite insert_app_l].
    destruct a as [l m| |]; [|done..]. apply granted_start; [|done].
    destruct m, p; naive_solver.
  - apply bool_decide_eq_false in Hlab.
    apply step_do in Hs as (r' & hs' & Hj & Hb & ->).
    rewrite list_lookup_insert_ne in Hj by done.
    exists (<[j := mkThread r' (held_after b hs')]> st). rewrite !step_do. split.
    + exists r', hs'. split_and!; [done| |done].
      destruct b; [|done..]. by eapply delay_granted.
    + exists r, hs. rewrite list_lookup_insert_ne by done.
      split_and!; [done| |by rewrite list_insert_insert_ne].
      by eapply delayed_allowed.
Qed.

(** [waits p r]: a thread with [r] left keeps readers of a lock out. *)
Definition waits (p : policy) (r : list action) : bool :=
  match p, r with
  | WriterPreferred, Acquire _ Unique :: _ => true
  | _, _ => false
  end.

Lemma left_mover p i a r hs lab st st1 st2 :
  shrinks a = true → waits p r = false → by_thread i lab = false →
  st !! i = Some (mkThread (a :: r) hs) →
  step_label p lab st = Some st1 → step_label p (Do i a) st1 = Some st2 →
  ∃ st1', step_label p (Do i a) st = Some st1' ∧ step_label p lab st1' = Some st2.
Proof.
  intros Hsh Hw Hlab Hi Hs Hs'. pose proof (step_other _ _ _ _ _ _ Hs Hlab Hi) as Hi1.
  apply step_do in Hs' as (r0 & hs0 & Hi1' & _ & ->).
  rewrite Hi1 in Hi1'. injection Hi1' as <- <-.
  assert (Hlt : (i < length st)%nat) by by eapply lookup_lt_Some.
  exists (<[i := mkThread r (held_after a hs)]> st). rewrite step_do. split.
  { exists r, hs. by destruct a. }
  destruct lab as [o|j b].
  - injection Hs as <-. simpl. by rewrite insert_app_l.
  - apply bool_decide_eq_false in Hlab.
    apply step_do in Hs as (r' & hs' & Hj & Hb & ->). apply step_do. exists r', hs'.
    rewrite list_lookup_insert_ne by done.
    split_and!; [done| |by rewrite list_insert_insert_ne].
    destruct b as [l m| |]; [|done..]. simpl in *. apply granted_insert; [done|..].
    + pose proof (granted_excludes _ _ _ _ _ _ Hb Hi) as He.
      destruct a; [done| |done]. by eapply excludes_less, release_subseteq.
    + intros -> ->. unfold waits_for. simpl. destruct r as [|[l' []| |] r]; try done.
      by apply bool_decide_eq_false.
Qed.

(** Neighbouring accesses of two threads commute: those to guarded variables do not
    clash. *)
Lemma guarded_no_clash p i x m lab st st1 :
  locks_inv st → has_guard x = true → by_thread i lab = false →
  (∃ r hs, st !! i = Some (mkThread (Touch x m :: r) hs)) →
  step_label p lab st = Some st1 → ¬ clash (Do i (Touch x m)) lab.
Proof.
  intros Hinv Hg Hlab (r & hs & Hi) Hs Hc. destruct lab as [o|j [| |y m']]; [done..|].
  simpl in Hc. destruct Hc as [<- Hc]. apply bool_decide_eq_false in Hlab.
  apply step_do in Hs as (r' & hs' & Hj & _ & _). unfold has_guard in Hg.
  destruct (guard x) as [l|] eqn:Hx; [|done].
  eapply locks_inv_race_free; [done|done|]. exists i, j. unfold at_access. by eauto 15.
Qed.

(** * Moving a section together *)

(** From [st] the run [labs'] ends in the same [st'] as [labs], and its accesses do
    the same, whatever they mean. *)
Definition replays (p : policy) (st st' : list thread) (labs labs' : list label) : Prop :=
  run_labels p labs' st = Some st' ∧
  ∀ (V K : Type) (read : nat → variable → K → V → K)
    (write : nat → variable → K → V → K * V) (s : memory),
    effects read write labs s ≡ effects read write labs' s.

Lemma run_cons p lab labs st st' :
  run_labels p (lab :: labs) st = Some st' ↔
  ∃ st1, step_label p lab st = Some st1 ∧ run_labels p labs st1 = Some st'.
Proof. simpl. destruct (step_label p lab st); simpl; naive_solver. Qed.

Lemma replays_refl p st st' labs :
  run_labels p labs st = Some st' → replays p st st' labs labs.
Proof. by split. Qed.

Lemma replays_cons p lab labs labs' st st1 st' :
  step_label p lab st = Some st1 → replays p st1 st' labs labs' →
  replays p st st' (lab :: labs) (lab :: labs').
Proof.
  intros Hs [Hr He]. split; [apply run_cons; by eauto|]. intros V K read write s. apply He.
Qed.

Lemma replays_trans p st st' labs1 labs2 labs3 :
  replays p st st' labs1 labs2 → replays p st st' labs2 labs3 →
  replays p st st' labs1 labs3.
Proof.
  intros [_ H1] [H2 H3]. split; [done|]. intros V K read write s. by rewrite H1, H3.
Qed.

(** Two neighbouring labels that commute. *)
Lemma replays_swap p lab lab' labs st st' st1 st2 :
  step_label p lab' st = Some st1 → step_label p lab st1 = Some st2 →
  run_labels p labs st2 = Some st' →
  (∀ V K (read : nat → variable → K → V → K) (write : nat → variable → K → V → K * V)
     (s : memory),
     effect read write lab' (effect read write lab s)
     ≡ effect read write lab (effect read write lab' s)) →
  replays p st st' (lab :: lab' :: labs) (lab' :: lab :: labs).
Proof.
  intros H1 H2 Hr He. split; [rewrite run_cons; setoid_rewrite run_cons; by eauto|].
  intros V K read write s. simpl. by rewrite He.
Qed.

Lemma move_right p i a os rest st st' :
  locks_inv st → grows p a = true → Forall (fun lab => by_thread i lab = false) os →
  run_labels p (Do i a :: os ++ rest) st = Some st' →
  replays p st st' (Do i a :: os ++ rest) (os ++ Do i a :: rest).
Proof.
  intros Hinv Ha Hos. revert st Hinv. induction Hos as [|o os Ho Hos IH]; intros st Hinv.
  { apply replays_refl. }
  intros (st1 & H1 & (st2 & H2 & Hr)%run_cons)%run_cons.
  destruct (right_mover _ _ _ _ _ _ _ Ha Ho H1 H2) as (st1' & H3 & H4).
  eapply replays_trans; [eapply (replays_swap _ _ o); [done..|]|].
  - intros V K read write s. apply effect_comm; [done|].
    apply step_do in H1 as (r & hs & Hi & _). destruct a as [| |x m]; [by intros []..|].
    by eapply guarded_no_clash; eauto.
  - simpl. eapply replays_cons; [done|]. apply IH; [by eapply step_inv|].
    apply run_cons. by eauto.
Qed.

Lemma move_left p i seg r hs lab rest st st' :
  locks_inv st → forallb shrinks seg = true → waits p r = false →
  by_thread i lab = false → st !! i = Some (mkThread (seg ++ r) hs) →
  run_labels p (lab :: map (Do i) seg ++ rest) st = Some st' →
  replays p st st' (lab :: map (Do i) seg ++ rest) (map (Do i) seg ++ lab :: rest).
Proof.
  intros Hinv Hseg Hw Hlab. revert st hs Hinv.
  induction seg as [|a seg IH]; intros st hs Hinv Hi; [apply replays_refl|].
  simpl in Hseg. apply andb_prop in Hseg as [Ha Hseg].
  intros (st1 & H1 & (st2 & H2 & Hr)%run_cons)%run_cons.
  destruct (left_mover p i a (seg ++ r) hs lab st st1 st2) as (st1' & H3 & H4); try done.
  { by destruct seg as [|[] seg], p. }
  eapply replays_trans; [eapply (replays_swap _ _ (Do i a)); [done..|]|].
  - intros V K read write s. symmetry. apply effect_comm; [done|].
    destruct a as [| |x m]; [by intros []..|]. by eapply guarded_no_clash; eauto.
  - simpl. eapply replays_cons; [done|].
    pose proof H3 as (r' & hs' & Hi' & _ & ->)%step_do.
    rewrite Hi in Hi'. injection Hi' as <- <-.
    eapply IH; [done|by eapply step_inv| |apply run_cons; by eauto].
    apply list_lookup_insert_eq. by eapply lookup_lt_Some.
Qed.

(** A thread only works off its program. *)
Lemma run_todo p labs st st' i t t' :
  run_labels p labs st = Some st' → st !! i = Some t → st' !! i = Some t' →
  (length (todo t') ≤ length (todo t))%nat.
Proof.
  revert st t. induction labs as [|lab labs IH]; intros st t.
  { intros [= ->] Hi Hi'. by rewrite Hi in Hi'; injection Hi' as <-. }
  intros (st1 & Hs & Hr)%run_cons Hi Hi'.
  destruct (by_thread i lab) eqn:Hl; [|by eapply IH; [|eapply step_other|]].
  destruct lab as [o|j a]; [done|]. apply bool_decide_eq_true in Hl as ->.
  apply step_do in Hs as (r & hs & Hj & _ & ->). rewrite Hi in Hj. injection Hj as ->.
  simpl. apply Nat.le_le_succ_r.
  eapply (IH _ (mkThread r (held_after a hs))); [done| |done].
  apply list_lookup_insert_eq. by eapply lookup_lt_Some.
Qed.

(** The next own step of a thread is the next one of the section. *)
Lemma section_done (st : list thread) (i : nat) seg r hs hs' :
  st !! i = Some (mkThread (seg ++ r) hs) → st !! i = Some (mkThread r hs') → seg = [].
Proof.
  intros -> [= Hr _]. apply (f_equal length) in Hr. rewrite length_app in Hr.
  destruct seg; [done|]. simpl in Hr. lia.
Qed.

Lemma section_step p i a labs seg r hs hs' st st1 st' :
  step_label p (Do i a) st = Some st1 → run_labels p labs st1 = Some st' →
  st !! i = Some (mkThread (seg ++ r) hs) → st' !! i = Some (mkThread r hs') →
  ∃ seg', seg = a :: seg' ∧ st1 !! i = Some (mkThread (seg' ++ r) (held_after a hs)).
Proof.
  intros (r0 & hs0 & Hj & _ & ->)%step_do Hr Hi Hi'.
  assert (Hi1 : <[i := mkThread r0 (held_after a hs0)]> st !! i
                = Some (mkThread r0 (held_after a hs0)))
    by (apply list_lookup_insert_eq; by eapply lookup_lt_Some).
  rewrite Hi in Hj. injection Hj as Hr0 <-. destruct seg as [|a' seg].
  - pose proof (run_todo _ _ _ _ _ _ _ Hr Hi1 Hi') as Hlen. simpl in *. subst. simpl in *. lia.
  - injection Hr0 as -> <-. by exists seg.
Qed.

(** The steps of the other threads, in their order. *)
Definition others (i : nat) (labs : list label) : list label :=
  List.filter (fun lab => negb (by_thread i lab)) labs.

Lemma others_forall i labs : Forall (fun lab => by_thread i lab = false) (others i labs).
Proof.
  induction labs as [|lab labs IH]; simpl; [done|].
  destruct (by_thread i lab) eqn:E; simpl; [done|]. by constructor.
Qed.

(** First only locks are taken, then only given back. *)
Fixpoint two_phase (p : policy) (seg : list action) : bool :=
  match seg with
  | [] => true
  | a :: seg' => (grows p a && two_phase p seg') || forallb shrinks seg
  end.

(** Once only locks are given back, everything can be done at once. *)
Lemma shrinking_first p i labs seg r hs hs' st st' :
  locks_inv st → forallb shrinks seg = true → waits p r = false →
  st !! i = Some (mkThread (seg ++ r) hs) → st' !! i = Some (mkThread r hs') →
  run_labels p labs st = Some st' →
  replays p st st' labs (map (Do i) seg ++ others i labs).
Proof.
  intros Hinv Hseg Hw. revert st seg hs Hinv Hseg.
  induction labs as [|lab labs IH]; intros st seg hs Hinv Hseg Hi Hi'.
  { intros [= ->]. rewrite (section_done _ _ _ _ _ _ Hi Hi'). by apply replays_refl. }
  intros (st1 & Hs & Hr)%run_cons. pose proof (step_inv _ _ _ _ Hinv Hs) as Hinv1.
  destruct (by_thread i lab) eqn:Hl; unfold others; simpl; rewrite Hl; simpl.
  - destruct lab as [o|j a]; [done|]. apply bool_decide_eq_true in Hl as ->.
    destruct (section_step _ _ _ _ _ _ _ _ _ _ _ Hs Hr Hi Hi') as (seg' & -> & Hi1).
    simpl in Hseg. apply andb_prop in Hseg as [_ Hseg].
    simpl. eapply replays_cons; [done|]. by eapply IH.
  - pose proof (step_other _ _ _ _ _ _ Hs Hl Hi) as Hi1.
    pose proof (IH _ _ _ Hinv1 Hseg Hi1 Hi' Hr) as Hrep.
    eapply replays_trans; [by eapply replays_cons|].
    eapply move_left; [done..|]. apply run_cons. eexists. split; [done|]. apply Hrep.
Qed.

(** A section in two phases can be done at once, between some step of the others and
    the next one. *)
Lemma two_phase_together p i labs seg r hs hs' st st' :
  locks_inv st → two_phase p seg = true → waits p r = false →
  st !! i = Some (mkThread (seg ++ r) hs) → st' !! i = Some (mkThread r hs') →
  run_labels p labs st = Some st' →
  ∃ before after, others i labs = before ++ after ∧
    replays p st st' labs (before ++ map (Do i) seg ++ after).
Proof.
  intros Hinv Hseg Hw. revert st seg hs Hinv Hseg.
  induction labs as [|lab labs IH]; intros st seg hs Hinv Hseg Hi Hi' Hrun.
  { exists [], []. split; [done|]. injection Hrun as ->.
    rewrite (section_done _ _ _ _ _ _ Hi Hi'). by apply replays_refl. }
  pose proof Hrun as (st1 & Hs & Hr)%run_cons. pose proof (step_inv _ _ _ _ Hinv Hs) as Hinv1.
  destruct (by_thread i lab) eqn:Hl.
  - destruct lab as [o|j a]; [done|]. apply bool_decide_eq_true in Hl as ->.
    destruct (section_step _ _ _ _ _ _ _ _ _ _ _ Hs Hr Hi Hi') as (seg' & -> & Hi1).
    cbn [two_phase] in Hseg.
    apply orb_prop in Hseg as [[Ha Hseg]%andb_prop|Hseg].
    + destruct (IH _ _ _ Hinv1 Hseg Hi1 Hi' Hr) as (before & after & Ho & Hrep).
      exists before, after. unfold others. simpl.
      rewrite bool_decide_eq_true_2 by done. split; [done|].
      eapply replays_trans; [by eapply replays_cons|]. simpl.
      apply move_right; [done|done| |].
      * pose proof (others_forall i labs) as Hf. rewrite Ho in Hf.
        by apply Forall_app in Hf as [Hf _].
      * apply run_cons. eexists. split; [done|]. apply Hrep.
    + exists [], (others i (Do i a :: labs)). split; [done|].
      by eapply (shrinking_first p i _ (a :: seg')).
  - pose proof (step_other _ _ _ _ _ _ Hs Hl Hi) as Hi1.
    destruct (IH _ _ _ Hinv1 Hseg Hi1 Hi' Hr) as (before & after & Ho & Hrep).
    exists (lab :: before), after. unfold others. simpl. rewrite Hl. simpl.
    split; [by f_equal|]. by eapply replays_cons.
Qed.

(** * The sections of the program *)

(** The scopes of one lock, and of nested locks, in which only guarded variables are
    touched: the accept, the queue of a pool, the table of peers, the place in the
    receive buffer, and the registration and the end of a video. *)
Definition guarded_sections (pool : lock) (a : N) (timer : option N)
  : list (list action) :=
  [accept_locks; submit_locks pool; registerPeer_locks; alloc_slot_locks;
   errorcb_locks None;
   RegisterVideo_locks a FileVideo true; RegisterVideo_locks a CameraVideo true;
   UnregisterVideo_locks FileVideo timer; UnregisterVideo_locks CameraVideo timer].

Lemma guarded_sections_two_phase p pool a timer seg :
  seg ∈ guarded_sections pool a timer → two_phase p seg = true.
Proof.
  unfold guarded_sections. rewrite !elem_of_cons, elem_of_nil. intros Hs.
  destruct_or!; subst; destruct p; destruct timer; done.
Qed.

(** C6: a section of the program is one step. Whatever the other threads do
    meanwhile, in every run in which a thread goes through one of the sections in
    which only guarded variables are touched, its steps can be brought together
    between two steps of the others: that run is possible from the same state, the
    others take their steps in the same order, the threads end up the same, and so do
    the values of the variables and what the threads have read, whatever reading and
    writing them means. (With [WriterPreferred] the thread must not queue up for
    another lock right after the section.) *)
Theorem section_is_atomic (p : policy) (pool : lock) (a : N) (timer : option N)
    (st st' : list thread) (i : nat) (seg r : list action) (hs hs' : list (lock * mode))
    (labs : list label)
    (Hr : lock_reachable p st) (Hseg : seg ∈ guarded_sections pool a timer)
    (Hw : waits p r = false)
    (Hi : st !! i = Some (mkThread (seg ++ r) hs))
    (Hrun : run_labels p labs st = Some st')
    (Hi' : st' !! i = Some (mkThread r hs')) :
  ∃ before after, others i labs = before ++ after ∧
    replays p st st' labs (before ++ map (Do i) seg ++ after).
Proof.
  eapply two_phase_together; [by eapply reachable_locks_inv| |done..].
  by eapply guarded_sections_two_phase.
Qed.

(** An accept with an answer to an invitation in between. *)
Definition demo_start : list thread :=
  [mkThread (program OpAccept) []; mkThread (program (OpInvite None)) []].

Definition demo_labels : list label :=
  [Do 0 (Acquire RtspServerMutex Unique); Do 1 (Acquire RtpContextMutex Shared);
   Do 0 (Touch BevMap Unique); Do 1 (Release RtpContextMutex);
   Do 0 (Release RtspServerMutex)].

Lemma demo_start_reachable p : lock_reachable p demo_start.
Proof.
  eapply (run_schedule_rtc p [inl OpAccept; inl (OpInvite None)]). reflexivity.
Qed.

Lemma section_is_atomic_witness :
  ∃ before after, others 0 demo_labels = before ++ after ∧
    replays WriterPreferred demo_start [mkThread [] []; mkThread [] []] demo_labels
      (before ++ map (Do 0) accept_locks ++ after).
Proof.
  eapply (section_is_atomic WriterPreferred FilePoolMutex 1%N None demo_start _ 0
            accept_locks [] [] [] demo_labels (demo_start_reachable _));
    [by left|reflexivity..].
Defined.
