(* ===== verification/Shutdown.v ===== *)
(** The destructors of core/src/rtsp_service.cpp, core/src/rtp_producer.cpp and
    core/src/network_server.cpp.

    A destructor is the sequence of its joins and of the ends of its members,
    which C++ destroys in the reverse order of their declaration after the body
    has run. The other threads go on until they are joined, and may use a member
    at any time; using one whose lifetime has ended is the fault looked for. What
    the threads use depends on what is still going on, the [activity]. The [main] of
    the program gets to these destructors only without RTSP event loops, for which
    [Dispatch] waits ([Dispatch_loops] of System.v); the unit tests destroy each of
    the objects. *)
From stdpp Require Import base list numbers relations.
From S2P Require Import Prelude.

(** * Threads and members *)

Inductive worker : Type :=
| RtspLoop (i : nat)
| FileLoop (i : nat)
| FileWorker (i : nat)
| RpcThread (i : nat)
| UdpLoop (i : nat)
| UdpWorker (i : nat).

(** The members other threads use, of [RtspService], [RtpProducer] and
    [NetworkServer]; a mutex goes with what it guards. *)
Inductive member : Type :=
| ProxyInfos | ProxyInfoMutex | Bev2RtspServer | RtspServerMutex
| NetworkServerPtr | GrpcClient | Stub | RtpContexts | FileContexts
| FileIoThreadPool | FileIoBases
| RegisteredPeers | ReceiveBuffers | UdpWorkerThreads | UdpWorkers.

#[export] Instance worker_eq_dec : EqDecision worker.
Proof. solve_decision. Defined.
#[export] Instance member_eq_dec : EqDecision member.
Proof. solve_decision. Defined.

(** What the destructing thread does: wait for a thread, end a member's lifetime,
    or use a member itself. *)
Inductive teardown : Type :=
| Join (t : worker)
| End (m : member)
| Use (m : member).

(** What is going on when the destructors run: open connections, files that
    stream, files that are being probed, invitations that are not answered,
    datagrams that arrive, and cameras among their senders. *)
Record activity : Type := mkActivity {
  connections : nat;
  files_streaming : bool;
  files_probing : bool;
  inviting : bool;
  datagrams : bool;
  cameras_streaming : bool;
}.

(** How many threads of each kind there are. *)
Record threads : Type := mkThreads {
  rtsp_loops : nat;
  file_loops : nat;
  file_workers : nat;
  rpc_threads : nat;
  udp_loops : nat;
  udp_workers : nat;
}.

(** What a thread may use then. Without UDP workers the UDP loops call the peers
    themselves. *)
Definition uses (n : threads) (act : activity) (t : worker) (m : member) : bool :=
  match t, m with
  | RtspLoop _, (Bev2RtspServer | RtspServerMutex | ProxyInfos | ProxyInfoMutex
                 | RtpContexts | FileContexts | FileIoThreadPool | GrpcClient | Stub) =>
      negb (connections act =? 0)%nat
  | FileLoop _, (FileContexts | ProxyInfos) => files_streaming act
  | FileWorker _, (FileContexts | FileIoBases | ProxyInfos) => files_probing act
  | RpcThread _, (RtpContexts | ProxyInfos | NetworkServerPtr | Stub | GrpcClient
                  | RegisteredPeers) => inviting act
  | UdpLoop _, (ReceiveBuffers | UdpWorkerThreads) => datagrams act
  | UdpLoop _, RegisteredPeers => datagrams act && (udp_workers n =? 0)%nat
  | UdpLoop _, (RtpContexts | ProxyInfos) =>
      datagrams act && cameras_streaming act && (udp_workers n =? 0)%nat
  | UdpWorker _, (ReceiveBuffers | RegisteredPeers) => datagrams act
  | UdpWorker _, (RtpContexts | ProxyInfos) => datagrams act && cameras_streaming act
  | _, _ => false
  end.

(** * The destructors *)

Definition joins (t : nat → worker) (n : nat) : list teardown :=
  map (fun i => Join (t i)) (seq 0 n).

(** [~RtspService]: the event loops are stopped and joined, then the members go.
    Destroying the map of connections destroys their servers, which calls [Close]
    for each connection. *)
Definition service_dtor (loops : nat) (act : activity) : list teardown :=
  joins RtspLoop loops ++
  [End ProxyInfos; End ProxyInfoMutex] ++
  concat (replicate (connections act) [Use ProxyInfoMutex; Use ProxyInfos]) ++
  [End Bev2RtspServer; End RtspServerMutex].

(** [~ThreadPool] and [~AsyncClient] as members. *)
Definition pool_dtor (t : nat → worker) (n : nat) : list teardown := joins t n.
Definition client_dtor (n : nat) : list teardown := joins RpcThread n.

(** [~RtpProducer]: the file loops are stopped and joined, the pool is not; then
    the members go, the network server first and the pool behind the contexts. *)
Definition producer_dtor (file_loops file_workers rpc_threads : nat) : list teardown :=
  joins FileLoop file_loops ++
  [End NetworkServerPtr] ++
  client_dtor rpc_threads ++
  [End GrpcClient; End Stub; End RtpContexts; End FileContexts] ++
  pool_dtor FileWorker file_workers ++
  [End FileIoThreadPool; End FileIoBases].

(** [~UdpEventLoop] of each element. *)
Definition udp_loops_dtor (n : nat) : list teardown := joins UdpLoop n.

(** [~NetworkServer]: its body does nothing. *)
Definition network_dtor (udp_loops udp_workers : nat) : list teardown :=
  [End RegisteredPeers; End ReceiveBuffers] ++
  pool_dtor UdpWorker udp_workers ++
  [End UdpWorkerThreads] ++
  udp_loops_dtor udp_loops ++
  [End UdpWorkers].

Definition workers_of (n : threads) : list worker :=
  map RtspLoop (seq 0 (rtsp_loops n)) ++ map FileLoop (seq 0 (file_loops n)) ++
  map FileWorker (seq 0 (file_workers n)) ++ map RpcThread (seq 0 (rpc_threads n)) ++
  map UdpLoop (seq 0 (udp_loops n)) ++ map UdpWorker (seq 0 (udp_workers n)).

(** * Runs *)

(** The rest of the teardown, the threads that run and the members that ended. *)
Record ending : Type := mkEnding {
  rest : list teardown;
  running : list worker;
  ended : list member;
}.

Inductive end_step : ending → ending → Prop :=
| end_join t r ts ms :
    end_step (mkEnding (Join t :: r) ts ms) (mkEnding r (filter (.≠ t) ts) ms)
| end_member m r ts ms :
    end_step (mkEnding (End m :: r) ts ms) (mkEnding r ts (m :: ms))
| end_use m r ts ms :
    m ∉ ms → end_step (mkEnding (Use m :: r) ts ms) (mkEnding r ts ms).

Section runs.
Variable n : threads.
Variable act : activity.

(** A member is used whose lifetime has ended: by a thread that still runs, or by
    the teardown itself. *)
Inductive dangles : ending → Prop :=
| dangles_thread e t m :
    t ∈ running e → m ∈ ended e → uses n act t m = true → dangles e
| dangles_use m r ts ms : m ∈ ms → dangles (mkEnding (Use m :: r) ts ms).

(** The check for it. *)
Definition exposed_now (ts : list worker) (ms : list member) : bool :=
  existsb (fun t => existsb (uses n act t) ms) ts.

Fixpoint exposed (r : list teardown) (ts : list worker) (ms : list member) : bool :=
  exposed_now ts ms ||
  match r with
  | [] => false
  | Join t :: r' => exposed r' (filter (.≠ t) ts) ms
  | End m :: r' => exposed r' ts (m :: ms)
  | Use m :: r' => bool_decide (m ∈ ms) || exposed r' ts ms
  end.

(** * Lemmas *)

Lemma exposed_now_spec ts ms :
  exposed_now ts ms = true ↔ ∃ t m, t ∈ ts ∧ m ∈ ms ∧ uses n act t m = true.
Proof.
  unfold exposed_now. rewrite existsb_exists. split.
  - intros (t & Ht & Hm). apply existsb_exists in Hm as (m & Hm & Hu).
    exists t, m. by rewrite !list_elem_of_In.
  - intros (t & m & Ht & Hm & Hu). exists t. rewrite <- list_elem_of_In.
    split; [done|]. apply existsb_exists. exists m. by rewrite <- list_elem_of_In.
Qed.

Lemma exposed_now_exposed r ts ms : exposed_now ts ms = true → exposed r ts ms = true.
Proof. intros H. destruct r; simpl; by rewrite H. Qed.

Lemma exposed_sound r ts ms :
  exposed r ts ms = true → ∃ e, rtc end_step (mkEnding r ts ms) e ∧ dangles e.
Proof.
  assert (Hnow : ∀ r ts ms, exposed_now ts ms = true →
    ∃ e, rtc end_step (mkEnding r ts ms) e ∧ dangles e).
  { clear. intros r ts ms (t & m & Ht & Hm & Hu)%exposed_now_spec.
    eexists. split; [apply rtc_refl|]. by eapply dangles_thread. }
  revert ts ms. induction r as [|[t|m|m] r IH]; intros ts ms; simpl;
    intros [H|H]%orb_prop; try (by apply Hnow); try done.
  - destruct (IH _ _ H) as (e & He & Hd). exists e. split; [|done].
    eapply rtc_l; [apply end_join|done].
  - destruct (IH _ _ H) as (e & He & Hd). exists e. split; [|done].
    eapply rtc_l; [apply end_member|done].
  - destruct (decide (m ∈ ms)) as [Hm|Hm].
    + eexists. split; [apply rtc_refl|by apply dangles_use].
    + rewrite bool_decide_eq_false_2 in H by done.
      destruct (IH _ _ H) as (e & He & Hd). exists e. split; [|done].
      eapply rtc_l; [by apply end_use|done].
Qed.

Lemma exposed_complete r ts ms e :
  rtc end_step (mkEnding r ts ms) e → dangles e → exposed r ts ms = true.
Proof.
  intros Hr. remember (mkEnding r ts ms) as e0 eqn:E. revert r ts ms E.
  induction Hr as [e|e1 e2 e3 Hs _ IH]; intros r ts ms -> Hd.
  - inversion Hd as [? t m Ht Hm Hu|m r' ts' ms' Hm]; subst; simpl in *.
    + apply exposed_now_exposed, exposed_now_spec. by eauto.
    + rewrite bool_decide_eq_true_2 by done. by rewrite orb_true_r.
  - inversion Hs; subst; simpl; rewrite (IH _ _ _ eq_refl Hd), ?orb_true_r; done.
Qed.

(** A thread meets the end of a member before it is joined. *)
Lemma exposed_at pre post ts ms t m :
  t ∈ ts → Join t ∉ pre → End m ∈ pre → uses n act t m = true →
  exposed (pre ++ post) ts ms = true.
Proof.
  intros Ht Hj He Hu.
  assert (Hgo : (m ∈ ms ∨ End m ∈ pre) → exposed (pre ++ post) ts ms = true);
    [clear He|by apply Hgo; right].
  revert ts ms Ht Hj. induction pre as [|d pre IH]; intros ts ms Ht Hj Hor.
  { destruct Hor as [Hm|Hm]; [|by apply elem_of_nil in Hm].
    apply exposed_now_exposed, exposed_now_spec. by eauto. }
  apply not_elem_of_cons in Hj as [Hd Hj]. rewrite elem_of_cons in Hor.
  simpl. apply orb_true_intro. right. destruct d as [t'|m'|m'].
  - apply IH; [|done|naive_solver]. apply list_elem_of_filter. split; [congruence|done].
  - apply IH; [done|done|]. rewrite elem_of_cons. naive_solver.
  - rewrite IH; [by rewrite orb_true_r|done|done|naive_solver].
Qed.

(** The teardown uses a member after its end. *)
Lemma exposed_use pre post ts ms m :
  m ∈ ms ∨ End m ∈ pre → exposed (pre ++ Use m :: post) ts ms = true.
Proof.
  revert ts ms. induction pre as [|d pre IH]; intros ts ms Hor; simpl.
  - destruct Hor as [Hm|Hm]; [|by apply elem_of_nil in Hm].
    rewrite bool_decide_eq_true_2 by done. by rewrite orb_true_r.
  - rewrite elem_of_cons in Hor. apply orb_true_intro. right. destruct d as [t'|m'|m'].
    + apply IH. naive_solver.
    + apply IH. rewrite elem_of_cons. naive_solver.
    + rewrite IH; [by rewrite orb_true_r|naive_solver].
Qed.

(** What is exposed stays exposed in a longer teardown. *)
Lemma exposed_prefix pre post ts ms :
  exposed pre ts ms = true → exposed (pre ++ post) ts ms = true.
Proof.
  revert ts ms. induction pre as [|d pre IH]; intros ts ms; simpl.
  - rewrite orb_false_r. apply exposed_now_exposed.
  - intros [H|H]%orb_prop; apply orb_true_intro; [by left|right].
    destruct d as [t|m|m]; [by apply IH..|].
    apply orb_prop in H as [->|H]; [done|]. by rewrite IH, orb_true_r.
Qed.

(** Nothing happens when no thread uses what ends and the teardown uses nothing. *)
Lemma quiet_safe r ts ms :
  (∀ t m, t ∈ ts → m ∈ ms ∨ End m ∈ r → uses n act t m = false) → (∀ m, Use m ∉ r) →
  exposed r ts ms = false.
Proof.
  assert (Hnow : ∀ ts ms, (∀ t m, t ∈ ts → m ∈ ms → uses n act t m = false) →
    exposed_now ts ms = false).
  { clear. intros ts ms Hq. apply not_true_is_false. intros H.
    apply exposed_now_spec in H as (t & m & Ht & Hm & Hum). by rewrite Hq in Hum. }
  revert ts ms. induction r as [|d r IH]; intros ts ms Hq Hu; simpl.
  - rewrite orb_false_r. apply Hnow. intros t m Ht Hm. apply Hq; auto.
  - apply orb_false_intro; [apply Hnow; intros t m Ht Hm; apply Hq; auto|].
    setoid_rewrite elem_of_cons in Hq. setoid_rewrite not_elem_of_cons in Hu.
    assert (Hu' : ∀ m, Use m ∉ r) by (intros m; apply Hu).
    destruct d as [t'|m'|m'].
    + apply IH; [|done]. intros t m [_ Ht]%list_elem_of_filter. naive_solver.
    + apply IH; [|done]. intros t m Ht. rewrite elem_of_cons. naive_solver.
    + by destruct (proj1 (Hu m')).
Qed.

(** Threads that are joined before anything ends play no part. *)
Lemma exposed_joins (F : nat → worker) k r ts :
  exposed (joins F k ++ r) ts [] = true →
  ∃ ts', exposed r ts' [] = true ∧
    ∀ t, t ∈ ts' → t ∈ ts ∧ ∀ i, (i < k)%nat → t ≠ F i.
Proof.
  assert (Hnil : ∀ ts, exposed_now ts [] = false).
  { clear. intros ts. unfold exposed_now. induction ts; simpl; done. }
  unfold joins. intros He.
  assert (Hgo : ∀ js ts, exposed (map (fun i => Join (F i)) js ++ r) ts [] = true →
    ∃ ts', exposed r ts' [] = true ∧ ∀ t, t ∈ ts' → t ∈ ts ∧ ∀ i, i ∈ js → t ≠ F i).
  { clear -Hnil. induction js as [|i js IH]; intros ts; simpl.
    - intros He. exists ts. split; [done|]. intros t Ht. split; [done|].
      intros i Hi. by apply elem_of_nil in Hi.
    - rewrite Hnil. simpl. intros (ts' & He & Hts)%IH. exists ts'. split; [done|].
      intros t Ht. destruct (Hts t Ht) as [[Hne Hin]%list_elem_of_filter Hn].
      split; [done|]. intros j [->|Hj]%elem_of_cons; [done|by apply Hn]. }
  destruct (Hgo _ _ He) as (ts' & He' & Hts). exists ts'. split; [done|].
  intros t Ht. destruct (Hts t Ht) as [Hin Hn]. split; [done|].
  intros i Hi. apply Hn, elem_of_seq. lia.
Qed.
End runs.

(** * When a destructor is safe *)

(** A thread of the producer or of the network server may call back to a proxy. *)
Definition calls_back (n : threads) (act : activity) : bool :=
  files_streaming act && negb (file_loops n =? 0)%nat
  || files_probing act && negb (file_workers n =? 0)%nat
  || inviting act && negb (rpc_threads n =? 0)%nat
  || datagrams act && cameras_streaming act
     && (negb (udp_loops n =? 0)%nat || negb (udp_workers n =? 0)%nat).

(** A thread that [~RtpProducer] does not join first works in the producer. *)
Definition producer_busy (n : threads) (act : activity) : bool :=
  negb (connections act =? 0)%nat && negb (rtsp_loops n =? 0)%nat
  || files_probing act && negb (file_workers n =? 0)%nat
  || inviting act && negb (rpc_threads n =? 0)%nat
  || datagrams act && cameras_streaming act
     && (negb (udp_loops n =? 0)%nat || negb (udp_workers n =? 0)%nat).

(** A datagram or the answer to an invitation arrives. *)
Definition network_busy (n : threads) (act : activity) : bool :=
  inviting act && negb (rpc_threads n =? 0)%nat
  || datagrams act && (negb (udp_loops n =? 0)%nat || negb (udp_workers n =? 0)%nat).

(** In some run of the destructor, with all threads of the program, a member is used
    after the end of its lifetime. *)
Definition dangling (n : threads) (act : activity) (dtor : list teardown) : Prop :=
  ∃ e, rtc end_step (mkEnding dtor (workers_of n) []) e ∧ dangles n act e.

Lemma dangling_exposed n act dtor :
  dangling n act dtor ↔ exposed n act dtor (workers_of n) [] = true.
Proof.
  split; [intros (e & ? & ?); by eapply exposed_complete|apply exposed_sound].
Qed.

Lemma elem_of_joins t t' n : Join t ∈ joins t' n ↔ ∃ i, t = t' i ∧ (i < n)%nat.
Proof.
  unfold joins. rewrite list_elem_of_fmap. setoid_rewrite elem_of_seq. split.
  - intros (i & [= ->] & Hi). exists i. split; [done|lia].
  - intros (i & -> & Hi). exists i. split; [done|lia].
Qed.

Lemma joins_only d t n : d ∈ joins t n → ∃ i, d = Join (t i).
Proof. unfold joins. intros (i & -> & _)%list_elem_of_fmap. by eauto. Qed.

Lemma end_not_join m t n : End m ∈ joins t n ↔ False.
Proof. split; [by intros [i [=]]%joins_only|done]. Qed.
Lemma use_not_join m t n : Use m ∈ joins t n ↔ False.
Proof. split; [by intros [i [=]]%joins_only|done]. Qed.

Lemma elem_of_workers n t :
  t ∈ workers_of n ↔
  match t with
  | RtspLoop i => i < rtsp_loops n
  | FileLoop i => i < file_loops n
  | FileWorker i => i < file_workers n
  | RpcThread i => i < rpc_threads n
  | UdpLoop i => i < udp_loops n
  | UdpWorker i => i < udp_workers n
  end%nat.
Proof.
  unfold workers_of. rewrite !elem_of_app, !list_elem_of_fmap.
  setoid_rewrite elem_of_seq. split.
  - intros Ht. repeat destruct Ht as [Ht|Ht]; destruct Ht as (i & -> & Hi); lia.
  - intros Ht. destruct t as [i|i|i|i|i|i]; naive_solver lia.
Qed.

(** The pieces of the teardown that matter for a thread. *)
Ltac not_joined :=
  rewrite ?elem_of_app, ?elem_of_joins, ?elem_of_cons, ?elem_of_nil; naive_solver.
Ltac has_ended := rewrite ?elem_of_app, ?elem_of_cons; naive_solver.
Ltac ends_of Hm :=
  revert Hm; rewrite ?elem_of_app, ?end_not_join, ?use_not_join, ?elem_of_cons, ?elem_of_nil;
  naive_solver.

(** What a thread of each kind uses, by what is going on. *)
Lemma uses_proxies n act t :
  t ∈ workers_of n → (∀ i, t ≠ RtspLoop i) → uses n act t ProxyInfos = true →
  calls_back n act = true.
Proof.
  intros Ht%elem_of_workers Hr Hu. unfold calls_back. rewrite !orb_true_iff, !andb_true_iff.
  rewrite orb_true_iff, !negb_true_iff, !Nat.eqb_neq.
  destruct t as [i|i|i|i|i|i]; simpl in Hu; rewrite ?andb_true_iff in Hu;
    [by destruct (Hr i)|..]; naive_solver lia.
Qed.

Lemma calls_back_proxies n act :
  calls_back n act = true →
  ∃ t, t ∈ workers_of n ∧ (∀ i, t ≠ RtspLoop i) ∧ uses n act t ProxyInfos = true.
Proof.
  unfold calls_back. rewrite !orb_true_iff, !andb_true_iff.
  rewrite orb_true_iff, !negb_true_iff, !Nat.eqb_neq.
  intros [[[[Hf Hn]|[Hf Hn]]|[Hf Hn]]|[[Hd Hc] Hn]].
  - exists (FileLoop 0). rewrite elem_of_workers. split_and!; [lia|done|done].
  - exists (FileWorker 0). rewrite elem_of_workers. split_and!; [lia|done|done].
  - exists (RpcThread 0). rewrite elem_of_workers. split_and!; [lia|done|done].
  - destruct (decide (udp_workers n = 0%nat)) as [Hz|Hz].
    + exists (UdpLoop 0). rewrite elem_of_workers. simpl. rewrite Hd, Hc, Hz.
      split_and!; [lia|done|done].
    + exists (UdpWorker 0). rewrite elem_of_workers. simpl. rewrite Hd, Hc.
      split_and!; [lia|done|done].
Qed.

(** [~RtspService] joins its own loops first and ends the proxies then. *)
Lemma service_dangles n act :
  dangling n act (service_dtor (rtsp_loops n) act) ↔
  connections act ≠ 0%nat ∨ calls_back n act = true.
Proof.
  rewrite dangling_exposed. split.
  - intros He. destruct (decide (connections act = 0%nat)) as [Hc|Hc]; [|by left]. right.
    destruct (calls_back n act) eqn:Hcb; [done|]. exfalso. revert He.
    unfold service_dtor. rewrite Hc. cbn [replicate concat].
    intros (ts & He & Hts)%exposed_joins. rewrite quiet_safe in He; [done| |].
    + intros t m [Hin Hn]%Hts Hm. apply not_true_iff_false. intros Hu.
      assert (Hr : ∀ i, t ≠ RtspLoop i).
      { intros i ->. apply elem_of_workers in Hin. by destruct (Hn i). }
      assert (Hp : m = ProxyInfos).
      { revert Hm. rewrite !elem_of_app, !elem_of_cons, !elem_of_nil.
        destruct t; try (by destruct (Hr i)); destruct m; simpl in Hu; naive_solver. }
      subst m. by rewrite (uses_proxies n act t) in Hcb.
    + intros m. rewrite !elem_of_app, !elem_of_cons, !elem_of_nil. naive_solver.
  - unfold service_dtor. intros [Hc|(t & Ht & Hr & Hu)%calls_back_proxies].
    + destruct (connections act) as [|k]; [done|]. rewrite (app_assoc (joins _ _)).
      cbn [replicate concat app]. apply exposed_use. right. has_ended.
    + rewrite (app_assoc (joins _ _)).
      apply (exposed_at _ _ _ _ _ _ t ProxyInfos); [done| |has_ended|done]. not_joined.
Qed.

(** [~RtpProducer] joins the file loops first; the contexts end before the workers of
    the pool are joined, and the network server before the threads of the client. *)
Lemma uses_producer n act t m :
  t ∈ workers_of n → (∀ i, t ≠ FileLoop i) →
  m ∈ [NetworkServerPtr; GrpcClient; Stub; RtpContexts; FileContexts; FileIoThreadPool;
       FileIoBases] →
  uses n act t m = true → producer_busy n act = true.
Proof.
  intros Ht%elem_of_workers Hr Hm Hu. unfold producer_busy.
  rewrite !orb_true_iff, !andb_true_iff. rewrite orb_true_iff, !negb_true_iff, !Nat.eqb_neq.
  rewrite !elem_of_cons, elem_of_nil in Hm.
  destruct t as [i|i|i|i|i|i]; [|by destruct (Hr i)|..];
    (destruct_or! Hm; subst m; simpl in Hu; try done;
     rewrite ?andb_true_iff, ?negb_true_iff, ?Nat.eqb_neq in Hu; naive_solver lia).
Qed.

Lemma producer_dangles n act :
  dangling n act (producer_dtor (file_loops n) (file_workers n) (rpc_threads n)) ↔
  producer_busy n act = true.
Proof.
  rewrite dangling_exposed. unfold producer_dtor, client_dtor, pool_dtor. split.
  - intros (ts & He & Hts)%exposed_joins. destruct (producer_busy n act) eqn:Hb; [done|].
    rewrite quiet_safe in He; [done| |].
    + intros t m [Hin Hn]%Hts Hm. apply not_true_iff_false. intros Hu.
      rewrite (uses_producer n act t m) in Hb; [done|done| | |done].
      * intros i ->. apply elem_of_workers in Hin. by destruct (Hn i).
      * ends_of Hm.
    + intros m Hm. ends_of Hm.
  - intros Hb. set (ends := [End GrpcClient; End Stub; End RtpContexts; End FileContexts]).
    assert (Hctx : ∀ t, t ∈ workers_of n →
      (∀ i, t ≠ FileLoop i) → (∀ i, t ≠ RpcThread i) →
      uses n act t RtpContexts = true ∨ uses n act t FileContexts = true →
      exposed n act (joins FileLoop (file_loops n) ++ [End NetworkServerPtr] ++
        joins RpcThread (rpc_threads n) ++ ends ++ joins FileWorker (file_workers n) ++
        [End FileIoThreadPool; End FileIoBases]) (workers_of n) [] = true).
    { intros t Ht H1 H2 Hu. rewrite !app_assoc. rewrite <- (app_assoc _ (joins FileWorker _)).
      destruct Hu as [Hu|Hu]; (eapply exposed_at; [exact Ht| | |exact Hu]); subst ends;
        [not_joined|has_ended|not_joined|has_ended]. }
    unfold producer_busy in Hb. rewrite !orb_true_iff, !andb_true_iff in Hb.
    rewrite orb_true_iff, !negb_true_iff, !Nat.eqb_neq in Hb.
    destruct Hb as [[[[Hc Hn]|[Hf Hn]]|[Hf Hn]]|[[Hd Hc] Hn]].
    + apply (Hctx (RtspLoop 0)); [apply elem_of_workers; lia|done|done|]. left. simpl.
      by apply negb_true_iff, Nat.eqb_neq.
    + apply (Hctx (FileWorker 0)); [apply elem_of_workers; lia|done|done|by right].
    + rewrite app_assoc. apply (exposed_at _ _ _ _ _ _ (RpcThread 0) NetworkServerPtr);
        [apply elem_of_workers; lia| |has_ended|done]. not_joined.
    + destruct (decide (udp_workers n = 0%nat)) as [Hz|Hz].
      * apply (Hctx (UdpLoop 0)); [apply elem_of_workers; lia|done|done|]. left. simpl.
        by rewrite Hd, Hc, Hz.
      * apply (Hctx (UdpWorker 0)); [apply elem_of_workers; lia|done|done|]. left. simpl.
        by rewrite Hd, Hc.
Qed.

(** [~NetworkServer] ends the peers and the buffers before it joins anything. *)
Lemma network_dangles n act :
  dangling n act (network_dtor (udp_loops n) (udp_workers n)) ↔ network_busy n act = true.
Proof.
  rewrite dangling_exposed. unfold network_dtor, pool_dtor, udp_loops_dtor. split.
  - intros He. destruct (network_busy n act) eqn:Hb; [done|].
    rewrite quiet_safe in He; [done| |].
    + intros t m Ht%elem_of_workers Hm. apply not_true_iff_false. intros Hu.
      apply not_true_iff_false in Hb. apply Hb. unfold network_busy.
      rewrite orb_true_iff, !andb_true_iff, orb_true_iff, !negb_true_iff, !Nat.eqb_neq.
      assert (Hm' : m ∈ [RegisteredPeers; ReceiveBuffers; UdpWorkerThreads; UdpWorkers]).
      { ends_of Hm. }
      rewrite !elem_of_cons, elem_of_nil in Hm'.
      destruct t as [i|i|i|i|i|i]; destruct_or! Hm'; subst m; simpl in Hu; try done;
        rewrite ?andb_true_iff in Hu; naive_solver lia.
    + intros m Hm. ends_of Hm.
  - unfold network_busy.
    rewrite orb_true_iff, !andb_true_iff, orb_true_iff, !negb_true_iff, !Nat.eqb_neq.
    intros [[Hi Hn]|[Hd [Hn|Hn]]].
    + apply (exposed_at _ _ _ _ _ _ (RpcThread 0) RegisteredPeers);
        [apply elem_of_workers; lia|not_joined|has_ended|done].
    + apply (exposed_at _ _ _ _ _ _ (UdpLoop 0) ReceiveBuffers);
        [apply elem_of_workers; lia|not_joined|has_ended|done].
    + apply (exposed_at _ _ _ _ _ _ (UdpWorker 0) ReceiveBuffers);
        [apply elem_of_workers; lia|not_joined|has_ended|done].
Qed.

(** C39: when the destructors are safe. In some run of a destructor a thread that
    still runs, or the destructor itself, uses a member after the end of its
    lifetime, exactly in these cases. [~RtspService]: a connection is open, whose
    [Close] runs after the proxies have ended, or a thread of the producer or of the
    network server can call back to a proxy. [~RtpProducer]: a connection is served, a
    file is being probed, an invitation is not answered or a camera sends datagrams;
    files that stream are safe, since their loops are joined first. [~NetworkServer]:
    datagrams arrive or an invitation is not answered. *)
Theorem destructors_dangle_iff (n : threads) (act : activity) :
  (dangling n act (service_dtor (rtsp_loops n) act) ↔
     connections act ≠ 0%nat ∨ calls_back n act = true) ∧
  (dangling n act (producer_dtor (file_loops n) (file_workers n) (rpc_threads n)) ↔
     producer_busy n act = true) ∧
  (dangling n act (network_dtor (udp_loops n) (udp_workers n)) ↔
     network_busy n act = true).
Proof.
  split_and!; [apply service_dangles|apply producer_dangles|apply network_dangles].
Qed.

(** What would be safe: every thread is joined before the first member ends. *)
Lemma join_first_safe n act (ts : list worker) (ms : list member) :
  exposed n act (map Join ts ++ map End ms) ts [] = false.
Proof.
  assert (Hend : ∀ ms ended, exposed n act (map End ms) [] ended = false).
  { intros l. induction l as [|m l IH]; intros ended; simpl; [done|apply IH]. }
  assert (Hj : ∀ r l, (∀ t, t ∈ l → t ∈ r) →
    exposed n act (map Join r ++ map End ms) l [] = false).
  { intros r. induction r as [|t r IH]; intros l Hl; simpl.
    - destruct l as [|t l]; [apply Hend|].
      destruct (not_elem_of_nil t). apply Hl. apply elem_of_cons. by left.
    - apply orb_false_intro.
      + unfold exposed_now. apply not_true_is_false.
        intros (x & _ & H)%existsb_exists. done.
      + apply IH. intros x [Hx Hin]%list_elem_of_filter.
        apply Hl, elem_of_cons in Hin as [->|]; done. }
  by apply Hj.
Qed.
