(* ===== verification/System.v ===== *)
(** The program: core/ffvms.cpp starts the metrics, the UDP server, the producer
    and the RTSP service, and the service with this producer runs until the
    process ends. This file composes the components and states what holds, and
    what does not, of the whole. *)

From stdpp Require Import base gmap strings list.
From S2P Require Import Prelude VideoRequest ThreadPool NetworkServer Producer RtspService RtspSessions RtspRequests FileProducer RtpProducer Metrics.

#[local] Open Scope Z_scope.

(** * Starting the service *)

(** [RtspService::Config], and what libevent answers to [RtspService::Init]. *)
Record ServiceConfig : Type := mkServiceConfig {
  rtsp_port : Z;
  event_thread_num : Z;
}.

Record service_env : Type := mkServiceEnv {
  service_pthreads : Z;
  service_base : bool;
  service_listener : bool;
}.

(** The loop of [RtspService::Init] over the event threads. *)
Fixpoint start_listeners (e : service_env) (n loops : nat) : outcome nat :=
  match n with
  | O => Done loops
  | S n' =>
      _ ← require (service_base e) LogFatal;
      _ ← require (service_listener e) LogFatal;
      start_listeners e n' (S loops)
  end.

(** [RtspService::Init]: the service without connections, and the number of
    event loops. *)
Definition service_init (e : service_env) (hardware_concurrency : Z)
    (config : ServiceConfig) (p : RtpProducer)
  : outcome (RtspService RtpProducer * nat) :=
  _ ← require (service_pthreads e =? 0) LogFatal;
  let n := thread_number hardware_concurrency (event_thread_num config) in
  loops ← start_listeners e (Z.to_nat n) 0;
  Done (initial p, loops).

(** [Dispatch] sleeps for ever while there is an event loop thread; no code
    removes one. [None] is still sleeping after [fuel] seconds. *)
Fixpoint Dispatch (fuel loops : nat) : option unit :=
  match loops with
  | O => Some tt
  | S _ => match fuel with O => None | S fuel' => Dispatch fuel' loops end
  end.

(** * [main] *)

Record system_config : Type := mkSystemConfig {
  metrics_options : Options;
  network_config : NetworkConfig;
  producer_config : ProducerConfig;
  service_config : ServiceConfig;
}.

Record system_env : Type := mkSystemEnv {
  hw : Z;
  env_udp : udp_env;
  env_producer : init_env;
  env_service : service_env;
}.

Section main.
Context {F : Type} `{Family F}.

(** [config] is [None] when the file is missing. *)
Definition main_init (e : system_env) (config : option system_config)
  : outcome (option (MetricsManager F) * RtspService RtpProducer * nat) :=
  cfg ← of_option LogFatal config;
  let metrics := metrics_init (metrics_options cfg) None in
  net ← initUdpServer (env_udp e) (hw e) (network_config cfg) newNetworkServer;
  p ← Init (env_producer e) (hw e) (producer_config cfg) net
        (newRtpProducer (producer_config cfg) newNetworkServer);
  '(st, loops) ← service_init (env_service e) (hw e) (service_config cfg) p;
  Done (metrics, st, loops).
End main.

(** * The composed system *)

Section system.
Variable mem : indeterminate.
#[local] Abbreviation producer_inst := (rtp_producer mem).

(** Runs of the service with this producer: events of which each meets [R] where it
    happens, and the producer at work on its own. Destroying a connection's server
    calls the [close] handler. *)
Inductive sys_run (R : event → RtspService RtpProducer → gmap N cphase → Prop)
    (st0 : RtspService RtpProducer)
  : RtspService RtpProducer → gmap N cphase → Prop :=
| sys_start : sys_run R st0 st0 ∅
| sys_event st ph e st' evs :
    sys_run R st0 st ph → R e st ph →
    @exec _ producer_inst (@Close _ producer_inst) e st = Done (st', evs) →
    sys_run R st0 st' (next_phase e st ph)
| sys_producer st ph p' :
    sys_run R st0 st ph → producer_step (mpRtpProducer st) p' →
    sys_run R st0 (with_producer p' st) ph.
End system.

Lemma main_init_initial {F} `{Family F} e cfg m st loops :
  main_init (F := F) e cfg = Done (m, st, loops) →
  ∃ p, st = initial p ∧ rtp_ok p ∧ producer_bound p = ∅.
Proof.
  unfold main_init. destruct cfg as [cfg|]; orun; [|done].
  destruct (initUdpServer _ _ _ _) as [net|]; orun; [|done].
  destruct (Init _ _ _ _ _) as [p|] eqn:Ei; orun; [|done].
  unfold service_init. destruct (service_pthreads _ =? 0); orun; [|done].
  destruct (start_listeners _ _ _) as [n|]; orun; [|done]. intros [= <- <- <-].
  exists p. split; [done|].
  destruct (Init_ok _ _ _ _ _ _ (newRtpProducer_ok _ _) Ei) as [? ->]. done.
Qed.

Lemma sys_run_runs mem R p st ph :
  ind_iFmtCtx mem ≠ Wild ∧ ind_oFmtCtx mem ≠ Wild →
  (∀ e st ph, R e st ph → @follows _ (rtp_producer mem) e st ph) →
  rtp_ok p → producer_bound p = ∅ → sys_run mem R (initial p) st ph →
  @runs_to _ (rtp_producer mem) (@Close _ (rtp_producer mem)) R st ph.
Proof.
  intros Hmem HR Hok Hb Hrun. pose (I := rtp_producer mem).
  pose proof (rtp_producer_laws mem Hmem) as Hlaws.
  induction Hrun as [|st ph e st' evs _ IH Ha He|st ph p' _ IH Hp].
  - by apply runs_init.
  - by eapply runs_step.
  - pose proof (preach_wf _ (fun _ _ => eq_refl) _ _ (runs_mono _ _ _ _ _ HR IH)) as Hwf.
    destruct (producer_step_ok _ _ (wf_producer _ _ Hwf) Hp) as [Hok' Hsub].
    by apply runs_producer.
Qed.

(** C1: the composed program under clients that keep to the protocol. From a
    successful start of [main], with memory whose uninitialised FFmpeg pointers are
    not wild, in every state that clients which send OPTIONS, DESCRIBE and PLAY in
    this order and leave at any time reach together with the producer's own work,
    with files and cameras and whatever FFmpeg, librtp and the RPC server answer,
    each event is handled to its end, with two exceptions: a packet of the producer
    that has less than 2 or more than 1596 bytes is read or written out of bounds,
    and a callback for a proxy that was destroyed uses freed memory. The second
    never happens when no client left while the producer held the registration of a
    video whose SDP it waited for: then the proxy of every registration is alive. *)
Theorem system_sessions_safe `{Family F} (mem : indeterminate) (env : system_env)
    (cfg : option system_config) (m : option (MetricsManager F))
    (st0 st : RtspService RtpProducer) (loops : nat) (ph : gmap N cphase) (e : event)
    (Hmem : ind_iFmtCtx mem ≠ Wild ∧ ind_oFmtCtx mem ≠ Wild)
    (Hinit : main_init env cfg = Done (m, st0, loops))
    (Hrun : sys_run mem (@follows _ (rtp_producer mem)) st0 st ph)
    (Ha : @follows _ (rtp_producer mem) e st ph) :
  let run e st := @exec _ (rtp_producer mem) (@Close _ (rtp_producer mem)) e st in
  match e with
  | EPkt a data =>
      run e st = Fault UseAfterFree ∧ proxies st !! a = None ∨
      run e st = Fault OutOfBounds ∧ ¬ (2 ≤ length data ≤ 1596)%nat ∨
      ∃ st' evs, run e st = Done (st', evs)
  | ESdp a _ | EProducerError a =>
      run e st = Fault UseAfterFree ∧ proxies st !! a = None ∨
      ∃ st' evs, run e st = Done (st', evs)
  | _ => ∃ st' evs, run e st = Done (st', evs)
  end ∧
  (sys_run mem (@allowed _ (rtp_producer mem)) st0 st ph →
   ∀ a, @calls_back _ (rtp_producer mem) st a → is_Some (proxies st !! a)).
Proof.
  destruct (main_init_initial _ _ _ _ _ Hinit) as (p & -> & Hok & Hb).
  pose proof (rtp_producer_laws mem Hmem) as Hlaws.
  pose proof (sys_run_runs _ _ _ _ _ Hmem (fun _ _ _ H => H) Hok Hb Hrun) as Hp.
  pose proof (protocol_run_outcome _ (fun _ _ => eq_refl) _ _ _ Hp Ha) as Ho. split.
  - destruct e as [| | | | |a sdp|a data|a]; simpl fault_of in Ho; cbv beta zeta;
      try (destruct Ho as (st' & evs & -> & _); by eauto);
      destruct (proxies st !! a); [|by left| |by left| |by left];
      try (destruct Ho as (st' & evs & -> & _); by eauto).
    right. case_bool_decide; [|by left]. destruct Ho as (st' & evs & -> & _). by eauto.
  - intros Hd a. apply (patient_proxies_alive _ (fun _ _ => eq_refl) _ ph).
    apply (sys_run_runs _ _ _ _ _ Hmem (fun _ _ _ H => proj1 H) Hok Hb Hd).
Qed.

(** * A camera that refuses once *)

(** A stream context is the registration of its video. *)
Lemma context_bound p ctx cx :
  rtp_ok p → rtp_contexts p !! ctx = Some cx →
  producer_bound p !! cmpStr (rtp_video cx) = Some (rtp_proxy cx).
Proof.
  intros Hok Hc. destruct (ok_owned _ Hok _ _ Hc) as [v Hv].
  destruct (ok_rtp _ Hok _ _ _ Hv) as (_ & Hf & Hg & c & Hc' & Hcv).
  rewrite Hc in Hc'. injection Hc' as <-. rewrite Hcv.
  unfold producer_bound. rewrite lookup_union.
  rewrite (file_bound_gb _ _ Hok Hf Hg), rtp_bound_lookup, Hv. simpl. by rewrite Hc.
Qed.

(** C36: one refused invitation locks a camera out. In every state that the program
    reaches with clients that keep to the protocol: when the invitation of a camera
    fails, for whatever reason, while its only client waits for the SDP, the service
    closes the connection of that client; when the connection is gone, the proxy is
    too, but the stream stays registered, as the proxy never had an SDP. And in
    every state in which a camera is registered without a proxy, whoever connects
    and asks for it is cut off at its DESCRIBE, and afterwards the camera is still
    registered without a proxy. *)
Theorem refused_camera_locked_out `{Family F} (mem : indeterminate) (env : system_env)
    (cfg : option system_config) (m : option (MetricsManager F))
    (st0 st : RtspService RtpProducer) (loops : nat) (ph : gmap N cphase)
    (Hmem : ind_iFmtCtx mem ≠ Wild ∧ ind_oFmtCtx mem ≠ Wild)
    (Hinit : main_init env cfg = Done (m, st0, loops))
    (Hrun : sys_run mem (@follows _ (rtp_producer mem)) st0 st ph) :
  let run e st := @exec _ (rtp_producer mem) (@Close _ (rtp_producer mem)) e st in
  let locked_out v st := @locked _ (rtp_producer mem) v st in
  (∀ ctx cx e ok r p' b c w px,
     rtp_contexts (mpRtpProducer st) !! ctx = Some cx →
     on_invite e ctx ok r (mpRtpProducer st) = Done (p', [PError (rtp_proxy cx)]) →
     mBev2RtspServer st !! b = Some c →
     ph !! c = Some (Waiting (cmpStr (rtp_video cx))) →
     mVideoRequest2ProxyInfo st !! cmpStr (rtp_video cx) = Some (w, rtp_proxy cx) →
     proxies st !! rtp_proxy cx = Some px →
     registered px = false → sessions px ⊆ {[c]} →
     ∃ evs st', processErrorFunction (rtp_proxy cx) (with_producer p' st) = Done evs ∧
       CloseSocket b ∈ evs ∧
       run (EError b) (with_producer p' st) = Done (st', []) ∧
       locked_out (rtp_video cx) st') ∧
  (∀ v uri b c rtsp a,
     locked_out v st → parseUrl uri = Done v → mBev2RtspServer st !! b = None →
     servers st !! c = None → proxies st !! a = None →
     ∃ st1 st2 st3 st4,
       run (EAccept b c rtsp) st = Done (st1, []) ∧
       run (EOptions c uri a) st1 = Done (st2, [ReplyOptions rtsp 200]) ∧
       run (EDescribe c uri) st2 = Done (st3, [CloseSocket b]) ∧
       run (EError b) st3 = Done (st4, []) ∧ locked_out v st4).
Proof.
  cbv zeta. destruct (main_init_initial _ _ _ _ _ Hinit) as (p & -> & Hok & Hb).
  pose proof (rtp_producer_laws mem Hmem) as Hlaws.
  pose proof (sys_run_runs _ _ _ _ _ Hmem (fun _ _ _ H => H) Hok Hb Hrun) as Hp.
  destruct (preach_good _ (fun _ _ => eq_refl) _ _ Hp) as [Hwf Hl]. split; cycle 1.
  { intros v uri bb c rtsp a Hlk Hv Hbn Hcn Han.
    destruct (locked_refuses _ (fun _ _ => eq_refl) _ _ v uri bb c rtsp a Hp)
      as (st1 & st2 & st3 & st4 & ph4 & ? & ? & ? & ? & _ & ? & _); [done..|].
    by exists st1, st2, st3, st4. }
  intros ctx cx e ok r p' bb c w px Hcx Hinv Hbb Hc Hm Hpx Hreg Hses.
  destruct (on_invite_ok _ _ _ _ _ _ _ (wf_producer _ _ Hwf) Hinv) as [Hok' Hbnd].
  pose proof (wf_producer_step _ _ p' Hwf Hok') as Hwf'.
  destruct (Hl _ _ _ _ Hc eq_refl) as (w2 & a2 & px2 & Hm2 & Hp2 & Hin). simplify_eq.
  destruct (wf_bev _ _ Hwf _ _ Hbb) as (es & Hes & Hbev).
  eexists. destruct (errorcb_wf _ (fun _ _ => eq_refl) (with_producer p' st) ph bb c Hwf')
    as (st' & He & _ & _ & _ & _ & Hrel & _); [done|]. exists st'.
  split; [by apply (process_error_closes (with_producer p' st) ph _ _ _ _ Hwf' Hm Hpx)|].
  split.
  { unfold closes. apply list_elem_of_omap. exists c. cbn [servers with_producer].
    rewrite Hes. simpl. rewrite Hbev, !elem_of_app, !elem_of_set_iter. by auto. }
  split; [simpl; by rewrite He|].
  destruct (Hrel _ _ _ _ Hm Hpx) as (Hm' & _ & Hpr);
    [unfold members; set_solver|done|].
  rewrite Hreg in Hpr. split; [done|]. rewrite Hpr. simpl. rewrite Hbnd.
  exists (rtp_proxy cx). apply context_bound with ctx; [apply Hwf|done].
Qed.

(** * The system on an example *)

Definition demo_system_config : system_config :=
  mkSystemConfig (mkOptions 9090 "ffvms" EmptyString) (mkNetworkConfig 8086 1 2)
    demo_producer_config (mkServiceConfig 8554 1).
Definition demo_system_env : system_env :=
  mkSystemEnv 4 (mkUdpEnv 0 0 0 0 true) (mkInitEnv 0 true true 0)
    (mkServiceEnv 0 true true).

(** What happens to the system: an event of the service, or the answer to the
    invitation of a stream context. *)
Inductive sys_input : Type :=
| Event (e : event)
| Answer (ctx : N) (ok : bool) (r : InviteVideoResponse).

Section demo_system.
#[local] Instance demo_instance : VideoProducer RtpProducer := rtp_producer zero_memory.

(** Any inputs in sequence; the answer of an invitation also calls back the
    proxy. *)
Definition run_input (i : sys_input) (st : RtspService RtpProducer)
  : outcome (RtspService RtpProducer * list rtsp_event) :=
  match i with
  | Event e => exec Close e st
  | Answer ctx ok r =>
      '(p, evs) ← on_invite (mkRtpEnv true true) ctx ok r (mpRtpProducer st);
      let st := with_producer p st in
      match evs with
      | PSdp a sdp :: _ => processSdpFunction a sdp st
      | PError a :: _ => evs ← processErrorFunction a st; Done (st, evs)
      | _ => Done (st, [])
      end
  end.

Fixpoint run_inputs (xs : list sys_input) (st : RtspService RtpProducer)
  : outcome (RtspService RtpProducer * list rtsp_event) :=
  match xs with
  | [] => Done (st, [])
  | i :: xs' =>
      '(st, evs) ← run_input i st;
      '(st, evs') ← run_inputs xs' st;
      Done (st, evs ++ evs')
  end.

(** The state in which the client of the example has been given its SDP. *)
Definition demo_system_start : RtspService RtpProducer :=
  match main_init (F := gmap labels N) (H := TableFamily.table_family)
          demo_system_env (Some demo_system_config) with
  | Done (_, st, _) => st
  | Fault _ => initial demo_producer
  end.
Definition demo_system_metrics : option (MetricsManager (gmap labels N)) :=
  match main_init (F := gmap labels N) (H := TableFamily.table_family)
          demo_system_env (Some demo_system_config) with
  | Done (m, _, _) => m
  | Fault _ => None
  end.
Definition demo_answer : InviteVideoResponse :=
  mkInviteVideoResponse "id7" (Some (mkGBInviteVideoResponse "10.0.0.9:30000" 90000 96 "PS")).
Definition demo_system_waiting : RtspService RtpProducer :=
  match run_inputs [Event (EAccept 1 7 70); Event (EOptions 7 demo_uri 3);
                    Event (EDescribe 7 demo_uri)] demo_system_start with
  | Done (st, _) => st
  | Fault _ => demo_system_start
  end.

Lemma demo_system_waiting_run :
  sys_run zero_memory follows demo_system_start demo_system_waiting
    {[7%N := Waiting (cmpStr demo_video)]}.
Proof.
  assert (Hph : ({[7%N := Waiting (cmpStr demo_video)]} : gmap N cphase)
    = next_phase (EDescribe 7 demo_uri)
        (match run_inputs [Event (EAccept 1 7 70); Event (EOptions 7 demo_uri 3)]
                 demo_system_start with
         | Done (st, _) => st | Fault _ => demo_system_start end)
        (<[7%N := Optioned (cmpStr demo_video)]> (<[7%N := Fresh]> ∅)))
    by (vm_compute; reflexivity).
  rewrite Hph. eapply sys_event; [eapply (sys_event _ _ _ _ _ (EOptions 7 demo_uri 3))|..].
  - eapply (sys_event _ _ _ _ _ (EAccept 1 7 70)); [apply sys_start|..].
    + apply followsb_sound. vm_compute. reflexivity.
    + vm_compute. reflexivity.
  - apply followsb_sound. vm_compute. reflexivity.
  - vm_compute. reflexivity.
  - apply followsb_sound. vm_compute. reflexivity.
  - vm_compute. reflexivity.
Qed.
End demo_system.

Lemma demo_system_inits :
  main_init (F := gmap labels N) (H := TableFamily.table_family) demo_system_env
    (Some demo_system_config) = Done (demo_system_metrics, demo_system_start, 1%nat).
Proof.
  vm_cast_no_check (eq_refl (main_init (F := gmap labels N)
    (H := TableFamily.table_family) demo_system_env (Some demo_system_config))).
Qed.

Lemma system_sessions_safe_witness :
  @exec _ (rtp_producer zero_memory) (@Close _ (rtp_producer zero_memory))
      (ESdp 3 "v=0") demo_system_waiting = Fault UseAfterFree ∧
  proxies demo_system_waiting !! 3%N = None ∨
  ∃ st' evs,
    @exec _ (rtp_producer zero_memory) (@Close _ (rtp_producer zero_memory))
      (ESdp 3 "v=0") demo_system_waiting = Done (st', evs).
Proof.
  refine (proj1 (@system_sessions_safe _ TableFamily.table_family zero_memory
           demo_system_env (Some demo_system_config) demo_system_metrics
           demo_system_start demo_system_waiting 1
           {[7%N := Waiting (cmpStr demo_video)]} (ESdp 3 "v=0") _ demo_system_inits
           demo_system_waiting_run _)).
  - done.
  - apply followsb_sound. vm_compute. reflexivity.
Defined.

(** What the first client of the example waits for. *)
Definition demo_camera_context : RtpVideoContext :=
  mkRtpVideoContext demo_video 3 EmptyString false false None None.

Lemma refused_camera_locked_out_witness :
  ∃ evs st',
    processErrorFunction 3
      (with_producer (mpRtpProducer demo_system_waiting) demo_system_waiting) = Done evs ∧
    CloseSocket 1 ∈ evs ∧
    @exec _ (rtp_producer zero_memory) (@Close _ (rtp_producer zero_memory)) (EError 1)
      (with_producer (mpRtpProducer demo_system_waiting) demo_system_waiting)
    = Done (st', []) ∧
    @locked _ (rtp_producer zero_memory) demo_video st'.
Proof.
  refine (proj1 (@refused_camera_locked_out _ TableFamily.table_family zero_memory
           demo_system_env (Some demo_system_config) demo_system_metrics
           demo_system_start demo_system_waiting 1
           {[7%N := Waiting (cmpStr demo_video)]} _ demo_system_inits
           demo_system_waiting_run) 0%N demo_camera_context (mkRtpEnv true true) false
           (mkInviteVideoResponse EmptyString None)
           (mpRtpProducer demo_system_waiting) 1%N 7%N demo_video
           (mkProxyInfo ∅ {[7%N]} ∅ ∅ false EmptyString new_sendBuffer) _ _ _ _ _ _ _ _);
    try (vm_compute; reflexivity).
  - done.
  - unfold sessions. simpl. set_solver.
Defined.

(** * Startup *)

Lemma start_listeners_ok e n loops :
  service_base e = true → service_listener e = true →
  start_listeners e n loops = Done (n + loops)%nat.
Proof.
  intros Hb Hl. revert loops. induction n as [|n IH]; intros loops; simpl; [done|].
  rewrite Hb, Hl. orun. rewrite IH. f_equal. lia.
Qed.

Lemma start_file_loops_ok e n bases :
  base_created e = true → keepalive_created e = true → 0 ≤ keepalive_added e →
  start_file_loops e n bases = Done (n + bases)%nat.
Proof.
  intros Hb Hk Ha. revert bases. induction n as [|n IH]; intros bases; simpl; [done|].
  unfold start_file_loop. rewrite Hb, Hk, (proj2 (Z.leb_le _ _)) by done. simpl.
  orun. rewrite IH. f_equal. lia.
Qed.

Lemma Dispatch_loops fuel loops :
  Dispatch fuel loops = if decide (loops = 0%nat) then Some tt else None.
Proof. destruct loops; [by destruct fuel|]. induction fuel; simpl in *; done. Qed.

(** The system calls of the start succeed. *)
Record env_works (e : system_env) : Prop := mkEnvWorks {
  works_udp : UdpEventLoop_Init (env_udp e) = Done tt;
  works_producer : use_pthreads (env_producer e) = 0 ∧
    base_created (env_producer e) = true ∧ keepalive_created (env_producer e) = true ∧
    0 ≤ keepalive_added (env_producer e);
  works_service : service_pthreads (env_service e) = 0 ∧
    service_base (env_service e) = true ∧ service_listener (env_service e) = true;
}.

(** The components come up one after the other. *)
Lemma startup_lemma `{Family F} (e : system_env) (cfg : system_config) :
  env_works e →
  1 ≤ thread_number (hw e) (event_loop_num (network_config cfg)) ≤ 102 →
  0 ≤ thread_number (hw e) (file_event_thread_num (producer_config cfg)) →
  ∃ m p,
    let loops := Z.to_nat (thread_number (hw e) (event_thread_num (service_config cfg))) in
    let files := Z.to_nat (thread_number (hw e)
                             (file_event_thread_num (producer_config cfg))) in
    main_init (F := F) e (Some cfg) = Done (Some m, initial p, loops) ∧
    mFileIoBases p = files ∧ mpFileIoThreadPool p = newPool files ∧
    ∀ fuel, Dispatch fuel loops = if decide (loops = 0%nat) then Some tt else None.
Proof.
  intros He Hudp Hfile. destruct He as [Hu (Hp1 & Hp2 & Hp3 & Hp4) (Hs1 & Hs2 & Hs3)].
  unfold main_init. orun. unfold initUdpServer. rewrite start_loops_ok by done. orun.
  rewrite init_buffers_ok by lia. orun. unfold Init. rewrite Hp1. orun. simpl.
  change (if file_event_thread_num (producer_config cfg) =? -1 then hw e
          else file_event_thread_num (producer_config cfg))
    with (thread_number (hw e) (file_event_thread_num (producer_config cfg))).
  rewrite start_file_loops_ok by done. orun.
  rewrite (proj2 (Z.leb_le _ _)) by done. orun. unfold service_init. rewrite Hs1. orun.
  simpl. rewrite start_listeners_ok by done. orun. rewrite !Nat.add_0_r.
  eexists _, _. split_and!; [done|done|done|]. intros fuel. apply Dispatch_loops.
Qed.

(** How the program starts. Without its configuration file it dies at once.
    When the system calls succeed, there are 1 to 102 UDP event loops and no
    negative number of file threads, [main] brings everything up: the metrics
    exist, the service has no connection, the producer has one event base and
    one worker per file thread. Then [Dispatch] never returns if the service has
    an event loop; configured with none, or with -1 on a machine that does not
    know its concurrency, the program ends at once without an error. *)
Theorem startup_outcome `{Family F} (e : system_env) (cfg : system_config)
    (He : env_works e)
    (Hudp : 1 ≤ thread_number (hw e) (event_loop_num (network_config cfg)) ≤ 102)
    (Hfile : 0 ≤ thread_number (hw e) (file_event_thread_num (producer_config cfg))) :
  main_init (F := F) e None = Fault LogFatal ∧
  ∃ m p,
    let loops := Z.to_nat (thread_number (hw e) (event_thread_num (service_config cfg))) in
    let files := Z.to_nat (thread_number (hw e)
                             (file_event_thread_num (producer_config cfg))) in
    main_init (F := F) e (Some cfg) = Done (Some m, initial p, loops) ∧
    mFileIoBases p = files ∧ mpFileIoThreadPool p = newPool files ∧
    ∀ fuel, Dispatch fuel loops = if decide (loops = 0%nat) then Some tt else None.
Proof.
  split; [done|]. by apply startup_lemma.
Qed.

Lemma startup_outcome_witness :
  main_init (F := gmap labels N) (H := TableFamily.table_family) demo_system_env None
  = Fault LogFatal ∧
  ∃ m p, main_init (F := gmap labels N) (H := TableFamily.table_family) demo_system_env
           (Some demo_system_config) = Done (Some m, initial p, 1%nat) ∧
    mFileIoBases p = 2%nat ∧ mpFileIoThreadPool p = newPool 2 ∧
    ∀ fuel, Dispatch fuel 1 = if decide (1 = 0)%nat then Some tt else None.
Proof.
  apply (@startup_outcome _ TableFamily.table_family demo_system_env demo_system_config).
  - by split.
  - vm_compute. split; congruence.
  - vm_compute. congruence.
Defined.
