(* ===== verification/Relay.v ===== *)
(** From the camera to the client: the path of a datagram through the read callback
    of core/src/network_server.cpp, the peer callback, [RtpOnPacket] and the payload
    callbacks of core/src/rtp_producer.cpp and the packet callback of
    core/src/rtsp_service.cpp; and the path of a frame of a file from its timer. The
    components are those of the other files, composed the way the callbacks call
    each other. librtp is a parameter: its demuxer makes frames of a datagram, its
    encoder makes packets of a frame. *)

From stdpp Require Import base gmap strings list numbers.
From S2P Require Import Prelude VideoRequest ThreadPool NetworkServer Producer RtspService RtspSessions FileProducer RtpProducer Streams System.

#[local] Open Scope Z_scope.

Abbreviation service := (RtspService RtpProducer).

(** * The callbacks of the service, called by the producer *)

Definition call_back (e : prod_event) (st : service)
  : outcome (service * list rtsp_event) :=
  match e with
  | PSdp a sdp => processSdpFunction a sdp st
  | PError a => evs ← processErrorFunction a st; Done (st, evs)
  | PPacket a data => consumePktFunction a data st
  | PCall _ _ _ | PDemux _ _ => Done (st, [])
  end.

Fixpoint call_backs (evs : list prod_event) (st : service)
  : outcome (service * list rtsp_event) :=
  match evs with
  | [] => Done (st, [])
  | e :: evs' =>
      '(st, out) ← call_back e st;
      '(st, out') ← call_backs evs' st;
      Done (st, out ++ out')
  end.

(** * Cameras *)

Section camera.
(** The state of librtp; what [rtp_demuxer_input] of a context calls [RtpOnPacket]
    with, and the packets [rtp_payload_encode_input] of a context makes. *)
Context {L : Type}.
Variable rtp_demuxer_input : N → list Z → L → list (list Z) * L.
Variable rtp_payload_encode_input : N → list Z → L → list (list Z) * L.
Variable std_hash : string → Z.

(** [RtpOnPacket] for one frame after the other. *)
Fixpoint relay_frames (ctx : N) (c : RtpVideoContext) (fs : list (list Z)) (l : L)
    (st : service) : outcome (service * L * list rtsp_event) :=
  match fs with
  | [] => Done (st, l, [])
  | f :: fs' =>
      input ← RtpOnPacket c f;
      let '(pkts, l) := rtp_payload_encode_input ctx input l in
      evs ← send_packets c pkts;
      '(st, out) ← call_backs evs st;
      '(st, l, out') ← relay_frames ctx c fs' l st;
      Done (st, l, out ++ out')
  end.

(** What the function of a peer does with its data. *)
Definition relay_demux (e : prod_event) (l : L) (st : service)
  : outcome (service * L * list rtsp_event) :=
  match e with
  | PDemux ctx data =>
      c ← of_option UseAfterFree (rtp_contexts (mpRtpProducer st) !! ctx);
      let '(fs, l) := rtp_demuxer_input ctx data l in
      relay_frames ctx c fs l st
  | _ => Done (st, l, [])
  end.

Definition relay_data (ctx : N) (data : list Z) (l : L) (st : service)
  : outcome (service * L * list rtsp_event) :=
  match on_peer_data ctx data (mpRtpProducer st) with
  | e :: _ => relay_demux e l st
  | [] => Done (st, l, [])
  end.

(** What the UDP server does with the datagrams of one callback. *)
Fixpoint relay_events (evs : list (net_event N)) (l : L) (st : service)
  : outcome (service * L * list rtsp_event) :=
  match evs with
  | [] => Done (st, l, [])
  | Increment _ _ :: evs' => relay_events evs' l st
  | Process ctx data :: evs' =>
      '(st, l, out) ← relay_data ctx data l st;
      '(st, l, out') ← relay_events evs' l st;
      Done (st, l, out ++ out')
  end.

Definition with_net (s : NetworkServer N) (st : service) : service :=
  with_producer (with_network s (mpRtpProducer st)) st.

(** The socket becomes readable: the datagrams it leaves, and what the clients are
    sent. *)
Definition udp_readable (which : Z) (sock : list (sockaddr_in * list Z)) (l : L)
    (st : service)
  : outcome (service * L * list (sockaddr_in * list Z) * list rtsp_event) :=
  '(s, rest, evs) ← on_readable std_hash which sock (mpNetworkServer (mpRtpProducer st));
  '(st, l, out) ← relay_events evs l (with_net s st);
  Done (st, l, rest, out).

(** A worker of the UDP server runs a task. *)
Definition udp_worker (t : task) (l : L) (st : service)
  : outcome (service * L * list rtsp_event) :=
  relay_events (run_task t (mpNetworkServer (mpRtpProducer st))) l st.

(** ** Reference: the packets alone *)

(** The packets librtp makes of the frames, without any buffer. *)
Fixpoint encoded (ctx : N) (c : RtpVideoContext) (fs : list (list Z)) (l : L)
  : list (list Z) * L :=
  match fs with
  | [] => ([], l)
  | f :: fs' =>
      let input := match payloadBuf c with Some _ => [0; 0; 1] ++ f | None => f end in
      let '(pkts, l) := rtp_payload_encode_input ctx input l in
      let '(pkts', l) := encoded ctx c fs' l in
      (pkts ++ pkts', l)
  end.

(** The bytes of a frame with its start code fit into the buffer of its context,
    and a packet is long enough to have a type and short enough for the send buffer
    of the service. *)
Definition frame_fits (c : RtpVideoContext) (f : list Z) : bool :=
  match payloadBuf c with
  | Some size => Z.of_nat (length f) + 3 <=? size
  | None => true
  end.
Definition packet_fits (d : list Z) : bool := bool_decide (2 ≤ length d ≤ 1596)%nat.

(** Everything that librtp makes of the frames fits. *)
Fixpoint frames_fit (ctx : N) (c : RtpVideoContext) (fs : list (list Z)) (l : L) : bool :=
  match fs with
  | [] => true
  | f :: fs' =>
      let input := match payloadBuf c with Some _ => [0; 0; 1] ++ f | None => f end in
      let '(pkts, l) := rtp_payload_encode_input ctx input l in
      frame_fits c f && forallb packet_fits pkts && frames_fit ctx c fs' l
  end.

(** The packets of the datagrams passed on, each with the proxy it is for. *)
Fixpoint relayed (cs : gmap N RtpVideoContext) (evs : list (net_event N)) (l : L)
  : list (N * list Z) * L :=
  match evs with
  | [] => ([], l)
  | Increment _ _ :: evs' => relayed cs evs' l
  | Process ctx data :: evs' =>
      match cs !! ctx with
      | None => relayed cs evs' l
      | Some c =>
          let '(fs, l) := rtp_demuxer_input ctx data l in
          let '(pkts, l) := encoded ctx c fs l in
          let '(pkts', l) := relayed cs evs' l in
          (map (pair (rtp_proxy c)) pkts ++ pkts', l)
      end
  end.

(** Everything that librtp makes of the datagrams fits. *)
Fixpoint relay_fits (cs : gmap N RtpVideoContext) (evs : list (net_event N)) (l : L)
  : bool :=
  match evs with
  | [] => true
  | Increment _ _ :: evs' => relay_fits cs evs' l
  | Process ctx data :: evs' =>
      match cs !! ctx with
      | None => relay_fits cs evs' l
      | Some c =>
          let '(fs, l) := rtp_demuxer_input ctx data l in
          frames_fit ctx c fs l && relay_fits cs evs' (encoded ctx c fs l).2
      end
  end.
End camera.

(** * Files *)

Section file.
Context {S : Type}.
Variable av_read_frame : S → Z * AVPacket * S.
Variable avio_seek : S → Z * S.
Variable avformat_seek_file : nat → Z → S → Z * S.
Variable set_cur_dts : Z → S → S.
Variable av_packet_rescale_ts : AVPacket → Z * Z → Z * Z → AVPacket.
Variable av_interleaved_write_frame : AVPacket → S → Z * list (list Z) * S.

(** The frame timer of the video fires, and its packets and errors go to the
    service. [None] is out of fuel. *)
Definition file_tick (fuel : nat) (v : VideoRequest) (s : S) (st : service)
  : option (outcome (service * S * list rtsp_event)) :=
  match vfind v (mFileVideoContextMap (mpRtpProducer st)) with
  | None => Some (Done (st, s, []))
  | Some c =>
      match FFGetFrame av_read_frame avio_seek avformat_seek_file set_cur_dts
              av_packet_rescale_ts av_interleaved_write_frame fuel c s with
      | None => None
      | Some (Fault f) => Some (Fault f)
      | Some (Done (c', s', evs)) =>
          Some ('(st, out) ← call_backs (file_events evs)
                  (with_producer (put_file v c' (mpRtpProducer st)) st);
                Done (st, s', out))
      end
  end.
End file.

(** The packets a timer call hands to the service. *)
Definition consumed (evs : list file_event) : list (N * list Z) :=
  omap (fun e => match e with Consumed a d => Some (a, d) | _ => None end) evs.

(** The packets for the proxy at [a]. *)
Definition packets_for (a : N) (pkts : list (N * list Z)) : list (list Z) :=
  omap (fun e => if bool_decide (e.1 = a) then Some e.2 else None) pkts.

(** The bytes written to the connection with handle [h]. *)
Definition sent (h : N) (evs : list rtsp_event) : list (list Z) :=
  omap (fun e => match e with
                 | SendInterleaved h' bs => if bool_decide (h' = h) then Some bs else None
                 | _ => None
                 end) evs.

(** No other connection has the handle of this one. *)
Definition own_handle (st : service) (c : N) (es : EventRtspServer) : Prop :=
  servers st !! c = Some es ∧
  ∀ c' es', servers st !! c' = Some es' → server es' = server es → c' = c.

(** * Lemmas *)

Lemma sent_app h evs evs' : sent h (evs ++ evs') = sent h evs ++ sent h evs'.
Proof. apply omap_app. Qed.

Lemma packets_for_app a l l' : packets_for a (l ++ l') = packets_for a l ++ packets_for a l'.
Proof. apply omap_app. Qed.

Lemma call_backs_app evs evs' st :
  call_backs (evs ++ evs') st
  = '(st, out) ← call_backs evs st;
    '(st, out') ← call_backs evs' st; Done (st, out ++ out').
Proof.
  revert st. induction evs as [|e evs IH]; intros st; simpl.
  - destruct (call_backs evs' st) as [[? ?]|]; done.
  - destruct (call_back e st) as [[st1 o1]|]; orun; [|done]. rewrite IH.
    destruct (call_backs evs st1) as [[st2 o2]|]; orun; [|done].
    destruct (call_backs evs' st2) as [[st3 o3]|]; orun; [|done]. by rewrite app_assoc.
Qed.

(** A range-for over clients reaches the connection of [c] once if [c] is one of
    them. *)
Lemma sent_clients st c es bs cs :
  own_handle st c es → NoDup cs →
  sent (server es)
    (omap (fun c' => (fun es => SendInterleaved (server es) bs) <$> servers st !! c') cs)
  = if bool_decide (c ∈ cs) then [bs] else [].
Proof.
  intros [Hc Hown]. induction 1 as [|c' cs Hni _ IH]; [done|].
  assert (Hcons : bool_decide (c ∈ c' :: cs) = bool_decide (c = c') || bool_decide (c ∈ cs)).
  { repeat case_bool_decide; set_solver. }
  rewrite Hcons. simpl. destruct (servers st !! c') as [es'|] eqn:E; simpl.
  - destruct (decide (c = c')) as [->|Hne].
    + simplify_eq. rewrite !bool_decide_eq_true_2 by done. simpl. f_equal.
      etrans; [exact IH|]. by rewrite bool_decide_eq_false_2.
    + rewrite (bool_decide_eq_false_2 (c = c')) by done. simpl.
      rewrite bool_decide_eq_false_2; [exact IH|]. intros Hs. apply Hne. symmetry. eauto.
  - rewrite (bool_decide_eq_false_2 (c = c')) by congruence. exact IH.
Qed.

(** The producer's packets, as its callbacks. *)
#[local] Abbreviation as_packets pkts := (map (fun e => PPacket e.1 e.2) pkts).

Lemma packets_frame pkts st st' out :
  call_backs (as_packets pkts) st = Done (st', out) →
  servers st' = servers st ∧ mpRtpProducer st' = mpRtpProducer st.
Proof.
  revert st out. induction pkts as [|[a d] pkts IH]; intros st out; simpl.
  { by intros [= <- <-]. }
  destruct (consumePktFunction a d st) as [[st1 o1]|] eqn:E; orun; [|done].
  apply consumePkt_frame in E as [E1 E2].
  destruct (call_backs _ st1) as [[st2 o2]|] eqn:E'; orun; [|done]. intros [= <- <-].
  apply IH in E' as [-> ->]. done.
Qed.

Section delivery.
Variable mem : indeterminate.
Hypothesis Hmem : ind_iFmtCtx mem ≠ Wild ∧ ind_oFmtCtx mem ≠ Wild.
#[local] Instance inst : VideoProducer RtpProducer := rtp_producer mem.
#[local] Instance laws : VideoProducerLaws RtpProducer := rtp_producer_laws mem Hmem.
#[local] Abbreviation reach := (dreach (@Close _ inst)).

(** A proxy has one key. *)
Lemma bound_inj st ph k k' a :
  reach st ph → bound (mpRtpProducer st) !! k = Some a →
  bound (mpRtpProducer st) !! k' = Some a → k = k'.
Proof.
  intros Hr Hb Hb'. pose proof (dreach_wf _ (fun _ _ => eq_refl) _ _ Hr) as Hwf.
  pose proof (dreach_anchored _ (fun _ _ => eq_refl) _ _ Hr) as Han.
  destruct (bound_anchored _ _ _ Han Hb) as (v & px & Hm & _).
  destruct (bound_anchored _ _ _ Han Hb') as (v' & px' & Hm' & _).
  by eapply (wf_inj _ _ Hwf).
Qed.

(** What the packets of the producer do to a client: [mine] are those of its video
    when it plays. *)
Definition client_gets (st : service) (ph : gmap N cphase) (pkts : list (N * list Z))
    (out : list rtsp_event) : Prop :=
  ∀ c es, own_handle st c es →
    (∀ k a, ph !! c = Some (Playing k) → bound (mpRtpProducer st) !! k = Some a →
       sent (server es) out
       = map (fun d => frame_bytes d (nth 1 d 0)) (packets_for a pkts)) ∧
    ((∀ k, ph !! c ≠ Some (Playing k)) → sent (server es) out = []).

(** Packets of registered proxies that fit in the send buffer are delivered. *)
Lemma packets_delivered st ph pkts :
  reach st ph →
  Forall (fun e => (∃ k, bound (mpRtpProducer st) !! k = Some e.1) ∧
                   (2 ≤ length e.2 ≤ 1596)%nat) pkts →
  ∃ st' out, call_backs (as_packets pkts) st = Done (st', out) ∧
    reach st' ph ∧ servers st' = servers st ∧ mpRtpProducer st' = mpRtpProducer st ∧
    client_gets st ph pkts out.
Proof.
  intros Hr Hall. revert st Hr Hall. induction pkts as [|[a d] pkts IH]; intros st Hr Hall.
  { exists st, []. by split_and!. }
  apply list.Forall_cons in Hall as [[[k Hk] Hd] Hall]. cbn [fst snd] in Hk, Hd.
  destruct (pkt_delivered _ (fun _ _ => eq_refl) _ _ _ _ _ Hr Hk Hd)
    as (st1 & cs & b1 & Hb1 & He & Hnd & Hcs & _).
  pose proof (consumePkt_frame _ _ _ _ _ He) as [Es Ep].
  assert (Hr1 : reach st1 ph).
  { change ph with (next_phase (EPkt a d) st ph). eapply dreach_step; [done|..|exact He].
    split; [by exists k|done]. }
  destruct (IH st1 Hr1) as (st2 & out & E2 & Hr2 & Es2 & Ep2 & Hg).
  { by rewrite Ep. }
  simpl in He |- *. rewrite He. orun. rewrite E2. orun. eexists _, _.
  split; [done|]. split; [done|]. split; [congruence|]. split; [congruence|].
  intros c es Hown. assert (Hown1 : own_handle st1 c es) by (unfold own_handle; by rewrite Es).
  rewrite sent_app, (sent_clients st c es) by done. destruct (Hg c es Hown1) as [Hg1 Hg2].
  rewrite <- (nth_lookup_Some d 1 0 b1 Hb1). split.
  - intros k' a' Hpl Hb'. rewrite (Hg1 k' a') by (rewrite ?Ep; done). simpl.
    destruct (decide (a = a')) as [->|Hne].
    + assert (k' = k) as -> by (by apply (bound_inj st ph k' k a')).
      by rewrite !bool_decide_eq_true_2 by (done || by apply Hcs).
    + rewrite (bool_decide_eq_false_2 (a = a')) by done.
      rewrite bool_decide_eq_false_2; [done|]. rewrite Hcs, Hpl. congruence.
  - intros Hnp. rewrite Hg2 by done. rewrite bool_decide_eq_false_2; [done|].
    rewrite Hcs. apply Hnp.
Qed.

(** A packet that does not fit is read or written out of bounds. *)
Lemma packets_overrun st ph pkts :
  reach st ph →
  Forall (fun e => ∃ k, bound (mpRtpProducer st) !! k = Some e.1) pkts →
  ¬ Forall (fun e => (2 ≤ length e.2 ≤ 1596)%nat) pkts →
  call_backs (as_packets pkts) st = Fault OutOfBounds.
Proof.
  intros Hr Hb. revert st Hr Hb. induction pkts as [|[a d] pkts IH]; intros st Hr Hb Hn.
  { by destruct Hn. }
  apply list.Forall_cons in Hb as [[k Hk] Hb]. cbn [fst] in Hk. simpl.
  destruct (decide (2 ≤ length d ≤ 1596)%nat) as [Hd|Hd].
  - destruct (packets_delivered st ph [(a, d)] Hr) as (st1 & out & E & Hr1 & _ & Ep & _).
    { constructor; [by eauto|constructor]. }
    simpl in E. destruct (consumePktFunction a d st) as [[st2 o2]|]; orun; [|done].
    injection E as -> <-. rewrite IH; [done|done|by rewrite Ep|].
    intros Hall. apply Hn. by constructor.
  - pose proof (dreach_wf _ (fun _ _ => eq_refl) _ _ Hr) as Hwf.
    pose proof (dreach_anchored _ (fun _ _ => eq_refl) _ _ Hr) as Han.
    destruct (bound_anchored _ _ _ Han Hk) as (v & px & _ & Hp).
    pose proof (exec_faults (@Close _ inst) st ph (EPkt a d) OutOfBounds Hwf) as He.
    simpl in He. rewrite Hp, bool_decide_eq_false_2 in He by done. by rewrite He.
Qed.

(** Packets one after the other. *)
Lemma client_gets_app st st1 ph pkts1 pkts2 out1 out2 :
  servers st1 = servers st → mpRtpProducer st1 = mpRtpProducer st →
  client_gets st ph pkts1 out1 → client_gets st1 ph pkts2 out2 →
  client_gets st ph (pkts1 ++ pkts2) (out1 ++ out2).
Proof.
  intros Es Ep H1 H2 c es Hown. destruct (H1 c es Hown) as [A1 B1].
  assert (Hown' : own_handle st1 c es) by (unfold own_handle; by rewrite Es).
  destruct (H2 c es Hown') as [A2 B2]. rewrite sent_app. split.
  - intros k a Hk Hb. rewrite packets_for_app, map_app, (A1 k a Hk Hb), (A2 k a Hk); [done|]. by rewrite Ep.
  - intros Hk. by rewrite (B1 Hk), (B2 Hk).
Qed.

(** Clients that play get the packets of their video; what they read from their
    connection is these packets. *)
Definition client_reads (st : service) (ph : gmap N cphase) (pkts : list (N * list Z))
    (out : list rtsp_event) : Prop :=
  ∀ c es, own_handle st c es →
    (∀ k a, ph !! c = Some (Playing k) → bound (mpRtpProducer st) !! k = Some a →
       parse_stream (length (packets_for a pkts)) (concat (sent (server es) out))
       = Some (map (fun d => (if bool_decide (72 ≤ nth 1 d 0 mod 128 ≤ 76)
                              then 1 else 0, d)) (packets_for a pkts))) ∧
    ((∀ k, ph !! c ≠ Some (Playing k)) → sent (server es) out = []).

Lemma client_gets_reads st ph pkts out :
  Forall (fun e => (2 ≤ length e.2 ≤ 1596)%nat) pkts →
  client_gets st ph pkts out → client_reads st ph pkts out.
Proof.
  intros Hs Hg c es Hown. destruct (Hg c es Hown) as [H1 H2]. split; [|done].
  intros k a Hp Hb. rewrite (H1 k a Hp Hb). apply parse_frames.
  clear -Hs. induction Hs as [|[a' d] pkts Hd _ IH]; [constructor|].
  unfold packets_for. simpl in *. case_bool_decide; [|exact IH].
  constructor; [lia|exact IH].
Qed.


(** ** Cameras *)

Section librtp.
Context {L : Type}.
Variable rtp_demuxer_input : N → list Z → L → list (list Z) * L.
Variable rtp_payload_encode_input : N → list Z → L → list (list Z) * L.
Variable std_hash : string → Z.
#[local] Abbreviation relay_frames := (relay_frames rtp_payload_encode_input).
#[local] Abbreviation relay_events :=
  (relay_events rtp_demuxer_input rtp_payload_encode_input).
#[local] Abbreviation encoded := (encoded rtp_payload_encode_input).
#[local] Abbreviation relayed := (relayed rtp_demuxer_input rtp_payload_encode_input).

#[local] Abbreviation frames_fit := (frames_fit rtp_payload_encode_input).
#[local] Abbreviation relay_fits := (relay_fits rtp_demuxer_input rtp_payload_encode_input).

(** The ways of data that does not fit: [payloadBuf] or [sendBuffer] is overrun, or
    [RtpPayloadFunc.alloc] ends the program. *)
Definition overrun (f : fault) : Prop := f = OutOfBounds ∨ f = LogFatal.

Lemma packets_fit_sizes pkts :
  forallb packet_fits pkts = true ↔ Forall (fun d => (2 ≤ length d ≤ 1596)%nat) pkts.
Proof.
  rewrite forallb_forall, Forall_forall. unfold packet_fits.
  setoid_rewrite bool_decide_eq_true. by setoid_rewrite <- list_elem_of_In.
Qed.

(** The packets of one frame: either all pass, or one of them is too long for the
    packet buffer, or the service gets them. *)
Lemma send_packets_cases c pkts :
  send_packets c pkts = Done (map (PPacket (rtp_proxy c)) pkts) ∨
  send_packets c pkts = Fault LogFatal ∧ forallb packet_fits pkts = false.
Proof.
  induction pkts as [|d pkts IH]; simpl; [by left|]. unfold payload_alloc.
  destruct (Z.ltb_spec 1600 (Z.of_nat (length d))) as [Hl|Hl]; orun.
  { right. split; [done|]. unfold packet_fits at 1. by rewrite bool_decide_eq_false_2 by lia. }
  destruct IH as [->|[-> IH]]; orun; [by left|]. right. split; [done|].
  rewrite IH. apply andb_false_r.
Qed.

Definition moved_on (st st' : service) (ph : gmap N cphase) : Prop :=
  reach st' ph ∧ servers st' = servers st ∧ mpRtpProducer st' = mpRtpProducer st.

Lemma moved_on_trans st st1 st2 ph :
  moved_on st st1 ph → moved_on st1 st2 ph → moved_on st st2 ph.
Proof. intros (_ & ? & ?) (? & ? & ?). split_and!; congruence. Qed.

(** The packets of one frame reach the clients, or do not fit. *)
Lemma frame_packets c pkts st ph :
  reach st ph → (∃ k, bound (mpRtpProducer st) !! k = Some (rtp_proxy c)) →
  if forallb packet_fits pkts then
    ∃ st' out, send_packets c pkts = Done (map (PPacket (rtp_proxy c)) pkts) ∧
      call_backs (map (PPacket (rtp_proxy c)) pkts) st = Done (st', out) ∧
      moved_on st st' ph ∧ client_gets st ph (map (pair (rtp_proxy c)) pkts) out
  else
    send_packets c pkts = Fault LogFatal ∨
    send_packets c pkts = Done (map (PPacket (rtp_proxy c)) pkts) ∧
    call_backs (map (PPacket (rtp_proxy c)) pkts) st = Fault OutOfBounds.
Proof.
  intros Hr Hb. assert (Hmap : map (PPacket (rtp_proxy c)) pkts
    = as_packets (map (pair (rtp_proxy c)) pkts)) by (by rewrite map_map).
  destruct (forallb packet_fits pkts) eqn:Ef.
  - destruct (send_packets_cases c pkts) as [->|[_ ?]]; [|congruence].
    destruct (packets_delivered st ph (map (pair (rtp_proxy c)) pkts) Hr)
      as (st' & out & E & Hr' & Hs & Hp & Hg).
    { apply Forall_map. apply packets_fit_sizes in Ef.
      eapply list.Forall_impl; [exact Ef|]. by split. }
    rewrite Hmap. by exists st', out.
  - destruct (send_packets_cases c pkts) as [->|[-> _]]; [right|by left].
    split; [done|]. rewrite Hmap. apply (packets_overrun st ph); [done|..].
    + apply Forall_map, Forall_true. done.
    + rewrite Forall_map. intros Hall. apply packets_fit_sizes in Hall. congruence.
Qed.

(** What one frame needs of its buffer. *)
Lemma RtpOnPacket_cases c f :
  RtpOnPacket c f = if frame_fits c f
    then Done (match payloadBuf c with Some _ => [0; 0; 1] ++ f | None => f end)
    else Fault OutOfBounds.
Proof.
  unfold RtpOnPacket, frame_fits. destruct (payloadBuf c) as [size|]; [|done].
  by destruct (_ <=? _).
Qed.

(** All frames of a datagram. *)
Lemma relay_frames_gets ctx c fs l st ph :
  reach st ph → (∃ k, bound (mpRtpProducer st) !! k = Some (rtp_proxy c)) →
  if frames_fit ctx c fs l then
    ∃ st' out, relay_frames ctx c fs l st = Done (st', (encoded ctx c fs l).2, out) ∧
      moved_on st st' ph ∧
      client_gets st ph (map (pair (rtp_proxy c)) (encoded ctx c fs l).1) out
  else ∃ f, relay_frames ctx c fs l st = Fault f ∧ overrun f.
Proof.
  revert l st. induction fs as [|f fs IH]; intros l st Hr Hb; simpl.
  { exists st, []. split; [done|]. split; [by split_and!|]. by intros cl es _. }
  rewrite RtpOnPacket_cases. destruct (frame_fits c f); cycle 1.
  { destruct (rtp_payload_encode_input _ _ l). simpl. exists OutOfBounds.
    split; [done|by left]. }
  simpl. destruct (rtp_payload_encode_input ctx _ l) as [pkts l1].
  pose proof (frame_packets c pkts st ph Hr Hb) as Hf.
  destruct (forallb packet_fits pkts); simpl; cycle 1.
  { destruct Hf as [->|[-> E]]; orun; [|rewrite E; orun]; eexists; (split; [done|]);
      [by right|by left]. }
  destruct Hf as (st1 & o1 & -> & E1 & (Hr1 & Hs1 & Hp1) & Hg1). orun. rewrite E1. orun.
  specialize (IH l1 st1 Hr1). rewrite Hp1 in IH. specialize (IH Hb).
  destruct (frames_fit ctx c fs l1).
  - destruct IH as (st2 & o2 & -> & Hm2 & Hg2). orun.
    destruct (encoded ctx c fs l1) as [pkts' l2]. cbn [fst snd] in *.
    eexists _, _. split; [done|]. split; [by eapply moved_on_trans|].
    rewrite map_app. by eapply client_gets_app.
  - destruct IH as (f' & -> & Hf'). orun. by exists f'.
Qed.

(** All packets are of registered proxies and fit. *)
Lemma encoded_sizes ctx c fs l :
  frames_fit ctx c fs l = true →
  Forall (fun d => (2 ≤ length d ≤ 1596)%nat) (encoded ctx c fs l).1.
Proof.
  revert l. induction fs as [|f fs IH]; intros l; simpl; [constructor|].
  destruct (rtp_payload_encode_input _ _ l) as [pkts l1].
  rewrite !andb_true_iff. intros [[_ Hp%packets_fit_sizes] Hfs]. specialize (IH l1 Hfs).
  destruct (encoded ctx c fs l1) as [pkts' l2]. by apply Forall_app.
Qed.

Lemma relayed_sizes cs evs l :
  relay_fits cs evs l = true →
  Forall (fun e => (2 ≤ length e.2 ≤ 1596)%nat) (relayed cs evs l).1.
Proof.
  revert l. induction evs as [|[m b|ctx data] evs IH]; intros l; simpl; [constructor|apply IH|].
  destruct (cs !! ctx) as [c|] eqn:Ec; [|apply IH].
  destruct (rtp_demuxer_input ctx data l) as [fs l1].
  rewrite andb_true_iff. intros [Hf Hrest]. pose proof (encoded_sizes ctx c fs l1 Hf) as Hs.
  destruct (encoded ctx c fs l1) as [pkts l2]. specialize (IH l2 Hrest).
  destruct (relayed cs evs l2) as [pkts' l3]. apply Forall_app. split; [|exact IH].
  by apply Forall_map.
Qed.

(** A live context is registered, so its proxy is bound. *)
Lemma context_registered p ctx c :
  rtp_ok p → rtp_contexts p !! ctx = Some c →
  ∃ v, mRtpVideoContextMap p !! cmpStr v = Some (v, ctx) ∧
       producer_bound p !! cmpStr v = Some (rtp_proxy c).
Proof.
  intros Hok Hc. destruct (ok_owned _ Hok _ _ Hc) as [v Hv].
  destruct (ok_rtp _ Hok _ _ _ Hv) as (_ & Hf & Hg & _). exists v. split; [done|].
  unfold producer_bound. rewrite lookup_union_r, rtp_bound_lookup, Hv; simpl.
  - by rewrite Hc.
  - destruct (file_bound p !! cmpStr v) as [a|] eqn:E; [|done]. exfalso.
    rewrite file_bound_lookup in E.
    destruct (mFileVideoContextMap p !! cmpStr v) as [[w x]|] eqn:Ew; [|done].
    destruct (ok_files _ Hok _ _ _ Ew) as (Hk & Hw & _).
    by destruct (cmpStr_file_gb w v).
Qed.

(** A proxy has one context. *)
Lemma proxy_context_inj st ph ctx c ctx' c' :
  reach st ph → rtp_contexts (mpRtpProducer st) !! ctx = Some c →
  rtp_contexts (mpRtpProducer st) !! ctx' = Some c' → rtp_proxy c = rtp_proxy c' →
  ctx = ctx'.
Proof.
  intros Hr Hc Hc' Hp. pose proof (dreach_wf _ (fun _ _ => eq_refl) _ _ Hr) as Hwf.
  destruct (context_registered _ _ _ (wf_producer _ _ Hwf) Hc) as (v & Hv & Hb).
  destruct (context_registered _ _ _ (wf_producer _ _ Hwf) Hc') as (v' & Hv' & Hb').
  rewrite Hp in Hb. rewrite (bound_inj _ _ _ _ _ Hr Hb Hb') in Hv. congruence.
Qed.

(** The events of the UDP server: everything fits and reaches the clients, or
    something does not fit. *)
Lemma relay_gets evs l st ph :
  reach st ph →
  let cs := rtp_contexts (mpRtpProducer st) in
  let r := relayed cs evs l in
  if relay_fits cs evs l then
    ∃ st' out, relay_events evs l st = Done (st', r.2, out) ∧ moved_on st st' ph ∧
      client_gets st ph r.1 out
  else ∃ f, relay_events evs l st = Fault f ∧ overrun f.
Proof.
  intros Hr cs. cbn zeta. revert l st Hr cs.
  induction evs as [|[m b|ctx data] evs IH]; intros l st Hr cs; simpl.
  { exists st, []. split; [done|]. split; [by split_and!|]. by intros cl es _. }
  { by apply IH. }
  unfold relay_data, on_peer_data. fold cs. destruct (cs !! ctx) as [c|] eqn:Ec; cycle 1.
  { orun. specialize (IH l st Hr). cbv zeta in IH. fold cs in IH.
    destruct (relay_fits cs evs l).
    - destruct IH as (st' & out & -> & Hm & Hg). orun. by exists st', out.
    - destruct IH as (f & -> & Hf). orun. by exists f. }
  simpl. fold cs. rewrite Ec. orun.
  destruct (rtp_demuxer_input ctx data l) as [fs l1].
  pose proof (dreach_wf _ (fun _ _ => eq_refl) _ _ Hr) as Hwf.
  assert (Hb : ∃ k, bound (mpRtpProducer st) !! k = Some (rtp_proxy c)).
  { eexists. apply context_bound with ctx; [apply Hwf|done]. }
  pose proof (relay_frames_gets ctx c fs l1 st ph Hr Hb) as Hf.
  destruct (frames_fit ctx c fs l1); simpl; cycle 1.
  { destruct Hf as (f & -> & Hf). orun. by exists f. }
  destruct Hf as (st1 & o1 & -> & (Hr1 & Hs1 & Hp1) & Hg1). orun.
  destruct (encoded ctx c fs l1) as [pkts l2]. cbn [fst snd] in *.
  specialize (IH l2 st1 Hr1). cbv zeta in IH. rewrite Hp1 in IH. fold cs in IH.
  destruct (relayed cs evs l2) as [pkts' l3]. cbn [fst snd] in *.
  destruct (relay_fits cs evs l2).
  - destruct IH as (st2 & o2 & -> & Hm2 & Hg2). orun. eexists _, _. split; [done|].
    split; [by eapply moved_on_trans|]. by eapply client_gets_app.
  - destruct IH as (f & -> & Hf). orun. by exists f.
Qed.

Lemma relay_delivers evs l st ph :
  reach st ph →
  let cs := rtp_contexts (mpRtpProducer st) in
  let r := relayed cs evs l in
  if relay_fits cs evs l then
    ∃ st' out, relay_events evs l st = Done (st', r.2, out) ∧ reach st' ph ∧
      client_reads st ph r.1 out
  else ∃ f, relay_events evs l st = Fault f ∧ overrun f.
Proof.
  intros Hr cs r. pose proof (relay_gets evs l st ph Hr) as Hg. cbn zeta in Hg.
  fold cs in Hg. fold r in Hg. destruct (relay_fits cs evs l) eqn:Ef; [|done].
  destruct Hg as (st' & out & E & (Hr' & _) & Hg). exists st', out.
  split; [done|]. split; [done|]. apply client_gets_reads; [|done].
  by apply relayed_sizes.
Qed.

Lemma with_net_reach s st ph : reach st ph → reach (with_net s st) ph.
Proof.
  intros Hr. pose proof (dreach_wf _ (fun _ _ => eq_refl) _ _ Hr) as Hwf.
  apply dreach_producer; [done| |done]. destruct (wf_producer _ _ Hwf). by split.
Qed.

(** C2: from the camera to the client, without worker threads. In every state that
    patient clients and the producer reach, when the socket of a UDP server without
    workers becomes readable, and every frame and packet that librtp makes of its
    datagrams in this run fits (a frame with its start code into [payloadBuf], a
    packet of 2 to 1596 bytes into [sendBuffer]), the whole path runs to its end: the
    read callback, the peer callbacks, demuxer and encoder, and the packet callback
    of the service. What a client that plays a video then reads from its connection
    is exactly the packets librtp made of the datagrams of that video's camera, in
    their order, each on the channel of its type; a client that does not play is sent
    nothing. Datagrams are taken up to the first one of an unknown sender. The
    resulting state is again one of those states. If something does not fit, the
    path ends in an overrun of a buffer or in a fatal log entry. *)
Theorem camera_to_client (which size : Z) (n : nat) (sock : list (sockaddr_in * list Z))
    (l : L) (st : service) (ph : gmap N cphase)
    (Hr : reach st ph)
    (Hat : buffers_at size n (mpNetworkServer (mpRtpProducer st)))
    (Hsync : mpUdpWorkerThreads (mpNetworkServer (mpRtpProducer st)) = []) :
  let spec := sync_spec (mRegisteredPeers (mpNetworkServer (mpRtpProducer st))) sock in
  let cs := rtp_contexts (mpRtpProducer st) in
  let r := relayed cs spec.2 l in
  let run := udp_readable rtp_demuxer_input rtp_payload_encode_input std_hash which
               sock l st in
  if relay_fits cs spec.2 l then
    ∃ st' out, run = Done (st', r.2, spec.1, out) ∧
      reach st' ph ∧ client_reads st ph r.1 out
  else ∃ f, run = Fault f ∧ (f = OutOfBounds ∨ f = LogFatal).
Proof.
  intros spec cs r. cbv zeta. unfold udp_readable, on_readable.
  rewrite event_ignored_never.
  destruct (receive_loop_sync std_hash size n sock _ Hat Hsync) as (s' & n' & E & _ & _).
  rewrite E. orun. fold spec.
  pose proof (relay_delivers spec.2 l (with_net s' st) ph (with_net_reach _ _ _ Hr)) as Hd.
  cbn zeta in Hd. change (rtp_contexts (mpRtpProducer (with_net s' st))) with cs in Hd.
  fold (with_net s' st). destruct (relay_fits cs spec.2 l).
  - destruct Hd as (st' & out & E' & Hr' & Hg). rewrite E'. orun. by exists st', out.
  - destruct Hd as (f & -> & Hf). orun. by exists f.
Qed.
End librtp.

(** ** Files *)

(** An error closes the connection of every client that has asked for the stream,
    and sends nothing. *)
Lemma error_closes st ph k a :
  reach st ph → bound (mpRtpProducer st) !! k = Some a →
  ∃ evs, processErrorFunction a st = Done evs ∧
    (∀ c es p f, ph !! c = Some p → seat p = Some (k, f) → servers st !! c = Some es →
       CloseSocket (bev es) ∈ evs) ∧
    ∀ h, sent h evs = [].
Proof.
  intros Hr Hb. destruct (dreach_good _ (fun _ _ => eq_refl) _ _ Hr) as [Hwf Hl].
  pose proof (dreach_anchored _ (fun _ _ => eq_refl) _ _ Hr) as Han.
  destruct (bound_anchored _ _ _ Han Hb) as (v & px & Hm & Hp).
  unfold processErrorFunction. rewrite Hp. orun.
  rewrite !(for_clients_wf _ _ _ _ _ _ _ _ Hwf Hm Hp) by (clear; set_solver). orun.
  eexists. split; [done|]. split.
  - intros c es p f Hc Hf Hes. destruct (Hl _ _ _ _ Hc Hf) as (v' & a' & px' & Hm' & Hp' & Hin).
    simplify_eq. rewrite !elem_of_app, !list_elem_of_omap.
    assert (Hex : ∀ X : gset N, c ∈ X → ∃ x, x ∈ set_iter X ∧
      (fun es => CloseSocket (bev es)) <$> servers st !! x = Some (CloseSocket (bev es))).
    { intros X HX. exists c. by rewrite elem_of_set_iter, Hes. }
    destruct p; simplify_eq/=; eauto 10.
  - intros h. unfold sent. rewrite !omap_app.
    assert (Hno : ∀ cs, omap (fun e => match e with
        | SendInterleaved h' bs => if bool_decide (h' = h) then Some bs else None
        | _ => None end)
      (omap (fun c => (fun es => CloseSocket (bev es)) <$> servers st !! c) cs) = []).
    { induction cs as [|c cs IH]; [done|]. simpl. by destruct (servers st !! c). }
    by rewrite !Hno.
Qed.

Section ffmpeg.
Context {S : Type}.
Variable av_read_frame : S → Z * AVPacket * S.
Variable avio_seek : S → Z * S.
Variable avformat_seek_file : nat → Z → S → Z * S.
Variable set_cur_dts : Z → S → S.
Variable av_packet_rescale_ts : AVPacket → Z * Z → Z * Z → AVPacket.
Variable av_interleaved_write_frame : AVPacket → S → Z * list (list Z) * S.

(** The context of a file changes and its registration does not. *)
Lemma put_file_reach st ph v c c' :
  reach st ph → vfind v (mFileVideoContextMap (mpRtpProducer st)) = Some c →
  same_video c c' →
  let p' := put_file v c' (mpRtpProducer st) in
  reach (with_producer p' st) ph ∧ producer_bound p' !! cmpStr v = Some (proxy c) ∧
  producer_bound p' = producer_bound (mpRtpProducer st).
Proof.
  intros Hr Hc Hs p'. pose proof (dreach_wf _ (fun _ _ => eq_refl) _ _ Hr) as Hwf.
  destruct (put_file_same v c c' _ (wf_producer _ _ Hwf) Hc Hs) as [Hok Hb]. fold p' in Hok, Hb.
  split; [|split; [|done]].
  - apply dreach_producer; [done|done|]. change (producer_bound p' ⊆ producer_bound (mpRtpProducer st)).
    by rewrite Hb.
  - rewrite Hb. apply vfind_Some_lookup in Hc as [w Hc]. unfold producer_bound.
    apply lookup_union_Some_l. by rewrite file_bound_lookup, Hc.
Qed.

Lemma tick_events c c' evs :
  (error c ≠ 0 ∧ c' = c ∧ evs = []) ∨
  (error c = 0 ∧ ∃ muxed rtps,
     evs = (map Muxed muxed ++ map (Consumed (proxy c)) rtps) ++
           if error c' =? 0 then [] else [ReportedError (proxy c)]) →
  file_events evs = as_packets (consumed evs) ++
    (if (error c =? 0) && negb (error c' =? 0) then [PError (proxy c)] else []) ∧
  Forall (fun e => e.1 = proxy c) (consumed evs).
Proof.
  intros [(He & -> & ->)|(He & muxed & rtps & ->)].
  { by rewrite (proj2 (Z.eqb_neq _ _)). }
  rewrite He. simpl. unfold file_events, consumed. rewrite !omap_app.
  assert (H1 : ∀ {A} (f : file_event → option A) ms,
    (∀ m, f (Muxed m) = None) → omap f (map Muxed ms) = []).
  { intros A f ms Hm. induction ms as [|m ms IH]; [done|]. simpl. by rewrite Hm. }
  rewrite !H1 by done. simpl.
  assert (H2 : ∀ {A} (f : file_event → option A) (g : list Z → A),
    (∀ d, f (Consumed (proxy c) d) = Some (g d)) →
    omap f (map (Consumed (proxy c)) rtps) = map g rtps).
  { intros A f g Hg. induction rtps as [|d ds IH]; [done|]. simpl. by rewrite Hg, <- IH. }
  rewrite (H2 _ _ (PPacket (proxy c))), (H2 _ _ (pair (proxy c))) by done.
  destruct (error c' =? 0); simpl; rewrite !app_nil_r, map_map; (split; [done|]);
    by apply Forall_map, Forall_true.
Qed.

(** C4: from the file to the client. In every state that disciplined clients and
    the producer reach, when the timer of a registered file fires and [FFGetFrame]
    returns with packets the send buffer holds, the packets go through the service
    to its end: what a client that plays the file reads from its connection is
    exactly the packets the muxer wrote, in their order, and no other client is sent
    anything. When the call reports an error, the connections of all clients that
    wait for the SDP, may PLAY or play are closed. *)
Theorem file_to_client (fuel : nat) (v : VideoRequest) (s s' : S) (st : service)
    (ph : gmap N cphase) (c c' : FileVideoContext) (evs : list file_event)
    (Hr : reach st ph)
    (Hc : vfind v (mFileVideoContextMap (mpRtpProducer st)) = Some c)
    (Hf : FFGetFrame av_read_frame avio_seek avformat_seek_file set_cur_dts
            av_packet_rescale_ts av_interleaved_write_frame fuel c s
          = Some (Done (c', s', evs)))
    (Hlen : Forall (fun e => (2 ≤ length e.2 ≤ 1596)%nat) (consumed evs)) :
  ∃ st' out,
    file_tick av_read_frame avio_seek avformat_seek_file set_cur_dts
      av_packet_rescale_ts av_interleaved_write_frame fuel v s st
    = Some (Done (st', s', out)) ∧
    reach st' ph ∧ client_reads st ph (consumed evs) out ∧
    (error c = 0 → error c' ≠ 0 →
     ∀ cl es p f, ph !! cl = Some p → seat p = Some (cmpStr v, f) →
       servers st !! cl = Some es → CloseSocket (bev es) ∈ out).
Proof.
  pose proof (FFGetFrame_events _ _ _ _ _ _ _ _ _ _ _ _ Hf) as [Hsame Hevs].
  set (p1 := put_file v c' (mpRtpProducer st)).
  assert (Hp1 : reach (with_producer p1 st) ph ∧ producer_bound p1 !! cmpStr v = Some (proxy c)
                ∧ producer_bound p1 = producer_bound (mpRtpProducer st)).
  { by eapply put_file_reach. }
  destruct Hp1 as (Hr1 & Hb1 & Hbe).
  destruct (tick_events _ _ _ Hevs) as [Hfe Hprox].
  unfold file_tick. rewrite Hc, Hf. fold p1. rewrite Hfe, call_backs_app.
  destruct (packets_delivered (with_producer p1 st) ph (consumed evs) Hr1)
    as (st1 & o1 & -> & Hr2 & Es & Ep & Hg).
  { apply Forall_forall. intros e He. rewrite Forall_forall in Hlen, Hprox.
    split; [exists (cmpStr v)|by apply Hlen]. by rewrite (Hprox e He). }
  apply client_gets_reads in Hg; [|done]. orun.
  assert (Hread : ∀ o2, (∀ h, sent h o2 = []) → client_reads st ph (consumed evs) (o1 ++ o2)).
  { intros o2 Ho2 cl es Hown. rewrite sent_app, Ho2, app_nil_r.
    destruct (Hg cl es Hown) as [G1 G2]. split; [|done]. intros k a Hk Hb.
    apply (G1 k a Hk). change (producer_bound p1 !! k = Some a). by rewrite Hbe. }
  destruct ((error c =? 0) && negb (error c' =? 0)) eqn:Hrep; simpl.
  - destruct (error_closes st1 ph (cmpStr v) (proxy c) Hr2) as (o2 & -> & Hcl & Hs2).
    { by rewrite Ep. }
    orun. eexists _, _. rewrite app_nil_r. split; [done|]. split; [done|].
    split; [by apply Hread|]. intros _ _ cl es p f Hp Hseat Hes. apply elem_of_app. right.
    eapply Hcl; [done..|]. by rewrite Es.
  - eexists _, _. split; [done|]. split; [done|]. split; [by apply Hread|].
    intros He He'. rewrite He in Hrep. simpl in Hrep. apply negb_false_iff in Hrep. lia.
Qed.
End ffmpeg.
End delivery.

(** * A client that plays *)

Section demo.
#[local] Instance demo_inst : VideoProducer RtpProducer := rtp_producer zero_memory.
#[local] Definition demo_laws : VideoProducerLaws RtpProducer :=
  rtp_producer_laws zero_memory ltac:(done).

(** The producer with a UDP server without workers. *)
Definition relay_producer : RtpProducer :=
  match initUdpServer demo_env 8 demo_config newNetworkServer with
  | Done s => newRtpProducer demo_producer_config s
  | Fault _ => demo_producer
  end.

(** The client has sent OPTIONS and DESCRIBE, the camera answers from
    127.0.0.1:12345, the client sends PLAY. *)
Definition relay_asked : service * gmap N cphase :=
  default (initial relay_producer, ∅)
    (drun Close [EAccept 1 7 70; EOptions 7 demo_uri 3; EDescribe 7 demo_uri]
       (initial relay_producer) ∅).
Definition demo_invited : InviteVideoResponse :=
  mkInviteVideoResponse "id7"
    (Some (mkGBInviteVideoResponse "127.0.0.1:12345" 90000 96 "H264")).
Definition relay_invited : RtpProducer :=
  match on_invite (mkRtpEnv true true) 0 true demo_invited (mpRtpProducer relay_asked.1) with
  | Done (p, _) => p
  | Fault _ => relay_producer
  end.
Definition relay_playing : service * gmap N cphase :=
  default relay_asked
    (drun Close [ESdp 3 "v=0"; EPlay 7 demo_uri None]
       (with_producer relay_invited relay_asked.1) relay_asked.2).

(** A camera answers between the requests of its clients. *)
Lemma invited_reached p0 asked es1 env ctx ok r p1 evs es2 playing :
  rtp_ok p0 → producer_bound p0 = ∅ →
  drun Close es1 (initial p0) ∅ = Some asked →
  on_invite env ctx ok r (mpRtpProducer asked.1) = Done (p1, evs) →
  drun Close es2 (with_producer p1 asked.1) asked.2 = Some playing →
  dreach Close playing.1 playing.2.
Proof.
  destruct asked as [st ph], playing as [st' ph']. intros Hok0 Hb0 H1 H2 H3.
  eapply drun_dreach; [|exact H3].
  assert (Ha : dreach Close st ph).
  { eapply drun_dreach; [|exact H1]. by apply dreach_init. }
  pose proof (@dreach_wf _ _ demo_laws Close (fun _ _ => eq_refl) _ _ Ha) as Hwf.
  destruct (on_invite_ok _ _ _ _ _ _ _ (wf_producer _ _ Hwf) H2) as [Hok Hb].
  apply dreach_producer; [done|done|].
  change (producer_bound p1 ⊆ producer_bound (mpRtpProducer st)). by rewrite Hb.
Qed.

Lemma relay_playing_reached : dreach Close relay_playing.1 relay_playing.2.
Proof.
  apply (invited_reached relay_producer relay_asked
    [EAccept 1 7 70; EOptions 7 demo_uri 3; EDescribe 7 demo_uri] (mkRtpEnv true true) 0 true
    demo_invited relay_invited
    [PSdp 3 (gb_sdp "34020000001320000001" 96 "H264" 90000); PCall (SendAck "id7") 0 None]
    [ESdp 3 "v=0"; EPlay 7 demo_uri None] relay_playing);
    [apply newRtpProducer_ok|vm_compute; reflexivity..].
Qed.

(** A librtp that takes every datagram for a frame and makes one packet of it. *)
Definition demo_demux (ctx : N) (data : list Z) (l : nat) : list (list Z) * nat :=
  ([data], S l).
Definition demo_encode (ctx : N) (input : list Z) (l : nat) : list (list Z) * nat :=
  ([[128; 96] ++ take 6 input], l).

Lemma demo_own : own_handle relay_playing.1 7 (mkEventRtspServer 70 1).
Proof.
  split; [vm_compute; reflexivity|]. intros c' es' Hc' _.
  assert (Hs : servers relay_playing.1 = {[7%N := mkEventRtspServer 70 1]})
    by (vm_compute; reflexivity).
  rewrite Hs in Hc'. by apply lookup_singleton_Some in Hc' as [<- _].
Qed.
End demo.

Lemma camera_to_client_witness :
  ∃ st' out,
    udp_readable demo_demux demo_encode demo_hash 2
      [(demo_addr, [7; 8; 9; 10]); (demo_addr, [1])] 0%nat relay_playing.1
    = Done (st', 2%nat, [], out) ∧
    parse_stream 2 (concat (sent 70 out))
    = Some [(0, [128; 96; 0; 0; 1; 7; 8; 9]); (0, [128; 96; 0; 0; 1; 1])].
Proof.
  assert (Hz : ind_iFmtCtx zero_memory ≠ Wild ∧ ind_oFmtCtx zero_memory ≠ Wild) by done.
  assert (Hat : buffers_at 20971520 0 (mpNetworkServer (mpRtpProducer relay_playing.1))).
  { assert (Hn : mpNetworkServer (mpRtpProducer relay_playing.1)
      = registerPeer "127.0.0.1:12345" 0%N (mpNetworkServer relay_producer))
      by (vm_compute; reflexivity).
    rewrite Hn. destruct (proj1 (proj2 (proj2 (init_done demo_env 8 demo_config _ ltac:(done)
      (eq_refl : initUdpServer demo_env 8 demo_config newNetworkServer
                 = Done (mpNetworkServer relay_producer)))))). by split. }
  assert (Hs : mpUdpWorkerThreads (mpNetworkServer (mpRtpProducer relay_playing.1)) = [])
    by (vm_compute; reflexivity).
  pose proof (camera_to_client zero_memory Hz demo_demux demo_encode demo_hash
    2 20971520 0 [(demo_addr, [7; 8; 9; 10]); (demo_addr, [1])] 0%nat
    relay_playing.1 relay_playing.2 relay_playing_reached Hat Hs) as Hc. cbv zeta in Hc.
  match type of Hc with if ?b then _ else _ =>
    assert (Hb : b = true) by (vm_compute; reflexivity); rewrite Hb in Hc end.
  destruct Hc as (st' & out & E & _ & Hg).
  exists st', out. split; [etrans; [exact E|vm_compute; reflexivity]|].
  exact (proj1 (Hg 7%N (mkEventRtspServer 70 1) demo_own) (cmpStr demo_video) 3%N
           ltac:(vm_compute; reflexivity) ltac:(vm_compute; reflexivity)).
Defined.

(** * A file that plays *)

Section demo_file.
#[local] Instance demo_file_inst : VideoProducer RtpProducer := rtp_producer zero_memory.
#[local] Instance demo_file_laws : VideoProducerLaws RtpProducer :=
  rtp_producer_laws zero_memory ltac:(done).

Definition file_uri : string := "rtsp://127.0.0.1:8554/file/a.mp4".
Definition file_video : VideoRequest :=
  match parseUrl file_uri with Done v => v | Fault _ => VideoRequest_default end.

(** The client has asked for the file; the probe has filled the context in; the
    client plays. *)
Definition file_asked : service * gmap N cphase :=
  default (initial demo_producer, ∅)
    (drun Close [EAccept 1 7 70; EOptions 7 file_uri 3; EDescribe 7 file_uri]
       (initial demo_producer) ∅).
Definition file_probed : RtpProducer :=
  put_file file_video demo_context (mpRtpProducer file_asked.1).
Definition file_playing : service * gmap N cphase :=
  default file_asked
    (drun Close [ESdp 3 "v=0"; EPlay 7 file_uri None]
       (with_producer file_probed file_asked.1) file_asked.2).

Lemma file_playing_reached : dreach Close file_playing.1 file_playing.2.
Proof.
  eapply (drun_dreach Close [ESdp 3 "v=0"; EPlay 7 file_uri None]
            (with_producer file_probed file_asked.1) file_asked.2);
    [|vm_compute; reflexivity].
  assert (Ha : dreach Close file_asked.1 file_asked.2).
  { eapply (drun_dreach Close [EAccept 1 7 70; EOptions 7 file_uri 3; EDescribe 7 file_uri]
      (initial demo_producer) ∅); [|vm_compute; reflexivity].
    apply dreach_init; [apply newRtpProducer_ok|done]. }
  pose proof (dreach_wf Close (fun _ _ => eq_refl) _ _ Ha) as Hwf.
  destruct (put_file_ok file_video (newFileVideoContext zero_memory file_video 3) demo_context
    (mpRtpProducer file_asked.1) (wf_producer _ _ Hwf)) as [Hok Hb];
    [vm_compute; reflexivity..|].
  apply dreach_producer; [done|done|].
  change (producer_bound file_probed ⊆ producer_bound (mpRtpProducer file_asked.1)).
  unfold file_probed. by rewrite Hb.
Qed.
End demo_file.

Lemma file_to_client_witness :
  ∃ st' s' out,
    file_tick demo_read demo_avio_seek (demo_seek_file demo_content) demo_cur_dts
      demo_rescale demo_write 9 file_video demo_content file_playing.1
    = Some (Done (st', s', out)) ∧
    parse_stream 1 (concat (sent 70 out)) = Some [(0, [128; 96])].
Proof.
  destruct (FFGetFrame demo_read demo_avio_seek (demo_seek_file demo_content) demo_cur_dts
              demo_rescale demo_write 9 demo_context demo_content)
    as [[[[c' s'] evs]|]|] eqn:E; [|vm_compute in E; discriminate E..].
  assert (Hevs : consumed evs = [(3%N, [128; 96])]).
  { vm_compute in E. injection E as <- <- <-. reflexivity. }
  destruct (file_to_client zero_memory ltac:(done) demo_read demo_avio_seek
    (demo_seek_file demo_content) demo_cur_dts demo_rescale demo_write 9 file_video
    demo_content s' file_playing.1 file_playing.2 demo_context c' evs
    file_playing_reached ltac:(vm_compute; reflexivity) E)
    as (st' & out & Et & _ & Hg & _).
  - rewrite Hevs. constructor; [simpl; lia|constructor].
  - exists st', s', out. split; [exact Et|]. rewrite Hevs in Hg.
    refine (proj1 (Hg 7%N (mkEventRtspServer 70 1) _) (cmpStr file_video) 3%N
             ltac:(vm_compute; reflexivity) ltac:(vm_compute; reflexivity)).
    split; [vm_compute; reflexivity|]. intros x es' Hx _.
    assert (Hs : servers file_playing.1 = {[7%N := mkEventRtspServer 70 1]})
      by (vm_compute; reflexivity).
    rewrite Hs in Hx. by apply lookup_singleton_Some in Hx as [<- _].
Defined.
