(* ===== verification/AsyncRelay.v ===== *)
(** The way from the camera to the client with worker threads: the event loops of
    core/src/network_server.cpp copy datagrams into the buffers they share and hand
    each of them to the pool of its peer, the pools of common/thread_pool run when the
    scheduler lets them, and each task takes its datagram through the peer callback
    and the encoder of core/src/rtp_producer.cpp to the clients of
    core/src/rtsp_service.cpp. A client must not notice: it reads what it would read
    if the datagrams of its camera were handled one after the other. Nothing in the
    code keeps a loop from writing over a datagram that still waits for its worker;
    the state records whether that has happened. *)
From stdpp Require Import base gmap strings list numbers relations.
From S2P Require Import Prelude VideoRequest ThreadPool NetworkServer Producer RtspService RtspSessions FileProducer RtpProducer Streams System Relay.

#[local] Open Scope Z_scope.

(** * Runs *)

Section runs.
(** The state of librtp for one context: what the demuxer makes of a datagram and
    the encoder of a frame depends on this alone. *)
Context {Lc : Type}.
Variable demuxer encoder : N → list Z → Lc → list (list Z) * Lc.
Variable std_hash : string → Z.

Definition at_context (f : N → list Z → Lc → list (list Z) * Lc)
    (ctx : N) (data : list Z) (l : N → Lc) : list (list Z) * (N → Lc) :=
  let '(r, x) := f ctx data (l ctx) in
  (r, fun ctx' => if decide (ctx' = ctx) then x else l ctx').

(** The service, librtp, the event loops of the UDP server, each with the bytes of
    the datagram it received last, the tasks submitted so far with the bytes of their
    datagrams, in their order, everything that was written to connections, and
    whether a datagram was received into the slot of one that was still on its way. *)
Record relay_state : Type := mkRelay {
  relay_service : service;
  librtp : N → Lc;
  loops : list (loop_state * list Z);
  received : list (task * list Z);
  written : list rtsp_event;
  lost : bool;
}.

Definition network (w : relay_state) : NetworkServer N :=
  mpNetworkServer (mpRtpProducer (relay_service w)).
Definition threads (w : relay_state) : list (pool task) := mpUdpWorkerThreads (network w).

Definition with_threads (ws : list (pool task)) (s : NetworkServer N) : NetworkServer N :=
  mkNetworkServer (mpUdpWorkers s) ws (mpReceiveBuffers s) (mBufferSize s)
    (mReceiveBufferIndex s) (mCurPosition s) (mRegisteredPeers s).

(** The receptions that go to worker [i] of [n], and those it has not finished. *)
Definition mine (n i : nat) (rx : list (task * list Z)) : list (task * list Z) :=
  filter (fun e => worker_index std_hash (task_peer e.1) n = i) rx.
Definition unfinished (w : relay_state) (i : nat) (p : pool task)
  : list (task * list Z) :=
  drop (length (finished p)) (mine (length (threads w)) i (received w)).

(** The datagrams on their way: received by a loop or submitted to a worker, and
    not finished. *)
Definition got (x : loop_state * list Z) : option (task * list Z) :=
  match x.1 with Got t => Some (t, x.2) | _ => None end.
Definition pending (w : relay_state) : list (task * list Z) :=
  concat (imap (fun i p => unfinished w i p) (threads w)) ++ omap got (loops w).

(** What the next step of a loop does to the bytes it holds, to the tasks submitted
    and to the datagrams on their way. *)
Definition bytes_after (dg : option (sockaddr_in * list Z)) (x : loop_state) (d : list Z)
  : list Z :=
  match x, dg with Holds _, Some (_, payload) => take 1600 payload | _, _ => d end.
Definition submits (x : loop_state) (d : list Z) : list (task * list Z) :=
  match x with Got t => [(t, d)] | _ => [] end.
Definition overwrites (dg : option (sockaddr_in * list Z)) (x : loop_state)
    (w : relay_state) : bool :=
  match x, dg with
  | Holds data, Some _ => existsb (fun e => bool_decide (task_data e.1 = data)) (pending w)
  | _, _ => false
  end.

(** The tasks a move of a pool finishes. *)
Definition ran (p p' : pool task) : list task := drop (length (finished p)) (finished p').

(** What the tasks do: their effect is put at their end. *)
Definition run_tasks (ts : list task) (w : relay_state)
  : outcome (service * (N → Lc) * list rtsp_event) :=
  relay_events (at_context demuxer) (at_context encoder)
    (concat (map (fun t => run_task t (network w)) ts)) (librtp w) (relay_service w).

(** Any event loop takes its next step, with whatever its socket has; any pool
    moves. *)
Inductive relay_step : relay_state → relay_state → Prop :=
| relay_loop w j dg x d x' s' :
    loops w !! j = Some (x, d) →
    loop_step std_hash dg x (network w) = Done (x', s', []) →
    relay_step w
      (mkRelay (with_net s' (relay_service w)) (librtp w)
         (<[j := (x', bytes_after dg x d)]> (loops w))
         (received w ++ submits x d) (written w) (lost w || overwrites dg x w))
| relay_move w i p p' st l out :
    threads w !! i = Some p → moves p p' →
    run_tasks (ran p p') w = Done (st, l, out) →
    relay_step w
      (mkRelay (with_net (with_threads (<[i := p']> (threads w)) (network w)) st) l
         (loops w) (received w) (written w ++ out) (lost w)).

(** ** Reference *)

(** The packets of one camera, made of its datagrams alone. *)
Definition datagram_packets (ctx : N) (c : RtpVideoContext) (data : list Z) (x : Lc)
  : list (list Z) * Lc :=
  let '(fs, x) := demuxer ctx data x in encoded encoder ctx c fs x.

Fixpoint camera_packets (ctx : N) (c : RtpVideoContext) (ds : list (list Z)) (x : Lc)
  : list (list Z) * Lc :=
  match ds with
  | [] => ([], x)
  | d :: ds' =>
      let '(pkts, x) := datagram_packets ctx c d x in
      let '(pkts', x) := camera_packets ctx c ds' x in
      (pkts ++ pkts', x)
  end.
End runs.
Arguments mkRelay {Lc} _ _ _ _ _ _.

(** * librtp by context *)

Section librtp.
Context {Lc : Type}.
Variable demuxer encoder : N → list Z → Lc → list (list Z) * Lc.
Implicit Types (l : N → Lc) (cs : gmap N RtpVideoContext).

(** The state of one context moves on as it does alone, the others stay. *)
Definition only_at (ctx : N) l l' (x : Lc) : Prop :=
  l' ctx = x ∧ ∀ ctx', ctx' ≠ ctx → l' ctx' = l ctx'.

Lemma only_at_trans ctx l l1 l2 x y :
  only_at ctx l l1 x → only_at ctx l1 l2 y → only_at ctx l l2 y.
Proof. intros [_ H1] [H2 H3]. split; [done|]. intros ctx' Hne. by rewrite H3, H1. Qed.

Lemma at_context_only (f : N → list Z → Lc → list (list Z) * Lc) ctx data l :
  (at_context f ctx data l).1 = (f ctx data (l ctx)).1 ∧
  only_at ctx l (at_context f ctx data l).2 (f ctx data (l ctx)).2.
Proof.
  unfold at_context. destruct (f ctx data (l ctx)) as [r x]. split; [done|]. split; simpl.
  - by rewrite decide_True.
  - intros ctx' Hne. by rewrite decide_False.
Qed.

Lemma encoded_at ctx c fs l :
  (encoded (at_context encoder) ctx c fs l).1 = (encoded encoder ctx c fs (l ctx)).1 ∧
  only_at ctx l (encoded (at_context encoder) ctx c fs l).2
    (encoded encoder ctx c fs (l ctx)).2.
Proof.
  revert l. induction fs as [|f fs IH]; intros l; simpl; [by split|].
  set (input := match payloadBuf c with Some _ => 0 :: 0 :: 1 :: f | None => f end).
  destruct (at_context_only encoder ctx input l) as [E1 E2].
  destruct (at_context encoder ctx input l) as [pkts l1].
  destruct (encoder ctx input (l ctx)) as [pkts0 x1]. simpl in *. subst pkts.
  destruct (IH l1) as [E3 E4]. rewrite (proj1 E2) in E3, E4.
  destruct (encoded (at_context encoder) ctx c fs l1) as [pkts' l2].
  destruct (encoded encoder ctx c fs x1) as [pkts0' x2]. simpl in *. subst pkts'.
  split; [done|]. by eapply only_at_trans.
Qed.

Lemma relayed_datagram cs nm len ctx data l :
  let r := relayed (at_context demuxer) (at_context encoder) cs
             [Increment nm len; Process ctx data] l in
  match cs !! ctx with
  | Some c =>
      let d := datagram_packets demuxer encoder ctx c data (l ctx) in
      r.1 = map (pair (rtp_proxy c)) d.1 ∧ only_at ctx l r.2 d.2
  | None => r = ([], l)
  end.
Proof.
  simpl. destruct (cs !! ctx) as [c|]; [|done]. unfold datagram_packets.
  destruct (at_context_only demuxer ctx data l) as [E1 E2].
  destruct (at_context demuxer ctx data l) as [fs l1].
  destruct (demuxer ctx data (l ctx)) as [fs0 x1]. simpl in *. subst fs.
  destruct (encoded_at ctx c fs0 l1) as [E3 E4]. rewrite (proj1 E2) in E3, E4.
  destruct (encoded (at_context encoder) ctx c fs0 l1) as [pkts l2].
  destruct (encoded encoder ctx c fs0 x1) as [pkts0 x2]. simpl in *. subst pkts.
  rewrite app_nil_r. split; [done|]. by eapply only_at_trans.
Qed.

Lemma camera_packets_snoc ctx c ds d0 x :
  let r := camera_packets demuxer encoder ctx c ds x in
  let d := datagram_packets demuxer encoder ctx c d0 r.2 in
  camera_packets demuxer encoder ctx c (ds ++ [d0]) x = (r.1 ++ d.1, d.2).
Proof.
  revert x. induction ds as [|d ds IH]; intros x; simpl.
  - destruct (datagram_packets _ _ ctx c d0 x) as [pkts x1]. by rewrite app_nil_r.
  - destruct (datagram_packets _ _ ctx c d x) as [pkts x1]. specialize (IH x1). simpl in IH.
    destruct (camera_packets _ _ ctx c ds x1) as [pkts' x2]. simpl in *. rewrite IH.
    by rewrite app_assoc.
Qed.
End librtp.

(** * The invariant of a run *)

Section delivery.
Variable mem : indeterminate.
Hypothesis Hmem : ind_iFmtCtx mem ≠ Wild ∧ ind_oFmtCtx mem ≠ Wild.
#[local] Instance async_inst : VideoProducer RtpProducer := rtp_producer mem.
#[local] Instance async_laws : VideoProducerLaws RtpProducer := rtp_producer_laws mem Hmem.
#[local] Abbreviation reach := (dreach (@Close _ async_inst)).

Context {Lc : Type}.
Variable demuxer encoder : N → list Z → Lc → list (list Z) * Lc.
Variable std_hash : string → Z.
Implicit Types (w : relay_state (Lc := Lc)) (p : pool task) (e : task * list Z).
#[local] Abbreviation of_worker := (mine std_hash).
#[local] Abbreviation waiting := (unfinished std_hash).
#[local] Abbreviation step := (relay_step demuxer encoder std_hash).

Lemma tasks_for_mine n i rx : tasks_for std_hash n i (rx.*1) = (of_worker n i rx).*1.
Proof.
  unfold tasks_for, mine. induction rx as [|[t d] rx IH]; [done|].
  rewrite fmap_cons, !filter_cons. simpl. case_decide; csimpl; by rewrite IH.
Qed.

(** What a worker has finished are the first of its receptions. *)
Lemma finished_mine ts ws i p rx :
  workers_hold std_hash ts ws → ts = rx.*1 → ws !! i = Some p →
  finished p = (take (length (finished p)) (of_worker (length ws) i rx)).*1.
Proof.
  intros Hw -> Hp. destruct (Hw _ _ Hp) as (Hr & _ & Hs). apply single_order in Hr.
  rewrite fmap_take, <- tasks_for_mine, <- Hs, Hr. by rewrite take_app_length.
Qed.

Lemma finished_le ts ws i p rx :
  workers_hold std_hash ts ws → ts = rx.*1 → ws !! i = Some p →
  (length (finished p) ≤ length (of_worker (length ws) i rx))%nat.
Proof.
  intros Hw Ht Hp. pose proof (finished_mine _ _ _ _ _ Hw Ht Hp) as E.
  apply (f_equal length) in E. rewrite length_fmap, length_take in E. lia.
Qed.

Section invariant.
Variable size : Z.
Variable st0 : service.
Variable l0 : N → Lc.
Variable ph : gmap N cphase.
#[local] Abbreviation contexts0 := (rtp_contexts (mpRtpProducer st0)).
#[local] Abbreviation peers0 := (mRegisteredPeers (mpNetworkServer (mpRtpProducer st0))).
Record relay_inv w : Prop := mkRelayInv {
  ri_reach : reach (relay_service w) ph;
  ri_servers : servers (relay_service w) = servers st0;
  ri_contexts : rtp_contexts (mpRtpProducer (relay_service w)) = contexts0;
  ri_bound : bound (mpRtpProducer (relay_service w)) = bound (mpRtpProducer st0);
  ri_peers : mRegisteredPeers (network w) = peers0;
  ri_threads : threads w ≠ [];
  ri_workers : workers_hold std_hash ((received w).*1) (threads w);
  ri_buffers : ∃ n, buffers_at size n (network w);
  ri_loops j x d : loops w !! j = Some (x, d) →
    match x with
    | Holds data => ∃ m, data = slot_of size m
    | Got t => ∃ m, task_data t = slot_of size m
    | _ => True
    end;
  (** The bytes of a datagram on its way are where its task looks for them. *)
  ri_intact e :
    lost w = false → e ∈ pending std_hash w →
    read_slot (task_data e.1) (task_len e.1) (network w) = e.2;
}.

Lemma elem_of_pending w e :
  e ∈ pending std_hash w ↔
  (∃ i p, threads w !! i = Some p ∧ e ∈ waiting w i p) ∨
  (∃ j, loops w !! j = Some (Got e.1, e.2)).
Proof.
  unfold pending. rewrite elem_of_app, list_elem_of_omap, list_elem_of_In, in_concat.
  setoid_rewrite <- list_elem_of_In. split.
  - intros [(l & (i & p & -> & Hp)%elem_of_lookup_imap & He)|([x d] & Hx & Hg)].
    + left. by eauto.
    + right. apply list_elem_of_lookup in Hx as [j Hj]. exists j.
      unfold got in Hg. simpl in Hg. destruct x; try done. by injection Hg as <-.
  - intros [(i & p & Hp & He)|[j Hj]].
    + left. exists (waiting w i p). split; [|done].
      apply elem_of_lookup_imap. by eauto.
    + right. exists (Got e.1, e.2). split; [by eapply list_elem_of_lookup_2|].
      unfold got. simpl. by destruct e.
Qed.

#[local] Abbreviation looped w j dg x d x' s' :=
  (mkRelay (with_net s' (relay_service w)) (librtp w)
     (<[j := (x', bytes_after dg x d)]> (loops w))
     (received w ++ submits x d) (written w) (lost w || overwrites std_hash dg x w)).

Lemma submits_tasks x d :
  (submits x d).*1 = match x with Got t => [t] | _ => [] end.
Proof. by destruct x. Qed.

(** What worker [i] still has to do after a step of a loop. *)
Lemma unfinished_loop w j dg x d x' s' i p' :
  relay_inv w →
  submitted_to std_hash ((submits x d).*1) (threads w) (mpUdpWorkerThreads s') →
  mpUdpWorkerThreads s' !! i = Some p' →
  ∃ p, threads w !! i = Some p ∧ finished p' = finished p ∧
    waiting (looped w j dg x d x' s') i p' = waiting w i p ++
      of_worker (length (threads w)) i (submits x d).
Proof.
  intros Hinv [Hl Hsub] Hp'.
  destruct (lookup_lt_is_Some_2 (threads w) i) as [p Hp];
    [rewrite <- Hl; by eapply lookup_lt_Some|].
  destruct (Hsub _ _ Hp) as (p2 & Hp2 & _ & _ & Hf & _). simplify_eq.
  exists p. split_and!; [done|done|]. unfold unfinished. simpl.
  unfold threads at 1, network. simpl. rewrite Hl, Hf.
  unfold mine. rewrite filter_app, drop_app_le; [done|].
  by eapply finished_le; [apply Hinv|..].
Qed.

(** A step of a loop adds the datagram it received and no other to those on their
    way. *)
Lemma pending_loop w j dg x d x' s' e :
  relay_inv w →
  submitted_to std_hash ((submits x d).*1) (threads w) (mpUdpWorkerThreads s') →
  loops w !! j = Some (x, d) →
  e ∈ pending std_hash (looped w j dg x d x' s') →
  e ∈ pending std_hash w ∨ x' = Got e.1 ∧ e.2 = bytes_after dg x d.
Proof.
  intros Hinv Hsub Hj. rewrite !elem_of_pending.
  intros [(i & p' & Hp' & He)|[j' Hj']].
  - change (mpUdpWorkerThreads s' !! i = Some p') in Hp'.
    destruct (unfinished_loop w j dg x d x' s' i p' Hinv Hsub Hp') as (p & Hp & _ & Hu).
    rewrite Hu in He. left. apply elem_of_app in He as [He|He]; [left; by eauto|].
    apply list_elem_of_filter in He as [_ He]. destruct x; simpl in He;
      try by apply elem_of_nil in He. apply list_elem_of_singleton in He as ->.
    right. by exists j.
  - simpl in Hj'. apply list_lookup_insert_Some in Hj' as [(-> & [= -> ->] & _)|(_ & Hj')];
      [by right|]. left. right. by eauto.
Qed.

(** Every step of a loop is possible, and where it leaves the buffers. *)
Lemma loop_step_ok w j dg x d :
  relay_inv w → loops w !! j = Some (x, d) →
  ∃ x' s', loop_step std_hash dg x (network w) = Done (x', s', []) ∧
    (∃ n, buffers_at size n s') ∧ mRegisteredPeers s' = mRegisteredPeers (network w) ∧
    match x' with
    | Holds data => ∃ m, data = slot_of size m
    | Got t => ∃ m data, x = Holds data ∧ data = slot_of size m ∧ task_data t = data ∧
        dg ≠ None ∧ read_slot (task_data t) (task_len t) s' = bytes_after dg x d
    | _ => True
    end ∧
    (∀ sl len, (∀ data, x = Holds data → dg ≠ None → sl ≠ data) →
       read_slot sl len s' = read_slot sl len (network w)).
Proof.
  intros Hinv Hj. destruct (ri_buffers _ Hinv) as [n Hat].
  pose proof (ri_loops _ Hinv _ _ _ Hj) as Hx. destruct x as [| |data|t]; simpl.
  - exists AtTop, (network w). split_and!; [done|by eauto|done|done|done].
  - destruct (alloc_slot_spec _ _ _ Hat) as (s1 & -> & Hat1 & (_ & _ & Hp) & Hb). orun.
    exists (Holds (slot_of size n)), s1. split_and!; [done|by eauto|done|by exists n|].
    intros sl len _. unfold read_slot. by rewrite Hb.
  - destruct dg as [[addr payload]|]; cycle 1.
    { eexists _, _. by split_and!; [|eauto|..]. }
    destruct Hx as [m ->].
    destruct (recvfrom_spec size n m payload _ Hat)
      as (s1 & -> & Hat1 & (_ & _ & Hp) & Hread & Hother). orun.
    eexists _, _. split_and!; [done|by eauto|done| |].
    + by exists m, (slot_of size m).
    + intros sl len Hne. apply Hother. by apply Hne.
  - destruct (submit_to_spec std_hash t (network w) (ri_threads _ Hinv)
      (workers_hold_alive _ _ _ (ri_workers _ Hinv))) as (ws' & E & Hsub).
    destruct (mpUdpWorkerThreads (network w)) as [|q qs] eqn:Ews;
      [by destruct (ri_threads _ Hinv)|]. rewrite <- Ews in E. rewrite <- Ews, E. orun.
    eexists _, _. split_and!; [done| |done|done|done].
    exists n. by destruct Hat; split.
Qed.

Lemma loop_submitted w dg x d x' s' :
  relay_inv w → loop_step std_hash dg x (network w) = Done (x', s', []) →
  submitted_to std_hash ((submits x d).*1) (threads w) (mpUdpWorkerThreads s').
Proof.
  intros Hinv Hst. rewrite submits_tasks.
  eapply loop_step_submits; [apply Hinv| |done].
  eapply workers_hold_alive, Hinv.
Qed.

Lemma loop_inv w j dg x d x' s' :
  relay_inv w → loops w !! j = Some (x, d) →
  loop_step std_hash dg x (network w) = Done (x', s', []) →
  relay_inv (looped w j dg x d x' s').
Proof.
  intros Hinv Hj Hst. pose proof (loop_submitted w dg x d x' s' Hinv Hst) as Hsub.
  destruct (loop_step_ok w j dg x d Hinv Hj) as (x1 & s1 & E & Hbuf & Hp & Hx' & Hkeep).
  rewrite E in Hst. injection Hst as -> ->.
  split; try apply Hinv.
  - apply (with_net_reach mem Hmem), Hinv.
  - change (mRegisteredPeers s' = peers0). rewrite Hp. apply Hinv.
  - change (mpUdpWorkerThreads s' ≠ []). destruct Hsub as [Hl _].
    pose proof (ri_threads _ Hinv) as Hne.
    intros Hnil. rewrite Hnil in Hl. by destruct (threads w).
  - simpl. rewrite fmap_app. eapply workers_hold_submitted; [apply Hinv|exact Hsub].
  - exact Hbuf.
  - intros j1 x1 d1. simpl. intros Hj1.
    apply list_lookup_insert_Some in Hj1 as [(-> & [= <- _] & _)|(_ & Hj1)];
      [|by apply (ri_loops _ Hinv _ _ _ Hj1)].
    destruct x'; try done. destruct Hx' as (m & data & _ & -> & -> & _). by eauto.
  - intros e. simpl. intros [Hlost Hov]%orb_false_iff He.
    change (read_slot (task_data e.1) (task_len e.1) s' = e.2).
    destruct (pending_loop w j dg x d x' s' e Hinv Hsub Hj He) as [He1|[-> ->]].
    + rewrite Hkeep; [by apply (ri_intact _ Hinv)|]. intros data -> Hdg Heq.
      destruct dg as [dg|]; [|done]. simpl in Hov.
      apply not_true_iff_false in Hov. apply Hov, existsb_exists. exists e.
      split; [by apply list_elem_of_In|]. by apply bool_decide_eq_true_2.
    + destruct Hx' as (m & data & _ & _ & _ & _ & Hr). exact Hr.
Qed.

(** A move of worker [i] finishes the next of its receptions, or none. *)
Lemma move_next w i p p' :
  relay_inv w → threads w !! i = Some p → moves p p' →
  finished p' = finished p ∧ ran p p' = [] ∨
  ∃ e, finished p' = finished p ++ [e.1] ∧ ran p p' = [e.1] ∧
    of_worker (length (threads w)) i (received w) !! length (finished p) = Some e.
Proof.
  intros Hinv Hp Hm. destruct (moves_finished _ _ Hm) as (r & Hf & Hr).
  assert (Hran : ran p p' = r) by (unfold ran; by rewrite Hf, drop_app_length).
  rewrite Hran. destruct r as [|t [|]]; [left; by rewrite Hf, app_nil_r| |simpl in Hr; lia].
  right. pose proof (workers_hold_move _ _ _ _ _ _ (ri_workers _ Hinv) Hp Hm) as Hw'.
  pose proof (finished_mine _ _ i p' (received w) Hw' eq_refl) as Hfm.
  rewrite list_lookup_insert_eq, length_insert in Hfm by by eapply lookup_lt_Some.
  specialize (Hfm eq_refl). rewrite Hf, length_app in Hfm. simpl in Hfm.
  assert (Ht : (finished p ++ [t]) !! length (finished p) = Some t)
    by (by rewrite lookup_app_r, Nat.sub_diag by lia).
  rewrite Hfm, list_lookup_fmap, lookup_take in Ht.
  rewrite decide_True in Ht by lia.
  destruct (of_worker _ i (received w) !! length (finished p)) as [e|] eqn:He; [|done].
  injection Ht as <-. by exists e.
Qed.

Lemma move_waiting w w' i p p' j q e :
  relay_inv w → threads w !! i = Some p → moves p p' →
  threads w' = <[i := p']> (threads w) → received w' = received w →
  threads w' !! j = Some q → e ∈ waiting w' j q →
  ∃ q0, threads w !! j = Some q0 ∧ e ∈ waiting w j q0.
Proof.
  intros Hinv Hp Hm Ht Hrx Hq He. unfold unfinished in *. rewrite Ht, length_insert, Hrx in He.
  rewrite Ht in Hq. apply list_lookup_insert_Some in Hq as [(-> & -> & _)|(_ & Hq)]; [|by eauto].
  exists p. split; [done|]. destruct (moves_finished _ _ Hm) as (r & Hf & _).
  rewrite Hf, length_app, <- drop_drop in He.
  by eapply subseteq_drop.
Qed.

Lemma move_pending w w' i p p' e :
  relay_inv w → threads w !! i = Some p → moves p p' →
  threads w' = <[i := p']> (threads w) → received w' = received w → loops w' = loops w →
  e ∈ pending std_hash w' → e ∈ pending std_hash w.
Proof.
  intros Hinv Hp Hm Ht Hrx Hl. rewrite !elem_of_pending, Hl.
  intros [(j & q & Hq & He)|?]; [|by right]. left.
  destruct (move_waiting w w' i p p' j q e) as (q0 & ? & ?); try done. by eauto.
Qed.

(** ** What the clients get *)

(** The datagrams of the peer that its worker has finished. *)
Definition handled w (q : string) : list (list Z) :=
  match threads w !! worker_index std_hash q (length (threads w)) with
  | Some p =>
      (filter (fun e => task_peer e.1 = q)
         (take (length (finished p))
            (of_worker (length (threads w)) (worker_index std_hash q (length (threads w)))
               (received w)))).*2
  | None => []
  end.

(** The peer [q] sends the camera of context [ctx], and nobody else does. *)
Record camera (q : string) (ctx : N) (c : RtpVideoContext) : Prop := mkCamera {
  camera_peer : ∃ pr, peers0 !! q = Some pr ∧ processFunc pr = ctx;
  camera_context : contexts0 !! ctx = Some c;
  camera_only q' pr : peers0 !! q' = Some pr → processFunc pr = ctx → q' = q;
}.

#[local] Abbreviation packets := (camera_packets demuxer encoder).

Record delivered w : Prop := mkDelivered {
  dl_librtp q ctx c :
    lost w = false → camera q ctx c → librtp w ctx = (packets ctx c (handled w q) (l0 ctx)).2;
  dl_sizes q ctx c :
    lost w = false → camera q ctx c →
    Forall (fun d => (2 ≤ length d ≤ 1596)%nat) (packets ctx c (handled w q) (l0 ctx)).1;
  dl_playing q ctx c cl es k :
    lost w = false → camera q ctx c → own_handle st0 cl es → ph !! cl = Some (Playing k) →
    bound (mpRtpProducer st0) !! k = Some (rtp_proxy c) →
    sent (server es) (written w)
    = map (fun d => frame_bytes d (nth 1 d 0)) (packets ctx c (handled w q) (l0 ctx)).1;
  dl_silent cl es :
    own_handle st0 cl es → (∀ k, ph !! cl ≠ Some (Playing k)) →
    sent (server es) (written w) = [];
}.

(** The task of the next reception finds its bytes. *)
Lemma run_task_intact w i p e :
  relay_inv w → lost w = false → threads w !! i = Some p →
  of_worker (length (threads w)) i (received w) !! length (finished p) = Some e →
  run_task e.1 (network w)
  = match peers0 !! task_peer e.1 with
    | Some pr => [Increment (name pr) (Z.of_nat (task_len e.1)); Process (processFunc pr) e.2]
    | None => []
    end.
Proof.
  intros Hinv Hlost Hp He. unfold run_task, dispatch.
  rewrite (ri_peers _ Hinv), (ri_intact _ Hinv e Hlost); [by destruct (peers0 !! _)|].
  apply elem_of_pending. left. exists i, p. split; [done|]. unfold unfinished. apply list_elem_of_lookup. exists 0%nat.
  by rewrite lookup_drop, Nat.add_0_r.
Qed.

(** The packets of one proxy among those of one proxy. *)
Lemma packets_for_map a b (ds : list (list Z)) :
  packets_for a (map (pair b) ds) = if decide (b = a) then ds else [].
Proof.
  unfold packets_for. induction ds as [|d ds IH]; simpl; [by case_decide|].
  destruct (decide (b = a)) as [H|H];
    [rewrite (bool_decide_eq_true_2 _ H); f_equal|rewrite (bool_decide_eq_false_2 _ H)];
    exact IH.
Qed.

Lemma packets_for_sizes a (pkts : list (N * list Z)) :
  Forall (fun r => (2 ≤ length r.2 ≤ 1596)%nat) pkts →
  Forall (fun d => (2 ≤ length d ≤ 1596)%nat) (packets_for a pkts).
Proof.
  intros Hs. rewrite Forall_forall in Hs. apply Forall_forall. intros d.
  unfold packets_for. rewrite list_elem_of_omap. intros ([b d'] & He & Hd).
  simpl in Hd. case_bool_decide; [|done]. injection Hd as <-. by apply (Hs _ He).
Qed.

(** What a finished reception means for a camera: its packets if it is its own, and
    nothing otherwise. *)
Lemma run_next w i p e q ctx c (l : N → Lc) :
  relay_inv w → lost w = false → threads w !! i = Some p →
  of_worker (length (threads w)) i (received w) !! length (finished p) = Some e →
  camera q ctx c →
  let r := relayed (at_context demuxer) (at_context encoder) contexts0
             (run_task e.1 (network w)) l in
  let d := datagram_packets demuxer encoder ctx c e.2 (l ctx) in
  if decide (task_peer e.1 = q)
  then packets_for (rtp_proxy c) r.1 = d.1 ∧ r.2 ctx = d.2
  else packets_for (rtp_proxy c) r.1 = [] ∧ r.2 ctx = l ctx.
Proof.
  intros Hinv Hlost Hp He [(pr & Hpr & Hf) Hc Honly].
  rewrite (run_task_intact w i p e Hinv Hlost Hp He).
  destruct (peers0 !! task_peer e.1) as [pr'|] eqn:Hpr'; cycle 1.
  { by rewrite decide_False by congruence. }
  pose proof (relayed_datagram demuxer encoder contexts0 (name pr')
    (Z.of_nat (task_len e.1)) (processFunc pr') e.2 l) as Hrel. cbn zeta in Hrel |- *.
  destruct (decide (task_peer e.1 = q)) as [Heq|Hne].
  - rewrite Heq, Hpr in Hpr'. injection Hpr' as <-. rewrite Hf, Hc in Hrel. rewrite Hf.
    destruct Hrel as [-> [-> _]]. by rewrite packets_for_map, decide_True.
  - assert (Hctx : processFunc pr' ≠ ctx) by (intros Hx; by apply Hne, (Honly _ pr')).
    destruct (contexts0 !! processFunc pr') as [c'|] eqn:Hc'; [|by rewrite Hrel].
    destruct Hrel as [-> [_ Hl]]. rewrite packets_for_map, Hl by done.
    rewrite decide_False; [done|]. intros Hx. apply Hctx.
    pose proof (ri_contexts _ Hinv) as Hcs.
    eapply (proxy_context_inj mem Hmem); [apply Hinv|rewrite Hcs; done..|done].
Qed.

(** The datagrams handled after a reception was finished. *)
Lemma handled_next w w' i p p' e q :
  threads w !! i = Some p → threads w' = <[i := p']> (threads w) →
  received w' = received w → finished p' = finished p ++ [e.1] →
  of_worker (length (threads w)) i (received w) !! length (finished p) = Some e →
  handled w' q = if decide (task_peer e.1 = q) then handled w q ++ [e.2] else handled w q.
Proof.
  intros Hp Ht Hr Hf He. unfold handled. rewrite Ht, length_insert, Hr.
  set (N := length (threads w)) in *.
  assert (Hi : worker_index std_hash (task_peer e.1) N = i).
  { apply list_elem_of_lookup_2 in He. by apply list_elem_of_filter in He as [? _]. }
  destruct (decide (worker_index std_hash q N = i)) as [Hq|Hq].
  - rewrite Hq, list_lookup_insert_eq, Hp by by eapply lookup_lt_Some.
    rewrite Hf, length_app, Nat.add_1_r. rewrite (take_S_r _ _ e) by done.
    rewrite filter_app. case_decide as Hd.
    + rewrite filter_cons_True, fmap_app by done. done.
    + rewrite filter_cons_False by done. by rewrite app_nil_r.
  - rewrite list_lookup_insert_ne by congruence. rewrite decide_False; [done|].
    intros <-. congruence.
Qed.

(** The datagrams handled stay when more are submitted. *)
Lemma handled_loop w j dg x d x' s' q :
  relay_inv w → loop_step std_hash dg x (network w) = Done (x', s', []) →
  handled (looped w j dg x d x' s') q = handled w q.
Proof.
  intros Hinv Hst. destruct (loop_submitted w dg x d x' s' Hinv Hst) as [Hl Hsub].
  match goal with |- handled ?x _ = _ => set (w' := x) end.
  assert (Ht : threads w' = mpUdpWorkerThreads s') by done.
  unfold handled. rewrite !Ht, Hl. cbn [received w'].
  destruct (threads w !! worker_index std_hash q (length (threads w))) as [p|] eqn:Hp.
  - destruct (Hsub _ _ Hp) as (p' & -> & _ & _ & -> & _). unfold mine. rewrite filter_app.
    rewrite take_app_le; [done|]. by eapply finished_le; [apply Hinv|..].
  - rewrite (proj2 (lookup_ge_None _ _)); [done|]. apply lookup_ge_None in Hp. lia.
Qed.

#[local] Abbreviation moved w i p' st l out :=
  (mkRelay (with_net (with_threads (<[i := p']> (threads w)) (network w)) st) l
     (loops w) (received w) (written w ++ out) (lost w)).

Lemma move_inv w i p p' st l out :
  relay_inv w → threads w !! i = Some p → moves p p' →
  reach st ph → servers st = servers (relay_service w) →
  mpRtpProducer st = mpRtpProducer (relay_service w) →
  relay_inv (moved w i p' st l out).
Proof.
  intros Hinv Hp Hm Hr Hs Hpr. split.
  - by apply (with_net_reach mem Hmem).
  - simpl. rewrite Hs. apply Hinv.
  - simpl. rewrite Hpr. apply Hinv.
  - simpl. rewrite Hpr. apply Hinv.
  - apply Hinv.
  - change (<[i := p']> (threads w) ≠ []). intros E%(f_equal length).
    rewrite length_insert in E. by apply nil_length_inv, (ri_threads _ Hinv) in E.
  - change (workers_hold std_hash ((received w).*1) (<[i := p']> (threads w))).
    by eapply workers_hold_move; [apply Hinv|..].
  - destruct (ri_buffers _ Hinv) as [n Hat]. exists n. by destruct Hat; split.
  - apply (ri_loops _ Hinv).
  - intros e Hlost He. apply (ri_intact _ Hinv); [done|].
    by eapply (move_pending w (moved w i p' st l out) i p p').
Qed.

Lemma own_handle_same w cl es :
  relay_inv w → own_handle st0 cl es → own_handle (relay_service w) cl es.
Proof. intros Hinv. unfold own_handle. by rewrite (ri_servers _ Hinv). Qed.

(** Nothing new is handled and sent. *)
Lemma delivered_idle w w' :
  delivered w → librtp w' = librtp w → (∀ q, handled w' q = handled w q) →
  written w' = written w → (lost w' = false → lost w = false) → delivered w'.
Proof.
  intros [H1 H2 H3 H4] Hl Hh Hw Hlost. split.
  - intros q ctx c ?%Hlost. rewrite Hl, Hh. by apply H1.
  - intros q ctx c ?%Hlost. rewrite Hh. by apply H2.
  - intros q ctx c cl es k ?%Hlost. rewrite Hw, Hh. by apply H3.
  - intros cl es. rewrite Hw. apply H4.
Qed.

Lemma delivered_next w w' i p e out :
  relay_inv w → delivered w → threads w !! i = Some p →
  of_worker (length (threads w)) i (received w) !! length (finished p) = Some e →
  (∀ q, handled w' q
        = if decide (task_peer e.1 = q) then handled w q ++ [e.2] else handled w q) →
  let r := relayed (at_context demuxer) (at_context encoder) contexts0
             (run_task e.1 (network w)) (librtp w) in
  relay_fits (at_context demuxer) (at_context encoder) contexts0
    (run_task e.1 (network w)) (librtp w) = true →
  librtp w' = r.2 → written w' = written w ++ out → lost w' = lost w →
  client_gets mem (relay_service w) ph r.1 out → delivered w'.
Proof.
  intros Hinv [H1 H2 H3 H4] Hp He Hh r Hfit Hl Hw Hlost Hg.
  assert (Hn : ∀ q ctx c, lost w = false → camera q ctx c →
    let d := datagram_packets demuxer encoder ctx c e.2 (librtp w ctx) in
    if decide (task_peer e.1 = q)
    then packets_for (rtp_proxy c) r.1 = d.1 ∧ r.2 ctx = d.2
    else packets_for (rtp_proxy c) r.1 = [] ∧ r.2 ctx = librtp w ctx)
    by (intros q ctx c ??; by eapply run_next).
  split; [intros q ctx c|intros q ctx c|intros q ctx c cl es k|]; rewrite ?Hlost.
  - intros Hno Hcam. rewrite Hl, Hh. pose proof (Hn q ctx c Hno Hcam) as Hn1.
    cbn zeta in Hn1. case_decide; destruct Hn1 as [_ ->]; rewrite (H1 q ctx c Hno Hcam); [|done].
    by rewrite camera_packets_snoc.
  - intros Hno Hcam. rewrite Hh. pose proof (Hn q ctx c Hno Hcam) as Hn1.
    cbn zeta in Hn1. case_decide; [|by apply H2]. destruct Hn1 as [E _].
    rewrite camera_packets_snoc. simpl. apply Forall_app. split; [by apply H2|].
    rewrite <- (H1 q ctx c Hno Hcam), <- E. by apply packets_for_sizes, relayed_sizes.
  - intros Hno Hcam Hown Hpl Hb. rewrite Hw, Hh, sent_app.
    rewrite (H3 q ctx c cl es k Hno Hcam Hown Hpl Hb).
    destruct (Hg cl es (own_handle_same w cl es Hinv Hown)) as [Hg1 _].
    rewrite (Hg1 k (rtp_proxy c) Hpl)
      by exact (eq_trans (f_equal (lookup k) (ri_bound _ Hinv)) Hb).
    pose proof (Hn q ctx c Hno Hcam) as Hn1. cbn zeta in Hn1.
    case_decide; destruct Hn1 as [-> _]; [|by rewrite app_nil_r].
    rewrite camera_packets_snoc, (H1 q ctx c Hno Hcam). simpl. by rewrite map_app.
  - intros cl es Hown Hnp. rewrite Hw, sent_app, (H4 cl es Hown Hnp).
    by destruct (Hg cl es (own_handle_same w cl es Hinv Hown)) as [_ ->].
Qed.

(** A move of a pool that finishes nothing. *)
Lemma handled_stay w i p p' st l out q :
  threads w !! i = Some p → finished p' = finished p →
  handled (moved w i p' st l out) q = handled w q.
Proof.
  intros Hp Hf. unfold handled.
  change (threads (moved w i p' st l out)) with (<[i := p']> (threads w)).
  rewrite length_insert. cbn [received].
  set (j := worker_index std_hash q (length (threads w))).
  destruct (decide (j = i)) as [->|Hne].
  - rewrite list_lookup_insert_eq, Hp, Hf by by eapply lookup_lt_Some. done.
  - by rewrite list_lookup_insert_ne.
Qed.

(** The events of the tasks that a move finishes. *)
Definition move_events w (p p' : pool task) : list (net_event N) :=
  concat (map (fun t => run_task t (network w)) (ran p p')).

(** Every move of a pool is handled to its end, unless something does not fit. *)
Lemma move_ok w i p p' :
  relay_inv w → delivered w → threads w !! i = Some p → moves p p' →
  if relay_fits (at_context demuxer) (at_context encoder) contexts0
       (move_events w p p') (librtp w)
  then
    ∃ st l out, run_tasks demuxer encoder (ran p p') w = Done (st, l, out) ∧
      relay_inv (moved w i p' st l out) ∧ delivered (moved w i p' st l out)
  else ∃ f, run_tasks demuxer encoder (ran p p') w = Fault f ∧ overrun f.
Proof.
  intros Hinv Hd Hp Hm. unfold run_tasks. fold (move_events w p p').
  pose proof (relay_gets mem Hmem (at_context demuxer) (at_context encoder)
    (move_events w p p') (librtp w) (relay_service w) ph (ri_reach _ Hinv)) as Hg.
  cbn zeta in Hg. rewrite (ri_contexts _ Hinv) in Hg.
  destruct (relay_fits _ _ _ _ _) eqn:Hfit; [|done].
  destruct Hg as (st & out & E & (Hr & Hs & Hpr) & Hg).
  eexists _, _, _. split; [exact E|]. split; [by eapply move_inv|].
  destruct (move_next w i p p' Hinv Hp Hm) as [[Hf Hran]|(e & Hf & Hran & He)].
  - unfold move_events in *. rewrite Hran in *. simpl in E. injection E as <- <-.
    apply (delivered_idle w); [done|done| |apply app_nil_r|done].
    intros q. by eapply handled_stay.
  - assert (Hevs : move_events w p p' = run_task e.1 (network w)).
    { unfold move_events. rewrite Hran. simpl. apply app_nil_r. }
    rewrite Hevs in *. eapply (delivered_next w _ i p e out); try done.
    intros q. by eapply (handled_next w _ i p p').
Qed.

Lemma step_ok w w' :
  relay_inv w → delivered w → step w w' → relay_inv w' ∧ delivered w'.
Proof.
  intros Hinv Hd Hs. destruct Hs as [w j dg x d x' s' Hj Hst|w i p p' st l out Hp Hm Hrun].
  - split; [by eapply loop_inv|].
    apply (delivered_idle w); [done|done| |done|by intros [? _]%orb_false_iff].
    intros q. by apply handled_loop.
  - pose proof (move_ok w i p p' Hinv Hd Hp Hm) as Hmv.
    destruct (relay_fits _ _ _ _ _); [|destruct Hmv as (f & E & _); congruence].
    destruct Hmv as (st1 & l1 & out1 & E & Hi & Hd').
    rewrite E in Hrun. by injection Hrun as <- <- <-.
Qed.

Lemma run_ok w w' :
  rtc step w w' → relay_inv w → delivered w → relay_inv w' ∧ delivered w'.
Proof.
  induction 1 as [|w1 w2 w3 Hs _ IH]; [done|]. intros Hi Hd.
  destruct (step_ok _ _ Hi Hd Hs). by apply IH.
Qed.

(** What was received from a peer, and which of it is handled. *)
Definition payloads w (q : string) : list (list Z) :=
  (filter (fun e => task_peer e.1 = q) (received w)).*2.

Lemma handled_payloads w q :
  relay_inv w →
  ∃ rest, payloads w q = handled w q ++ rest ∧
    ((∀ i p, threads w !! i = Some p → nf internal p) → rest = []).
Proof.
  intros Hinv. set (N := length (threads w)). set (i := worker_index std_hash q N).
  assert (Hlt : (i < N)%nat).
  { apply worker_index_lt. pose proof (ri_threads _ Hinv). subst N.
    destruct (threads w); [done|simpl; lia]. }
  destruct (lookup_lt_is_Some_2 (threads w) i Hlt) as [p Hp].
  assert (Hall : payloads w q
    = (filter (fun e => task_peer e.1 = q) (of_worker N i (received w))).*2).
  { unfold payloads, mine. f_equal. rewrite list_filter_filter. apply list_filter_iff.
    intros e. split; [by intros <-|by intros [? _]]. }
  assert (Hh : handled w q = (filter (fun e => task_peer e.1 = q)
    (take (length (finished p)) (of_worker N i (received w)))).*2).
  { unfold handled. fold N i. by rewrite Hp. }
  exists ((filter (fun e => task_peer e.1 = q)
    (drop (length (finished p)) (of_worker N i (received w)))).*2). split.
  - rewrite Hall, Hh, <- fmap_app, <- filter_app. by rewrite take_drop.
  - intros Hnf. destruct (ri_workers _ Hinv _ _ Hp) as (Hr & Hs & Hsub).
    destruct (stuck_drained 1 p (reachable_inv _ _ Hr) ltac:(lia) Hs (Hnf _ _ Hp)) as [Ht Hrn].
    apply single_order in Hr. rewrite Ht, Hrn, !app_nil_r in Hr.
    rewrite Hr, tasks_for_mine in Hsub. rewrite drop_ge; [done|].
    rewrite Hsub, length_fmap. done.
Qed.

(** A thread that runs a task of a peer is the only one, and it is at one task. *)
Lemma peer_exclusive w i j p p' t t' :
  relay_inv w → threads w !! i = Some p → threads w !! j = Some p' →
  t ∈ running p → t' ∈ running p' → task_peer t = task_peer t' →
  i = j ∧ running p = [t].
Proof.
  intros Hinv Hp Hp' Ht Ht' Heq.
  assert (Hidx : ∀ k q x, threads w !! k = Some q → x ∈ running q →
    worker_index std_hash (task_peer x) (length (threads w)) = k).
  { intros k q x Hq Hx. destruct (ri_workers _ Hinv _ _ Hq) as (Hr & _ & Hs).
    apply single_order in Hr. rewrite Hs in Hr.
    assert (Hin : x ∈ tasks_for std_hash (length (threads w)) k ((received w).*1))
      by (rewrite Hr; set_solver).
    by apply list_elem_of_filter in Hin as [? _]. }
  split; [by rewrite <- (Hidx i p t), <- (Hidx j p' t'), Heq|].
  destruct (ri_workers _ Hinv _ _ Hp) as (Hr & _ & _).
  destruct (pool_single_worker_order p Hr) as [_ Hl].
  destruct (running p) as [|x [|]]; simpl in Hl; [by apply elem_of_nil in Ht| |lia].
  by apply list_elem_of_singleton in Ht as ->.
Qed.

(** The service before the first datagram. *)
Definition relay_start (m : nat) : relay_state (Lc := Lc) :=
  mkRelay st0 l0 (replicate m (Returned, [])) [] [] false.

Lemma start_ok n m :
  reach st0 ph → buffers_at size n (mpNetworkServer (mpRtpProducer st0)) →
  mpUdpWorkerThreads (mpNetworkServer (mpRtpProducer st0)) ≠ [] →
  Forall (fun p => p = newPool 1) (mpUdpWorkerThreads (mpNetworkServer (mpRtpProducer st0))) →
  relay_inv (relay_start m) ∧ delivered (relay_start m).
Proof.
  intros Hr Hat Hne Hnew.
  assert (Hloops : ∀ j x d, loops (relay_start m) !! j = Some (x, d) → x = Returned).
  { intros j x d Hj. apply lookup_replicate in Hj as [[= -> ->] _]. done. }
  split.
  - split; try done.
    + intros i p Hp. apply (Forall_lookup_1 _ _ _ _ Hnew) in Hp as ->.
      split_and!; [apply rtc_refl|done|done].
    + by exists n.
    + intros j x d Hj. by rewrite (Hloops _ _ _ Hj).
    + intros e _. rewrite elem_of_pending. intros [(i & p & _ & He)|[j Hj]].
      * change (e ∈ drop (length (finished p)) []) in He.
        rewrite drop_nil in He. by apply elem_of_nil in He.
      * by apply Hloops in Hj.
  - assert (Hh : ∀ q, handled (relay_start m) q = []).
    { intros q. unfold handled. destruct (_ !! _) as [p|]; [|done].
      change (of_worker _ _ (received _)) with (@nil (task * list Z)). by rewrite take_nil. }
    split; [intros q ctx c _ _|intros q ctx c _ _|intros q ctx c cl es k _ _ _ _ _|done];
      rewrite Hh; done || constructor.
Qed.
End invariant.

End delivery.

(** * Two datagrams on their way *)

Section demo.
#[local] Instance async_demo : VideoProducer RtpProducer := rtp_producer zero_memory.
#[local] Abbreviation state := (relay_state (Lc := nat)).
#[local] Abbreviation demo_step := (relay_step demo_demux demo_encode demo_hash).

(** The steps, computed. *)
Definition loop_next (j : nat) (dg : option (sockaddr_in * list Z)) (w : state)
  : option state :=
  '(x, d) ← loops w !! j;
  match loop_step demo_hash dg x (network w) with
  | Done (x', s', []) =>
      Some (mkRelay (with_net s' (relay_service w)) (librtp w)
              (<[j := (x', bytes_after dg x d)]> (loops w))
              (received w ++ submits x d) (written w)
              (lost w || overwrites demo_hash dg x w))
  | _ => None
  end.

Fixpoint loop_nexts (dgs : list (option (sockaddr_in * list Z))) (w : state)
  : option state :=
  match dgs with
  | [] => Some w
  | dg :: dgs' => w' ← loop_next 0 dg w; loop_nexts dgs' w'
  end.

Definition work (i : nat) (w : state) : option state :=
  p ← threads w !! i;
  p' ← worker_step 0 p;
  match run_tasks demo_demux demo_encode (ran p p') w with
  | Done (st, l, out) =>
      Some (mkRelay (with_net (with_threads (<[i := p']> (threads w)) (network w)) st) l
              (loops w) (received w) (written w ++ out) (lost w))
  | Fault _ => None
  end.

Lemma loop_next_step j dg w w' : loop_next j dg w = Some w' → demo_step w w'.
Proof.
  unfold loop_next. destruct (loops w !! j) as [[x d]|] eqn:Hj; simpl; [|done].
  destruct (loop_step demo_hash dg x (network w)) as [[[x' s'] [|]]|] eqn:E; try done.
  intros [= <-]. by apply relay_loop.
Qed.

Lemma loop_nexts_steps dgs w w' : loop_nexts dgs w = Some w' → rtc demo_step w w'.
Proof.
  revert w. induction dgs as [|dg dgs IH]; intros w; simpl; [by intros [= <-]|].
  destruct (loop_next 0 dg w) as [w1|] eqn:E; simpl; [|done].
  intros H. eapply rtc_l; [by eapply loop_next_step|by apply IH].
Qed.

Lemma work_step i w w' : work i w = Some w' → demo_step w w'.
Proof.
  unfold work. destruct (threads w !! i) as [p|] eqn:Hp; simpl; [|done].
  destruct (worker_step 0 p) as [p'|] eqn:Hs; simpl; [|done].
  destruct (run_tasks _ _ _ w) as [[[st l] out]|] eqn:E; [|done]. intros [= <-].
  eapply relay_move; [done| |done]. left. by eapply internal_worker.
Qed.

(** The session of Relay.v with two workers. *)
Definition async_producer : RtpProducer :=
  match initUdpServer demo_env 8 demo_async_config newNetworkServer with
  | Done s => newRtpProducer demo_producer_config s
  | Fault _ => demo_producer
  end.
Definition async_asked : service * gmap N cphase :=
  default (initial async_producer, ∅)
    (drun Close [EAccept 1 7 70; EOptions 7 demo_uri 3; EDescribe 7 demo_uri]
       (initial async_producer) ∅).
Definition async_invited : RtpProducer :=
  match on_invite (mkRtpEnv true true) 0 true demo_invited (mpRtpProducer async_asked.1) with
  | Done (p, _) => p
  | Fault _ => async_producer
  end.
Definition async_playing : service * gmap N cphase :=
  default async_asked
    (drun Close [ESdp 3 "v=0"; EPlay 7 demo_uri None]
       (with_producer async_invited async_asked.1) async_asked.2).

Lemma async_playing_reached : dreach Close async_playing.1 async_playing.2.
Proof.
  apply (invited_reached async_producer async_asked
    [EAccept 1 7 70; EOptions 7 demo_uri 3; EDescribe 7 demo_uri] (mkRtpEnv true true) 0 true
    demo_invited async_invited
    [PSdp 3 (gb_sdp "34020000001320000001" 96 "H264" 90000); PCall (SendAck "id7") 0 None]
    [ESdp 3 "v=0"; EPlay 7 demo_uri None] async_playing);
    [apply newRtpProducer_ok|vm_compute; reflexivity..].
Qed.

(** Both datagrams are received; the worker has finished the first one. *)
Definition async_start : state := relay_start async_playing.1 (fun _ => 0%nat) 1.
Definition demo_loop : list (option (sockaddr_in * list Z)) :=
  [None; None; Some (demo_addr, [7; 8; 9; 10]); None; None; Some (demo_addr, [1]); None].
Definition async_received : state := default async_start (loop_nexts demo_loop async_start).
Definition async_started : state := default async_received (work 1 async_received).
Definition async_end : state := default async_started (work 1 async_started).

Lemma async_run : rtc demo_step async_start async_end.
Proof.
  transitivity async_received.
  { apply (loop_nexts_steps demo_loop). vm_compute. reflexivity. }
  apply (rtc_l _ _ async_started); [apply (work_step 1); vm_compute; reflexivity|].
  apply rtc_once, (work_step 1). vm_compute. reflexivity.
Qed.

Lemma async_buffers :
  buffers_at 20971520 0 (mpNetworkServer (mpRtpProducer async_playing.1)).
Proof.
  assert (Hn : mpNetworkServer (mpRtpProducer async_playing.1)
    = registerPeer "127.0.0.1:12345" 0%N (mpNetworkServer async_producer))
    by (vm_compute; reflexivity).
  rewrite Hn. destruct (proj1 (proj2 (proj2 (init_done demo_env 8 demo_async_config _
    ltac:(done) (eq_refl : initUdpServer demo_env 8 demo_async_config newNetworkServer
             = Done (mpNetworkServer async_producer)))))). by split.
Qed.

(** The state of the session. *)
Definition async_context : RtpVideoContext :=
  mkRtpVideoContext demo_video 3 "id7" true true (Some 1600) (Some 4194304).

Lemma async_contexts : rtp_contexts (mpRtpProducer async_playing.1) = {[0%N := async_context]}.
Proof. vm_compute. reflexivity. Qed.

Lemma async_threads :
  mpUdpWorkerThreads (mpNetworkServer (mpRtpProducer async_playing.1))
  = [newPool 1; newPool 1].
Proof. vm_compute. reflexivity. Qed.

Lemma async_peers :
  mRegisteredPeers (mpNetworkServer (mpRtpProducer async_playing.1))
  = {["127.0.0.1:12345" := mkPeer "127.0.0.1:12345" 0%N]}.
Proof. vm_compute. reflexivity. Qed.

Lemma async_servers : servers async_playing.1 = {[7%N := mkEventRtspServer 70 1]}.
Proof. vm_compute. reflexivity. Qed.

Lemma async_camera : camera async_playing.1 "127.0.0.1:12345" 0 async_context.
Proof.
  split; [|by rewrite async_contexts|].
  - rewrite async_peers. by eexists.
  - intros q' pr Hq' _. rewrite async_peers in Hq'.
    by apply lookup_singleton_Some in Hq' as [<- _].
Qed.

Lemma async_own : own_handle async_playing.1 7 (mkEventRtspServer 70 1).
Proof.
  unfold own_handle. rewrite async_servers. split; [done|].
  intros c' es' Hc' _. by apply lookup_singleton_Some in Hc' as [<- _].
Qed.

Lemma demo_camera_packets ds x :
  (camera_packets demo_demux demo_encode 0 async_context ds x).1
  = map (fun d => [128; 96; 0; 0; 1] ++ take 3 d) ds.
Proof.
  revert x. induction ds as [|d ds IH]; intros x; [done|]. simpl. specialize (IH (S x)).
  by destruct (camera_packets _ _ 0 _ ds (S x)); simpl in *; subst.
Qed.
End demo.

