(* ===== verification/Config.v ===== *)
(** The configuration file of core/ffvms.cpp. [main] reads a JSON document, and each
    component gets its [Config] from one section of it, through the conversions
    that [NLOHMANN_DEFINE_TYPE_INTRUSIVE] generates: every key named in the macro
    is read with [at], which throws when it is missing. nlohmann's JSON library is
    a parameter: the class [Json] has the operations used and [JsonLaws] what the
    library documents of them. *)

From stdpp Require Import base gmap strings list numbers.
From S2P Require Import Prelude ThreadPool NetworkServer RtspService RtspSessions FileProducer RtpProducer Metrics System.

#[local] Open Scope Z_scope.

(** * The JSON library *)

(** [json_index k j] is [j[k]] of a [j] that may change: the value and [j]
    afterwards; [json_set k v j] is [j[k] = v]. [None] is an exception. *)
Class Json (J : Type) : Type := {
  json_null : J;
  json_of_int : Z → J;
  json_of_string : string → J;
  json_index : string → J → option (J * J);
  json_set : string → J → J → option J;
  json_at : string → J → option J;
  get_int : J → option Z;
  get_string : J → option string;
}.

(** [at] throws on a key that is missing and on a value that is no object, where
    [operator[]] makes an object of null and gives a missing key the value null. *)
Class JsonLaws (J : Type) `{Json J} : Prop := {
  at_null k : json_at k json_null = None;
  index_at k j v : json_at k j = Some v → json_index k j = Some (v, j);
  index_missing k j v j' :
    json_at k j = None → json_index k j = Some (v, j') → v = json_null;
  set_null k v : is_Some (json_set k v json_null);
  set_object k k' v w j : json_at k' j = Some w → is_Some (json_set k v j);
  at_set k v j j' : json_set k v j = Some j' → json_at k j' = Some v;
  at_set_other k k' v j j' :
    json_set k v j = Some j' → k ≠ k' → json_at k' j' = json_at k' j;
  get_int_of n : in_int32 n = true → get_int (json_of_int n) = Some n;
  get_string_of s : get_string (json_of_string s) = Some s;
}.

(** * Reading and writing the sections *)

Section config.
Context {J : Type} `{Json J}.

(** [nlohmann_json_j.at(key).get_to(nlohmann_json_t.key)] *)
Definition get_field {A} (get : J → option A) (key : string) (j : J) : outcome A :=
  v ← of_option (Throw "out_of_range") (json_at key j);
  of_option (Throw "type_error") (get v).

(** [nlohmann_json_j[key] = nlohmann_json_t.key], key by key from null. *)
Fixpoint set_fields (fs : list (string * J)) (j : J) : outcome J :=
  match fs with
  | [] => Done j
  | (key, v) :: fs' =>
      j ← of_option (Throw "type_error") (json_set key v j);
      set_fields fs' j
  end.

Definition Options_from_json (j : J) : outcome Options :=
  exposer_port ← get_field get_int "exposer_port" j;
  family_prefix ← get_field get_string "family_prefix" j;
  endpoint_uri ← get_field get_string "endpoint_uri" j;
  Done (mkOptions exposer_port family_prefix endpoint_uri).

Definition Options_to_json (c : Options) : outcome J :=
  set_fields [("exposer_port", json_of_int (exposer_port c));
              ("family_prefix", json_of_string (family_prefix c));
              ("endpoint_uri", json_of_string (endpoint_uri c))] json_null.

Definition NetworkConfig_from_json (j : J) : outcome NetworkConfig :=
  port ← get_field get_int "port" j;
  event_loop_num ← get_field get_int "event_loop_num" j;
  async_worker_num ← get_field get_int "async_worker_num" j;
  Done (mkNetworkConfig port event_loop_num async_worker_num).

Definition NetworkConfig_to_json (c : NetworkConfig) : outcome J :=
  set_fields [("port", json_of_int (port c));
              ("event_loop_num", json_of_int (event_loop_num c));
              ("async_worker_num", json_of_int (async_worker_num c))] json_null.

Definition ProducerConfig_from_json (j : J) : outcome ProducerConfig :=
  file_event_thread_num ← get_field get_int "file_event_thread_num" j;
  network_receive_host ← get_field get_string "network_receive_host" j;
  sipper_host ← get_field get_string "sipper_host" j;
  rtp_jitter_in_ms ← get_field get_int "rtp_jitter_in_ms" j;
  max_bandwidth_in_mb ← get_field get_int "max_bandwidth_in_mb" j;
  rpc_timeout_in_ms ← get_field get_int "rpc_timeout_in_ms" j;
  Done (mkProducerConfig file_event_thread_num network_receive_host sipper_host
          rtp_jitter_in_ms max_bandwidth_in_mb rpc_timeout_in_ms).

Definition ProducerConfig_to_json (c : ProducerConfig) : outcome J :=
  set_fields [("file_event_thread_num", json_of_int (file_event_thread_num c));
              ("network_receive_host", json_of_string (network_receive_host c));
              ("sipper_host", json_of_string (sipper_host c));
              ("rtp_jitter_in_ms", json_of_int (rtp_jitter_in_ms c));
              ("max_bandwidth_in_mb", json_of_int (max_bandwidth_in_mb c));
              ("rpc_timeout_in_ms", json_of_int (rpc_timeout_in_ms c))] json_null.

Definition ServiceConfig_from_json (j : J) : outcome ServiceConfig :=
  rtsp_port ← get_field get_int "rtsp_port" j;
  event_thread_num ← get_field get_int "event_thread_num" j;
  Done (mkServiceConfig rtsp_port event_thread_num).

Definition ServiceConfig_to_json (c : ServiceConfig) : outcome J :=
  set_fields [("rtsp_port", json_of_int (rtsp_port c));
              ("event_thread_num", json_of_int (event_thread_num c))] json_null.

(** * [main] on its configuration file *)

(** [config[key]], converted to the type of the parameter it is passed to. *)
Definition config_section {A} (from_json : J → outcome A) (key : string) (config : J)
  : outcome (A * J) :=
  '(v, config) ← of_option (Throw "type_error") (json_index key config);
  c ← from_json v;
  Done (c, config).

(** [file] is [None] when the file does not exist, and [Some None] when it is no
    JSON document. A section is read just before its component starts. *)
Definition main_json {F} `{Family F} (e : system_env) (file : option (option J))
  : outcome (option (MetricsManager F) * RtspService RtpProducer * nat) :=
  text ← of_option LogFatal file;
  config ← of_option (Throw "parse_error") text;
  '(o, config) ← config_section Options_from_json "metrics_manager" config;
  let metrics := metrics_init o None in
  '(nc, config) ← config_section NetworkConfig_from_json "network_server" config;
  net ← initUdpServer (env_udp e) (hw e) nc newNetworkServer;
  '(pc, config) ← config_section ProducerConfig_from_json "rtp_producer" config;
  p ← Init (env_producer e) (hw e) pc net (newRtpProducer pc newNetworkServer);
  '(sc, config) ← config_section ServiceConfig_from_json "rtsp_service" config;
  '(st, loops) ← service_init (env_service e) (hw e) sc p;
  Done (metrics, st, loops).

(** What the document says: the four sections, each with all its keys. *)
Definition read_section {A} (from_json : J → outcome A) (key : string) (config : J)
  : option A :=
  v ← json_at key config;
  match from_json v with Done c => Some c | Fault _ => None end.

Definition read_config (config : J) : option system_config :=
  o ← read_section Options_from_json "metrics_manager" config;
  nc ← read_section NetworkConfig_from_json "network_server" config;
  pc ← read_section ProducerConfig_from_json "rtp_producer" config;
  sc ← read_section ServiceConfig_from_json "rtsp_service" config;
  Some (mkSystemConfig o nc pc sc).

(** A document with the sections of [c]. *)
Definition write_config (c : system_config) : outcome J :=
  o ← Options_to_json (metrics_options c);
  nc ← NetworkConfig_to_json (network_config c);
  pc ← ProducerConfig_to_json (producer_config c);
  sc ← ServiceConfig_to_json (service_config c);
  set_fields [("metrics_manager", o); ("network_server", nc); ("rtp_producer", pc);
              ("rtsp_service", sc)] json_null.

(** * Lemmas *)

Context `{!JsonLaws J}.

(** A conversion that reads a key throws on null. *)
Definition strict {A} (from_json : J → outcome A) : Prop :=
  ∃ f, from_json json_null = Fault f.

Lemma config_section_done {A} (from_json : J → outcome A) key config c config' :
  strict from_json →
  config_section from_json key config = Done (c, config') →
  read_section from_json key config = Some c ∧ config' = config.
Proof.
  intros [f Hf]. unfold config_section, read_section.
  destruct (json_at key config) as [v|] eqn:Ea; simpl.
  - rewrite (index_at _ _ _ Ea). orun. destruct (from_json v); orun; [|done].
    by intros [= -> ->].
  - destruct (json_index key config) as [[v j']|] eqn:Ei; orun; [|done].
    rewrite (index_missing _ _ _ _ Ea Ei), Hf. done.
Qed.

Lemma read_section_done {A} (from_json : J → outcome A) key config c :
  read_section from_json key config = Some c →
  config_section from_json key config = Done (c, config).
Proof.
  unfold config_section, read_section.
  destruct (json_at key config) as [v|] eqn:Ea; simpl; [|done].
  rewrite (index_at _ _ _ Ea). orun. destruct (from_json v); [|done]. by intros [= ->].
Qed.

Lemma get_field_null {A} (get : J → option A) key :
  get_field get key json_null = Fault (Throw "out_of_range").
Proof. unfold get_field. by rewrite at_null. Qed.

Lemma strict_sections :
  strict Options_from_json ∧ strict NetworkConfig_from_json ∧
  strict ProducerConfig_from_json ∧ strict ServiceConfig_from_json.
Proof.
  unfold strict, Options_from_json, NetworkConfig_from_json, ProducerConfig_from_json,
    ServiceConfig_from_json. rewrite !get_field_null. split_and!; by eexists.
Qed.

(** The fields that were set are there, and the others as before. *)
Lemma set_fields_at fs j :
  NoDup fs.*1 → (j = json_null ∨ ∃ k w, json_at k j = Some w) →
  ∃ j', set_fields fs j = Done j' ∧
    Forall (fun kv => json_at kv.1 j' = Some kv.2) fs ∧
    (∀ k, k ∉ fs.*1 → json_at k j' = json_at k j).
Proof.
  revert j. induction fs as [|[key v] fs IH]; intros j Hnd Hj; simpl in *.
  { exists j. by split_and!. }
  apply list.NoDup_cons in Hnd as [Hk Hnd].
  assert (is_Some (json_set key v j)) as [j1 Hj1].
  { destruct Hj as [->|(k & w & Hw)]; [apply set_null|by eapply set_object]. }
  rewrite Hj1. orun. pose proof (at_set _ _ _ _ Hj1) as Hat.
  destruct (IH j1 Hnd) as (j' & E & Hin & Hout); [by eauto|].
  exists j'. split_and!; [done| |].
  - constructor; [simpl; by rewrite Hout|done].
  - intros k Hnot. apply not_elem_of_cons in Hnot as [Hne Hnot].
    rewrite Hout by done. by apply (at_set_other key k v).
Qed.

Lemma get_field_at {A} (get : J → option A) key j v a :
  json_at key j = Some v → get v = Some a → get_field get key j = Done a.
Proof. intros Ha Hg. unfold get_field. rewrite Ha. orun. by rewrite Hg. Qed.
End config.

(** The integers of a configuration are C++ [int]s. *)
Definition ints_ok (c : system_config) : Prop :=
  Forall (fun n => in_int32 n = true)
    [exposer_port (metrics_options c); port (network_config c);
     event_loop_num (network_config c); async_worker_num (network_config c);
     file_event_thread_num (producer_config c); rtp_jitter_in_ms (producer_config c);
     max_bandwidth_in_mb (producer_config c); rpc_timeout_in_ms (producer_config c);
     rtsp_port (service_config c); event_thread_num (service_config c)].

Section roundtrip.
Context {J : Type} `{Json J, !JsonLaws J}.

(** A key that was written is read back. *)
Lemma int_back n key j :
  json_at key j = Some (json_of_int n) → in_int32 n = true →
  get_field get_int key j = Done n.
Proof. intros Ha Hn. eapply get_field_at; [done|]. by apply get_int_of. Qed.

Lemma string_back s key j :
  json_at key j = Some (json_of_string s) → get_field get_string key j = Done s.
Proof. intros Ha. eapply get_field_at; [done|]. apply get_string_of. Qed.

(** Write the fields, then read every one of them. *)
#[local] Ltac write_then_read :=
  match goal with
  | |- ∃ _, set_fields ?fs json_null = _ ∧ _ =>
      destruct (set_fields_at fs json_null) as (j & E & Hat & _);
        [apply (bool_decide_unpack _); vm_compute; exact I|by left|];
      exists j; split; [exact E|];
      rewrite !list.Forall_cons in Hat; cbn [fst snd] in Hat; destruct_and! Hat
  end.
#[local] Ltac read_back :=
  repeat (first [erewrite int_back by eassumption | erewrite string_back by eassumption];
          orun).

Lemma Options_roundtrip c :
  in_int32 (exposer_port c) = true →
  ∃ j, Options_to_json c = Done j ∧ Options_from_json j = Done c.
Proof.
  intros H1. unfold Options_to_json. write_then_read. unfold Options_from_json.
  read_back. by destruct c.
Qed.
Lemma NetworkConfig_roundtrip c :
  in_int32 (port c) = true → in_int32 (event_loop_num c) = true →
  in_int32 (async_worker_num c) = true →
  ∃ j, NetworkConfig_to_json c = Done j ∧ NetworkConfig_from_json j = Done c.
Proof.
  intros. unfold NetworkConfig_to_json. write_then_read.
  unfold NetworkConfig_from_json. read_back. by destruct c.
Qed.

Lemma ProducerConfig_roundtrip c :
  in_int32 (file_event_thread_num c) = true → in_int32 (rtp_jitter_in_ms c) = true →
  in_int32 (max_bandwidth_in_mb c) = true → in_int32 (rpc_timeout_in_ms c) = true →
  ∃ j, ProducerConfig_to_json c = Done j ∧ ProducerConfig_from_json j = Done c.
Proof.
  intros. unfold ProducerConfig_to_json. write_then_read.
  unfold ProducerConfig_from_json. read_back. by destruct c.
Qed.

Lemma ServiceConfig_roundtrip c :
  in_int32 (rtsp_port c) = true → in_int32 (event_thread_num c) = true →
  ∃ j, ServiceConfig_to_json c = Done j ∧ ServiceConfig_from_json j = Done c.
Proof.
  intros. unfold ServiceConfig_to_json. write_then_read.
  unfold ServiceConfig_from_json. read_back. by destruct c.
Qed.

Lemma read_section_at {A} (from_json : J → outcome A) key config v c :
  json_at key config = Some v → from_json v = Done c →
  read_section from_json key config = Some c.
Proof. intros Ha Hf. unfold read_section. rewrite Ha. simpl. by rewrite Hf. Qed.

Lemma read_written c :
  ints_ok c → ∃ j, write_config c = Done j ∧ read_config j = Some c.
Proof.
  unfold ints_ok. rewrite !list.Forall_cons. intros Hi. destruct_and! Hi.
  destruct (Options_roundtrip (metrics_options c)) as (o & Eo & Ro); [done|].
  destruct (NetworkConfig_roundtrip (network_config c)) as (n & En & Rn); [done..|].
  destruct (ProducerConfig_roundtrip (producer_config c)) as (p & Ep & Rp); [done..|].
  destruct (ServiceConfig_roundtrip (service_config c)) as (s & Es & Rs); [done..|].
  unfold write_config. rewrite Eo. orun. rewrite En. orun. rewrite Ep. orun.
  rewrite Es. orun. write_then_read. unfold read_config.
  do 4 (erewrite read_section_at by eassumption; simpl). by destruct c.
Qed.

Lemma main_json_reads `{Family F} e config cfg :
  read_config config = Some cfg →
  main_json (F := F) e (Some (Some config)) = main_init e (Some cfg).
Proof.
  unfold main_json, main_init, read_config. orun. intros Hc.
  destruct (read_section Options_from_json _ _) as [o|] eqn:E1; [|done]. simpl in Hc.
  destruct (read_section NetworkConfig_from_json _ _) as [n|] eqn:E2; [|done]. simpl in Hc.
  destruct (read_section ProducerConfig_from_json _ _) as [p|] eqn:E3; [|done]. simpl in Hc.
  destruct (read_section ServiceConfig_from_json _ _) as [s|] eqn:E4; [|done].
  injection Hc as <-. simpl.
  rewrite (read_section_done _ _ _ _ E1). orun. rewrite (read_section_done _ _ _ _ E2). orun.
  destruct (initUdpServer _ _ _ _) as [net|]; orun; [|done].
  rewrite (read_section_done _ _ _ _ E3). orun.
  destruct (Init _ _ _ _ _) as [q|]; orun; [|done].
  by rewrite (read_section_done _ _ _ _ E4).
Qed.

Lemma main_json_needs `{Family F} e config r :
  main_json (F := F) e (Some (Some config)) = Done r → is_Some (read_config config).
Proof.
  destruct strict_sections as (S1 & S2 & S3 & S4). unfold main_json, read_config. orun.
  destruct (config_section Options_from_json _ _) as [[o c1]|] eqn:E1; orun; [|done].
  apply config_section_done in E1 as [-> ->]; [|done].
  destruct (config_section NetworkConfig_from_json _ _) as [[n c2]|] eqn:E2; orun; [|done].
  apply config_section_done in E2 as [-> ->]; [|done].
  destruct (initUdpServer _ _ _ _) as [net|]; orun; [|done].
  destruct (config_section ProducerConfig_from_json _ _) as [[p c3]|] eqn:E3; orun; [|done].
  apply config_section_done in E3 as [-> ->]; [|done].
  destruct (Init _ _ _ _ _) as [q|]; orun; [|done].
  destruct (config_section ServiceConfig_from_json _ _) as [[s c4]|] eqn:E4; orun; [|done].
  apply config_section_done in E4 as [-> _]; [|done]. intros _. by eexists.
Qed.

(** C23: what [main] makes of its configuration file. Without the file it dies, and
    a file that is no JSON document ends it with an exception. Otherwise, a
    document that has the four sections with all keys of the right types starts
    the components exactly as [main_init] does on the configuration it describes,
    whatever other keys it has; a document in which one is missing or of another
    type starts nothing, although the components whose sections come first have
    been initialised by then. *)
Theorem main_config_outcome `{Family F} (e : system_env) :
  main_json (J := J) (F := F) e None = Fault LogFatal ∧
  main_json (J := J) (F := F) e (Some None) = Fault (Throw "parse_error") ∧
  ∀ config : J,
    match read_config config with
    | Some cfg => main_json (F := F) e (Some (Some config)) = main_init e (Some cfg)
    | None => ∃ f, main_json (F := F) e (Some (Some config)) = Fault f
    end.
Proof.
  split; [done|]. split; [done|]. intros config.
  destruct (read_config config) as [cfg|] eqn:E; [by apply main_json_reads|].
  destruct (main_json (F := F) e (Some (Some config))) as [r|f] eqn:Em; [|by exists f].
  apply main_json_needs in Em as [cfg Hc]. congruence.
Qed.

(** Configurations survive the file. Every configuration whose integers are
    [int]s can be written, section by section, as a JSON document; the document
    reads back as the configuration, and [main] started on it behaves as it does
    on the configuration itself. *)
Theorem config_file_roundtrip `{Family F} (e : system_env) (c : system_config)
    (Hc : ints_ok c) :
  ∃ config : J, write_config c = Done config ∧ read_config config = Some c ∧
    main_json (F := F) e (Some (Some config)) = main_init e (Some c).
Proof.
  destruct (read_written c Hc) as (config & Hw & Hr). exists config.
  split; [done|]. split; [done|]. by apply main_json_reads.
Qed.
End roundtrip.

(** * A JSON library to run on *)

Module TableJson.
(** The values a configuration needs. *)
Inductive json : Type :=
| JNull
| JInt (n : Z)
| JString (s : string)
| JObject (fs : fields)
with fields : Type :=
| FNil
| FCons (k : string) (v : json) (fs : fields).

Fixpoint find (k : string) (fs : fields) : option json :=
  match fs with
  | FNil => None
  | FCons k' v fs' => if bool_decide (k = k') then Some v else find k fs'
  end.

Definition object (fs : list (string * json)) : json :=
  JObject (foldr (fun kv => FCons kv.1 kv.2) FNil fs).

Definition at_key (k : string) (j : json) : option json :=
  match j with JObject fs => find k fs | _ => None end.

Definition set_key (k : string) (v j : json) : option json :=
  match j with
  | JNull => Some (JObject (FCons k v FNil))
  | JObject fs => Some (JObject (FCons k v fs))
  | _ => None
  end.

Definition index (k : string) (j : json) : option (json * json) :=
  match at_key k j with
  | Some v => Some (v, j)
  | None => j ← set_key k JNull j; Some (JNull, j)
  end.

#[export] Instance table_json : Json json := {
  json_null := JNull;
  json_of_int := JInt;
  json_of_string := JString;
  json_index := index;
  json_set := set_key;
  json_at := at_key;
  get_int j := match j with JInt n => Some (wrap32 n) | _ => None end;
  get_string j := match j with JString s => Some s | _ => None end;
}.

#[export] Instance table_json_laws : JsonLaws json.
Proof.
  split; simpl.
  - done.
  - intros k j v Ha. unfold index. by rewrite Ha.
  - intros k j v j'. unfold index. intros ->. by destruct j; intros [= <- _].
  - intros k v. by eexists.
  - intros k k' v w [] Hj; done.
  - intros k v [] j' [= <-]; simpl; by rewrite bool_decide_eq_true_2.
  - intros k k' v [] j' [= <-] Hk; simpl; by rewrite bool_decide_eq_false_2.
  - intros n Hn. apply bool_decide_eq_true in Hn. unfold wrap32.
    rewrite Z.mod_small by lia. f_equal. lia.
  - done.
Qed.

(** deploy/config.json *)
Definition deployed : json :=
  object
    [("metrics_manager", object [("exposer_port", JInt 8844);
        ("family_prefix", JString "ffvms"); ("endpoint_uri", JString EmptyString)]);
     ("network_server", object [("event_loop_num", JInt (-1));
        ("async_worker_num", JInt 0); ("port", JInt 8086)]);
     ("rtp_producer", object [("file_event_thread_num", JInt (-1));
        ("max_bandwidth_in_mb", JInt 4); ("network_receive_host", JString "127.0.0.1:8086");
        ("rtp_jitter_in_ms", JInt 2000); ("sipper_host", JString "127.0.0.1:8899");
        ("rpc_timeout_in_ms", JInt 0)]);
     ("rtsp_service", object [("event_thread_num", JInt (-1)); ("rtsp_port", JInt 8554);
        ("keep_alive_in_sec", JInt 0)])].

Definition deployed_config : system_config :=
  mkSystemConfig (mkOptions 8844 "ffvms" EmptyString) (mkNetworkConfig 8086 (-1) 0)
    (mkProducerConfig (-1) "127.0.0.1:8086" "127.0.0.1:8899" 2000 4 0)
    (mkServiceConfig 8554 (-1)).
End TableJson.

#[local] Existing Instances TableJson.table_json TableJson.table_json_laws.

Lemma main_config_outcome_witness :
  main_json (F := gmap labels N) (H0 := TableFamily.table_family) demo_system_env
    (Some (Some TableJson.deployed))
  = main_init (H := TableFamily.table_family) demo_system_env
      (Some TableJson.deployed_config).
Proof.
  exact (proj2 (proj2 (@main_config_outcome _ TableJson.table_json TableJson.table_json_laws _
    TableFamily.table_family demo_system_env)) TableJson.deployed).
Defined.

Lemma config_file_roundtrip_witness :
  ∃ config : TableJson.json,
    write_config TableJson.deployed_config = Done config ∧
    read_config config = Some TableJson.deployed_config ∧
    main_json (F := gmap labels N) (H0 := TableFamily.table_family) demo_system_env
      (Some (Some config))
    = main_init (H := TableFamily.table_family) demo_system_env
        (Some TableJson.deployed_config).
Proof.
  apply (@config_file_roundtrip _ TableJson.table_json TableJson.table_json_laws _ TableFamily.table_family).
  repeat (constructor; [vm_compute; reflexivity|]). constructor.
Defined.

(** The deployed configuration starts on every machine with 1 to 102 hardware
    threads, and [Dispatch] then never returns; the key [keep_alive_in_sec] is read
    by nothing. *)
Lemma deployed_starts `{Family F} e :
  env_works e → 1 ≤ hw e ≤ 102 →
  ∃ m p loops, main_json (F := F) e (Some (Some TableJson.deployed))
               = Done (Some m, initial p, loops) ∧ ∀ fuel, Dispatch fuel loops = None.
Proof.
  intros He Hhw. rewrite (main_json_reads e _ TableJson.deployed_config) by reflexivity.
  destruct (startup_lemma e TableJson.deployed_config He) as (m & p & Hm & _ & _ & Hd).
  - change (1 ≤ hw e ≤ 102). done.
  - change (0 ≤ hw e). lia.
  - eexists m, p, _. split; [exact Hm|]. intros fuel. rewrite Hd.
    rewrite decide_False; [done|]. change (Z.to_nat (hw e) ≠ 0%nat). lia.
Qed.
