(* ===== verification/UnitTests.v ===== *)
(** The unit tests of the repository (core/unittest, common/.../unittest), run on the
    model: the fixture of each test, its body as a composition of the modelled
    operations, and what its expectations evaluate to. The sockets, processes and
    the RPC transport that carry a test's inputs are the environment. *)

From Stdlib Require Import Ascii.
From stdpp Require Import base gmap strings list numbers pretty relations.
From S2P Require Import Prelude VideoRequest ThreadPool NetworkServer Producer RtspService RtspSessions FileProducer RtpProducer Streams Greeter AsyncClient Metrics System.

#[local] Open Scope Z_scope.

(** The characters of a string as a datagram carries them. *)
Definition bytes (s : string) : list Z :=
  (fun c => Z.of_nat (nat_of_ascii c)) <$> String.list_ascii_of_string s.

(** * core/unittest/network_server_ut.cpp *)

Module NetworkServerTest.
Section test.
Context {F : Type} `{Family F}.
Variable std_hash : string → Z.

(** One event loop, one worker; the metrics are not initialised. *)
Definition network_SetUp (env : udp_env) (hw : Z) : outcome (NetworkServer unit) :=
  initUdpServer env hw (mkNetworkConfig 8086 1 1) newNetworkServer.

(** Every task that is queued at a worker, run. *)
Definition drain (s : NetworkServer unit) : list (net_event unit) :=
  concat ((fun p => concat ((fun t => run_task t s) <$> mTasks p))
            <$> mpUdpWorkerThreads s).

Definition received (evs : list (net_event unit)) : bool :=
  existsb (fun e => match e with Process _ _ => true | _ => false end) evs.

(** [REGISTER]: a peer is registered, whose constructor adds a counter to the
    metrics [sp], a datagram comes from port 12345, and after a second the worker
    has run. The result is [succReceive]. *)
Definition REGISTER (sp : option (MetricsManager F)) (s : NetworkServer unit)
  : outcome bool :=
  _ ← peer_counter "127.0.0.1:12345" sp;
  let s := registerPeer "127.0.0.1:12345" tt s in
  '(s, _, evs) ← on_readable std_hash EV_READ
    [(mkSockaddr (127, 0, 0, 1) 14640, bytes "hello wahaha" ++ [10])] s;
  Done (received (evs ++ drain s)).
End test.
End NetworkServerTest.

(** * core/unittest/rtsp_service_ut.cpp *)

Module RtspServiceTest.
(** [pMockRtpProducer] is a null pointer: both operations dereference it. *)
Definition null_producer : VideoProducer unit := {|
  producer_ok _ := True;
  bound _ := ∅;
  RegisterVideo _ _ _ := Fault NullDeref;
  UnregisterVideo _ _ := Fault NullDeref;
|}.
#[local] Existing Instance null_producer.

Definition media : string := "rtsp://example.com/media.mp4?repeated=true".

(** [RTSP_PARSER_OPTIONS]: a connection sends OPTIONS. *)
Definition RTSP_PARSER_OPTIONS : outcome (RtspService unit * list rtsp_event) :=
  '(st, _) ← exec (fun _ st => Done st) (EAccept 1 7 70) (initial tt);
  exec (fun _ st => Done st) (EOptions 7 media 3) st.
End RtspServiceTest.

(** * common/thread_pool/unittest/thread_pool_ut.cpp *)

Module ThreadPoolTest.
(** [SUBMIT_TASK]: tasks [0 .. n-1] are submitted in this order. *)
Fixpoint submit_all (tasks : list nat) (p : pool nat) : outcome (pool nat) :=
  match tasks with
  | [] => Done p
  | t :: ts => p ← submit t p; submit_all ts p
  end.

Definition SUBMIT_TASK (capacity : nat) : outcome (pool nat) :=
  submit_all (seq 0 capacity) (newPool capacity).
End ThreadPoolTest.

(** * common/grpc/unittest/async_client_ut.cpp *)

Module AsyncClientTest.
(** The service: [fmt::format("{} {}", FLAGS_prefix, request->name())]. *)
Definition SayHello (prefix name : string) : string := prefix +:+ " " +:+ name.

(** The callback of the call: what the promise is set to. [status] 0 is OK. *)
Definition on_hello (response : string) (st : status) : string :=
  match st with
  | StatusOf 0 => response
  | _ => EmptyString
  end.

(** The fixture: when the server was [started], a client with one thread; otherwise
    [ASSERT_TRUE] ends the test. [u] is what the client's cursor holds. *)
Definition client_SetUp (u : Z) (started : bool) : option (AsyncClient unit) :=
  if started then Some (newAsyncClient u 1) else None.

(** [ASYNC_HELLO_GREET]: the client makes one call, which gRPC completes with [ok]
    and [st]; the values the promise was set to. *)
Definition ASYNC_HELLO_GREET (now : Z) (prefix name : string) (ok : bool) (st : status)
    (c : AsyncClient unit) : outcome (option (list string)) :=
  c ← Call now tt 0 c;
  Done (c ← complete 0 0 ok st c;
        Some ((fun r => on_hello (SayHello prefix name) r.2) <$> processed c)).
End AsyncClientTest.

(** * common/metrics/prometheus/unittest/metrics_manager_ut.cpp *)

Module MetricsManagerTest.
Section test.
Context {F : Type} `{Family F}.

Definition metrics_SetUp (sp : option (MetricsManager F)) : option (MetricsManager F) :=
  metrics_init (mkOptions 23456 "mm_test" EmptyString) sp.

(** [METRICS_COMMON]: a counter and a summary, for which one label map is reused,
    then the latencies of [scopes], which start at [now]; what prometheus-cpp does
    with an increment or an observation is not seen here. *)
Definition METRICS_COMMON (now : Z) (scopes : list Z) (sp : option (MetricsManager F))
  : outcome (N * N * list Z * MetricsManager F) :=
  let ls := <["wahaha" := "yixixi"]> ∅ in
  m ← GetInstance sp;
  let '(c, ls, m) := AddCounter "mm_test_counter" ls m in
  m ← GetInstance (Some m);
  let '(s, ls, m) := AddSummary "mm_test_latency" ls m in
  Done (c, s, measure_scopes now scopes, m).
End test.
End MetricsManagerTest.

(** * core/unittest/rtp_producer_ut.cpp *)

Module RtpProducerTest.
Section test.
Context {F : Type} `{Family F}.
Variable mem : indeterminate.

(** The fixture: the service, the UDP server and the producer. It sets no
    [rpc_timeout_in_ms], which holds [u]. *)
Definition producer_SetUp (udp : udp_env) (e : init_env) (hw u : Z)
  : outcome (VideoGreeterServiceImpl * RtpProducer) :=
  let g := newGreeter 12300 ∅ in
  net ← initUdpServer udp hw (mkNetworkConfig 18086 1 1) newNetworkServer;
  let config := mkProducerConfig 1 ("127.0.0.1:" +:+ pretty 18086)
                  ("127.0.0.1:" +:+ pretty 8899) 200 4 u in
  p ← Init e hw config net (newRtpProducer config newNetworkServer);
  Done (g, p).

Definition test_camera : VideoRequest := mkVideoRequest false EmptyString false true "237246" UDP.

Definition got_sdp (evs : list prod_event) : bool :=
  existsb (fun e => match e with PSdp _ _ => true | _ => false end) evs.
Definition got_error (evs : list prod_event) : bool :=
  existsb (fun e => match e with PError _ => true | _ => false end) evs.

(** [TEST_GB] up to the first three expectations: the camera is registered, which
    makes its counters, the service answers the invitation, and the callback
    registers the peer, which makes its counter. The proxy is 0. *)
Definition invite_gb (sp : option (MetricsManager F)) (g : VideoGreeterServiceImpl)
    (p : RtpProducer)
  : outcome (bool * bool * VideoGreeterServiceImpl * RtpProducer * MetricsManager F) :=
  '(_, _, _, m) ← stream_counters "237246" sp;
  let ctx := next_context p in
  '(p, evs1) ← register_video mem test_camera 0 p;
  let peer := "127.0.0.1:" +:+ pretty (portToUse g) in
  let '(response, g) := greeter_InviteVideo g in
  '(p, evs2) ← on_invite (mkRtpEnv true true) ctx true response p;
  '(_, m) ← peer_counter peer (Some m);
  Done (got_sdp (evs1 ++ evs2), got_error (evs1 ++ evs2), g, p, m).

(** The rest: after [UnregisterVideo] datagrams still arrive for a second. The
    result says whether one of them reaches the demuxer. *)
Definition unregister_gb (ctx : N) (late : list (list Z)) (p : RtpProducer)
  : outcome bool :=
  '(p, _) ← unregister_video test_camera p;
  Done (existsb (fun d => negb (bool_decide (on_peer_data ctx d p = []))) late).
End test.
End RtpProducerTest.

(** * What the tests show *)

Lemma alloc_slot_threads {F} (s s' : NetworkServer F) sl :
  alloc_slot s = Done (sl, s') → mpUdpWorkerThreads s' = mpUdpWorkerThreads s.
Proof.
  unfold alloc_slot. destruct (mBufferSize s); orun; [|done].
  destruct (ck32 _); orun; [|done]. destruct (mpReceiveBuffers s !! _); orun; [|done].
  destruct (ck32 _); orun; [|done]. by intros [= _ <-].
Qed.

Lemma recvfrom_threads {F} sl payload (s s' : NetworkServer F) n :
  recvfrom sl payload s = Done (n, s') → mpUdpWorkerThreads s' = mpUdpWorkerThreads s.
Proof.
  unfold recvfrom. destruct (mpReceiveBuffers s !! _); orun; [|done].
  destruct (bool_decide _); orun; [|done]. by intros [= _ <-].
Qed.

(** With one worker the hash of the names does not matter. *)
Lemma one_worker {F} h1 h2 which d (s : NetworkServer F) p :
  mpUdpWorkerThreads s = [p] → on_readable h1 which [d] s = on_readable h2 which [d] s.
Proof.
  intros Hs. unfold on_readable. destruct (event_ignored which); [done|]. destruct d as [addr pl].
  cbn [receive_loop]. destruct (alloc_slot s) as [[sl s1]|] eqn:E1; orun; [|done].
  apply alloc_slot_threads in E1.
  destruct (recvfrom sl pl s1) as [[n s2]|] eqn:E2; orun; [|done].
  apply recvfrom_threads in E2. rewrite E2, E1, Hs. unfold worker_index. simpl.
  by rewrite !Z.mod_1_r.
Qed.

(** The test of the UDP server. When the socket can be set up, the fixture
    brings the server up and the datagram of the test reaches the function that was
    registered for its sender, whatever the hash of the names, so [succReceive] is
    true - provided the metrics exist. The test does not initialise them: there the
    counter of the peer is added through a null pointer. *)
Theorem register_test_outcome `{Family F} (std_hash : string → Z) (env : udp_env) (hw : Z)
    (Henv : UdpEventLoop_Init env = Done tt) :
  ∃ s, NetworkServerTest.network_SetUp env hw = Done s ∧
    (∀ m : MetricsManager F, NetworkServerTest.REGISTER std_hash (Some m) s = Done true) ∧
    NetworkServerTest.REGISTER (F := F) std_hash None s = Fault NullDeref.
Proof.
  unfold NetworkServerTest.network_SetUp, initUdpServer. rewrite start_loops_ok by done. orun.
  eexists. split; [reflexivity|]. split; [|done]. intros m.
  unfold NetworkServerTest.REGISTER, peer_counter, GetInstance. orun.
  destruct (AddCounter _ _ m) as [[c ls] m']. orun.
  rewrite (one_worker std_hash demo_hash _ _ _ (newPool 1)) by reflexivity.
  vm_compute. reflexivity.
Qed.

Lemma register_test_outcome_witness :
  ∃ s, NetworkServerTest.network_SetUp demo_env 4 = Done s ∧
    (∀ m : MetricsManager (gmap labels N),
       @NetworkServerTest.REGISTER _ TableFamily.table_family demo_hash (Some m) s
       = Done true) ∧
    @NetworkServerTest.REGISTER _ TableFamily.table_family demo_hash None s
    = Fault NullDeref.
Proof.
  apply (@register_test_outcome _ TableFamily.table_family demo_hash demo_env 4 eq_refl).
Defined.

#[local] Existing Instance RtspServiceTest.null_producer.

(** The test of the RTSP service: OPTIONS of a URL that names neither a file nor a
    camera is answered with 200 and its video gets a proxy. The DESCRIBE that the
    test has commented out would dereference the producer that is not there. *)
Theorem options_test_outcome :
  ∃ st, RtspServiceTest.RTSP_PARSER_OPTIONS = Done (st, [ReplyOptions 70 200]) ∧
    dom (mVideoRequest2ProxyInfo st) = {[cmpStr VideoRequest_default]} ∧
    exec (fun _ st => Done st) (EDescribe 7 RtspServiceTest.media) st = Fault NullDeref.
Proof.
  eexists. split; [vm_compute; reflexivity|]. split; vm_compute; reflexivity.
Qed.

(** The test of the RPC client: whatever the cursor holds, the call goes to the one
    queue there is, and the promise is set exactly once, to the greeting if and only
    if the call succeeded. *)
Theorem hello_test_outcome (u now : Z) (prefix name : string) (started ok : bool)
    (st : status) :
  AsyncClientTest.ASYNC_HELLO_GREET now prefix name ok st
    <$> AsyncClientTest.client_SetUp u started
  = if started then
      Some (Done (Some [if ok && bool_decide (st = StatusOf 0)
                        then AsyncClientTest.SayHello prefix name else EmptyString]))
    else None.
Proof.
  destruct started; [|done]. simpl. f_equal.
  unfold AsyncClientTest.ASYNC_HELLO_GREET, Call, queue_index. simpl.
  change (u64 1) with 1. simpl. rewrite Z.mod_1_r. simpl.
  destruct ok; simpl; [|done]. by destruct st as [|[|z|z]].
Qed.

(** The test of the metrics: after the fixture the test runs to its end, with one
    observation for each of its scopes, none of them negative when the clock does
    not go back; without the fixture it would dereference a null pointer. *)
Theorem metrics_test_outcome `{Family F} (now : Z) (scopes : list Z)
    (Hs : Forall (fun d => 0 ≤ d) scopes) :
  (∃ c s obs m, MetricsManagerTest.METRICS_COMMON (F := F) now scopes
                  (MetricsManagerTest.metrics_SetUp None) = Done (c, s, obs, m) ∧
     length obs = length scopes ∧ Forall (fun o => 0 ≤ o) obs) ∧
  MetricsManagerTest.METRICS_COMMON (F := F) now scopes None = Fault NullDeref.
Proof.
  split; [|done]. unfold MetricsManagerTest.METRICS_COMMON. simpl.
  destruct (AddCounter _ _ _) as [[c ls] m]. simpl.
  destruct (AddSummary _ _ _) as [[s' ls'] m']. eexists _, _, _, _. split; [done|].
  clear -Hs. revert now. induction Hs as [|d ds Hd _ IH]; intros now; simpl; [by split|].
  destruct (IH (now + d)) as [IH1 IH2]. split; [by rewrite IH1|].
  constructor; [|done]. unfold observe_latency. simpl. apply Z.quot_pos; lia.
Qed.

Lemma submit_all_spec ts p :
  mStop p = false →
  ThreadPoolTest.submit_all ts p
  = Done (mkPool (mWorks p) (mTasks p ++ ts) false (notifies p + length ts)%nat (phase p)
            (submitted p ++ ts) (started p) (finished p)).
Proof.
  revert p. induction ts as [|t ts IH]; intros p Hp; simpl.
  - rewrite !app_nil_r, Nat.add_0_r. destruct p; simpl in *. by subst.
  - unfold submit. rewrite Hp. orun. rewrite IH by done. simpl.
    rewrite <- !app_assoc. do 2 f_equal. lia.
Qed.

(** Workers at the wait predicate of a stopped pool exit one after the other. *)
Lemma workers_exit n k (q : pool nat) :
  mStop q = true → mWorks q = replicate k Exited ++ replicate n Ready →
  rtc shutdown q (mkPool (replicate (k + n) Exited) (mTasks q) true (notifies q) (phase q)
                    (submitted q) (started q) (finished q)).
Proof.
  revert k q. induction n as [|n IH]; intros k q Hs Hw.
  - rewrite Nat.add_0_r. simpl in Hw. rewrite app_nil_r in Hw.
    destruct q; simpl in *. subst. apply rtc_refl.
  - eapply rtc_l.
    { apply shutdown_internal, (internal_worker k). unfold worker_step. rewrite Hw.
      rewrite lookup_app_r, length_replicate, Nat.sub_diag by (rewrite length_replicate; lia).
      simpl. rewrite Hs. reflexivity. }
    replace (k + S n)%nat with (S k + n)%nat by lia.
    apply (IH (S k) (set_worker k Exited q)); [done|]. simpl.
    rewrite Hw, insert_app_r_alt by (rewrite length_replicate; lia).
    rewrite length_replicate, Nat.sub_diag. simpl.
    rewrite cons_middle, app_assoc, <- replicate_cons_app. done.
Qed.

(** The test of the thread pool: the tasks are queued in the order of the loop. The
    fixture then destroys the pool, and nothing waits for the tasks: the test can
    end, all workers joined, with no task having run. *)
Theorem submit_test_outcome (capacity : nat) :
  ∃ p, ThreadPoolTest.SUBMIT_TASK capacity = Done p ∧ mTasks p = seq 0 capacity ∧
    ∃ q r, dtor_set_stop p = Some q ∧ rtc shutdown q r ∧
      dtor_joins r = true ∧ started r = [] ∧ mTasks r = seq 0 capacity.
Proof.
  unfold ThreadPoolTest.SUBMIT_TASK. rewrite submit_all_spec by done.
  eexists. split; [done|]. split; [done|]. eexists. eexists. split; [done|].
  split; [|split; [|split]].
  - eapply rtc_r; [apply (workers_exit capacity 0); done|].
    apply shutdown_notify_all. reflexivity.
  - simpl. rewrite fmap_replicate. simpl. induction capacity; simpl; done.
  - done.
  - done.
Qed.

(** The test of the producer against its greeter. When the system calls of the
    fixture succeed, and whatever the uninitialised timeout and memory hold, the
    camera's SDP arrives and no error is reported; after [UnregisterVideo] no
    datagram that still arrives from the camera is demuxed, so no packet follows -
    provided the metrics exist. The test does not initialise them: there the
    registration adds the counters of the stream through a null pointer. *)
Theorem gb_test_outcome `{Family F} (mem : indeterminate) (udp : udp_env) (e : init_env)
    (hw u : Z)
    (Hudp : UdpEventLoop_Init udp = Done tt)
    (He : use_pthreads e = 0 ∧ base_created e = true ∧ keepalive_created e = true ∧
          0 ≤ keepalive_added e) :
  ∃ g p, RtpProducerTest.producer_SetUp udp e hw u = Done (g, p) ∧
    (∀ m : MetricsManager F, ∃ g' p' m',
       RtpProducerTest.invite_gb mem (Some m) g p = Done (true, false, g', p', m') ∧
       (∀ data, on_peer_data 0 data p' = [PDemux 0 data]) ∧
       ∀ late, RtpProducerTest.unregister_gb 0 late p' = Done false) ∧
    RtpProducerTest.invite_gb (F := F) mem None g p = Fault NullDeref.
Proof.
  destruct He as (H1 & H2 & H3 & H4). unfold RtpProducerTest.producer_SetUp, initUdpServer.
  rewrite start_loops_ok by done. orun. unfold Init. rewrite H1. orun. simpl.
  unfold start_file_loop. rewrite H2, H3, (proj2 (Z.leb_le _ _)) by done. orun.
  eexists _, _. split; [reflexivity|]. split; [|done]. intros m.
  unfold RtpProducerTest.invite_gb, stream_counters, GetInstance. orun.
  destruct (AddCounter _ _ m) as [[c1 l1] m1]. destruct (AddCounter _ _ m1) as [[c2 l2] m2].
  destruct (AddCounter _ _ m2) as [[c3 l3] m3]. orun.
  unfold peer_counter, GetInstance. orun. simpl.
  destruct (AddCounter _ _ m3) as [[c4 l4] m4]. orun.
  eexists _, _, _. split; [reflexivity|]. split; [done|]. intros late.
  unfold RtpProducerTest.unregister_gb. simpl. f_equal.
  induction late as [|d late IH]; simpl; [done|]. exact IH.
Qed.

Lemma gb_test_outcome_witness :
  ∃ g p, RtpProducerTest.producer_SetUp demo_env (mkInitEnv 0 true true 0) 4 (-7) = Done (g, p) ∧
    (∀ m : MetricsManager (gmap labels N), ∃ g' p' m',
       @RtpProducerTest.invite_gb _ TableFamily.table_family zero_memory (Some m) g p
       = Done (true, false, g', p', m') ∧
       (∀ data, on_peer_data 0 data p' = [PDemux 0 data]) ∧
       ∀ late, RtpProducerTest.unregister_gb 0 late p' = Done false) ∧
    @RtpProducerTest.invite_gb _ TableFamily.table_family zero_memory None g p
    = Fault NullDeref.
Proof.
  apply (@gb_test_outcome _ TableFamily.table_family zero_memory demo_env
           (mkInitEnv 0 true true 0) 4 (-7) eq_refl). by split_and!.
Defined.
